(** * Vintage Story JSON exporter: a shallow embedding of
      [io_scene_vintagestory_json/export_vintagestory_json.py]

    Conventions of the embedding.
    - Python floats are modelled by the real numbers [R]: every arithmetic
      operation is exact, there is no rounding, no infinity and no NaN.
    - Python integers are modelled by [Z], list positions by [nat].
    - A [while] loop is run with a fuel counter; [None] means that the fuel
      ran out before the loop condition became false.
    - The operations of the host library ([mathutils]: matrix inversion,
      decomposition, quaternion and Euler conversions) are not part of the
      exporter; they are the fields of the class [Mathutils]. *)

From Stdlib Require Import Reals Lra Lia ZArith List Ascii String Bool Permutation.
From Stdlib Require Import DecimalString DecimalNat.
Import ListNotations.
Open Scope R_scope.

Set Warnings "-register-all".

(** ** Comparisons of floats as booleans *)

Definition Rltb (a b : R) : bool := if Rlt_dec a b then true else false.
Definition Rleb (a b : R) : bool := if Rle_dec a b then true else false.
Definition Reqb (a b : R) : bool := if Req_dec_T a b then true else false.

(** ** Vectors and 3x3 matrices (numpy arrays of floats) *)

Record vec3 : Type := Vec3 { vx : R; vy : R; vz : R }.

Definition vadd (a b : vec3) : vec3 := Vec3 (vx a + vx b) (vy a + vy b) (vz a + vz b).
Definition vsub (a b : vec3) : vec3 := Vec3 (vx a - vx b) (vy a - vy b) (vz a - vz b).
Definition vdot (a b : vec3) : R := vx a * vx b + vy a * vy b + vz a * vz b.
Definition vzero : vec3 := Vec3 0 0 0.

(** A 3x3 matrix, given by its rows. *)
Record mat3 : Type := Mat3 { row0 : vec3; row1 : vec3; row2 : vec3 }.

Definition mat_vec (m : mat3) (v : vec3) : vec3 :=
  Vec3 (vdot (row0 m) v) (vdot (row1 m) v) (vdot (row2 m) v).

Definition col0 (m : mat3) : vec3 := Vec3 (vx (row0 m)) (vx (row1 m)) (vx (row2 m)).
Definition col1 (m : mat3) : vec3 := Vec3 (vy (row0 m)) (vy (row1 m)) (vy (row2 m)).
Definition col2 (m : mat3) : vec3 := Vec3 (vz (row0 m)) (vz (row1 m)) (vz (row2 m)).

Definition mat_mul (a b : mat3) : mat3 :=
  let r rw := Vec3 (vdot rw (col0 b)) (vdot rw (col1 b)) (vdot rw (col2 b)) in
  Mat3 (r (row0 a)) (r (row1 a)) (r (row2 a)).

Definition mat_id : mat3 := Mat3 (Vec3 1 0 0) (Vec3 0 1 0) (Vec3 0 0 1).

(** Elementary rotations and [Euler((x, y, z), "XYZ").to_matrix()]: the X
    rotation is applied first, then Y, then Z. *)
Definition rot_x (a : R) : mat3 :=
  Mat3 (Vec3 1 0 0) (Vec3 0 (cos a) (- sin a)) (Vec3 0 (sin a) (cos a)).
Definition rot_y (a : R) : mat3 :=
  Mat3 (Vec3 (cos a) 0 (sin a)) (Vec3 0 1 0) (Vec3 (- sin a) 0 (cos a)).
Definition rot_z (a : R) : mat3 :=
  Mat3 (Vec3 (cos a) (- sin a) 0) (Vec3 (sin a) (cos a) 0) (Vec3 0 0 1).

Definition euler_to_matrix (e : vec3) : mat3 :=
  mat_mul (rot_z (vz e)) (mat_mul (rot_y (vy e)) (rot_x (vx e))).

(** ** Loops *)

(** [while cond: s = body(s)], with fuel. *)
Fixpoint while {S : Type} (fuel : nat) (cond : S -> bool) (body : S -> S) (s : S)
  : option S :=
  if cond s then
    match fuel with
    | O => None
    | S f => while f cond body (body s)
    end
  else Some s.

Definition obind {A B : Type} (o : option A) (k : A -> option B) : option B :=
  match o with
  | Some a => k a
  | None => None
  end.

(** ** Math utilities (lines 15-198) *)

Definition DEG_TO_RAD : R := PI / 180.
Definition RAD_TO_DEG : R := 180 / PI.

(** [sign(x)]: 1 if [x >= 0], else -1. *)
Definition sign (x : R) : Z := if Rleb 0 x then 1%Z else (-1)%Z.

(** [to_y_up(arr)]: [np.array([arr[1], arr[2], arr[0]])]. *)
Definition to_y_up (arr : vec3) : vec3 := Vec3 (vy arr) (vz arr) (vx arr).

(** One component of [clamp_rotation]: the two loops
    [while r > 360.0: r -= 360.0] and [while r < -360.0: r += 360.0]. *)
Definition clamp_component (fuel : nat) (r : R) : option R :=
  obind (while fuel (fun r => Rltb 360 r) (fun r => r - 360) r) (fun r =>
  while fuel (fun r => Rltb r (-360)) (fun r => r + 360) r).

(** [clamp_rotation(r)]; the array is updated in place and returned. *)
Definition clamp_rotation (fuel : nat) (r : vec3) : option vec3 :=
  obind (clamp_component fuel (vx r)) (fun r0 =>
  obind (clamp_component fuel (vy r)) (fun r1 =>
  obind (clamp_component fuel (vz r)) (fun r2 =>
  Some (Vec3 r0 r1 r2)))).

(** [eps = 1e-6] in [get_reduced_rotation]. *)
Definition eps : R := 1 / 1000000.

(** One of the three loops of [get_reduced_rotation]; the state is the
    residual angle and the step counter:
[[
    while abs(residual) > threshold and sign(residual) == rot_sign:
        angle = rot_sign * math.pi/2
        residual -= angle
        steps += rot_sign
]] *)
Definition reduce_axis (fuel : nat) (threshold : R) (rot_sign : Z) (residual : R)
  : option (R * Z) :=
  while fuel
    (fun s => Rltb threshold (Rabs (fst s)) && (sign (fst s) =? rot_sign)%Z)
    (fun s => (fst s - IZR rot_sign * PI / 2, (snd s + rot_sign)%Z))
    (residual, 0%Z).

(** The residual rotation and the three step counters of
    [get_reduced_rotation], before the 90 degree Euler rotation is built. *)
Definition reduce_steps (fuel : nat) (rotation : vec3) : option (vec3 * (Z * Z * Z)) :=
  let rot_x_sign := sign (vx rotation) in
  let rot_y_sign := sign (vy rotation) in
  let rot_z_sign := sign (vz rotation) in
  obind (reduce_axis fuel (PI / 2 - eps) rot_x_sign (vx rotation)) (fun '(rx, xsteps) =>
  obind (reduce_axis fuel (PI / 2 - eps) rot_y_sign (vy rotation)) (fun '(ry, ysteps) =>
  obind (reduce_axis fuel (PI / 4 - eps) rot_z_sign (vz rotation)) (fun '(rz, zsteps) =>
  Some (Vec3 rx ry rz, (xsteps, ysteps, zsteps))))).

(** The Euler rotation of the extracted steps, or [None]. *)
Definition steps_rotation (steps : Z * Z * Z) : option vec3 :=
  let '(xsteps, ysteps, zsteps) := steps in
  if negb (xsteps =? 0)%Z || negb (ysteps =? 0)%Z || negb (zsteps =? 0)%Z then
    Some (Vec3 (IZR xsteps * PI / 2) (IZR ysteps * PI / 2) (IZR zsteps * PI / 2))
  else None.

(** [get_reduced_rotation(rotation)]: [(residual_rotation, rotation_90deg)]. *)
Definition get_reduced_rotation (fuel : nat) (rotation : vec3)
  : option (vec3 * option vec3) :=
  obind (reduce_steps fuel rotation) (fun '(residual_rotation, steps) =>
  Some (residual_rotation, steps_rotation steps)).

(** [s[n:]] *)
Definition drop_prefix (n : nat) (s : string) : string :=
  String.substring n (String.length s - n) s.

(** ** Dictionaries

    A Python [dict] (and a Blender collection addressed by name) is an
    association list in insertion order; [dict_set] replaces the value of a
    key that is present and appends a new key. *)

Section Dict.
Context {K V : Type} (key_eqb : K -> K -> bool).

Fixpoint dict_get (d : list (K * V)) (k : K) : option V :=
  match d with
  | [] => None
  | (k', v) :: rest => if key_eqb k k' then Some v else dict_get rest k
  end.

Definition dict_mem (d : list (K * V)) (k : K) : bool :=
  match dict_get d k with Some _ => true | None => false end.

Fixpoint dict_set (d : list (K * V)) (k : K) (v : V) : list (K * V) :=
  match d with
  | [] => [(k, v)]
  | (k', v') :: rest =>
      if key_eqb k k' then (k', v) :: rest else (k', v') :: dict_set rest k v
  end.

Definition dict_keys (d : list (K * V)) : list K := map fst d.
End Dict.

(** ** Materials and colors (lines 201-259) *)

(** A color tuple [(r, g, b, a)]. *)
Definition rgba : Type := R * R * R * R.

Definition rgba_eqb (c d : rgba) : bool :=
  let '(r1, g1, b1, a1) := c in
  let '(r2, g2, b2, a2) := d in
  Reqb r1 r2 && Reqb g1 g2 && Reqb b1 b2 && Reqb a1 a2.

(** [class TextureInfo]: image source path and size. *)
Record TextureInfo : Type := { path : string; size : Z * Z }.

(** What the exporter reads of the host's material graph. *)
Record Image : Type := { filepath : string; image_size : Z * Z }.

(** [link.from_node]: an image texture node (with its [image], possibly
    [None]) or any other node. *)
Inductive ShaderNode : Type :=
| ShaderNodeTexImage (image : option Image)
| ShaderNodeOther.

Record NodeSocket : Type := { links : list ShaderNode; default_value : rgba }.

Record Node : Type := { inputs : list (string * NodeSocket) }.

(** [mat.node_tree] is [None] or holds the list [node_tree.nodes]. *)
Record Material : Type := { node_tree : option (list Node) }.

(** The value of [get_object_color]: a color tuple or a [TextureInfo]. *)
Inductive face_texture : Type :=
| Color (c : rgba)
| Texture (t : TextureInfo).

(** The loop over [node_color.links] of [get_material_color]. *)
Fixpoint linked_texture (ls : list ShaderNode) : option TextureInfo :=
  match ls with
  | [] => None
  | ShaderNodeTexImage (Some img) :: rest =>
      if negb (filepath img =? "")%string
      then Some {| path := filepath img; size := image_size img |}
      else linked_texture rest
  | _ :: rest => linked_texture rest
  end.

(** The loop over [mat.node_tree.nodes] of [get_material_color]. *)
Fixpoint nodes_color (nodes : list Node) : option face_texture :=
  match nodes with
  | [] => None
  | n :: rest =>
      match dict_get String.eqb (inputs n) "Base Color"%string with
      | Some node_color =>
          match linked_texture (links node_color) with
          | Some t => Some (Texture t)
          | None => Some (Color (default_value node_color))
          end
      | None =>
          match dict_get String.eqb (inputs n) "Color"%string with
          | Some s => Some (Color (default_value s))
          | None => nodes_color rest
          end
      end
  end.

(** [get_material_color(mat)] *)
Definition get_material_color (mat : Material) : option face_texture :=
  match node_tree mat with
  | Some nodes => nodes_color nodes
  | None => None
  end.

(** ** Scene objects *)

Definition vec2 : Type := R * R.

(** A 4x4 affine matrix: linear part and translation column. *)
Record mat4 : Type := Mat4 { m_lin : mat3; m_trans : vec3 }.

Definition mat4_mul (a b : mat4) : mat4 :=
  Mat4 (mat_mul (m_lin a) (m_lin b)) (vadd (mat_vec (m_lin a) (m_trans b)) (m_trans a)).

(** [matrix @ vector] for a 4x4 matrix and a 3-vector. *)
Definition mat4_apply (m : mat4) (v : vec3) : vec3 :=
  vadd (mat_vec (m_lin m) v) (m_trans m).

Definition to_4x4 (m : mat3) : mat4 := Mat4 m vzero.

Record MeshPolygon : Type := {
  normal : vec3;
  material_index : nat;
  loop_start : nat;
  vertices : list nat;
}.

(** [mesh.vertices] (their [co]), [mesh.polygons] and
    [mesh.uv_layers.active] ([None], or the [uv] of each loop of [data]). *)
Record Mesh : Type := {
  mesh_vertices : list vec3;
  polygons : list MeshPolygon;
  uv_layers_active : option (list vec2);
}.

Inductive ObjectData : Type :=
| MeshData (mesh : Mesh)
| OtherData.

(** A scene object; [material_slots] holds [slot.material] of every slot and
    [users_collection] the [name] of every collection (or [None]). *)
Inductive Object : Type := Build_Object {
  name : string;
  type : string;
  data : ObjectData;
  location : vec3;
  rotation_euler : vec3;
  matrix_world : mat4;
  parent_bone : string;
  material_slots : list (option Material);
  users_collection : list (option string);
  children : list Object;
}.

(** [get_object_color(obj, material_index, default_color)] *)
Definition get_object_color (obj : Object) (material_index : nat)
    (default_color : rgba) : face_texture :=
  if (material_index <? List.length (material_slots obj))%nat then
    match nth_error (material_slots obj) material_index with
    | Some (Some material) =>
        match get_material_color material with
        | Some color => color
        | None => Color default_color
        end
    | _ => Color default_color
    end
  else Color default_color.

(** The default of the parameter [default_color]. *)
Definition default_color : rgba := (0, 0, 0, 1).

(** An angle in radians, in degrees. *)
Definition degrees (rad : R) : R := rad * RAD_TO_DEG.

(** The example rotation of 120 degrees about X and about Z. *)
Definition rotation_120_0_120 : vec3 := Vec3 (2 * PI / 3) 0 (2 * PI / 3).


(** ** Errors, shared state and the result monad

    [generate_element] updates the two collections [model_colors] (a set of
    color tuples, or [None]) and [model_textures] (a dict from path to
    [TextureInfo]) that [save_objects] passes to every call; a Python
    exception ends the run. *)

Inductive error : Type :=
| OutOfFuel
| AttributeError
| IndexError
| KeyError
| TypeError.

Inductive result (A : Type) : Type :=
| Ok (a : A)
| Raise (e : error).
Arguments Ok {A} a.
Arguments Raise {A} e.

Record export_state : Type := {
  model_colors : option (list rgba);
  model_textures : list (string * TextureInfo);
}.

Definition M (A : Type) : Type := export_state -> result (A * export_state).

Definition ret {A : Type} (a : A) : M A := fun st => Ok (a, st).

Definition raise {A : Type} (e : error) : M A := fun _ => Raise e.

Definition bind {A B : Type} (c : M A) (k : A -> M B) : M B :=
  fun st =>
    match c st with
    | Ok (a, st') => k a st'
    | Raise e => Raise e
    end.

Definition rbind {A B : Type} (c : result A) (k : A -> result B) : result B :=
  match c with
  | Ok a => k a
  | Raise e => Raise e
  end.

Definition lift {A : Type} (c : result A) : M A :=
  fun st =>
    match c with
    | Ok a => Ok (a, st)
    | Raise e => Raise e
    end.

Notation "'let*' x ':=' c 'in' k" := (bind c (fun x => k))
  (at level 10, x pattern, c at level 200, k at level 200).
Notation "'let+' x ':=' c 'in' k" := (rbind c (fun x => k))
  (at level 10, x pattern, c at level 200, k at level 200).

(** [for x in l: acc = f(acc, x)] in the monad. *)
Fixpoint foldM {A B : Type} (f : B -> A -> M B) (l : list A) (acc : B) : M B :=
  match l with
  | [] => ret acc
  | x :: rest => let* acc' := f acc x in foldM f rest acc'
  end.

(** [[f(x) for x in l]] where [f] may raise. *)
Fixpoint mapR {A B : Type} (f : A -> result B) (l : list A) : result (list B) :=
  match l with
  | [] => Ok []
  | x :: rest => let+ y := f x in let+ ys := mapR f rest in Ok (y :: ys)
  end.

(** [l[i]] *)
Definition index {A : Type} (l : list A) (i : nat) : result A :=
  match nth_error l i with
  | Some a => Ok a
  | None => Raise IndexError
  end.

(** [model_colors.add(c)].  The set is kept as the list of its elements, each
    once, in the order of their first insertion.  Python enumerates a set in
    hash order: the list stands for one enumeration of the set, and the tile
    that [create_color_texture] gives to a color depends on that order. *)
Definition set_add (s : list rgba) (c : rgba) : list rgba :=
  if existsb (rgba_eqb c) s then s else s ++ [c].

Definition add_model_color (c : rgba) : M unit :=
  fun st =>
    match model_colors st with
    | Some s => Ok (tt, {| model_colors := Some (set_add s c);
                           model_textures := model_textures st |})
    | None => Ok (tt, st)
    end.

Definition set_model_texture (t : TextureInfo) : M unit :=
  fun st => Ok (tt, {| model_colors := model_colors st;
                       model_textures := dict_set String.eqb (model_textures st) (path t) t |}).

(** ** Faces and uv reconstruction (lines 19-63, 262-280, 525-692) *)

Definition DIRECTIONS : list string :=
  ["north"; "east"; "west"; "south"; "up"; "down"]%string.

Definition DIRECTION_NORMALS : list vec3 :=
  [Vec3 (-1) 0 0; Vec3 0 1 0; Vec3 0 (-1) 0; Vec3 1 0 0; Vec3 0 0 1; Vec3 0 0 (-1)].

Definition COUNTERCLOCKWISE_UV_ROTATION_LOOKUP : list (list Z) :=
  [[0; 270; 180; 90]; [90; 0; 270; 180]; [180; 90; 0; 270]; [270; 180; 90; 0]]%Z.

Definition CLOCKWISE_UV_ROTATION_LOOKUP : list (list Z) :=
  [[90; 0; 270; 180]; [0; 270; 180; 90]; [270; 180; 90; 0]; [180; 90; 0; 270]]%Z.

Definition lookup (table : list (list Z)) (i j : nat) : Z := nth j (nth i table []) 0%Z.

(** A face of an element while it is built: the dict with the keys
    "texture", "uv", "autoUv" and the optional key "rotation", or the color
    tuple that replaces it. *)
Record FaceDict : Type := {
  texture : string;
  uv : list R;
  autoUv : bool;
  rotation : option Z;
}.

Inductive FaceValue : Type :=
| FaceOf (f : FaceDict)
| FaceColor (c : rgba).

Definition placeholder_face : FaceValue :=
  FaceOf {| texture := "#0"; uv := [0; 0; 4; 4]; autoUv := false; rotation := None |}.

Definition initial_faces : list (string * FaceValue) :=
  [("north", placeholder_face); ("east", placeholder_face); ("south", placeholder_face);
   ("west", placeholder_face); ("up", placeholder_face); ("down", placeholder_face)]%string.

(** [np.argmax]: the first position of the greatest value. *)
Fixpoint argmax_from (best_i : nat) (best : R) (i : nat) (l : list R) : nat :=
  match l with
  | [] => best_i
  | x :: rest =>
      if Rltb best x then argmax_from i x (S i) rest
      else argmax_from best_i best (S i) rest
  end.

Definition argmax (l : list R) : nat :=
  match l with
  | [] => 0%nat
  | x :: rest => argmax_from 0 x 1 rest
  end.

(** [np.argmax(np.sum(face_normal_stacked * DIRECTION_NORMALS, axis=1), axis=0)] *)
Definition face_direction_index (face_normal : vec3) : nat :=
  argmax (map (fun n => vdot face_normal n) DIRECTION_NORMALS).

(** [loop_is_clockwise(coords)] *)
Definition loop_is_clockwise (coords : list vec2) : bool :=
  let num_coords := List.length coords in
  let at_ i := nth i coords (0, 0) in
  let area :=
    fold_left (fun area i =>
                 let k := if (i <? num_coords - 1)%nat then (i + 1)%nat else 0%nat in
                 area + (fst (at_ k) - fst (at_ i)) * (snd (at_ k) + snd (at_ i)))
              (seq 0 num_coords) 0 in
  Rltb 0 area.

(** The projection of a vertex on the plane of a face, chosen by the face
    normal; when no case applies the vertex is left as it is and its first
    two coordinates are read. *)
Definition project (face_normal v : vec3) : vec2 :=
  if Rltb (1 / 2) (vx face_normal) then (vy v, vz v)
  else if Rltb (vx face_normal) (- (1 / 2)) then (- vy v, vz v)
  else if Rltb (1 / 2) (vy face_normal) then (- vx v, vz v)
  else if Rltb (vy face_normal) (- (1 / 2)) then (vx v, vz v)
  else if Rltb (1 / 2) (vz face_normal) then (vy v, - vx v)
  else if Rltb (vz face_normal) (- (1 / 2)) then (vy v, vx v)
  else (vx v, vy v).

(** The starting corner 0..3 of a loop, from its first point and the bounds
    of the loop. *)
Definition loop_start_index (start_x start_y min_x max_x max_y : R) : nat :=
  if Rltb start_y max_y then
    if Rltb start_x max_x then 0%nat else 1%nat
  else
    if Rltb min_x start_x then 2%nat else 3%nat.

(** The lookup-table rotation of a face: [face_uv_rotation]. *)
Definition uv_rotation (uv_clockwise vert_clockwise : bool)
    (uv_loop_start_index vert_loop_start_index : nat) : Z :=
  if negb uv_clockwise && negb vert_clockwise then
    lookup COUNTERCLOCKWISE_UV_ROTATION_LOOKUP uv_loop_start_index vert_loop_start_index
  else if uv_clockwise && negb vert_clockwise then
    lookup CLOCKWISE_UV_ROTATION_LOOKUP uv_loop_start_index vert_loop_start_index
  else if negb uv_clockwise && vert_clockwise then
    lookup CLOCKWISE_UV_ROTATION_LOOKUP uv_loop_start_index vert_loop_start_index
  else
    lookup COUNTERCLOCKWISE_UV_ROTATION_LOOKUP uv_loop_start_index vert_loop_start_index.

(** Lines 574-688: the uv rectangle [[xmin, ymin, xmax, ymax]] and the
    lookup-table rotation of a textured face. *)
Definition face_uv (uv_layer : list vec2) (face : MeshPolygon) (v_local : list vec3)
    (face_normal : vec3) (tex_width tex_height : Z) : result (list R * Z) :=
  let+ face_uv_0 := index uv_layer (loop_start face) in
  let+ face_uv_1 := index uv_layer (loop_start face + 1) in
  let+ face_uv_2 := index uv_layer (loop_start face + 2) in
  let+ face_uv_3 := index uv_layer (loop_start face + 3) in
  let uv_min_x := Rmin (fst face_uv_0) (fst face_uv_2) in
  let uv_max_x := Rmax (fst face_uv_0) (fst face_uv_2) in
  let uv_min_y := Rmin (snd face_uv_0) (snd face_uv_2) in
  let uv_max_y := Rmax (snd face_uv_0) (snd face_uv_2) in
  let uv_clockwise := loop_is_clockwise [face_uv_0; face_uv_1; face_uv_2; face_uv_3] in
  let+ verts := mapR (index v_local) (vertices face) in
  let verts := map (project face_normal) verts in
  let+ vert_0 := index verts 0 in
  let+ vert_2 := index verts 2 in
  let vert_min_x := Rmin (fst vert_0) (fst vert_2) in
  let vert_max_x := Rmax (fst vert_0) (fst vert_2) in
  let vert_max_y := Rmax (snd vert_0) (snd vert_2) in
  let vert_clockwise := loop_is_clockwise verts in
  let uv_loop_start_index :=
    loop_start_index (fst face_uv_0) (snd face_uv_0) uv_min_x uv_max_x uv_max_y in
  let vert_loop_start_index :=
    loop_start_index (fst vert_0) (snd vert_0) vert_min_x vert_max_x vert_max_y in
  let face_uvs :=
    if negb uv_clockwise && negb vert_clockwise then [uv_min_x; uv_max_y; uv_max_x; uv_min_y]
    else if uv_clockwise && negb vert_clockwise then [uv_max_x; uv_max_y; uv_min_x; uv_min_y]
    else if negb uv_clockwise && vert_clockwise then [uv_max_x; uv_max_y; uv_min_x; uv_min_y]
    else [uv_min_x; uv_max_y; uv_max_x; uv_min_y] in
  let face_uv_rotation :=
    uv_rotation uv_clockwise vert_clockwise uv_loop_start_index vert_loop_start_index in
  let xmin := nth 0 face_uvs 0 * IZR tex_width in
  let ymin := (1 - nth 1 face_uvs 0) * IZR tex_height in
  let xmax := nth 2 face_uvs 0 * IZR tex_width in
  let ymax := (1 - nth 3 face_uvs 0) * IZR tex_height in
  Ok ([xmin; ymin; xmax; ymax], face_uv_rotation).

(** [faces[d]] when it must be a dict: a color tuple there makes the item
    assignment raise [TypeError]. *)
Definition face_dict (faces : list (string * FaceValue)) (d : string) : result FaceDict :=
  match dict_get String.eqb faces d with
  | Some (FaceOf f) => Ok f
  | Some (FaceColor _) => Raise TypeError
  | None => Raise KeyError
  end.

(** The key "rotation" written for a textured face: lines 691-692. *)
Definition rotation_entry (old : option Z) (face_uv_rotation : Z) : option Z :=
  if negb (face_uv_rotation =? 0)%Z && negb (face_uv_rotation =? 360)%Z then
    Some (if (0 <=? face_uv_rotation)%Z then face_uv_rotation
          else (360 + face_uv_rotation)%Z)
  else old.

(** The six keys of the dict [faces], in the order of its initialization. *)
Definition face_keys : list string :=
  ["north"; "east"; "south"; "west"; "up"; "down"]%string.

(** A face carries no key "rotation", or one of 90, 180 and 270. *)
Definition rotation_key_ok (v : FaceValue) : Prop :=
  match v with
  | FaceOf f =>
      rotation f = None \/ rotation f = Some 90%Z \/ rotation f = Some 180%Z \/
      rotation f = Some 270%Z
  | FaceColor _ => True
  end.

(** Lines 545-550: the face normal after the 90 degree rotations. *)
Definition transformed_normal (parent_rotation_90deg mat_rotate_90deg : option mat3)
    (face : MeshPolygon) : vec3 :=
  let face_normal := normal face in
  let face_normal :=
    match parent_rotation_90deg with
    | Some m => mat_vec m face_normal
    | None => face_normal
    end in
  match mat_rotate_90deg with
  | Some m => mat_vec m face_normal
  | None => face_normal
  end.

(** Lines 555-556: the direction string [d] of a face. *)
Definition face_direction (parent_rotation_90deg mat_rotate_90deg : option mat3)
    (face : MeshPolygon) : string :=
  let face_normal := transformed_normal parent_rotation_90deg mat_rotate_90deg face in
  nth (face_direction_index face_normal) DIRECTIONS ""%string.

(** The body of the loop over [mesh.polygons] (lines 542-692). *)
Definition face_step (obj : Object) (uv_layer : list vec2) (v_local : list vec3)
    (parent_rotation_90deg mat_rotate_90deg : option mat3)
    (export_uvs export_generated_texture : bool)
    (faces : list (string * FaceValue)) (face : MeshPolygon)
  : M (list (string * FaceValue)) :=
  let face_normal := transformed_normal parent_rotation_90deg mat_rotate_90deg face in
  let d := face_direction parent_rotation_90deg mat_rotate_90deg face in
  match get_object_color obj (material_index face) default_color with
  | Color c =>
      if export_generated_texture then
        let* _ := add_model_color c in
        ret (dict_set String.eqb faces d (FaceColor c))
      else ret faces
  | Texture t =>
      let* f := lift (face_dict faces d) in
      let f := {| texture := path t; uv := uv f; autoUv := autoUv f;
                  rotation := rotation f |} in
      let* _ := set_model_texture t in
      if export_uvs then
        let* (face_uvs, face_uv_rotation) :=
          lift (face_uv uv_layer face v_local face_normal (fst (size t)) (snd (size t))) in
        let f := {| texture := texture f; uv := face_uvs; autoUv := autoUv f;
                    rotation := rotation_entry (rotation f) face_uv_rotation |} in
        ret (dict_set String.eqb faces d (FaceOf f))
      else ret (dict_set String.eqb faces d (FaceOf f))
  end.

(** ** The host library

    The operations of [mathutils] that the exporter calls on matrices, Euler
    angles and quaternions.  An Euler rotation (order "XYZ") is the vector of
    its three angles in radians. *)
Class Mathutils : Type := {
  (** [m.inverted_safe()] *)
  inverted_safe : mat4 -> mat4;
  (** the quaternion of [m.decompose()], then [quat.to_euler("XYZ")] *)
  decompose_rotation : mat4 -> vec3;
  (** [euler.to_quaternion().to_axis_angle()] *)
  to_axis_angle : vec3 -> vec3 * R;
  (** [Quaternion(axis, angle).to_euler("XYZ")] *)
  axis_angle_to_euler : vec3 -> R -> vec3;
  (** [euler.to_quaternion().to_euler("XZY")] *)
  to_euler_XZY : vec3 -> vec3;
}.

(** ** Armatures *)

(** A bone: [head_local], the [head_local] of its parent bone (if any) and
    the names of its child bones. *)
Record Bone : Type := {
  head_local : vec3;
  parent_head_local : option vec3;
  bone_children : list string;
}.

(** [armature.data.bones], by name. *)
Record Armature : Type := { bones : list (string * Bone) }.

(** [class BoneNode]: the main object of a bone and the objects of the bone,
    the main object first. *)
Record BoneNode : Type := { main : Object; node_children : list Object }.

(** ** Elements *)

Record AttachPoint : Type := {
  code : string;
  posX : R;
  posY : R;
  posZ : R;
  attach_rotationX : R;
  attach_rotationY : R;
  attach_rotationZ : R;
}.

(** An exported element; an optional key is an [option]. *)
Inductive Element : Type := Build_Element {
  element_name : string;
  element_from : vec3;
  element_to : vec3;
  rotationOrigin : vec3;
  rotationX : option R;
  rotationY : option R;
  rotationZ : option R;
  group : option string;
  faces : list (string * FaceValue);
  element_children : list Element;
  attachmentpoints : option (list AttachPoint);
}.

(** [np.amin] and [np.amax] of one row of [v_local]. *)
Definition amin (l : list R) : R :=
  match l with
  | [] => 0
  | x :: rest => fold_left Rmin rest x
  end.

Definition amax (l : list R) : R :=
  match l with
  | [] => 0
  | x :: rest => fold_left Rmax rest x
  end.

Section Builder.
Context {host : Mathutils}.

(** [to_vintagestory_rotation(euler)] *)
Definition to_vintagestory_rotation (euler : vec3) : vec3 :=
  let r := to_euler_XZY euler in
  Vec3 (vy r * RAD_TO_DEG) (vz r * RAD_TO_DEG) (vx r * RAD_TO_DEG).

(** Lines 454-456: the rotation with its axis turned by a matrix. *)
Definition rotate_axis (m : mat3) (obj_rotation : vec3) : vec3 :=
  let '(ax_angle, theta) := to_axis_angle obj_rotation in
  let transformed_ax_angle := mat_vec m ax_angle in
  axis_angle_to_euler transformed_ax_angle theta.

(** Lines 418-420: the bone of which the object is the main object. *)
Definition main_bone (obj : Object) (armature : option Armature)
    (bone_hierarchy : option (list (string * BoneNode))) : result (option Bone) :=
  match armature with
  | Some arm =>
      if negb (parent_bone obj =? "")%string then
        let bone_name := parent_bone obj in
        match dict_get String.eqb (bones arm) bone_name with
        | Some bone =>
            match bone_hierarchy with
            | None => Raise TypeError
            | Some bh =>
                match dict_get String.eqb bh bone_name with
                | Some node =>
                    if (name (main node) =? name obj)%string
                    then Ok (Some bone) else Ok None
                | None => Ok None
                end
            end
        | None => Ok None
        end
      else Ok None
  | None => Ok None
  end.

(** What lines 401-498 of [generate_element] compute. *)
Record Geometry : Type := {
  geo_matrix_world : mat4;
  geo_v_local : list vec3;
  geo_mat_rotate_90deg : option mat3;
  geo_rotation : vec3;
  geo_rotation_origin : vec3;
  geo_v_from : vec3;
  geo_v_to : vec3;
}.

(** The origin of the object in the frame of its parent, before the
    change of axes: lines 411-458. *)
Definition local_origin (obj : Object) (bone : option Bone)
    (parent_matrix_world : option mat4) (parent_rotation_90deg : option mat3) : vec3 :=
  let origin := location obj in
  let bone_location :=
    match bone with
    | Some b =>
        Some (match parent_head_local b with
              | Some p => vsub (head_local b) p
              | None => head_local b
              end)
    | None => None
    end in
  let matrix_world :=
    match bone with
    | Some b => Mat4 (m_lin (matrix_world obj)) (head_local b)
    | None => matrix_world obj
    end in
  let origin :=
    match parent_matrix_world with
    | Some pmw => m_trans (mat4_mul (inverted_safe pmw) matrix_world)
    | None =>
        match bone_location with
        | Some l => l
        | None => origin
        end
    end in
  match parent_rotation_90deg with
  | Some m => mat_vec m origin
  | None => origin
  end.

(** Lines 401-498 of [generate_element]: the local frame of the object, the
    90 degree rotations, the corners and the rotation origin. *)
Definition element_geometry (fuel : nat) (mesh : Mesh) (obj : Object)
    (armature : option Armature) (bone_hierarchy : option (list (string * BoneNode)))
    (parent_matrix_world : option mat4)
    (parent_cube_origin parent_rotation_origin : vec3)
    (parent_rotation_90deg : option mat3) : result Geometry :=
  (* get local mesh coordinates *)
  let v_local := mesh_vertices mesh in
  let origin := location obj in
  let obj_rotation := rotation_euler obj in
  let origin_bone_offset := vzero in
  let matrix_world := matrix_world obj in
  let+ bone := main_bone obj armature bone_hierarchy in
  let bone_origin := option_map head_local bone in
  let origin_bone_offset :=
    match bone with
    | Some b => vsub origin (head_local b)
    | None => origin_bone_offset
    end in
  let matrix_world :=
    match bone with
    | Some b => Mat4 (m_lin matrix_world) (head_local b)
    | None => matrix_world
    end in
  let obj_rotation :=
    match parent_matrix_world with
    | Some pmw => decompose_rotation (mat4_mul (inverted_safe pmw) matrix_world)
    | None => obj_rotation
    end in
  let origin_bone_offset :=
    match parent_matrix_world, bone_origin with
    | Some _, Some _ =>
        mat4_apply (inverted_safe (to_4x4 (euler_to_matrix obj_rotation)))
                   origin_bone_offset
    | _, _ => origin_bone_offset
    end in
  let origin := local_origin obj bone parent_matrix_world parent_rotation_90deg in
  (* apply parent 90 deg rotations *)
  let obj_rotation :=
    match parent_rotation_90deg with
    | Some m => rotate_axis m obj_rotation
    | None => obj_rotation
    end in
  let v_local :=
    match parent_rotation_90deg with
    | Some m => map (mat_vec m) v_local
    | None => v_local
    end in
  (* constrain rotation to [-90, 90] *)
  let+ (residual_rotation, rotation_90deg) :=
    match get_reduced_rotation fuel obj_rotation with
    | Some r => Ok r
    | None => Raise OutOfFuel
    end in
  let mat_rotate_90deg := option_map euler_to_matrix rotation_90deg in
  let obj_rotation :=
    match mat_rotate_90deg, armature with
    | Some m, None => rotate_axis m residual_rotation
    | _, _ => obj_rotation
    end in
  let v_local :=
    match mat_rotate_90deg, armature with
    | Some m, None => map (mat_vec m) v_local
    | _, _ => v_local
    end in
  (* get min/max for to/from points *)
  let v_min := Vec3 (amin (map vx v_local)) (amin (map vy v_local)) (amin (map vz v_local)) in
  let v_max := Vec3 (amax (map vx v_local)) (amax (map vy v_local)) (amax (map vz v_local)) in
  (* change axis to vintage story y-up axis *)
  let v_min := to_y_up v_min in
  let v_max := to_y_up v_max in
  let origin := to_y_up origin in
  let origin_bone_offset := to_y_up origin_bone_offset in
  let rotation := to_vintagestory_rotation obj_rotation in
  (* translate to vintage story coord space *)
  let rotation_origin := vadd (vsub origin parent_cube_origin) parent_rotation_origin in
  let v_from := vadd (vadd v_min rotation_origin) origin_bone_offset in
  let v_to := vadd (vadd v_max rotation_origin) origin_bone_offset in
  Ok {| geo_matrix_world := matrix_world;
        geo_v_local := v_local;
        geo_mat_rotate_90deg := mat_rotate_90deg;
        geo_rotation := rotation;
        geo_rotation_origin := rotation_origin;
        geo_v_from := v_from;
        geo_v_to := v_to |}.

(** [generate_attach_point] *)
Definition generate_attach_point (fuel : nat) (obj : Object) (parent : option Object)
    (armature : option Armature)
    (parent_cube_origin parent_rotation_origin : vec3)
    (parent_rotation_90deg : option mat3) : result (option AttachPoint) :=
  if negb (String.prefix "attach_" (name obj)) then Ok None else
  let name := drop_prefix 7 (name obj) in
  let origin := location obj in
  let obj_rotation := rotation_euler obj in
  let+ (origin, obj_rotation) :=
    match armature with
    | Some _ =>
        if negb (parent_bone obj =? "")%string then
          match parent with
          | Some p =>
              let mat_loc := mat4_mul (inverted_safe (matrix_world p)) (matrix_world obj) in
              Ok (m_trans mat_loc, decompose_rotation mat_loc)
          | None => Raise AttributeError
          end
        else Ok (origin, obj_rotation)
    | None => Ok (origin, obj_rotation)
    end in
  let obj_rotation' :=
    match parent_rotation_90deg with
    | Some m => rotate_axis m obj_rotation
    | None => obj_rotation
    end in
  let origin :=
    match parent_rotation_90deg with
    | Some m => mat_vec m origin
    | None => origin
    end in
  let+ (residual_rotation, rotation_90deg) :=
    match get_reduced_rotation fuel obj_rotation' with
    | Some r => Ok r
    | None => Raise OutOfFuel
    end in
  let obj_rotation :=
    match rotation_90deg with
    | Some e => rotate_axis (euler_to_matrix e) residual_rotation
    | None => obj_rotation'
    end in
  let origin := to_y_up origin in
  let rotation := to_vintagestory_rotation obj_rotation in
  let rotation_origin := vadd (vsub origin parent_cube_origin) parent_rotation_origin in
  Ok (Some {| code := name;
              posX := vx rotation_origin;
              posY := vy rotation_origin;
              posZ := vz rotation_origin;
              attach_rotationX := vx rotation;
              attach_rotationY := vy rotation;
              attach_rotationZ := vz rotation |}).

(** Lines 700-705: the 90 degree rotation handed to the children. *)
Definition child_rotation_90deg (mat_rotate_90deg parent_rotation_90deg : option mat3)
  : option mat3 :=
  match mat_rotate_90deg with
  | Some m =>
      match parent_rotation_90deg with
      | Some p => Some (mat_mul m p)
      | None => Some m
      end
  | None => parent_rotation_90deg
  end.

(** Lines 740-758: the new name of the object and the objects that the
    bone hierarchy makes its children. *)
Definition bone_obj_children (obj : Object) (armature : option Armature)
    (bone_hierarchy : list (string * BoneNode)) : result (string * list Object) :=
  let parent_bone_name := parent_bone obj in
  if negb (parent_bone_name =? "")%string
     && dict_mem String.eqb bone_hierarchy parent_bone_name then
    match armature with
    | None => Raise AttributeError
    | Some arm =>
        match dict_get String.eqb (bones arm) parent_bone_name,
              dict_get String.eqb bone_hierarchy parent_bone_name with
        | Some parent_bone, Some node =>
            if (name (main node) =? name obj)%string then
              let siblings :=
                if (1 <? List.length (node_children node))%nat
                then tl (node_children node) else [] in
              let mains :=
                flat_map (fun child_bone_name =>
                            match dict_get String.eqb bone_hierarchy child_bone_name with
                            | Some n => [main n]
                            | None => []
                            end)
                         (bone_children parent_bone) in
              Ok (parent_bone_name, siblings ++ mains)
            else Ok (name obj, [])
        | _, _ => Ok (name obj, [])
        end
    end
  else Ok (name obj, []).

(** Lines 781-811: the element dict. *)
Definition build_element (obj_name : string) (geo : Geometry) (collection : option string)
    (faces : list (string * FaceValue)) (children : list Element)
    (attachpoints : list AttachPoint) : Element :=
  let rotation := geo_rotation geo in
  {| element_name := obj_name;
     element_from := geo_v_from geo;
     element_to := geo_v_to geo;
     rotationOrigin := geo_rotation_origin geo;
     rotationX := if negb (Reqb (vx rotation) 0) then Some (vx rotation) else None;
     rotationY := if negb (Reqb (vy rotation) 0) then Some (vy rotation) else None;
     rotationZ := if negb (Reqb (vz rotation) 0) then Some (vz rotation) else None;
     group := collection;
     faces := faces;
     element_children := children;
     attachmentpoints :=
       if (0 <? List.length attachpoints)%nat then Some attachpoints else None |}.

(** The body of the loop over [obj.children] (lines 708-737): [attach]
    stands for the call of [generate_attach_point] and [generate] for the
    recursive call of [generate_element]. *)
Definition child_step (attach : Object -> result (option AttachPoint))
    (generate : Object -> M (option Element))
    (acc : list Element * list AttachPoint) (child : Object)
  : M (list Element * list AttachPoint) :=
  let '(children, attachpoints) := acc in
  if (type child =? "EMPTY")%string then
    let* attachpoint_element := lift (attach child) in
    match attachpoint_element with
    | Some a => ret (children, attachpoints ++ [a])
    | None => ret (children, attachpoints)
    end
  else
    let* child_element := generate child in
    match child_element with
    | Some e => ret (children ++ [e], attachpoints)
    | None => ret (children, attachpoints)
    end.

(** The body of the loop over [bone_obj_children] (lines 760-776). *)
Definition bone_child_step (generate : Object -> M (option Element))
    (children : list Element) (child : Object) : M (list Element) :=
  let* child_element := generate child in
  match child_element with
  | Some e => ret (children ++ [e])
  | None => ret children
  end.

(** [generate_element]; the fuel bounds the depth of the recursion and the
    turns of the loops of [get_reduced_rotation].  The parameter [groups]
    is only handed on by the source and is left out. *)
Fixpoint generate_element (fuel : nat) (obj : Object) (parent : option Object)
    (armature : option Armature) (bone_hierarchy : option (list (string * BoneNode)))
    (parent_matrix_world : option mat4)
    (parent_cube_origin parent_rotation_origin : vec3)
    (parent_rotation_90deg : option mat3)
    (export_uvs export_generated_texture : bool) {struct fuel} : M (option Element) :=
  match fuel with
  | O => raise OutOfFuel
  | S fuel' =>
    match data obj with
    | OtherData => ret None
    | MeshData mesh =>
      (* count number of vertices, ignore if not cuboid *)
      let num_vertices := List.length (mesh_vertices mesh) in
      if negb (num_vertices =? 8)%nat then ret None else
      let* geo := lift (element_geometry fuel' mesh obj armature bone_hierarchy
                          parent_matrix_world parent_cube_origin parent_rotation_origin
                          parent_rotation_90deg) in
      let matrix_world := geo_matrix_world geo in
      let rotation_origin := geo_rotation_origin geo in
      let cube_origin := geo_v_from geo in
      (* initialize faces *)
      let faces := initial_faces in
      let* uv_layer :=
        match uv_layers_active mesh with
        | Some d => ret d
        | None => raise AttributeError
        end in
      let* faces :=
        foldM (face_step obj uv_layer (geo_v_local geo) parent_rotation_90deg
                 (geo_mat_rotate_90deg geo) export_uvs export_generated_texture)
              (firstn 6 (polygons mesh)) faces in
      (* build children *)
      let mat_rotate_90deg :=
        child_rotation_90deg (geo_mat_rotate_90deg geo) parent_rotation_90deg in
      let* (children, attachpoints) :=
        foldM (child_step
                 (fun child =>
                    generate_attach_point fuel' child (Some obj) armature
                      cube_origin rotation_origin mat_rotate_90deg)
                 (fun child =>
                    generate_element fuel' child (Some obj) None None
                      (Some matrix_world) cube_origin rotation_origin
                      mat_rotate_90deg export_uvs true))
              (children obj) ([], []) in
      (* use parent bone children if this is part of an armature *)
      let* (obj_name, children) :=
        match bone_hierarchy with
        | Some bh =>
            let* (obj_name, bone_obj_children) :=
              lift (bone_obj_children obj armature bh) in
            let* children :=
              foldM (bone_child_step
                       (fun child =>
                          generate_element fuel' child (Some obj) armature bone_hierarchy
                            (Some matrix_world) cube_origin rotation_origin
                            mat_rotate_90deg export_uvs true))
                    bone_obj_children children in
            ret (obj_name, children)
        | None => ret (name obj, children)
        end in
      (* add collection link *)
      let* collection := lift (index (users_collection obj) 0) in
      ret (Some (build_element obj_name geo collection faces children attachpoints))
    end
  end.

(** An element is produced for an object in a frame (the armature, the
    world matrix, cube origin and rotation origin of the parent and the
    pending 90 degree rotation) when a call of [generate_element] with these
    arguments returns it. *)
Definition produced_in (fuel : nat) (armature : option Armature)
    (bone_hierarchy : option (list (string * BoneNode)))
    (parent_matrix_world : option mat4)
    (parent_cube_origin parent_rotation_origin : vec3)
    (parent_rotation_90deg : option mat3) (obj : Object) (e : Element) : Prop :=
  exists parent export_uvs export_generated_texture st st',
    generate_element fuel obj parent armature bone_hierarchy parent_matrix_world
      parent_cube_origin parent_rotation_origin parent_rotation_90deg export_uvs
      export_generated_texture st = Ok (Some e, st').

(** The objects that become the child elements of an object: its children
    (handled without armature) and the objects that the bone hierarchy adds
    (handled with the armature). *)
Definition child_of (obj : Object) (armature : option Armature)
    (bone_hierarchy : option (list (string * BoneNode)))
    (child : Object) (child_armature : option Armature)
    (child_bone_hierarchy : option (list (string * BoneNode))) : Prop :=
  (In child (children obj) /\ child_armature = None /\ child_bone_hierarchy = None) \/
  (exists bh obj_name objs,
     bone_hierarchy = Some bh /\
     bone_obj_children obj armature bh = Ok (obj_name, objs) /\
     In child objs /\
     child_armature = armature /\ child_bone_hierarchy = bone_hierarchy).

End Builder.

(** The elements of a tree of elements, the root first. *)
Fixpoint elements (e : Element) : list Element :=
  e :: flat_map elements (element_children e).

(** A node counts for [get_material_color] when it has an input named
    "Base Color" or "Color". *)
Definition color_input (n : Node) : option NodeSocket :=
  match dict_get String.eqb (inputs n) "Base Color"%string with
  | Some s => Some s
  | None => dict_get String.eqb (inputs n) "Color"%string
  end.

(** The material has no node tree, or no node with a color input. *)
Definition no_color_node (mat : Material) : Prop :=
  match node_tree mat with
  | None => True
  | Some nodes => forall n, In n nodes -> color_input n = None
  end.

(** A material whose only node has a base color of opaque red. *)
Definition red : rgba := (1, 0, 0, 1).
Definition red_material : Material :=
  {| node_tree := Some [ {| inputs := [("Base Color"%string,
                                         {| links := []; default_value := red |})] |} ] |}.


(** ** Color atlas (lines 283-356) *)

(** [math.log2] *)
Definition log2 (x : R) : R := ln x / ln 2.

(** [color_grid_size = math.ceil(math.sqrt(len(colors) + 1))] *)
Definition color_grid_size (num_colors : nat) : Z :=
  Zceil (sqrt (IZR (Z.of_nat num_colors + 1))).

(** [tex_size = max(min_size, 2 ** math.ceil(math.log2(3 * color_grid_size)))] *)
Definition texture_size (min_size : Z) (grid_size : Z) : Z :=
  Z.max min_size (2 ^ Zceil (log2 (IZR (3 * grid_size)))).

(** The uv rectangle [[x1, y1, x2, y2]] of the tile of index [i]. *)
Definition tile_uv (grid_size tex_size : Z) (i : Z) : list R :=
  let x1 := IZR (3 * (i mod grid_size) + 1) / IZR tex_size * 16 in
  let x2 := IZR (3 * (i mod grid_size) + 2) / IZR tex_size * 16 in
  let y1 := IZR (3 * (i / grid_size) + 1) / IZR tex_size * 16 in
  let y2 := IZR (3 * (i / grid_size) + 2) / IZR tex_size * 16 in
  [x1; y1; x2; y2].

(** [enumerate(l)] *)
Definition enumerate {A : Type} (l : list A) : list (nat * A) :=
  combine (seq 0 (List.length l)) l.

(** [create_color_texture(colors, min_size)]: the texture size, the map from
    colors to uv rectangles and the uv rectangle of the default color.  The
    pixel buffer [tex_pixels] is not modelled. *)
Definition create_color_texture (colors : list rgba) (min_size : Z)
  : Z * list (rgba * list R) * list R :=
  let grid_size := color_grid_size (List.length colors) in
  let tex_size := texture_size min_size grid_size in
  let color_tex_uv_map :=
    fold_left (fun m '(i, c) =>
                 dict_set rgba_eqb m c (tile_uv grid_size tex_size (Z.of_nat i)))
              (enumerate colors) [] in
  let idx := Z.of_nat (List.length colors) in
  let default_color_uv := tile_uv grid_size tex_size idx in
  (tex_size, color_tex_uv_map, default_color_uv).

(** Two uv rectangles [[x1, y1, x2, y2]] have no point in common. *)
Definition uv_disjoint (a b : list R) : Prop :=
  match a, b with
  | [ax1; ay1; ax2; ay2], [bx1; by1; bx2; by2] =>
      ax2 < bx1 \/ bx2 < ax1 \/ ay2 < by1 \/ by2 < ay1
  | _, _ => False
  end.


(** ** Animation metadata (lines 998-1016 of [save_all_animations]) *)

(** A pose marker of an action. *)
Record PoseMarker : Type := { marker_name : string; marker_frame : Z }.

(** [int(x)] for a float: truncation towards zero. *)
Definition py_int (x : R) : Z := if Rleb 0 x then Zfloor x else Zceil x.

(** The body of the loop over [action.pose_markers]; the state is
    [(quantity_frames, on_activity_stopped, on_animation_end)]. *)
Definition marker_step (st : option Z * string * string) (marker : PoseMarker)
  : option Z * string * string :=
  let '(quantity_frames, on_activity_stopped, on_animation_end) := st in
  if String.prefix "onActivityStopped_" (marker_name marker) then
    (quantity_frames, drop_prefix 18 (marker_name marker), on_animation_end)
  else if String.prefix "onAnimationEnd_" (marker_name marker) then
    (Some (marker_frame marker + 1)%Z, on_activity_stopped,
     drop_prefix 15 (marker_name marker))
  else st.

(** The metadata of an exported action, from its pose markers and from the
    [frame] entries of the keyframes made by the animation adapter:
    [(quantityframes, onActivityStopped, onAnimationEnd)]. *)
Definition action_metadata (pose_markers : list PoseMarker) (keyframe_frames : list R)
  : Z * string * string :=
  let '(quantity_frames, on_activity_stopped, on_animation_end) :=
    fold_left marker_step pose_markers (None, "Stop"%string, "Stop"%string) in
  let quantity_frames :=
    match quantity_frames with
    | Some q => q
    | None =>
        if (0 <? List.length keyframe_frames)%nat
        then (py_int (last keyframe_frames 0%R) + 1)%Z
        else 0%Z
    end in
  (quantity_frames, on_activity_stopped, on_animation_end).

(** A marker named [onAnimationEnd_<name>]. *)
Definition is_animation_end (marker : PoseMarker) : bool :=
  String.prefix "onAnimationEnd_" (marker_name marker).

(** The last marker of the list that is named [onAnimationEnd_<name>]. *)
Definition last_animation_end (pose_markers : list PoseMarker) : option PoseMarker :=
  find is_animation_end (rev pose_markers).


(** ** Example scenes *)

(** The host operations on a scene without rotations: every world matrix is
    a translation and every rotation is the identity. *)
Definition unrotated_host : Mathutils :=
  {| inverted_safe := fun m =>
       Mat4 mat_id (Vec3 (- vx (m_trans m)) (- vy (m_trans m)) (- vz (m_trans m)));
     decompose_rotation := fun _ => vzero;
     to_axis_angle := fun _ => (Vec3 1 0 0, 0);
     axis_angle_to_euler := fun _ _ => vzero;
     to_euler_XZY := fun e => e |}.

(** The cube with corners (-1, -1, -1) and (1, 1, 1) and its six faces. *)
Definition cube_vertices : list vec3 :=
  [Vec3 (-1) (-1) (-1); Vec3 (-1) (-1) 1; Vec3 (-1) 1 (-1); Vec3 (-1) 1 1;
   Vec3 1 (-1) (-1); Vec3 1 (-1) 1; Vec3 1 1 (-1); Vec3 1 1 1].

Definition cube_face (n : vec3) (k : nat) (vs : list nat) : MeshPolygon :=
  {| normal := n; material_index := 0; loop_start := 4 * k; vertices := vs |}.

Definition face_north : MeshPolygon := cube_face (Vec3 (-1) 0 0) 0 [0; 1; 3; 2]%nat.
Definition face_east : MeshPolygon := cube_face (Vec3 0 1 0) 1 [2; 3; 7; 6]%nat.
Definition face_south : MeshPolygon := cube_face (Vec3 1 0 0) 2 [6; 7; 5; 4]%nat.
Definition face_west : MeshPolygon := cube_face (Vec3 0 (-1) 0) 3 [4; 5; 1; 0]%nat.
Definition face_down : MeshPolygon := cube_face (Vec3 0 0 (-1)) 4 [2; 6; 4; 0]%nat.
Definition face_up : MeshPolygon := cube_face (Vec3 0 0 1) 5 [7; 3; 1; 5]%nat.

Definition unit_square : list vec2 := [(0, 0); (1, 0); (1, 1); (0, 1)].

Definition cube_mesh : Mesh :=
  {| mesh_vertices := cube_vertices;
     polygons := [face_north; face_east; face_south; face_west; face_down; face_up];
     uv_layers_active :=
       Some (unit_square ++ unit_square ++ unit_square ++ unit_square ++ unit_square
             ++ unit_square) |}.

Definition identity_matrix : mat4 := Mat4 mat_id vzero.

(** An unrotated mesh object at a location, with material slots and
    children. *)
Definition mesh_object (obj_name : string) (mesh : Mesh) (loc : vec3)
    (slots : list (option Material)) (objs : list Object) : Object :=
  {| name := obj_name; type := "MESH"; data := MeshData mesh;
     location := loc; rotation_euler := vzero;
     matrix_world := Mat4 mat_id loc; parent_bone := "";
     material_slots := slots; users_collection := [Some "Collection"%string];
     children := objs |}.

(** A cube without material. *)
Definition plain_cube : Object := mesh_object "Cube" cube_mesh vzero [] [].

(** A cube at the origin with a child cube translated by (1, 0, 0). *)
Definition child_cube : Object := mesh_object "Child" cube_mesh (Vec3 1 0 0) [] [].
Definition parent_cube : Object := mesh_object "Parent" cube_mesh vzero [] [child_cube].

(** A cube whose material has an image texture on its base color. *)
Definition textured_material : Material :=
  {| node_tree :=
       Some [ {| inputs :=
                   [("Base Color"%string,
                     {| links := [ShaderNodeTexImage
                                    (Some {| filepath := "//stone.png";
                                             image_size := (16, 16)%Z |})];
                        default_value := (1, 1, 1, 1) |})] |} ] |}.

Definition stone_texture : TextureInfo := {| path := "//stone.png"; size := (16, 16)%Z |}.

Definition textured_cube : Object :=
  mesh_object "Stone" cube_mesh vzero [Some textured_material] [].

(** The textured cube after its bottom polygon has been flipped: the vertex
    loop of that polygon is reversed and its normal points up, like the
    normal of the top polygon, which comes after it.  The uv loop of the top
    polygon starts at the corner (1, 0). *)
Definition face_bottom_flipped : MeshPolygon := cube_face (Vec3 0 0 1) 4 [0; 4; 6; 2]%nat.

Definition flipped_uv_layer : list vec2 :=
  unit_square ++ unit_square ++ unit_square ++ unit_square ++ unit_square
  ++ [(1, 0); (1, 1); (0, 1); (0, 0)].

Definition flipped_cube_mesh : Mesh :=
  {| mesh_vertices := cube_vertices;
     polygons := [face_north; face_east; face_south; face_west; face_bottom_flipped;
                  face_up];
     uv_layers_active := Some flipped_uv_layer |}.

Definition flipped_cube : Object :=
  mesh_object "Flipped" flipped_cube_mesh vzero [Some textured_material] [].

(** A cube with the red material. *)
Definition red_cube : Object := mesh_object "Red" cube_mesh vzero [Some red_material] [].

(** A plane of four vertices whose child is a cube without uv layer, on
    which [generate_element] would raise [AttributeError]. *)
Definition cube_without_uvs : Object :=
  mesh_object "NoUv"
    {| mesh_vertices := cube_vertices; polygons := []; uv_layers_active := None |}
    vzero [] [].

Definition plane_mesh : Mesh :=
  {| mesh_vertices := [Vec3 (-1) (-1) 0; Vec3 1 (-1) 0; Vec3 1 1 0; Vec3 (-1) 1 0];
     polygons := [cube_face (Vec3 0 0 1) 0 [0; 1; 2; 3]%nat];
     uv_layers_active := Some unit_square |}.

Definition plane_with_child : Object :=
  mesh_object "Plane" plane_mesh vzero [] [cube_without_uvs].

Definition empty_state : export_state :=
  {| model_colors := Some []; model_textures := [] |}.

Definition green : rgba := (0, 1, 0, 1).

(** ** Axis names (lines 96-107) *)

(** [sub in s] for two strings. *)
Definition str_contains (sub s : string) : bool :=
  match String.index 0 sub s with
  | Some _ => true
  | None => false
  end.

(** [to_vintagestory_axis(ax)]; [None] is the value of the function when no
    branch returns. *)
Definition to_vintagestory_axis (ax : string) : option string :=
  if str_contains "X" ax then Some "Z"%string
  else if str_contains "Y" ax then Some "X"%string
  else if str_contains "Z" ax then Some "Y"%string
  else None.

(** The component of a vector that an axis name stands for. *)
Definition axis_component (ax : string) (v : vec3) : option R :=
  if (ax =? "X")%string then Some (vx v)
  else if (ax =? "Y")%string then Some (vy v)
  else if (ax =? "Z")%string then Some (vz v)
  else None.

(** ** Root objects and the bone hierarchy (lines 78-85, 890-930, 1110-1128) *)

(** [filter_root_objects(objects)]; [parent] reads the attribute
    [obj.parent]. *)
Definition filter_root_objects {A B : Type} (parent : A -> option B) (objects : list A)
  : list A :=
  filter (fun obj => match parent obj with None => true | Some _ => false end) objects.

(** [for x in l: acc = f(acc, x)] where [f] may raise. *)
Fixpoint foldR {A B : Type} (f : B -> A -> result B) (l : list A) (acc : B) : result B :=
  match l with
  | [] => Ok acc
  | x :: rest => let+ acc' := f acc x in foldR f rest acc'
  end.

(** [l[i] = v] *)
Fixpoint set_item {A : Type} (l : list A) (i : nat) (v : A) : result (list A) :=
  match l, i with
  | [], _ => Raise IndexError
  | _ :: rest, O => Ok (v :: rest)
  | x :: rest, S i' => let+ rest' := set_item rest i' v in Ok (x :: rest')
  end.

(** The body of the first loop of [get_bone_hierarchy] (lines 915-918); a
    node is the list [children] of its [BoneNode], whose [main] is still
    [None]. *)
Definition add_bone_child (bone_hierarchy : list (string * list Object)) (obj : Object)
  : result (list (string * list Object)) :=
  if negb (parent_bone obj =? "")%string then
    let bone_hierarchy :=
      if negb (dict_mem String.eqb bone_hierarchy (parent_bone obj))
      then dict_set String.eqb bone_hierarchy (parent_bone obj) []
      else bone_hierarchy in
    match dict_get String.eqb bone_hierarchy (parent_bone obj) with
    | Some node_children =>
        Ok (dict_set String.eqb bone_hierarchy (parent_bone obj) (node_children ++ [obj]))
    | None => Raise KeyError
    end
  else Ok bone_hierarchy.

(** [for i, obj in enumerate(node.children): if obj.name == bone_name: ...]:
    the first position, from [i] on, of an object named like the bone. *)
Fixpoint find_named (bone_name : string) (i : nat) (objs : list Object)
  : option (nat * Object) :=
  match objs with
  | [] => None
  | obj :: rest =>
      if (name obj =? bone_name)%string then Some (i, obj)
      else find_named bone_name (S i) rest
  end.

(** The body of the second loop of [get_bone_hierarchy] (lines 921-928). *)
Definition choose_main (bone_name : string) (node_children : list Object)
  : result BoneNode :=
  match find_named bone_name 0 node_children with
  | Some (i, obj) =>
      (* node.children[0], node.children[i] = node.children[i], node.children[0] *)
      let+ child_i := index node_children i in
      let+ child_0 := index node_children 0 in
      let+ node_children := set_item node_children 0 child_i in
      let+ node_children := set_item node_children i child_0 in
      Ok {| main := obj; node_children := node_children |}
  | None =>
      let+ first := index node_children 0 in
      Ok {| main := first; node_children := node_children |}
  end.

(** [get_bone_hierarchy(armature)], from [armature.children]. *)
Definition get_bone_hierarchy (armature_children : list Object)
  : result (list (string * BoneNode)) :=
  let+ bone_hierarchy := foldR add_bone_child armature_children [] in
  mapR (fun '(bone_name, node_children) =>
          let+ node := choose_main bone_name node_children in
          Ok (bone_name, node))
       bone_hierarchy.

(** Lines 1120-1126 of [save_objects]: the objects that are exported for an
    armature, the main objects of its root bones. *)
Definition armature_export_objects (arm : Armature) (armature_children : list Object)
  : result (list (string * BoneNode) * list Object) :=
  let+ bone_hierarchy := get_bone_hierarchy armature_children in
  let root_bones := filter_root_objects (fun b => parent_head_local (snd b)) (bones arm) in
  let+ export_objects :=
    mapR (fun bone =>
            match dict_get String.eqb bone_hierarchy (fst bone) with
            | Some node => Ok (main node)
            | None => Raise KeyError
            end)
         root_bones in
  Ok (bone_hierarchy, export_objects).

(** The objects of [armature.children] that are parented to a bone. *)
Definition objects_of_bone (bone_name : string) (armature_children : list Object)
  : list Object :=
  filter (fun obj => (parent_bone obj =? bone_name)%string) armature_children.

(** What the first loop of [get_bone_hierarchy] holds for a bone name after
    the objects [objs]. *)
Definition bone_group (bone_name : string) (objs : list Object) : option (list Object) :=
  if (bone_name =? "")%string then None else
  match objects_of_bone bone_name objs with
  | [] => None
  | l => Some l
  end.

(** ** Animation curves (lines 65-76 and 963-993 of [save_all_animations]) *)

(** Maps a rotation mode of a pose bone to the property of its curves. *)
Definition ROTATION_MODE_TO_FCURVE_PROPERTY : list (string * string) :=
  [("QUATERNION", "rotation_quaternion"); ("XYZ", "rotation_euler");
   ("XZY", "rotation_euler"); ("YXZ", "rotation_euler"); ("YZX", "rotation_euler");
   ("ZXY", "rotation_euler"); ("ZYX", "rotation_euler");
   ("AXIS_ANGLE", "rotation_euler")]%string.

(** [s.find(sub, start)] *)
Definition py_find (s sub : string) (start : nat) : Z :=
  match String.index start sub s with
  | Some i => Z.of_nat i
  | None => (-1)%Z
  end.

(** A bound of a slice: a negative bound counts from the end, and the bound
    is clipped to the string. *)
Definition py_slice_bound (len i : Z) : Z :=
  if (i <? 0)%Z then Z.max 0 (len + i) else Z.min i len.

(** [s[a:b]] *)
Definition py_slice (s : string) (a b : Z) : string :=
  let len := Z.of_nat (String.length s) in
  let a := py_slice_bound len a in
  let b := py_slice_bound len b in
  String.substring (Z.to_nat a) (Z.to_nat (b - a)) s.

(** [s[a:]] *)
Definition py_slice_from (s : string) (a : Z) : string :=
  py_slice s a (Z.of_nat (String.length s)).

(** Lines 970-982: the bone name and the property name read from the data
    path of a curve. *)
Definition fcurve_bone_property (data_path : string) : string * string :=
  let idx_bone_name_start := 12%Z in
  let idx_bone_name_end := py_find data_path "]" 12 in
  let bone_name := py_slice data_path idx_bone_name_start (idx_bone_name_end - 1) in
  let property_name := py_slice_from data_path (idx_bone_name_end + 2) in
  (bone_name, property_name).

(** What the loop over the curves of an action does with a curve: it skips
    the curve, or it sets the rotation mode of the bone in the animation
    adapter and adds the curve. *)
Inductive fcurve_use : Type :=
| SkipCurve
| AddCurve (bone_name rotation_property : string).

(** The body of the loop over [fcurves] (lines 963-993); [bones] gives the
    rotation mode of each pose bone of the armature. *)
Definition fcurve_step (bones : list (string * string)) (data_path : string)
  : result fcurve_use :=
  if negb (String.prefix "pose.bones" data_path) then Ok SkipCurve else
  let '(bone_name, property_name) := fcurve_bone_property data_path in
  match dict_get String.eqb bones bone_name with
  | None => Raise KeyError
  | Some rotation_mode =>
      let fcurve_property :=
        match dict_get String.eqb ROTATION_MODE_TO_FCURVE_PROPERTY rotation_mode with
        | Some p => Ok p
        | None => Raise KeyError
        end in
      let+ skip :=
        if negb (property_name =? "location")%string then
          let+ p := fcurve_property in Ok (negb (p =? property_name)%string)
        else Ok false in
      if skip then Ok SkipCurve else
      let+ p := fcurve_property in Ok (AddCurve bone_name p)
  end.

(** The data path of a property of a pose bone: [pose.bones[<quoted name>].<property>]. *)
Definition pose_bone_path (bone_name property_name : string) : string :=
  ("pose.bones[" ++ String "034"%char (bone_name ++ String "034"%char ("]." ++ property_name)))%string.

(** ** The shared collections of an export *)

(** The collections [model_colors] and [model_textures] only grow from the
    state [st] to the state [st']: a set of colors that is not tracked stays
    untracked, every color and every texture path of [st] is in [st'], the
    set still holds each color once and [model_textures] is still a dict,
    with each key once. *)
Definition state_le (st st' : export_state) : Prop :=
  match model_colors st, model_colors st' with
  | Some s, Some s' => incl s s' /\ (NoDup s -> NoDup s')
  | None, None => True
  | _, _ => False
  end /\
  incl (dict_keys (model_textures st)) (dict_keys (model_textures st')) /\
  (NoDup (dict_keys (model_textures st)) -> NoDup (dict_keys (model_textures st'))).

(** A face refers to what the state has registered: the texture of a face
    dict is the placeholder "#0" or a path of [model_textures], and a color
    tuple is in [model_colors] when the colors are tracked. *)
Definition face_registered (st : export_state) (f : FaceValue) : Prop :=
  match f with
  | FaceOf d => texture d = "#0"%string \/ In (texture d) (dict_keys (model_textures st))
  | FaceColor c =>
      match model_colors st with
      | Some s => In c s
      | None => True
      end
  end.

(** ** Post-processing in [save_objects] (lines 1202-1259) *)

(** [str(n)] for a natural number. *)
Definition str_of_nat (n : nat) : string := NilEmpty.string_of_uint (Nat.to_uint n).

(** The body of the loop over [model_textures.items()] (lines 1204-1215);
    the state is [texture_id], [texture_refs] and the entries that the loop
    adds to [model_json["textureSizes"]] (the entry "0" of the generated
    texture is written before the loop).  The file names written to
    [model_json["textures"]] are made by [os.path] and are left out. *)
Definition texture_ref_step
    (acc : nat * list (string * string) * list (string * (Z * Z)))
    (entry : string * TextureInfo)
  : nat * list (string * string) * list (string * (Z * Z)) :=
  let '(texture_id, texture_refs, texture_sizes) := acc in
  let '(texture_path, texture_info) := entry in
  (S texture_id,
   dict_set String.eqb texture_refs texture_path ("#" ++ str_of_nat texture_id)%string,
   dict_set String.eqb texture_sizes (str_of_nat texture_id) (size texture_info)).

Definition texture_ref_loop (model_textures : list (string * TextureInfo))
  : nat * list (string * string) * list (string * (Z * Z)) :=
  fold_left texture_ref_step model_textures (1%nat, [], []).

(** [texture_refs]: maps a Blender path to its identifier "#n". *)
Definition texture_refs (model_textures : list (string * TextureInfo))
  : list (string * string) :=
  snd (fst (texture_ref_loop model_textures)).

(** A face of the written model: a face dict, whose keys "autoUv" and
    "rotation" are optional. *)
Record ExportedFace : Type := {
  exported_texture : string;
  exported_uv : list R;
  exported_autoUv : option bool;
  exported_rotation : option Z;
}.

(** An element of the written model. *)
Inductive ExportedElement : Type := Build_ExportedElement {
  exported_name : string;
  exported_from : vec3;
  exported_to : vec3;
  exported_rotationOrigin : vec3;
  exported_rotationX : option R;
  exported_rotationY : option R;
  exported_rotationZ : option R;
  exported_group : option string;
  exported_faces : list (string * ExportedFace);
  exported_children : list ExportedElement;
  exported_attachmentpoints : option (list AttachPoint);
}.

(** The post-processing returns, or it raises [NameError]: the names
    [color_tex_uv_map] and [default_color_uv] are bound only when a texture
    is generated. *)
Inductive processed (A : Type) : Type :=
| Processed (a : A)
| NameError.
Arguments Processed {A} a.
Arguments NameError {A}.

Fixpoint mapP {A B : Type} (f : A -> processed B) (l : list A) : processed (list B) :=
  match l with
  | [] => Processed []
  | x :: rest =>
      match f x with
      | Processed y =>
          match mapP f rest with
          | Processed ys => Processed (y :: ys)
          | NameError => NameError
          end
      | NameError => NameError
      end
  end.

(** The body of the loop over [faces.items()] (lines 1241-1253); [atlas] is
    [(color_tex_uv_map, default_color_uv)] when a texture was generated. *)
Definition process_face (atlas : option (list (rgba * list R) * list R))
    (texture_refs : list (string * string)) (entry : string * FaceValue)
  : processed (string * ExportedFace) :=
  let '(d, f) := entry in
  match f with
  | FaceColor c =>
      match atlas with
      | Some (color_tex_uv_map, default_color_uv) =>
          let color_uv :=
            match dict_get rgba_eqb color_tex_uv_map c with
            | Some color_uv => color_uv
            | None => default_color_uv
            end in
          Processed (d, {| exported_texture := "#0"; exported_uv := color_uv;
                           exported_autoUv := None; exported_rotation := None |})
      | None => NameError
      end
  | FaceOf f =>
      let face_texture := texture f in
      let face_texture :=
        match dict_get String.eqb texture_refs face_texture with
        | Some ref => ref
        | None => face_texture
        end in
      Processed (d, {| exported_texture := face_texture; exported_uv := uv f;
                       exported_autoUv := Some (autoUv f);
                       exported_rotation := rotation f |})
  end.

(** [final_element_processing(element)] *)
Fixpoint final_element_processing (atlas : option (list (rgba * list R) * list R))
    (texture_refs : list (string * string)) (element : Element)
  : processed ExportedElement :=
  match mapP (process_face atlas texture_refs) (faces element) with
  | NameError => NameError
  | Processed faces =>
      match mapP (final_element_processing atlas texture_refs)
                 (element_children element) with
      | NameError => NameError
      | Processed children =>
          Processed {| exported_name := element_name element;
                       exported_from := element_from element;
                       exported_to := element_to element;
                       exported_rotationOrigin := rotationOrigin element;
                       exported_rotationX := rotationX element;
                       exported_rotationY := rotationY element;
                       exported_rotationZ := rotationZ element;
                       exported_group := group element;
                       exported_faces := faces;
                       exported_children := children;
                       exported_attachmentpoints := attachmentpoints element |}
      end
  end.

(** The elements of a tree of written elements, the root first. *)
Fixpoint exported_elements (e : ExportedElement) : list ExportedElement :=
  e :: flat_map exported_elements (exported_children e).

(** The faces of every element of the tree refer to what the state has
    registered. *)
Definition tree_registered (st : export_state) (e : Element) : Prop :=
  Forall (fun e' => Forall (fun kv => face_registered st (snd kv)) (faces e')) (elements e).

(** Two registered textures. *)
Definition two_textures : list (string * TextureInfo) :=
  [("//stone.png"%string, stone_texture);
   ("//wood.png"%string, {| path := "//wood.png"; size := (32, 32)%Z |})].

(** A cube with an attachment marker: an empty object named "attach_tool". *)
Definition attach_marker : Object :=
  {| name := "attach_tool"; type := "EMPTY"; data := OtherData;
     location := Vec3 0 0 1; rotation_euler := vzero;
     matrix_world := Mat4 mat_id (Vec3 0 0 1); parent_bone := "";
     material_slots := []; users_collection := [Some "Collection"%string];
     children := [] |}.

Definition marked_cube : Object := mesh_object "Hand" cube_mesh vzero [] [attach_marker].

(** A cube with a red material and a textured material, and two polygons
    facing up: the first is red, the second is textured. *)
Definition two_material_cube : Object :=
  mesh_object "Mixed" cube_mesh vzero [Some red_material; Some textured_material] [].

Definition red_up : MeshPolygon :=
  {| normal := Vec3 0 0 1; material_index := 0; loop_start := 0;
     vertices := [7; 3; 1; 5]%nat |}.

Definition textured_up : MeshPolygon :=
  {| normal := Vec3 0 0 1; material_index := 1; loop_start := 4;
     vertices := [7; 3; 1; 5]%nat |}.

(** An armature with the single bone "arm", and a cube parented to a bone. *)
Definition one_bone_armature : Armature :=
  {| bones := [("arm"%string,
                {| head_local := vzero; parent_head_local := None; bone_children := [] |})] |}.

Definition bone_object (obj_name : string) : Object :=
  {| name := obj_name; type := "MESH"; data := MeshData cube_mesh;
     location := vzero; rotation_euler := vzero;
     matrix_world := Mat4 mat_id vzero; parent_bone := "arm";
     material_slots := []; users_collection := [Some "Collection"%string];
     children := [] |}.

(** An object that [generate_element] accepts: a mesh of eight vertices. *)
Definition is_cuboid (obj : Object) : bool :=
  match data obj with
  | MeshData mesh => (List.length (mesh_vertices mesh) =? 8)%nat
  | OtherData => false
  end.

(** ** The passes of [save_objects] (lines 1137-1259) *)

Section SaveObjects.
Context {host : Mathutils}.

(** Lines 1137-1152: the geometry pass over the exported objects; an object
    that gives no element is left out. *)
Definition geometry_pass (fuel : nat) (armature : option Armature)
    (bone_hierarchy : option (list (string * BoneNode))) (export_uvs : bool)
    (export_objects : list Object) : M (list Element) :=
  foldM (fun root_elements obj =>
           let* element :=
             generate_element fuel obj None armature bone_hierarchy None vzero vzero None
               export_uvs true in
           match element with
           | Some e => ret (root_elements ++ [e])
           | None => ret root_elements
           end)
        export_objects [].

End SaveObjects.

(** Lines 1159-1164: the colors of the generated texture, the tracked set
    or else the colors of all materials of the file. *)
Definition texture_colors (model_colors : option (list rgba)) (materials : list Material)
  : list rgba :=
  match model_colors with
  | Some s => s
  | None =>
      fold_left (fun s mat =>
                   match get_material_color mat with
                   | Some (Color c) => set_add s c
                   | _ => s
                   end)
                materials []
  end.


(** * Properties *)

(** ** Boolean comparisons *)

Lemma Rltb_true (a b : R) : a < b -> Rltb a b = true.
Proof. unfold Rltb; destruct (Rlt_dec a b); tauto. Qed.

Lemma Rltb_false (a b : R) : ~ a < b -> Rltb a b = false.
Proof. unfold Rltb; destruct (Rlt_dec a b); tauto. Qed.

Lemma Rltb_spec (a b : R) : Rltb a b = true <-> a < b.
Proof. unfold Rltb; destruct (Rlt_dec a b); split; intros; try tauto; discriminate. Qed.

Lemma Rleb_spec (a b : R) : Rleb a b = true <-> a <= b.
Proof. unfold Rleb; destruct (Rle_dec a b); split; intros; try tauto; discriminate. Qed.

Lemma Reqb_spec (a b : R) : Reqb a b = true <-> a = b.
Proof. unfold Reqb; destruct (Req_dec_T a b); split; intros; try tauto; discriminate. Qed.

(** ** Axis permutation *)

(** C7: [to_y_up] sends (x, y, z) to (y, z, x); it is injective and
    surjective, and applying it three times gives the vector back. *)
Theorem to_y_up_three_cycle :
  (forall v, vx (to_y_up v) = vy v /\ vy (to_y_up v) = vz v /\ vz (to_y_up v) = vx v) /\
  (forall v w, to_y_up v = to_y_up w -> v = w) /\
  (forall w, exists v, to_y_up v = w) /\
  (forall v, to_y_up (to_y_up (to_y_up v)) = v).
Proof.
  assert (H3 : forall v, to_y_up (to_y_up (to_y_up v)) = v) by (intros []; reflexivity).
  repeat split; auto.
  - intros v w E. rewrite <- (H3 v), <- (H3 w), E. reflexivity.
  - intros w. exists (to_y_up (to_y_up w)). apply H3.
Qed.

(** ** Loops with fuel *)

Lemma while_done {S : Type} (cond : S -> bool) (body : S -> S) (fuel : nat) (s : S) :
  cond s = false -> while fuel cond body s = Some s.
Proof. intros H. destruct fuel; simpl; rewrite H; reflexivity. Qed.

Lemma while_step {S : Type} (cond : S -> bool) (body : S -> S) (fuel : nat) (s : S) :
  cond s = true -> while (Datatypes.S fuel) cond body s = while fuel cond body (body s).
Proof. intros H. simpl. rewrite H. reflexivity. Qed.

Lemma while_fuel_mono {S : Type} (cond : S -> bool) (body : S -> S) (n : nat) :
  forall (s r : S) (m : nat),
    while n cond body s = Some r -> (n <= m)%nat -> while m cond body s = Some r.
Proof.
  induction n as [|n IH]; intros s r m H Hle; simpl in H.
  - destruct (cond s) eqn:C; [discriminate|].
    rewrite while_done; assumption.
  - destruct (cond s) eqn:C.
    + destruct m as [|m]; [lia|]. rewrite while_step by assumption.
      apply IH; [assumption | lia].
    + rewrite while_done; assumption.
Qed.

(** Invariant rule: what holds before the loop and is kept by the body holds
    after the loop, where the condition is false. *)
Lemma while_invariant {S : Type} (cond : S -> bool) (body : S -> S) (P : S -> Prop) :
  (forall s, P s -> cond s = true -> P (body s)) ->
  forall (fuel : nat) (s r : S),
    P s -> while fuel cond body s = Some r -> P r /\ cond r = false.
Proof.
  intros Hbody. induction fuel as [|n IH]; intros s r Hs H; simpl in H.
  - destruct (cond s) eqn:C; [discriminate|]. inversion H; subst; auto.
  - destruct (cond s) eqn:C.
    + apply (IH (body s)); auto.
    + inversion H; subst; auto.
Qed.

Lemma nat_above (x : R) : exists n : nat, x < INR n.
Proof.
  exists (Z.to_nat (up x)).
  destruct (archimed x) as [Hup _].
  rewrite INR_IZR_INZ.
  destruct (Z_le_gt_dec 0 (up x)) as [Hz|Hz].
  - rewrite Z2Nat.id by assumption. lra.
  - assert (IZR (up x) <= 0) by (apply IZR_le; lia).
    replace (Z.to_nat (up x)) with 0%nat by lia. simpl. lra.
Qed.

(** ** clamp_rotation *)

Lemma clamp_down_terminates (n : nat) :
  forall x, x <= 360 + 360 * INR n ->
    exists r, while n (fun r => Rltb 360 r) (fun r => r - 360) x = Some r.
Proof.
  induction n as [|n IH]; intros x Hx.
  - simpl in Hx. exists x. apply while_done. apply Rltb_false. lra.
  - destruct (Rlt_dec 360 x) as [Hgt|Hle].
    + rewrite while_step by (apply Rltb_true; assumption).
      apply IH. rewrite S_INR in Hx. lra.
    + exists x. apply while_done. apply Rltb_false. assumption.
Qed.

Lemma clamp_up_terminates (n : nat) :
  forall x, - 360 - 360 * INR n <= x ->
    exists r, while n (fun r => Rltb r (-360)) (fun r => r + 360) x = Some r.
Proof.
  induction n as [|n IH]; intros x Hx.
  - simpl in Hx. exists x. apply while_done. apply Rltb_false. lra.
  - destruct (Rlt_dec x (-360)) as [Hlt|Hge].
    + rewrite while_step by (apply Rltb_true; assumption).
      apply IH. rewrite S_INR in Hx. lra.
    + exists x. apply while_done. apply Rltb_false. assumption.
Qed.

Lemma clamp_down_result (fuel : nat) (x r : R) :
  while fuel (fun r => Rltb 360 r) (fun r => r - 360) x = Some r ->
  r <= 360 /\ (r = x \/ 0 < r) /\ x - 360 * INR fuel <= r.
Proof.
  intros H.
  assert (Hm : x - 360 * INR fuel <= r).
  { revert x H. induction fuel as [|n IH]; intros x H; simpl in H.
    - destruct (Rltb 360 x); [discriminate|]. inversion H; subst. simpl. lra.
    - destruct (Rltb 360 x) eqn:C.
      + apply IH in H. rewrite S_INR. lra.
      + inversion H; subst. pose proof (pos_INR (S n)). lra. }
  apply (while_invariant _ _ (fun r => r = x \/ 0 < r)) in H.
  - destruct H as [H C]. cbv beta in C.
    assert (~ 360 < r) by (intros Hc; apply Rltb_true in Hc; congruence).
    repeat split; [lra | assumption | assumption].
  - intros s _ C. apply Rltb_spec in C. right. lra.
  - left. reflexivity.
Qed.

Lemma clamp_up_result (fuel : nat) (x r : R) :
  while fuel (fun r => Rltb r (-360)) (fun r => r + 360) x = Some r ->
  -360 <= r /\ (r = x \/ r < 0).
Proof.
  intros H.
  apply (while_invariant _ _ (fun r => r = x \/ r < 0)) in H.
  - destruct H as [H C]. cbv beta in C.
    assert (~ r < -360) by (intros Hc; apply Rltb_true in Hc; congruence).
    split; [lra | assumption].
  - intros s _ C. apply Rltb_spec in C. right. lra.
  - left. reflexivity.
Qed.

Lemma clamp_component_terminates (x : R) :
  exists (n : nat) (r : R),
    (forall fuel, (n <= fuel)%nat -> clamp_component fuel x = Some r) /\
    -360 <= r <= 360.
Proof.
  destruct (nat_above (Rabs x / 360)) as [n Hn].
  assert (Hx : Rabs x < 360 * INR n) by lra.
  assert (Hab1 := Rle_abs x). assert (Hab2 := Rle_abs (- x)). rewrite Rabs_Ropp in Hab2.
  destruct (clamp_down_terminates n x) as [r1 H1]; [lra|].
  destruct (clamp_down_result _ _ _ H1) as (Hr1 & Hr1' & Hlow).
  destruct (clamp_up_terminates n r1) as [r2 H2]; [lra|].
  destruct (clamp_up_result _ _ _ H2) as (Hr2 & Hr2').
  exists n, r2. split; [|lra].
  intros fuel Hle. unfold clamp_component.
  rewrite (while_fuel_mono _ _ n x r1 fuel H1 Hle). simpl.
  apply (while_fuel_mono _ _ n r1 r2 fuel H2 Hle).
Qed.

Lemma clamp_component_fixed (fuel : nat) (r : R) :
  -360 <= r <= 360 -> clamp_component fuel r = Some r.
Proof.
  intros Hr. unfold clamp_component.
  rewrite while_done by (apply Rltb_false; lra). simpl.
  apply while_done. apply Rltb_false. lra.
Qed.

(** C8: [clamp_rotation] returns (with enough fuel for its loops) a vector
    whose components all lie in [-360, 360], and clamping that vector again
    leaves it unchanged. *)
Theorem clamp_rotation_range_idempotent (v : vec3) :
  exists (n : nat) (w : vec3),
    (forall fuel, (n <= fuel)%nat -> clamp_rotation fuel v = Some w) /\
    (-360 <= vx w <= 360 /\ -360 <= vy w <= 360 /\ -360 <= vz w <= 360) /\
    (forall fuel, clamp_rotation fuel w = Some w) /\
    (forall fuel, (n <= fuel)%nat ->
       obind (clamp_rotation fuel v) (clamp_rotation fuel) = clamp_rotation fuel v).
Proof.
  destruct (clamp_component_terminates (vx v)) as (n0 & r0 & H0 & B0).
  destruct (clamp_component_terminates (vy v)) as (n1 & r1 & H1 & B1).
  destruct (clamp_component_terminates (vz v)) as (n2 & r2 & H2 & B2).
  exists (n0 + n1 + n2)%nat, (Vec3 r0 r1 r2).
  assert (Hrun : forall fuel, (n0 + n1 + n2 <= fuel)%nat ->
                   clamp_rotation fuel v = Some (Vec3 r0 r1 r2)).
  { intros fuel Hle. unfold clamp_rotation.
    rewrite H0, H1, H2 by lia. reflexivity. }
  assert (Hfix : forall fuel, clamp_rotation fuel (Vec3 r0 r1 r2) = Some (Vec3 r0 r1 r2)).
  { intros fuel. unfold clamp_rotation. simpl.
    rewrite !clamp_component_fixed by assumption. reflexivity. }
  repeat split; simpl; try lra; auto.
  intros fuel Hle. rewrite (Hrun fuel Hle). simpl. apply Hfix.
Qed.

(** ** get_reduced_rotation *)

Section ReduceAxis.
Variables (threshold : R) (rot_sign : Z).
Hypothesis threshold_range : 0 <= threshold <= PI / 2.
Hypothesis rot_sign_unit : rot_sign = 1%Z \/ rot_sign = (-1)%Z.

Let cond (s : R * Z) : bool :=
  Rltb threshold (Rabs (fst s)) && (sign (fst s) =? rot_sign)%Z.
Let body (s : R * Z) : R * Z :=
  (fst s - IZR rot_sign * PI / 2, (snd s + rot_sign)%Z).

Lemma sign_cases (x : R) :
  (0 <= x /\ sign x = 1%Z) \/ (x < 0 /\ sign x = (-1)%Z).
Proof.
  unfold sign, Rleb. destruct (Rle_dec 0 x); [left | right]; split; auto; lra.
Qed.

Lemma cond_true (s : R * Z) :
  cond s = true -> threshold < Rabs (fst s) /\ sign (fst s) = rot_sign.
Proof.
  unfold cond. intros H. apply andb_prop in H. destruct H as [H1 H2].
  apply Rltb_spec in H1. apply Z.eqb_eq in H2. auto.
Qed.

Lemma cond_false (s : R * Z) :
  cond s = false -> Rabs (fst s) <= threshold \/ sign (fst s) <> rot_sign.
Proof.
  unfold cond. intros H. apply andb_false_iff in H. destruct H as [H|H].
  - left. destruct (Rlt_dec threshold (Rabs (fst s))) as [Hlt|]; [|lra].
    apply Rltb_true in Hlt. congruence.
  - right. apply Z.eqb_neq. assumption.
Qed.

(** The loop stops: each turn brings the residual a quarter turn closer
    to zero, and a residual of the other sign ends the loop. *)
Lemma reduce_loop_terminates (n : nat) :
  forall s, sign (fst s) <> rot_sign \/ Rabs (fst s) < INR n * (PI / 2) ->
    exists r, while n cond body s = Some r.
Proof.
  pose proof PI_RGT_0 as Hpi.
  induction n as [|n IH]; intros s Hs.
  - destruct (cond s) eqn:C.
    + apply cond_true in C. destruct C as [C1 C2].
      destruct Hs as [Hs|Hs]; [tauto|]. simpl in Hs.
      pose proof (Rabs_pos (fst s)). lra.
    + exists s. apply while_done. assumption.
  - destruct (cond s) eqn:C.
    + rewrite while_step by assumption. apply IH.
      apply cond_true in C. destruct C as [C1 C2].
      destruct Hs as [Hs|Hs]; [tauto|]. rewrite S_INR in Hs.
      destruct (sign_cases (fst (body s))) as [[Hb Sb]|[Hb Sb]];
        destruct rot_sign_unit as [E|E];
        try (left; rewrite Sb, E; discriminate).
      * right. rewrite Rabs_pos_eq by assumption.
        destruct (sign_cases (fst s)) as [[Hp _]|[_ Sp]]; [|congruence].
        rewrite Rabs_pos_eq in Hs by assumption.
        unfold body in *. simpl in *. rewrite E in *. lra.
      * right. rewrite Rabs_left by assumption.
        destruct (sign_cases (fst s)) as [[_ Sp]|[Hp _]]; [congruence|].
        rewrite Rabs_left in Hs by assumption.
        unfold body in *. simpl in *. rewrite E in *. lra.
    + exists s. apply while_done. assumption.
Qed.

(** What the loop returns, from a residual [r0] of sign [rot_sign]. *)
Lemma reduce_loop_result (fuel : nat) (r0 res : R) (steps : Z) :
  sign r0 = rot_sign ->
  while fuel cond body (r0, 0%Z) = Some (res, steps) ->
  r0 = res + IZR steps * PI / 2 /\
  Rabs res <= Rmax threshold (PI / 2 - threshold).
Proof.
  intros Hsign H.
  apply (while_invariant _ _ (fun s =>
           r0 = fst s + IZR (snd s) * PI / 2 /\
           (0 <= rot_sign * snd s)%Z /\
           (snd s = 0%Z \/
            ((rot_sign = 1%Z -> threshold - PI / 2 < fst s) /\
             (rot_sign = (-1)%Z -> fst s < PI / 2 - threshold))))) in H.
  - destruct H as [(Heq & _ & Hb) C]. simpl in *. split; [assumption|].
    apply cond_false in C. simpl in C.
    pose proof (Rmax_l threshold (PI / 2 - threshold)).
    pose proof (Rmax_r threshold (PI / 2 - threshold)).
    destruct Hb as [Hz|[Hp Hn]].
    + subst steps. assert (res = r0) by (simpl in Heq; lra). subst res.
      destruct C as [C|C]; [lra | tauto].
    + destruct C as [C|C]; [lra|].
      destruct (sign_cases res) as [[Hr Sr]|[Hr Sr]];
        destruct rot_sign_unit as [E|E]; try congruence.
      * rewrite Rabs_pos_eq by assumption. specialize (Hn E). lra.
      * rewrite Rabs_left by assumption. specialize (Hp E). lra.
  - intros [r k] (Heq & Hk & _) C. apply cond_true in C. simpl in *.
    destruct C as [C1 C2]. repeat split.
    + rewrite plus_IZR. lra.
    + destruct rot_sign_unit as [E|E]; rewrite E in *; lia.
    + right. destruct (sign_cases r) as [[Hr Sr]|[Hr Sr]]; split; intros E;
        try congruence; rewrite E.
      * rewrite Rabs_pos_eq in C1 by assumption. lra.
      * rewrite Rabs_left in C1 by assumption. lra.
  - simpl. repeat split; [lra | lia | left; reflexivity].
Qed.

Lemma reduce_axis_spec (r0 : R) :
  sign r0 = rot_sign ->
  exists (n : nat) (res : R) (steps : Z),
    (forall fuel, (n <= fuel)%nat ->
       reduce_axis fuel threshold rot_sign r0 = Some (res, steps)) /\
    r0 = res + IZR steps * PI / 2 /\
    Rabs res <= Rmax threshold (PI / 2 - threshold).
Proof.
  intros Hsign. pose proof PI_RGT_0 as Hpi.
  destruct (nat_above (Rabs r0 / (PI / 2))) as [n Hn].
  destruct (reduce_loop_terminates n (r0, 0%Z)) as [[res steps] Hrun].
  { right. simpl. apply (Rmult_lt_compat_r (PI / 2)) in Hn; [|lra].
    unfold Rdiv in Hn. rewrite Rmult_assoc, Rinv_l in Hn by lra. lra. }
  exists n, res, steps. split.
  - intros fuel Hle. unfold reduce_axis.
    apply (while_fuel_mono _ _ n); assumption.
  - apply (reduce_loop_result n); assumption.
Qed.
End ReduceAxis.

Lemma sign_nonneg (x : R) : 0 <= x -> sign x = 1%Z.
Proof. intros H. unfold sign. apply Rleb_spec in H. rewrite H. reflexivity. Qed.

Lemma sign_unit (x : R) : sign x = 1%Z \/ sign x = (-1)%Z.
Proof. unfold sign. destruct (Rleb 0 x); auto. Qed.

Lemma eps_small : 0 < eps /\ eps < PI / 4.
Proof. pose proof PI2_1. unfold eps. split; lra. Qed.

Lemma degrees_abs_le (x b : R) : Rabs x <= b -> Rabs (degrees x) <= degrees b.
Proof.
  intros H. pose proof PI_RGT_0 as Hpi. unfold degrees, RAD_TO_DEG.
  assert (Hpos : 0 < 180 / PI) by (apply Rdiv_lt_0_compat; lra).
  rewrite Rabs_mult, (Rabs_pos_eq (180 / PI)) by lra.
  apply Rmult_le_compat_r; lra.
Qed.

Lemma degrees_quarter_turns (k : R) : degrees (k * PI / 2) = k * 90.
Proof. pose proof PI_RGT_0. unfold degrees, RAD_TO_DEG. field. lra. Qed.

Lemma steps_rotation_none (xsteps ysteps zsteps : Z) :
  steps_rotation (xsteps, ysteps, zsteps) = None <->
  (xsteps = 0 /\ ysteps = 0 /\ zsteps = 0)%Z.
Proof.
  unfold steps_rotation.
  destruct (Z.eqb_spec xsteps 0), (Z.eqb_spec ysteps 0), (Z.eqb_spec zsteps 0);
    simpl; split; intros H; try discriminate; try tauto.
Qed.

Lemma reduce_axis_no_step (fuel : nat) (threshold : R) (rot_sign : Z) (r : R) :
  Rabs r <= threshold -> reduce_axis fuel threshold rot_sign r = Some (r, 0%Z).
Proof.
  intros H. unfold reduce_axis. apply while_done. simpl.
  rewrite Rltb_false by lra. reflexivity.
Qed.

Lemma rot_x_plus (a b : R) : mat_mul (rot_x a) (rot_x b) = rot_x (a + b).
Proof.
  cbv [mat_mul rot_x vdot col0 col1 col2 vx vy vz row0 row1 row2].
  rewrite cos_plus, sin_plus. f_equal; f_equal; ring.
Qed.

Lemma euler_to_matrix_x (a y z : R) :
  y = 0 -> z = 0 -> euler_to_matrix (Vec3 a y z) = rot_x a.
Proof.
  intros -> ->.
  cbv [euler_to_matrix mat_mul rot_x rot_y rot_z vdot col0 col1 col2 vx vy vz
       row0 row1 row2].
  rewrite cos_0, sin_0. f_equal; f_equal; ring.
Qed.

(** C2 (as amended): [get_reduced_rotation] returns, for every rotation and
    with enough fuel for its loops, a residual and step counters such that
    each Euler component of the rotation is the residual component plus a
    whole number of quarter turns; the residual is at most 90 degrees on X
    and Y and at most 45 degrees plus [eps] on Z; the step rotation is made
    of whole multiples of 90 degrees, and it is [None] exactly when the three
    counters are zero.  For a rotation about the X axis alone the step
    rotation composed with the residual is the rotation. *)
Theorem get_reduced_rotation_spec (r : vec3) :
  exists (n : nat) (residual : vec3) (xsteps ysteps zsteps : Z),
    (forall fuel, (n <= fuel)%nat ->
       reduce_steps fuel r = Some (residual, (xsteps, ysteps, zsteps)) /\
       get_reduced_rotation fuel r =
         Some (residual, steps_rotation (xsteps, ysteps, zsteps))) /\
    (vx r = vx residual + IZR xsteps * PI / 2 /\
     vy r = vy residual + IZR ysteps * PI / 2 /\
     vz r = vz residual + IZR zsteps * PI / 2) /\
    (Rabs (vx residual) <= PI / 2 /\
     Rabs (vy residual) <= PI / 2 /\
     Rabs (vz residual) <= PI / 4 + eps) /\
    (Rabs (degrees (vx residual)) <= 90 /\
     Rabs (degrees (vy residual)) <= 90 /\
     Rabs (degrees (vz residual)) <= 45 + degrees eps) /\
    (steps_rotation (xsteps, ysteps, zsteps) = None <->
     (xsteps = 0 /\ ysteps = 0 /\ zsteps = 0)%Z) /\
    (forall e, steps_rotation (xsteps, ysteps, zsteps) = Some e ->
       e = Vec3 (IZR xsteps * PI / 2) (IZR ysteps * PI / 2) (IZR zsteps * PI / 2) /\
       degrees (vx e) = IZR xsteps * 90 /\
       degrees (vy e) = IZR ysteps * 90 /\
       degrees (vz e) = IZR zsteps * 90) /\
    (vy r = 0 -> vz r = 0 ->
     forall e, steps_rotation (xsteps, ysteps, zsteps) = Some e ->
       mat_mul (euler_to_matrix e) (euler_to_matrix residual) = euler_to_matrix r).
Proof.
  pose proof eps_small as [He1 He2]. pose proof PI_RGT_0 as Hpi.
  destruct (reduce_axis_spec (PI / 2 - eps) (sign (vx r))) with (r0 := vx r)
    as (nx & rx & xs & Hx & Ex & Bx); [lra | apply sign_unit | reflexivity |].
  destruct (reduce_axis_spec (PI / 2 - eps) (sign (vy r))) with (r0 := vy r)
    as (ny & ry & ys & Hy & Ey & By); [lra | apply sign_unit | reflexivity |].
  destruct (reduce_axis_spec (PI / 4 - eps) (sign (vz r))) with (r0 := vz r)
    as (nz & rz & zs & Hz & Ez & Bz); [lra | apply sign_unit | reflexivity |].
  assert (Bx' : Rabs rx <= PI / 2).
  { eapply Rle_trans; [exact Bx|]. apply Rmax_lub; lra. }
  assert (By' : Rabs ry <= PI / 2).
  { eapply Rle_trans; [exact By|]. apply Rmax_lub; lra. }
  assert (Bz' : Rabs rz <= PI / 4 + eps).
  { eapply Rle_trans; [exact Bz|]. apply Rmax_lub; lra. }
  exists (nx + ny + nz)%nat, (Vec3 rx ry rz), xs, ys, zs.
  split; [|split; [|split; [|split; [|split; [|split]]]]]; simpl.
  - intros fuel Hle.
    assert (Hs : reduce_steps fuel r = Some (Vec3 rx ry rz, (xs, ys, zs))).
    { unfold reduce_steps. rewrite Hx, Hy, Hz by lia. reflexivity. }
    split; [assumption|]. unfold get_reduced_rotation. rewrite Hs. reflexivity.
  - auto.
  - auto.
  - repeat split.
    + replace 90 with (degrees (PI / 2)) by (unfold degrees, RAD_TO_DEG; field; lra).
      apply degrees_abs_le; assumption.
    + replace 90 with (degrees (PI / 2)) by (unfold degrees, RAD_TO_DEG; field; lra).
      apply degrees_abs_le; assumption.
    + replace (45 + degrees eps) with (degrees (PI / 4 + eps))
        by (unfold degrees, RAD_TO_DEG; field; lra).
      apply degrees_abs_le; assumption.
  - apply steps_rotation_none.
  - intros e He. unfold steps_rotation in He.
    destruct (negb (xs =? 0)%Z || negb (ys =? 0)%Z || negb (zs =? 0)%Z);
      [|discriminate].
    inversion He; subst e; simpl.
    rewrite !degrees_quarter_turns. auto.
  - intros Hy0 Hz0 e He.
    assert (Hys : ry = 0 /\ ys = 0%Z).
    { specialize (Hy (nx + ny + nz)%nat ltac:(lia)).
      rewrite Hy0, reduce_axis_no_step in Hy by (rewrite Rabs_R0; lra).
      inversion Hy. auto. }
    assert (Hzs : rz = 0 /\ zs = 0%Z).
    { specialize (Hz (nx + ny + nz)%nat ltac:(lia)).
      rewrite Hz0, reduce_axis_no_step in Hz by (rewrite Rabs_R0; lra).
      inversion Hz. auto. }
    destruct Hys as [-> ->], Hzs as [-> ->].
    unfold steps_rotation in He.
    destruct (negb (xs =? 0)%Z || negb (0 =? 0)%Z || negb (0 =? 0)%Z); [|discriminate].
    inversion He; subst e.
    destruct r as [a y z]. simpl in *. subst y z.
    rewrite !euler_to_matrix_x by (try reflexivity; lra).
    rewrite rot_x_plus. f_equal. lra.
Qed.

Lemma reduce_axis_one_step (fuel : nat) (threshold r : R) :
  0 <= r -> threshold < r -> Rabs (r - PI / 2) <= threshold ->
  reduce_axis (S fuel) threshold 1 r = Some (r - PI / 2, 1%Z).
Proof.
  intros H0 H1 H2. unfold reduce_axis.
  rewrite while_step.
  - rewrite while_done.
    + simpl. do 2 f_equal. lra.
    + simpl. replace (r - 1 * PI / 2) with (r - PI / 2) by lra.
      rewrite Rltb_false by lra. reflexivity.
  - simpl. rewrite Rabs_pos_eq by assumption.
    rewrite Rltb_true by assumption. rewrite sign_nonneg by assumption. reflexivity.
Qed.

Lemma get_reduced_rotation_120_0_120 (fuel : nat) :
  (1 <= fuel)%nat ->
  get_reduced_rotation fuel rotation_120_0_120 =
    Some (Vec3 (PI / 6) 0 (PI / 6), Some (Vec3 (PI / 2) 0 (PI / 2))).
Proof.
  intros Hf. destruct fuel as [|fuel]; [lia|].
  pose proof eps_small as [He1 He2]. pose proof PI_RGT_0 as Hpi. pose proof PI2_1 as Hpi2.
  assert (Hsix : 2 * PI / 3 - PI / 2 = PI / 6) by lra.
  unfold get_reduced_rotation, reduce_steps, rotation_120_0_120.
  cbn [vx vy vz].
  rewrite (sign_nonneg (2 * PI / 3)) by lra.
  rewrite (sign_nonneg 0) by lra.
  rewrite (reduce_axis_one_step fuel (PI / 2 - eps) (2 * PI / 3));
    try lra; try (rewrite Hsix, Rabs_pos_eq by lra; lra).
  rewrite (reduce_axis_one_step fuel (PI / 4 - eps) (2 * PI / 3));
    try lra; try (rewrite Hsix, Rabs_pos_eq by lra; unfold eps in *; lra).
  rewrite reduce_axis_no_step by (rewrite Rabs_R0; lra).
  simpl. rewrite Hsix. do 3 f_equal. f_equal; lra.
Qed.

(** C2, counterexample: for the rotation of 120 degrees about X and about Z
    the function returns the residual (30, 0, 30) degrees and the steps
    (90, 0, 90) degrees, and the product of the two rotation matrices, in
    either order, is not the matrix of the rotation. *)
Lemma get_reduced_rotation_not_a_composition :
  let r := rotation_120_0_120 in
  let residual := Vec3 (PI / 6) 0 (PI / 6) in
  let steps := Vec3 (PI / 2) 0 (PI / 2) in
  get_reduced_rotation 1 r = Some (residual, Some steps) /\
  mat_mul (euler_to_matrix steps) (euler_to_matrix residual) <> euler_to_matrix r /\
  mat_mul (euler_to_matrix residual) (euler_to_matrix steps) <> euler_to_matrix r.
Proof.
  intros r residual steps. split; [|split].
  - apply get_reduced_rotation_120_0_120. lia.
  - intros H. apply (f_equal (fun m => vx (row2 m))) in H.
    cbv [r residual steps rotation_120_0_120 euler_to_matrix mat_mul rot_x rot_y
         rot_z vdot col0 col1 col2 vx vy vz row0 row1 row2] in H.
    rewrite sin_PI2, cos_PI2, sin_0, cos_0, sin_PI6 in H. lra.
  - intros H. apply (f_equal (fun m => vx (row2 m))) in H.
    cbv [r residual steps rotation_120_0_120 euler_to_matrix mat_mul rot_x rot_y
         rot_z vdot col0 col1 col2 vx vy vz row0 row1 row2] in H.
    rewrite sin_PI2, cos_PI2, sin_0, cos_0, sin_PI6 in H. lra.
Qed.

(** ** Color resolver *)

Lemma linked_texture_some (ls : list ShaderNode) (t : TextureInfo) :
  linked_texture ls = Some t ->
  exists img, In (ShaderNodeTexImage (Some img)) ls /\ filepath img <> ""%string /\
              t = {| path := filepath img; size := image_size img |}.
Proof.
  induction ls as [|l ls IH]; simpl; [discriminate|].
  destruct l as [[img|]|].
  - destruct (String.eqb_spec (filepath img) ""); simpl.
    + intros H. destruct (IH H) as (i & Hi & Hr). exists i. auto.
    + intros H. inversion H. exists img. auto.
  - intros H. destruct (IH H) as (i & Hi & Hr). exists i. auto.
  - intros H. destruct (IH H) as (i & Hi & Hr). exists i. auto.
Qed.

Lemma nodes_color_none (nodes : list Node) :
  (forall n, In n nodes -> color_input n = None) -> nodes_color nodes = None.
Proof.
  induction nodes as [|n rest IH]; intros H; simpl; [reflexivity|].
  pose proof (H n (or_introl eq_refl)) as Hn. unfold color_input in Hn.
  destruct (dict_get String.eqb (inputs n) "Base Color"%string); [discriminate|].
  rewrite Hn. apply IH. intros m Hm. apply H. right. assumption.
Qed.

Lemma nodes_color_some (nodes : list Node) :
  ~ (forall n, In n nodes -> color_input n = None) ->
  exists n s, In n nodes /\ color_input n = Some s /\
    (nodes_color nodes = Some (Color (default_value s)) \/
     exists img, In (ShaderNodeTexImage (Some img)) (links s) /\
                 filepath img <> ""%string /\
                 nodes_color nodes =
                   Some (Texture {| path := filepath img; size := image_size img |})).
Proof.
  induction nodes as [|n rest IH]; intros H.
  - exfalso. apply H. intros n [].
  - simpl. unfold color_input in *.
    destruct (dict_get String.eqb (inputs n) "Base Color"%string) as [s|] eqn:Eb.
    + exists n, s. rewrite Eb. split; [left; reflexivity|]. split; [reflexivity|].
      destruct (linked_texture (links s)) as [t|] eqn:El.
      * right. apply linked_texture_some in El. destruct El as (img & Hi & Hf & Ht).
        exists img. subst t. auto.
      * left. reflexivity.
    + destruct (dict_get String.eqb (inputs n) "Color"%string) as [s|] eqn:Ec.
      * exists n, s. rewrite Eb, Ec. split; [left; reflexivity|]. auto.
      * destruct IH as (m & s & Hm & Hs & Hr).
        { intros Hall. apply H. intros m [<-|Hm]; [rewrite Eb, Ec; reflexivity|].
          apply Hall. assumption. }
        exists m, s. split; [right; assumption|]. auto.
Qed.

(** C10: [get_object_color] is a total function; it returns the default
    color (0, 0, 0, 1) when the index is out of range, when the slot holds no
    material and when the material has no node with a "Base Color" or "Color"
    input (or no node tree); otherwise it returns the color of such an input
    of the material, or the texture linked to it. *)
Theorem get_object_color_default_or_material (obj : Object) (material_index : nat) :
  let result := get_object_color obj material_index default_color in
  ((List.length (material_slots obj) <= material_index)%nat -> result = Color default_color) /\
  (nth_error (material_slots obj) material_index = Some None -> result = Color default_color) /\
  (forall mat, nth_error (material_slots obj) material_index = Some (Some mat) ->
     (no_color_node mat -> result = Color default_color) /\
     (~ no_color_node mat ->
      exists nodes n s, node_tree mat = Some nodes /\ In n nodes /\ color_input n = Some s /\
        (result = Color (default_value s) \/
         exists img, In (ShaderNodeTexImage (Some img)) (links s) /\
                     filepath img <> ""%string /\
                     result = Texture {| path := filepath img; size := image_size img |}))).
Proof.
  unfold get_object_color. split; [|split].
  - intros H. apply Nat.ltb_ge in H. rewrite H. reflexivity.
  - intros H. rewrite H. destruct (_ <? _)%nat; reflexivity.
  - intros mat H.
    assert (Hlt : (material_index <? List.length (material_slots obj))%nat = true).
    { apply Nat.ltb_lt. apply nth_error_Some. congruence. }
    rewrite Hlt, H. unfold no_color_node, get_material_color.
    destruct (node_tree mat) as [nodes|]; split; intros Hn.
    + rewrite nodes_color_none by assumption. reflexivity.
    + destruct (nodes_color_some nodes Hn) as (n & s & Hin & Hs & Hr).
      exists nodes, n, s. repeat split; auto.
      destruct Hr as [Hr|(img & Hi & Hf & Hr)]; rewrite Hr; [left|right]; auto.
      exists img. auto.
    + reflexivity.
    + tauto.
Qed.

(** ** Color atlas *)

Lemma ceil_sqrt (m : Z) : (0 < m)%Z -> Zceil (sqrt (IZR m)) = Z.sqrt_up m.
Proof.
  intros Hm. apply Zceil_eq.
  pose proof (Z.sqrt_up_spec m Hm) as [Hlo Hhi].
  pose proof (Z.sqrt_up_nonneg m) as Hs.
  set (s := Z.sqrt_up m) in *.
  assert (Hlo' : (Z.pred s * Z.pred s < m)%Z) by exact Hlo.
  assert (Hhi' : (m <= s * s)%Z) by exact Hhi.
  assert (Hs1 : (1 <= s)%Z) by nia.
  split.
  - replace (IZR s - 1) with (sqrt (IZR (Z.pred s) * IZR (Z.pred s))).
    + apply sqrt_lt_1_alt. split.
      * apply Rmult_le_pos; apply IZR_le; lia.
      * rewrite <- mult_IZR. apply IZR_lt. exact Hlo'.
    + rewrite sqrt_square by (apply IZR_le; lia).
      unfold Z.pred. rewrite plus_IZR. simpl. lra.
  - replace (IZR s) with (sqrt (IZR s * IZR s)) at 1
      by (apply sqrt_square; apply IZR_le; lia).
    apply sqrt_le_1_alt. rewrite <- mult_IZR. apply IZR_le. exact Hhi'.
Qed.

Lemma IZR_pow2 (k : Z) : (0 <= k)%Z -> IZR (2 ^ k) = 2 ^ Z.to_nat k.
Proof.
  intros Hk. rewrite <- (Z2Nat.id k) at 1 by assumption.
  rewrite <- pow_IZR. reflexivity.
Qed.

Lemma log2_pow2 (k : Z) : (0 <= k)%Z -> log2 (IZR (2 ^ k)) = IZR k.
Proof.
  intros Hk. unfold log2. rewrite IZR_pow2 by assumption.
  rewrite ln_pow by lra. rewrite INR_IZR_INZ, Z2Nat.id by assumption.
  assert (0 < ln 2) by (rewrite <- ln_1; apply ln_increasing; lra).
  field. lra.
Qed.

Lemma log2_le (x y : R) : 0 < x -> x <= y -> log2 x <= log2 y.
Proof.
  intros Hx Hxy. unfold log2.
  assert (0 < ln 2) by (rewrite <- ln_1; apply ln_increasing; lra).
  apply Rmult_le_compat_r; [left; apply Rinv_0_lt_compat; assumption|].
  destruct Hxy as [Hlt|Heq]; [left; apply ln_increasing; assumption | subst; right; reflexivity].
Qed.

Lemma log2_lt (x y : R) : 0 < x -> x < y -> log2 x < log2 y.
Proof.
  intros Hx Hxy. unfold log2.
  assert (0 < ln 2) by (rewrite <- ln_1; apply ln_increasing; lra).
  apply Rmult_lt_compat_r; [apply Rinv_0_lt_compat; assumption|].
  apply ln_increasing; assumption.
Qed.

Lemma ceil_log2 (m : Z) : (1 < m)%Z -> Zceil (log2 (IZR m)) = Z.log2_up m.
Proof.
  intros Hm. apply Zceil_eq.
  pose proof (Z.log2_up_spec m Hm) as [Hlo Hhi].
  pose proof (Z.log2_up_pos m Hm) as Hk.
  set (k := Z.log2_up m) in *.
  assert (Hpos : (0 < 2 ^ Z.pred k)%Z) by (apply Z.pow_pos_nonneg; lia).
  split.
  - replace (IZR k - 1) with (IZR (Z.pred k))
      by (unfold Z.pred; rewrite plus_IZR; simpl; lra).
    rewrite <- (log2_pow2 (Z.pred k)) by lia.
    apply log2_lt; [apply IZR_lt; assumption | apply IZR_lt; assumption].
  - rewrite <- (log2_pow2 k) by lia.
    apply log2_le; [apply IZR_lt; lia | apply IZR_le; assumption].
Qed.

Lemma color_grid_size_sqrt_up (n : nat) :
  color_grid_size n = Z.sqrt_up (Z.of_nat n + 1).
Proof. unfold color_grid_size. apply ceil_sqrt. lia. Qed.

Lemma color_grid_size_bounds (n : nat) :
  let g := color_grid_size n in
  (1 <= g /\ (g - 1) * (g - 1) < Z.of_nat n + 1 <= g * g)%Z.
Proof.
  intros g. unfold g. rewrite color_grid_size_sqrt_up.
  assert (Hm : (0 < Z.of_nat n + 1)%Z) by lia.
  pose proof (Z.sqrt_up_spec _ Hm) as [Hlo Hhi].
  pose proof (Z.sqrt_up_nonneg (Z.of_nat n + 1)) as Hs.
  set (s := Z.sqrt_up (Z.of_nat n + 1)) in *.
  assert (Hlo' : (Z.pred s * Z.pred s < Z.of_nat n + 1)%Z) by exact Hlo.
  assert (Hhi' : (Z.of_nat n + 1 <= s * s)%Z) by exact Hhi.
  replace (s - 1)%Z with (Z.pred s) by lia.
  repeat split; try assumption. nia.
Qed.

Lemma texture_size_log2_up (min_size g : Z) :
  (1 <= g)%Z -> texture_size min_size g = Z.max min_size (2 ^ Z.log2_up (3 * g)).
Proof. intros Hg. unfold texture_size. rewrite ceil_log2 by lia. reflexivity. Qed.

(** The texture size is the least power of two that is at least 16 and at
    least three times the grid size. *)
Lemma texture_size_least (g : Z) :
  (1 <= g)%Z ->
  let tex_size := texture_size 16 g in
  (exists k, (0 <= k)%Z /\ tex_size = (2 ^ k)%Z) /\
  (16 <= tex_size)%Z /\ (3 * g <= tex_size)%Z /\
  (forall k, (0 <= k)%Z -> (16 <= 2 ^ k)%Z -> (3 * g <= 2 ^ k)%Z -> (tex_size <= 2 ^ k)%Z).
Proof.
  intros Hg tex_size. unfold tex_size. rewrite texture_size_log2_up by assumption.
  assert (H3g : (1 < 3 * g)%Z) by lia.
  pose proof (Z.log2_up_spec _ H3g) as [Hlo Hhi].
  pose proof (Z.log2_up_pos _ H3g) as Hk.
  set (k := Z.log2_up (3 * g)) in *.
  split; [|split; [|split]].
  - destruct (Z.max_spec 16 (2 ^ k)) as [[_ E]|[_ E]]; rewrite E.
    + exists k. split; [lia | reflexivity].
    + exists 4%Z. split; [lia | reflexivity].
  - apply Z.le_max_l.
  - etransitivity; [exact Hhi | apply Z.le_max_r].
  - intros j Hj H16 H3. apply Z.max_lub; [assumption|].
    apply Z.pow_le_mono_r; [lia|].
    apply Z.log2_up_le_pow2; [lia | assumption].
Qed.

Lemma rgba_eqb_spec (c d : rgba) : rgba_eqb c d = true <-> c = d.
Proof.
  destruct c as [[[r1 g1] b1] a1], d as [[[r2 g2] b2] a2]. simpl.
  rewrite !andb_true_iff, !Reqb_spec. split.
  - intros [[[-> ->] ->] ->]. reflexivity.
  - intros H. inversion H. auto.
Qed.

Section DictFacts.
Context {K V : Type} (key_eqb : K -> K -> bool).
Hypothesis key_eqb_spec : forall a b, key_eqb a b = true <-> a = b.

Lemma dict_get_set_same (d : list (K * V)) (k : K) (v : V) :
  dict_get key_eqb (dict_set key_eqb d k v) k = Some v.
Proof.
  induction d as [|[k' v'] d IH]; simpl.
  - rewrite (proj2 (key_eqb_spec k k)) by reflexivity. reflexivity.
  - destruct (key_eqb k k') eqn:E; simpl; rewrite E; auto.
Qed.

Lemma dict_get_set_other (d : list (K * V)) (k k' : K) (v : V) :
  k' <> k -> dict_get key_eqb (dict_set key_eqb d k v) k' = dict_get key_eqb d k'.
Proof.
  intros Hne. induction d as [|[k0 v0] d IH]; simpl.
  - destruct (key_eqb k' k) eqn:E; [apply key_eqb_spec in E; contradiction | reflexivity].
  - destruct (key_eqb k k0) eqn:E; simpl.
    + destruct (key_eqb k' k0) eqn:E'; [|reflexivity].
      apply key_eqb_spec in E, E'. congruence.
    + rewrite IH. reflexivity.
Qed.

Lemma dict_keys_set_present (d : list (K * V)) (k : K) (v : V) :
  In k (dict_keys d) -> dict_keys (dict_set key_eqb d k v) = dict_keys d.
Proof.
  unfold dict_keys. induction d as [|[k0 v0] d IH]; simpl; [tauto|].
  intros Hin. destruct (key_eqb k k0) eqn:E; simpl; [reflexivity|].
  f_equal. apply IH. destruct Hin as [->|Hin]; [|assumption].
  rewrite (proj2 (key_eqb_spec k k)) in E by reflexivity. discriminate.
Qed.
End DictFacts.

Lemma enumerate_nth {A : Type} (l : list A) (i : nat) (a : A) :
  nth_error l i = Some a -> In (i, a) (enumerate l).
Proof.
  unfold enumerate. change i with (0 + i)%nat at 2. generalize 0%nat.
  revert i. induction l as [|x l IH]; intros i s H; destruct i; simpl in *;
    try discriminate.
  - inversion H. left. f_equal. lia.
  - right. replace (s + S i)%nat with (S s + i)%nat by lia. apply IH. assumption.
Qed.

Lemma enumerate_snd {A : Type} (l : list A) : map snd (enumerate l) = l.
Proof.
  unfold enumerate. generalize 0%nat. induction l as [|x l IH]; intros s; simpl;
    [reflexivity | f_equal; apply IH].
Qed.

Section AtlasMap.
Variable tile : Z -> list R.

Let step (m : list (rgba * list R)) (ic : nat * rgba) : list (rgba * list R) :=
  let '(i, c) := ic in dict_set rgba_eqb m c (tile (Z.of_nat i)).

Lemma atlas_fold_other (l : list (nat * rgba)) :
  forall m c, ~ In c (map snd l) ->
    dict_get rgba_eqb (fold_left step l m) c = dict_get rgba_eqb m c.
Proof.
  induction l as [|[i c0] l IH]; intros m c Hc; simpl in *; [reflexivity|].
  rewrite IH by tauto.
  apply (dict_get_set_other rgba_eqb rgba_eqb_spec). intros E. subst. tauto.
Qed.

Lemma atlas_fold_lookup (l : list (nat * rgba)) :
  forall m i c, NoDup (map snd l) -> In (i, c) l ->
    dict_get rgba_eqb (fold_left step l m) c = Some (tile (Z.of_nat i)).
Proof.
  induction l as [|[i0 c0] l IH]; intros m i c Hnd Hin; simpl in *; [tauto|].
  inversion Hnd as [|? ? Hnot Hnd']; subst.
  destruct Hin as [E|Hin].
  - inversion E; subst. rewrite atlas_fold_other by assumption.
    apply (dict_get_set_same rgba_eqb rgba_eqb_spec).
  - apply IH; assumption.
Qed.
End AtlasMap.

Lemma tile_scale_lt (a b s : Z) :
  (0 < s)%Z -> (a < b)%Z -> IZR a / IZR s * 16 < IZR b / IZR s * 16.
Proof.
  intros Hs Hab. apply IZR_lt in Hs, Hab.
  apply Rmult_lt_compat_r; [lra|].
  apply Rmult_lt_compat_r; [apply Rinv_0_lt_compat|]; assumption.
Qed.

Lemma tile_uv_disjoint (g s i j : Z) :
  (0 < g)%Z -> (0 < s)%Z -> i <> j ->
  uv_disjoint (tile_uv g s i) (tile_uv g s j).
Proof.
  intros Hg Hs Hij. unfold tile_uv, uv_disjoint.
  pose proof (Z.div_mod i g) as Hi. pose proof (Z.div_mod j g) as Hj.
  destruct (Z.lt_total (i mod g) (j mod g)) as [H|[H|H]].
  - left. apply tile_scale_lt; lia.
  - destruct (Z.lt_total (i / g) (j / g)) as [H'|[H'|H']].
    + right; right; left. apply tile_scale_lt; lia.
    + exfalso. apply Hij. rewrite Hi, Hj by lia. congruence.
    + right; right; right. apply tile_scale_lt; lia.
  - right; left. apply tile_scale_lt; lia.
Qed.

(** C5: for a list of [N] distinct colors and the default minimum size 16,
    the grid has [ceil(sqrt(N+1))] tiles per axis, the texture size is the
    least power of two that is at least 16 and at least three times the grid
    size, the color of index [i] is mapped to the rectangle
    [(3*col+1)/size*16 .. (3*col+2)/size*16] by
    [(3*row+1)/size*16 .. (3*row+2)/size*16] with [col = i mod grid] and
    [row = i div grid], the default rectangle is the one of index [N], and
    the rectangles of two different indices up to [N] are disjoint. *)
Theorem color_atlas_layout (colors : list rgba) :
  NoDup colors ->
  let N := Z.of_nat (List.length colors) in
  let g := color_grid_size (List.length colors) in
  let '(tex_size, color_tex_uv_map, default_color_uv) := create_color_texture colors 16 in
  ((1 <= g)%Z /\ ((g - 1) * (g - 1) < N + 1 <= g * g)%Z) /\
  ((exists k, (0 <= k)%Z /\ tex_size = (2 ^ k)%Z) /\
   (16 <= tex_size)%Z /\ (3 * g <= tex_size)%Z /\
   (forall k, (0 <= k)%Z -> (16 <= 2 ^ k)%Z -> (3 * g <= 2 ^ k)%Z -> (tex_size <= 2 ^ k)%Z)) /\
  (forall i c, nth_error colors i = Some c ->
     let col := (Z.of_nat i mod g)%Z in
     let row := (Z.of_nat i / g)%Z in
     dict_get rgba_eqb color_tex_uv_map c =
       Some [IZR (3 * col + 1) / IZR tex_size * 16; IZR (3 * row + 1) / IZR tex_size * 16;
             IZR (3 * col + 2) / IZR tex_size * 16; IZR (3 * row + 2) / IZR tex_size * 16]) /\
  default_color_uv = tile_uv g tex_size N /\
  (forall i j, (0 <= i <= N)%Z -> (0 <= j <= N)%Z -> i <> j ->
     uv_disjoint (tile_uv g tex_size i) (tile_uv g tex_size j)).
Proof.
  intros Hnd N g. unfold create_color_texture. cbv beta iota zeta. fold g. fold N.
  pose proof (color_grid_size_bounds (List.length colors)) as Hg. fold g N in Hg.
  destruct Hg as [Hg1 Hg2].
  pose proof (texture_size_least g Hg1) as Ht.
  set (tex_size := texture_size 16 g) in *. cbv zeta in Ht.
  split; [auto|]. split; [exact Ht|]. split; [|split].
  - intros i c Hi.
    apply (atlas_fold_lookup (tile_uv g tex_size)).
    + rewrite enumerate_snd. assumption.
    + apply enumerate_nth. assumption.
  - reflexivity.
  - intros i j _ _ Hij. apply tile_uv_disjoint; lia.
Qed.

(** ** Animation metadata *)

Lemma prefix_split (p s : string) :
  String.prefix p s = true ->
  s = (p ++ String.substring (String.length p) (String.length s - String.length p) s)%string.
Proof.
  revert s. induction p as [|a p IH]; intros s H.
  - simpl. rewrite Nat.sub_0_r. clear H. induction s as [|c s IHs]; simpl; [reflexivity|].
    f_equal. exact IHs.
  - destruct s as [|c s]; cbn [String.prefix] in H; [discriminate|].
    destruct (Ascii.ascii_dec a c) as [->|]; [|discriminate].
    simpl. f_equal. apply IH. assumption.
Qed.

Lemma animation_end_not_activity_stopped (s : string) :
  String.prefix "onAnimationEnd_" s = true ->
  String.prefix "onActivityStopped_" s = false.
Proof.
  destruct s as [|c1 [|c2 [|c3 [|c4 s]]]]; cbn [String.prefix]; try discriminate;
    try (destruct (Ascii.ascii_dec "o"%char c1); [|discriminate];
         try (destruct (Ascii.ascii_dec "n"%char c2); [|discriminate]);
         try (destruct (Ascii.ascii_dec "A"%char c3); [|discriminate]);
         discriminate).
  destruct (Ascii.ascii_dec "o"%char c1); [|discriminate].
  destruct (Ascii.ascii_dec "n"%char c2); [|discriminate].
  destruct (Ascii.ascii_dec "A"%char c3); [|discriminate].
  destruct (Ascii.ascii_dec "n"%char c4) as [<-|]; [|discriminate].
  intros _. destruct (Ascii.ascii_dec "c"%char "n"%char); [discriminate | reflexivity].
Qed.

Lemma find_snoc {A : Type} (f : A -> bool) (l : list A) (a : A) :
  find f (l ++ [a]) =
  match find f l with
  | Some x => Some x
  | None => if f a then Some a else None
  end.
Proof.
  induction l as [|x l IH]; simpl; [reflexivity|].
  destruct (f x); [reflexivity | exact IH].
Qed.

Lemma marker_fold (markers : list PoseMarker) :
  forall q0 s0 e0,
    let '(q, _, e) := fold_left marker_step markers (q0, s0, e0) in
    match last_animation_end markers with
    | Some m => q = Some (marker_frame m + 1)%Z /\ e = drop_prefix 15 (marker_name m)
    | None => q = q0 /\ e = e0
    end.
Proof.
  unfold last_animation_end.
  induction markers as [|m markers IH] using rev_ind; intros q0 s0 e0.
  - simpl. auto.
  - rewrite fold_left_app, rev_app_distr. simpl.
    specialize (IH q0 s0 e0).
    destruct (fold_left marker_step markers (q0, s0, e0)) as [[q s] e].
    unfold marker_step, is_animation_end at 1.
    destruct (String.prefix "onAnimationEnd_" (marker_name m)) eqn:E.
    + rewrite (animation_end_not_activity_stopped _ E). auto.
    + destruct (String.prefix "onActivityStopped_" (marker_name m)); exact IH.
Qed.

(** C6: the exported [quantityframes] comes from the (last) pose marker named
    [onAnimationEnd_<name>] when there is one: it is that marker's frame plus
    one, and [<name>] is the [onAnimationEnd] behavior; without such a marker
    the behavior is "Stop" and [quantityframes] is one more than the integer
    value of the last keyframe's frame, or 0 when there are no keyframes. *)
Theorem quantity_frames_from_marker_or_keyframes
    (pose_markers : list PoseMarker) (keyframe_frames : list R) :
  let '(quantity_frames, _, on_animation_end) :=
    action_metadata pose_markers keyframe_frames in
  match last_animation_end pose_markers with
  | Some marker =>
      In marker pose_markers /\
      marker_name marker = ("onAnimationEnd_" ++ on_animation_end)%string /\
      quantity_frames = (marker_frame marker + 1)%Z
  | None =>
      (forall marker, In marker pose_markers ->
         String.prefix "onAnimationEnd_" (marker_name marker) = false) /\
      on_animation_end = "Stop"%string /\
      match keyframe_frames with
      | [] => quantity_frames = 0%Z
      | _ :: _ =>
          quantity_frames = (py_int (last keyframe_frames 0%R) + 1)%Z /\
          (forall frame : Z, last keyframe_frames 0 = IZR frame ->
             quantity_frames = (frame + 1)%Z)
      end
  end.
Proof.
  unfold action_metadata.
  pose proof (marker_fold pose_markers None "Stop"%string "Stop"%string) as H.
  destruct (fold_left marker_step pose_markers (None, "Stop"%string, "Stop"%string))
    as [[q s] e].
  destruct (last_animation_end pose_markers) as [m|] eqn:L.
  - destruct H as [-> ->]. unfold last_animation_end in L.
    apply find_some in L. destruct L as [Hin Hp].
    split; [apply in_rev; assumption|]. split; [|reflexivity].
    apply (prefix_split "onAnimationEnd_"). exact Hp.
  - destruct H as [-> ->]. split.
    + intros m Hin. unfold last_animation_end in L.
      apply (find_none _ _ L). apply in_rev in Hin. exact Hin.
    + split; [reflexivity|].
      destruct keyframe_frames as [|f fs]; [reflexivity|].
      cbn [List.length Nat.ltb Nat.leb]. split; [reflexivity|].
      intros frame ->. f_equal. unfold py_int.
      destruct (Rleb 0 (IZR frame)); [apply ZfloorZ|].
      apply Zceil_eq. lra.
Qed.

(** ** The result monad *)

Lemma bind_ok {A B : Type} (c : M A) (k : A -> M B) (st : export_state)
    (r : B * export_state) :
  bind c k st = Ok r -> exists a st1, c st = Ok (a, st1) /\ k a st1 = Ok r.
Proof.
  unfold bind. destruct (c st) as [[a st1]|e]; [|discriminate].
  intros H. exists a, st1. auto.
Qed.

Lemma lift_ok {A : Type} (c : result A) (st : export_state) (a : A) (st' : export_state) :
  lift c st = Ok (a, st') -> c = Ok a /\ st' = st.
Proof.
  unfold lift. destruct c; [|discriminate]. intros H. inversion H. auto.
Qed.

Lemma ret_ok {A : Type} (a b : A) (st st' : export_state) :
  ret a st = Ok (b, st') -> b = a /\ st' = st.
Proof. unfold ret. intros H. inversion H. auto. Qed.

(** ** Non-cuboid meshes *)

(** C3: an object whose mesh does not have exactly 8 vertices yields no
    element and no error, whatever its children are, and the shared
    collections are left as they were: the builder returns before it looks
    at a face or at a child.  In the loop over the children of its parent
    such an object adds nothing to the lists of child elements and attach
    points. *)
Theorem non_cuboid_yields_nothing {host : Mathutils}
    (fuel : nat) (obj : Object) (mesh : Mesh) (parent : option Object)
    (armature : option Armature) (bone_hierarchy : option (list (string * BoneNode)))
    (parent_matrix_world : option mat4) (parent_cube_origin parent_rotation_origin : vec3)
    (parent_rotation_90deg : option mat3) (export_uvs export_generated_texture : bool)
    (st : export_state) :
  data obj = MeshData mesh ->
  List.length (mesh_vertices mesh) <> 8%nat ->
  let generate child :=
    generate_element (S fuel) child parent armature bone_hierarchy parent_matrix_world
      parent_cube_origin parent_rotation_origin parent_rotation_90deg
      export_uvs export_generated_texture in
  generate obj st = Ok (None, st) /\
  (forall attach acc, type obj <> "EMPTY"%string ->
     child_step attach generate acc obj st = Ok (acc, st)) /\
  (forall acc, bone_child_step generate acc obj st = Ok (acc, st)).
Proof.
  intros Hdata Hlen generate.
  assert (Hgen : generate obj st = Ok (None, st)).
  { unfold generate. cbn [generate_element]. rewrite Hdata.
    apply Nat.eqb_neq in Hlen. rewrite Hlen. reflexivity. }
  split; [exact Hgen|]. split.
  - intros attach [children attachpoints] Htype. unfold child_step.
    apply String.eqb_neq in Htype. rewrite Htype.
    unfold bind. rewrite Hgen. reflexivity.
  - intros acc. unfold bone_child_step, bind. rewrite Hgen. reflexivity.
Qed.

(** ** The element builder *)

Lemma foldM_invariant {A B : Type} (f : B -> A -> M B) (I : B -> Prop) :
  (forall acc x st acc' st', I acc -> f acc x st = Ok (acc', st') -> I acc') ->
  forall l acc st acc' st', I acc -> foldM f l acc st = Ok (acc', st') -> I acc'.
Proof.
  intros Hstep. induction l as [|x l IH]; intros acc st acc' st' Hacc H.
  - apply ret_ok in H. destruct H as [-> _]. assumption.
  - cbn [foldM] in H. apply bind_ok in H. destruct H as (a & st1 & H1 & H2).
    apply (IH a st1 acc' st'); [|assumption].
    apply (Hstep acc x st a st1); assumption.
Qed.

Section BuilderFacts.
Context {host : Mathutils}.

Lemma foldM_invariant_in {A B : Type} (f : B -> A -> M B) (I : B -> Prop) :
  forall l,
    (forall acc x st acc' st', In x l -> I acc -> f acc x st = Ok (acc', st') -> I acc') ->
    forall acc st acc' st', I acc -> foldM f l acc st = Ok (acc', st') -> I acc'.
Proof.
  induction l as [|x l IH]; intros Hstep acc st acc' st' Hacc H.
  - apply ret_ok in H. destruct H as [-> _]. assumption.
  - cbn [foldM] in H. apply bind_ok in H. destruct H as (a & st1 & H1 & H2).
    apply (IH (fun acc0 y s acc1 s' Hy => Hstep acc0 y s acc1 s' (or_intror Hy))
              a st1 acc' st'); [|assumption].
    apply (Hstep acc x st a st1); [left; reflexivity | assumption | assumption].
Qed.

(** The loops over the children keep what holds of every element that the
    recursive call returns. *)
Lemma child_step_elements (P : Element -> Prop)
    (attach : Object -> result (option AttachPoint))
    (generate : Object -> M (option Element))
    (acc acc' : list Element * list AttachPoint) (child : Object) (st st' : export_state) :
  (forall e s s', generate child s = Ok (Some e, s') -> P e) ->
  Forall P (fst acc) ->
  child_step attach generate acc child st = Ok (acc', st') ->
  Forall P (fst acc').
Proof.
  destruct acc as [children attachpoints]. intros Hgen Hacc H. unfold child_step in H.
  destruct (type child =? "EMPTY")%string.
  - apply bind_ok in H. destruct H as (a & st1 & _ & H).
    destruct a; apply ret_ok in H; destruct H as [-> _]; assumption.
  - apply bind_ok in H. destruct H as (a & st1 & Hg & H).
    destruct a as [e|]; apply ret_ok in H; destruct H as [-> _]; [|assumption].
    simpl in *. apply Forall_app. split; [assumption|].
    constructor; [|constructor]. exact (Hgen _ _ _ Hg).
Qed.

Lemma bone_child_step_elements (P : Element -> Prop)
    (generate : Object -> M (option Element))
    (acc acc' : list Element) (child : Object) (st st' : export_state) :
  (forall e s s', generate child s = Ok (Some e, s') -> P e) ->
  Forall P acc ->
  bone_child_step generate acc child st = Ok (acc', st') ->
  Forall P acc'.
Proof.
  intros Hgen Hacc H. unfold bone_child_step in H.
  apply bind_ok in H. destruct H as (a & st1 & Hg & H).
  destruct a as [e|]; apply ret_ok in H; destruct H as [-> _]; [|assumption].
  apply Forall_app. split; [assumption|].
  constructor; [|constructor]. exact (Hgen _ _ _ Hg).
Qed.

(** How an element is made: from the geometry of the object, the faces
    left by the loop over its first six polygons, and child elements that
    are produced, with less fuel, for the children of the object in the frame
    of this element. *)
Lemma generate_element_inv (fuel : nat) (obj : Object) (parent : option Object)
    (armature : option Armature) (bone_hierarchy : option (list (string * BoneNode)))
    (parent_matrix_world : option mat4) (parent_cube_origin parent_rotation_origin : vec3)
    (parent_rotation_90deg : option mat3) (export_uvs export_generated_texture : bool)
    (st st' : export_state) (e : Element) :
  generate_element fuel obj parent armature bone_hierarchy parent_matrix_world
    parent_cube_origin parent_rotation_origin parent_rotation_90deg
    export_uvs export_generated_texture st = Ok (Some e, st') ->
  exists fuel' mesh geo uv_layer faces st1 obj_name collection children attachpoints,
    fuel = S fuel' /\
    data obj = MeshData mesh /\
    List.length (mesh_vertices mesh) = 8%nat /\
    element_geometry fuel' mesh obj armature bone_hierarchy parent_matrix_world
      parent_cube_origin parent_rotation_origin parent_rotation_90deg = Ok geo /\
    uv_layers_active mesh = Some uv_layer /\
    foldM (face_step obj uv_layer (geo_v_local geo) parent_rotation_90deg
             (geo_mat_rotate_90deg geo) export_uvs export_generated_texture)
          (firstn 6 (polygons mesh)) initial_faces st = Ok (faces, st1) /\
    Forall (fun ce => exists child arm bh,
              child_of obj armature bone_hierarchy child arm bh /\
              produced_in fuel' arm bh (Some (geo_matrix_world geo)) (geo_v_from geo)
                (geo_rotation_origin geo)
                (child_rotation_90deg (geo_mat_rotate_90deg geo) parent_rotation_90deg)
                child ce)
           children /\
    e = build_element obj_name geo collection faces children attachpoints.
Proof.
  intros H. destruct fuel as [|fuel']; [discriminate|].
  cbn [generate_element] in H.
  destruct (data obj) as [mesh|] eqn:Hdata; [|apply ret_ok in H; destruct H; discriminate].
  destruct (List.length (mesh_vertices mesh) =? 8)%nat eqn:Hlen;
    cbn [negb] in H; [|apply ret_ok in H; destruct H; discriminate].
  apply Nat.eqb_eq in Hlen.
  apply bind_ok in H. destruct H as (geo & s1 & Hgeo & H).
  apply lift_ok in Hgeo. destruct Hgeo as [Hgeo ->].
  apply bind_ok in H. destruct H as (uv_layer & s2 & Huv & H).
  destruct (uv_layers_active mesh) as [d|] eqn:Hlayer; [|discriminate].
  apply ret_ok in Huv. destruct Huv as [-> ->].
  apply bind_ok in H. destruct H as (faces & s3 & Hfaces & H).
  apply bind_ok in H. destruct H as ([children attachpoints] & s4 & Hchildren & H).
  apply bind_ok in H. destruct H as ([obj_name children'] & s5 & Hbones & H).
  apply bind_ok in H. destruct H as (collection & s6 & Hcoll & H).
  apply ret_ok in H. destruct H as [He ->]. inversion He; subst e.
  exists fuel', mesh, geo, d, faces, s3, obj_name, collection, children', attachpoints.
  repeat split; try assumption.
  set (P := fun ce => exists child arm bh,
              child_of obj armature bone_hierarchy child arm bh /\
              produced_in fuel' arm bh (Some (geo_matrix_world geo)) (geo_v_from geo)
                (geo_rotation_origin geo)
                (child_rotation_90deg (geo_mat_rotate_90deg geo) parent_rotation_90deg)
                child ce).
  assert (Hc : Forall P children).
  { apply (foldM_invariant_in _ (fun acc => Forall P (fst acc))) in Hchildren.
    - exact Hchildren.
    - intros acc child sa acc' sb Hin Hacc Hstep.
      eapply child_step_elements; [|exact Hacc|exact Hstep].
      intros e s s' Hg. exists child, None, None.
      split; [left; auto|]. red. repeat eexists. exact Hg.
    - constructor. }
  destruct bone_hierarchy as [bh|].
  - apply bind_ok in Hbones. destruct Hbones as ([n bc] & s7 & Hbc & Hbones).
    apply lift_ok in Hbc. destruct Hbc as [Hbc ->].
    apply bind_ok in Hbones. destruct Hbones as (cs & s8 & Hbones & Hret).
    apply ret_ok in Hret. destruct Hret as [Hret _]. inversion Hret; subst.
    apply (foldM_invariant_in _ (Forall P)) in Hbones; [exact Hbones | | exact Hc].
    intros acc child sa acc' sb Hin Hacc Hstep.
    eapply bone_child_step_elements; [|exact Hacc|exact Hstep].
    intros e s s' Hg. exists child, armature, (Some bh).
    split; [right; exists bh, n, bc; auto|]. red. repeat eexists. exact Hg.
  - apply ret_ok in Hbones. destruct Hbones as [Hret _]. inversion Hret; subst.
    assumption.
Qed.

Lemma element_geometry_inv (fuel : nat) (mesh : Mesh) (obj : Object)
    (armature : option Armature) (bone_hierarchy : option (list (string * BoneNode)))
    (pmw : option mat4) (pco pro : vec3) (pr90 : option mat3) (geo : Geometry) :
  element_geometry fuel mesh obj armature bone_hierarchy pmw pco pro pr90 = Ok geo ->
  exists bone obj_rotation,
    main_bone obj armature bone_hierarchy = Ok bone /\
    geo_rotation_origin geo =
      vadd (vsub (to_y_up (local_origin obj bone pmw pr90)) pco) pro /\
    geo_rotation geo = to_vintagestory_rotation obj_rotation.
Proof.
  unfold element_geometry, rbind. intros H.
  destruct (main_bone obj armature bone_hierarchy) as [bone|]; [|discriminate].
  match type of H with
  | match ?c with Ok _ => _ | Raise _ => _ end = _ => destruct c as [[res r90]|]; [|discriminate]
  end.
  inversion H; subst geo; cbn [geo_rotation_origin geo_rotation].
  eexists bone, _. split; [reflexivity|]. split; reflexivity.
Qed.
End BuilderFacts.

(** ** Faces *)

Lemma string_eqb_spec (a b : string) : (a =? b)%string = true <-> a = b.
Proof. apply String.eqb_eq. Qed.

Lemma dict_set_Forall {K V : Type} (key_eqb : K -> K -> bool) (Q : V -> Prop)
    (d : list (K * V)) (k : K) (v : V) :
  Forall (fun kv => Q (snd kv)) d -> Q v ->
  Forall (fun kv => Q (snd kv)) (dict_set key_eqb d k v).
Proof.
  intros Hd Hv. induction d as [|[k' v'] d IH]; simpl.
  - constructor; [assumption | constructor].
  - inversion Hd; subst. destruct (key_eqb k k'); constructor; auto.
Qed.

Lemma dict_get_Forall {K V : Type} (key_eqb : K -> K -> bool) (Q : V -> Prop)
    (d : list (K * V)) (k : K) (v : V) :
  Forall (fun kv => Q (snd kv)) d -> dict_get key_eqb d k = Some v -> Q v.
Proof.
  intros Hd. induction d as [|[k' v'] d IH]; simpl; [discriminate|].
  inversion Hd; subst. destruct (key_eqb k k').
  - intros H. inversion H; subst. assumption.
  - apply IH. assumption.
Qed.

Lemma argmax_from_bound (l : list R) :
  forall best_i best i, (best_i < i)%nat ->
    (argmax_from best_i best i l < i + List.length l)%nat.
Proof.
  induction l as [|x l IH]; intros best_i best i Hb; simpl; [lia|].
  destruct (Rltb best x).
  - specialize (IH i x (S i)). lia.
  - specialize (IH best_i best (S i)). lia.
Qed.

Lemma argmax_bound (l : list R) : l <> [] -> (argmax l < List.length l)%nat.
Proof.
  destruct l as [|x l]; [congruence|]. intros _. simpl.
  pose proof (argmax_from_bound l 0 x 1). lia.
Qed.

Lemma face_direction_in (parent_rotation_90deg mat_rotate_90deg : option mat3)
    (face : MeshPolygon) :
  In (face_direction parent_rotation_90deg mat_rotate_90deg face) face_keys.
Proof.
  unfold face_direction, face_direction_index.
  set (dots := map _ DIRECTION_NORMALS).
  assert (Hlen : (argmax dots < 6)%nat).
  { change 6%nat with (List.length dots). apply argmax_bound. discriminate. }
  destruct (argmax dots) as [|[|[|[|[|[|n]]]]]]; simpl; try tauto. lia.
Qed.

Lemma loop_start_index_bound (sx sy mnx mxx mxy : R) :
  (loop_start_index sx sy mnx mxx mxy < 4)%nat.
Proof.
  unfold loop_start_index.
  destruct (Rltb sy mxy), (Rltb sx mxx), (Rltb mnx sx); lia.
Qed.

Lemma uv_rotation_values (uv_clockwise vert_clockwise : bool) (i j : nat) :
  (i < 4)%nat -> (j < 4)%nat ->
  In (uv_rotation uv_clockwise vert_clockwise i j) [0; 90; 180; 270]%Z.
Proof.
  intros Hi Hj.
  destruct i as [|[|[|[|i]]]]; try lia;
    destruct j as [|[|[|[|j]]]]; try lia;
    destruct uv_clockwise, vert_clockwise; vm_compute; tauto.
Qed.

Lemma face_uv_rotation_values (uv_layer : list vec2) (face : MeshPolygon)
    (v_local : list vec3) (face_normal : vec3) (w h : Z) (uvs : list R) (rot : Z) :
  face_uv uv_layer face v_local face_normal w h = Ok (uvs, rot) ->
  In rot [0; 90; 180; 270]%Z.
Proof.
  unfold face_uv, rbind. intros H.
  repeat match type of H with
         | match ?c with Ok _ => _ | Raise _ => _ end = _ =>
             destruct c; [|discriminate]
         end.
  inversion H; subst. apply uv_rotation_values; apply loop_start_index_bound.
Qed.

Lemma rotation_entry_spec (old : option Z) (rot : Z) :
  In rot [0; 90; 180; 270]%Z ->
  (rot <> 0%Z -> rotation_entry old rot = Some rot /\ In rot [90; 180; 270]%Z) /\
  (rot = 0%Z -> rotation_entry old rot = old).
Proof.
  intros [<-|[<-|[<-|[<-|[]]]]]; split; intros H; try congruence;
    try (split; [reflexivity | simpl; tauto]); reflexivity.
Qed.

Lemma face_dict_ok (faces : list (string * FaceValue)) (d : string) (f : FaceDict) :
  face_dict faces d = Ok f -> dict_get String.eqb faces d = Some (FaceOf f).
Proof.
  unfold face_dict. destruct (dict_get String.eqb faces d) as [[g|c]|]; try discriminate.
  intros H. inversion H. reflexivity.
Qed.

(** What one turn of the loop over the polygons does to the dict [faces]. *)
Lemma face_step_result (obj : Object) (uv_layer : list vec2) (v_local : list vec3)
    (p m : option mat3) (export_uvs export_generated_texture : bool)
    (faces faces' : list (string * FaceValue)) (face : MeshPolygon) (st st' : export_state) :
  face_step obj uv_layer v_local p m export_uvs export_generated_texture faces face st
    = Ok (faces', st') ->
  let d := face_direction p m face in
  (forall d0, d0 <> d -> dict_get String.eqb faces' d0 = dict_get String.eqb faces d0) /\
  (dict_keys faces = face_keys -> dict_keys faces' = face_keys) /\
  (Forall (fun kv => rotation_key_ok (snd kv)) faces ->
   Forall (fun kv => rotation_key_ok (snd kv)) faces') /\
  match get_object_color obj (material_index face) default_color with
  | Color c =>
      if export_generated_texture
      then dict_get String.eqb faces' d = Some (FaceColor c)
      else faces' = faces
  | Texture t =>
      exists f, dict_get String.eqb faces d = Some (FaceOf f) /\
        if export_uvs then
          exists uvs rot,
            face_uv uv_layer face v_local (transformed_normal p m face)
                    (fst (size t)) (snd (size t)) = Ok (uvs, rot) /\
            dict_get String.eqb faces' d =
              Some (FaceOf {| texture := path t; uv := uvs; autoUv := autoUv f;
                              rotation := rotation_entry (rotation f) rot |})
        else
          dict_get String.eqb faces' d =
            Some (FaceOf {| texture := path t; uv := uv f; autoUv := autoUv f;
                            rotation := rotation f |})
  end.
Proof.
  intros H d. unfold face_step in H. fold d in H.
  assert (Hset : forall v, faces' = dict_set String.eqb faces d v ->
            (forall d0, d0 <> d ->
               dict_get String.eqb faces' d0 = dict_get String.eqb faces d0) /\
            (dict_keys faces = face_keys -> dict_keys faces' = face_keys) /\
            dict_get String.eqb faces' d = Some v).
  { intros v ->. split; [|split].
    - intros d0 Hd0. apply (dict_get_set_other String.eqb string_eqb_spec). assumption.
    - intros Hk. rewrite (dict_keys_set_present String.eqb string_eqb_spec); [assumption|].
      rewrite Hk. apply face_direction_in.
    - apply (dict_get_set_same String.eqb string_eqb_spec). }
  destruct (get_object_color obj (material_index face) default_color) as [c|t].
  - destruct export_generated_texture.
    + apply bind_ok in H. destruct H as (u & s1 & _ & H).
      apply ret_ok in H. destruct H as [Hf _].
      destruct (Hset _ Hf) as (H1 & H2 & H3). repeat split; auto.
      intros Hall. rewrite Hf. apply dict_set_Forall; simpl; auto.
    + apply ret_ok in H. destruct H as [-> _]. repeat split; auto.
  - apply bind_ok in H. destruct H as (f & s1 & Hf & H).
    apply lift_ok in Hf. destruct Hf as [Hf ->]. apply face_dict_ok in Hf.
    apply bind_ok in H. destruct H as (u & s2 & _ & H).
    destruct export_uvs.
    + apply bind_ok in H. destruct H as ([uvs rot] & s3 & Huv & H).
      apply lift_ok in Huv. destruct Huv as [Huv ->].
      apply ret_ok in H. destruct H as [Hfaces _].
      destruct (Hset _ Hfaces) as (H1 & H2 & H3). split; [|split; [|split]]; auto.
      * intros Hall. rewrite Hfaces. apply dict_set_Forall; [assumption|].
        pose proof (dict_get_Forall _ _ _ _ _ Hall Hf) as Hold. simpl in Hold |- *.
        pose proof (face_uv_rotation_values _ _ _ _ _ _ _ _ Huv) as Hrot.
        destruct (rotation_entry_spec (rotation f) rot Hrot) as [Hnz Hz].
        destruct (Z.eq_dec rot 0) as [E|E].
        -- rewrite (Hz E). assumption.
        -- destruct (Hnz E) as [-> Hin]. simpl in Hin.
           destruct Hin as [<-|[<-|[<-|[]]]]; auto.
      * exists f. split; [assumption|]. exists uvs, rot. auto.
    + apply ret_ok in H. destruct H as [Hfaces _].
      destruct (Hset _ Hfaces) as (H1 & H2 & H3). split; [|split; [|split]]; auto.
      * intros Hall. rewrite Hfaces. apply dict_set_Forall; [assumption|].
        exact (dict_get_Forall _ _ _ _ _ Hall Hf).
      * exists f. auto.
Qed.

Lemma foldM_app_ok {A B : Type} (f : B -> A -> M B) (l1 l2 : list A) :
  forall acc st r,
    foldM f (l1 ++ l2) acc st = Ok r ->
    exists acc1 st1, foldM f l1 acc st = Ok (acc1, st1) /\ foldM f l2 acc1 st1 = Ok r.
Proof.
  induction l1 as [|x l1 IH]; intros acc st r H.
  - exists acc, st. auto.
  - cbn [app foldM] in H. apply bind_ok in H. destruct H as (a & s1 & Hx & H).
    destruct (IH _ _ _ H) as (acc1 & st1 & H1 & H2).
    exists acc1, st1. split; [|assumption].
    cbn [foldM]. unfold bind. rewrite Hx. assumption.
Qed.

Section FacesLoop.
Variables (obj : Object) (uv_layer : list vec2) (v_local : list vec3)
          (p m : option mat3) (export_uvs export_generated_texture : bool).

Let step := face_step obj uv_layer v_local p m export_uvs export_generated_texture.

(** The loop keeps the six keys and the range of the key "rotation", and
    does not touch the directions that no polygon claims. *)
Lemma faces_loop_invariants (polys : list MeshPolygon) :
  forall faces st faces' st',
    foldM step polys faces st = Ok (faces', st') ->
    (dict_keys faces = face_keys -> dict_keys faces' = face_keys) /\
    (Forall (fun kv => rotation_key_ok (snd kv)) faces ->
     Forall (fun kv => rotation_key_ok (snd kv)) faces') /\
    (forall d, (forall face, In face polys -> face_direction p m face <> d) ->
       dict_get String.eqb faces' d = dict_get String.eqb faces d).
Proof.
  induction polys as [|face polys IH]; intros faces st faces' st' H.
  - apply ret_ok in H. destruct H as [-> _]. auto.
  - cbn [foldM] in H. apply bind_ok in H. destruct H as (faces1 & st1 & Hs & H).
    apply face_step_result in Hs. destruct Hs as (Ho & Hk & Hr & _).
    destruct (IH _ _ _ _ H) as (Hk' & Hr' & Ho').
    split; [auto|]. split; [auto|].
    intros d Hd. rewrite Ho'.
    + apply Ho. intros E. apply (Hd face); [left; reflexivity | auto].
    + intros face' Hin. apply Hd. right. assumption.
Qed.

(** A polygon that alone claims its direction finds the placeholder there,
    and what it writes is what the element carries. *)
Lemma faces_loop_sole_claimant (polys : list MeshPolygon) (i : nat) (face : MeshPolygon)
    (st : export_state) (faces' : list (string * FaceValue)) (st' : export_state) :
  foldM step polys initial_faces st = Ok (faces', st') ->
  nth_error polys i = Some face ->
  (forall j face', nth_error polys j = Some face' ->
     face_direction p m face' = face_direction p m face -> j = i) ->
  exists faces0 st0 faces1 st1,
    step faces0 face st0 = Ok (faces1, st1) /\
    dict_get String.eqb faces0 (face_direction p m face) = Some placeholder_face /\
    dict_get String.eqb faces' (face_direction p m face) =
      dict_get String.eqb faces1 (face_direction p m face).
Proof.
  intros H Hi Hsole.
  destruct (nth_error_split _ _ Hi) as (l1 & l2 & -> & Hlen).
  apply foldM_app_ok in H. destruct H as (faces0 & st0 & H1 & H2).
  cbn [foldM] in H2. apply bind_ok in H2. destruct H2 as (faces1 & st1 & Hs & H2).
  exists faces0, st0, faces1, st1. split; [exact Hs|].
  set (d := face_direction p m face) in *.
  assert (Hin : In d face_keys) by apply face_direction_in.
  split.
  - destruct (faces_loop_invariants _ _ _ _ _ H1) as (_ & _ & Ho).
    rewrite Ho.
    + simpl in Hin.
      destruct Hin as [<-|[<-|[<-|[<-|[<-|[<-|[]]]]]]]; reflexivity.
    + intros face' Hin' E. apply In_nth_error in Hin'. destruct Hin' as [j Hj].
      assert (j < List.length l1)%nat by (apply nth_error_Some; congruence).
      assert (j = i); [|lia].
      apply (Hsole j face'); [|exact E].
      rewrite nth_error_app1 by assumption. exact Hj.
  - destruct (faces_loop_invariants _ _ _ _ _ H2) as (_ & _ & Ho).
    apply Ho. intros face' Hin' E. apply In_nth_error in Hin'. destruct Hin' as [j Hj].
    assert (S (List.length l1 + j) = i); [|lia].
    apply (Hsole _ face'); [|exact E].
    rewrite nth_error_app2 by lia.
    replace (S (List.length l1 + j) - List.length l1)%nat with (S j) by lia.
    exact Hj.
Qed.
End FacesLoop.

(** ** Rotation origins *)

Lemma vadd_vzero (v : vec3) : vadd v vzero = v.
Proof. destruct v. unfold vadd, vzero. simpl. f_equal; lra. Qed.

Lemma identity_translation (inverse m : mat4) :
  inverse = Mat4 mat_id vzero -> m_trans (mat4_mul inverse m) = m_trans m.
Proof.
  intros ->. destruct m as [lin [x y z]].
  cbv [mat4_mul m_trans m_lin mat_vec mat_id vadd vdot vzero vx vy vz row0 row1 row2].
  f_equal; lra.
Qed.

(** C1 (as amended): the rotation origin of an exported element is the
    origin of the object in the frame of its parent, with the axes permuted,
    minus the cube origin of the parent plus the rotation origin of the
    parent.  Every child element is built for a child of the object with the
    [from] corner of the element as cube origin and its rotation origin as
    rotation origin.  So under a parent whose rotation origin is zero, whose
    world matrix has the identity as inverse and which hands on no 90 degree
    rotation, the rotation origin of a child without bone is the permuted
    translation of the child minus the [from] corner of the parent. *)
Theorem rotation_origin_accumulation {host : Mathutils}
    (fuel : nat) (obj : Object) (parent : option Object)
    (armature : option Armature) (bone_hierarchy : option (list (string * BoneNode)))
    (parent_matrix_world : option mat4) (parent_cube_origin parent_rotation_origin : vec3)
    (parent_rotation_90deg : option mat3) (export_uvs export_generated_texture : bool)
    (st st' : export_state) (e : Element) :
  generate_element fuel obj parent armature bone_hierarchy parent_matrix_world
    parent_cube_origin parent_rotation_origin parent_rotation_90deg
    export_uvs export_generated_texture st = Ok (Some e, st') ->
  exists mesh geo bone,
    data obj = MeshData mesh /\
    element_geometry (pred fuel) mesh obj armature bone_hierarchy parent_matrix_world
      parent_cube_origin parent_rotation_origin parent_rotation_90deg = Ok geo /\
    main_bone obj armature bone_hierarchy = Ok bone /\
    (let origin :=
       to_y_up (local_origin obj bone parent_matrix_world parent_rotation_90deg) in
     rotationOrigin e = vadd (vsub origin parent_cube_origin) parent_rotation_origin) /\
    let world := geo_matrix_world geo in
    let rotation_90deg :=
      child_rotation_90deg (geo_mat_rotate_90deg geo) parent_rotation_90deg in
    Forall (fun child_element =>
              exists child child_armature child_bone_hierarchy child_bone,
                child_of obj armature bone_hierarchy child child_armature
                  child_bone_hierarchy /\
                main_bone child child_armature child_bone_hierarchy = Ok child_bone /\
                let origin :=
                  to_y_up (local_origin child child_bone (Some world)
                             rotation_90deg) in
                rotationOrigin child_element =
                  vadd (vsub origin (element_from e)) (rotationOrigin e) /\
                (rotationOrigin e = vzero ->
                 inverted_safe world = Mat4 mat_id vzero ->
                 rotation_90deg = None ->
                 child_bone = None ->
                 rotationOrigin child_element =
                   vsub (to_y_up (m_trans (matrix_world child)))
                        (element_from e)))
           (element_children e).
Proof.
  intros H. apply generate_element_inv in H.
  destruct H as (fuel' & mesh & geo & uv_layer & fs & st1 & obj_name & collection &
                 children & attachpoints & -> & Hdata & Hlen & Hgeo & Huv & Hfaces &
                 Hchildren & ->).
  cbn [pred build_element rotationOrigin element_children element_from].
  destruct (element_geometry_inv _ _ _ _ _ _ _ _ _ _ Hgeo) as (bone & r & Hb & Ho & _).
  exists mesh, geo, bone.
  split; [assumption|]. split; [assumption|]. split; [assumption|]. split; [exact Ho|].
  eapply Forall_impl; [|exact Hchildren].
  intros ce (child & arm & bh & Hof & parent' & eu' & egt' & sa & sb & Hc).
  apply generate_element_inv in Hc.
  destruct Hc as (f2 & mesh2 & geo2 & uvl2 & fs2 & s2 & n2 & c2 & ch2 & ap2 & _ & _ & _ &
                  Hgeo2 & _ & _ & _ & ->).
  apply element_geometry_inv in Hgeo2. destruct Hgeo2 as (cbone & cr & Hcb & Hco & _).
  exists child, arm, bh, cbone.
  cbn [build_element rotationOrigin].
  split; [exact Hof|]. split; [exact Hcb|]. split; [exact Hco|].
  intros Hz Hinv Hrot Hnone. rewrite Hco, Hz, Hrot, Hnone, vadd_vzero.
  unfold local_origin. rewrite (identity_translation _ _ Hinv). reflexivity.
Qed.

(** ** Omitted rotations *)

Lemma rotation_key_present (x : R) (v : R) :
  (if negb (Reqb x 0) then Some x else None) = Some v <-> v = x /\ x <> 0.
Proof.
  destruct (Reqb x 0) eqn:E; simpl.
  - apply Reqb_spec in E. split; [discriminate | tauto].
  - split.
    + intros H. inversion H. split; [reflexivity|].
      intros Hx. apply Reqb_spec in Hx. congruence.
    + intros [-> _]. reflexivity.
Qed.

(** C4 (as amended): an element carries the key rotationX (rotationY,
    rotationZ) exactly when the component of the converted rotation is not
    zero, and then with that value; every key "rotation" of a face is 90, 180
    or 270; and for a textured polygon whose uvs are exported and that is the
    only one of the first six polygons classified to its direction, the face
    of that direction carries the key "rotation" exactly when the lookup-table
    rotation of the polygon is neither 0 nor 360, and then with that value.
    Nothing is said of a direction that several polygons are classified
    to. *)
Theorem zero_rotations_omitted {host : Mathutils}
    (fuel : nat) (obj : Object) (parent : option Object)
    (armature : option Armature) (bone_hierarchy : option (list (string * BoneNode)))
    (parent_matrix_world : option mat4) (parent_cube_origin parent_rotation_origin : vec3)
    (parent_rotation_90deg : option mat3) (export_uvs export_generated_texture : bool)
    (st st' : export_state) (e : Element) :
  generate_element fuel obj parent armature bone_hierarchy parent_matrix_world
    parent_cube_origin parent_rotation_origin parent_rotation_90deg
    export_uvs export_generated_texture st = Ok (Some e, st') ->
  exists mesh uv_layer geo obj_rotation,
    data obj = MeshData mesh /\
    uv_layers_active mesh = Some uv_layer /\
    element_geometry (pred fuel) mesh obj armature bone_hierarchy parent_matrix_world
      parent_cube_origin parent_rotation_origin parent_rotation_90deg = Ok geo /\
    let converted := to_vintagestory_rotation obj_rotation in
    geo_rotation geo = converted /\
    (forall v, rotationX e = Some v <-> v = vx converted /\ vx converted <> 0) /\
    (forall v, rotationY e = Some v <-> v = vy converted /\ vy converted <> 0) /\
    (forall v, rotationZ e = Some v <-> v = vz converted /\ vz converted <> 0) /\
    Forall (fun kv => rotation_key_ok (snd kv)) (faces e) /\
    let claimed := firstn 6 (polygons mesh) in
    let direction := face_direction parent_rotation_90deg (geo_mat_rotate_90deg geo) in
    forall i face t,
      nth_error claimed i = Some face ->
      (forall j face', nth_error claimed j = Some face' ->
         direction face' = direction face -> j = i) ->
      get_object_color obj (material_index face) default_color = Texture t ->
      export_uvs = true ->
      exists f uvs face_uv_rotation,
        dict_get String.eqb (faces e) (direction face) = Some (FaceOf f) /\
        face_uv uv_layer face (geo_v_local geo)
          (transformed_normal parent_rotation_90deg (geo_mat_rotate_90deg geo) face)
          (fst (size t)) (snd (size t)) = Ok (uvs, face_uv_rotation) /\
        (forall v, rotation f = Some v <->
           v = face_uv_rotation /\ face_uv_rotation <> 0%Z /\ face_uv_rotation <> 360%Z) /\
        (forall v, rotation f = Some v -> In v [90; 180; 270]%Z).
Proof.
  intros H. apply generate_element_inv in H.
  destruct H as (fuel' & mesh & geo & uv_layer & fs & st1 & obj_name & collection &
                 children & attachpoints & -> & Hdata & Hlen & Hgeo & Huv & Hfaces &
                 Hchildren & ->).
  destruct (element_geometry_inv _ _ _ _ _ _ _ _ _ _ Hgeo) as (bone & r & _ & _ & Hrot).
  exists mesh, uv_layer, geo, r. cbn [pred build_element rotationX rotationY rotationZ faces].
  rewrite Hrot.
  split; [assumption|]. split; [assumption|]. split; [assumption|]. split; [reflexivity|].
  split; [intros v; apply rotation_key_present|].
  split; [intros v; apply rotation_key_present|].
  split; [intros v; apply rotation_key_present|].
  split.
  - destruct (faces_loop_invariants _ _ _ _ _ _ _ _ _ _ _ _ Hfaces) as (_ & Hr & _).
    apply Hr. repeat constructor; simpl; auto.
  - intros i face t Hi Hsole Htex ->.
    destruct (faces_loop_sole_claimant _ _ _ _ _ _ _ _ _ _ _ _ _ Hfaces Hi Hsole)
      as (faces0 & st0 & faces1 & st1' & Hstep & Hbefore & Hafter).
    apply face_step_result in Hstep. destruct Hstep as (_ & _ & _ & Hd).
    rewrite Htex in Hd. destruct Hd as (f0 & Hf0 & uvs & rot & Hfuv & Hget).
    rewrite Hbefore in Hf0. inversion Hf0; subst f0. cbn [rotation autoUv] in Hget.
    eexists _, uvs, rot. split; [rewrite Hafter; exact Hget|]. split; [exact Hfuv|].
    cbn [rotation].
    pose proof (face_uv_rotation_values _ _ _ _ _ _ _ _ Hfuv) as Hrange.
    destruct (rotation_entry_spec None rot Hrange) as [Hnz Hz].
    destruct (Z.eq_dec rot 0) as [E|E].
    + rewrite (Hz E). split; [split; [discriminate | tauto] | discriminate].
    + destruct (Hnz E) as [-> Hin]. split.
      * intros v. split.
        -- intros Hv. inversion Hv; subst v. repeat split; auto.
           simpl in Hin. lia.
        -- intros [-> _]. reflexivity.
      * intros v Hv. inversion Hv; subst v. exact Hin.
Qed.

(** ** The six faces *)

Lemma Forall_flat_map_intro {A B : Type} (P : B -> Prop) (f : A -> list B) (l : list A) :
  Forall (fun a => Forall P (f a)) l -> Forall P (flat_map f l).
Proof.
  induction 1 as [|a l Ha _ IH]; simpl; [constructor|].
  apply Forall_app. auto.
Qed.

Section SixFaces.
Context {host : Mathutils}.

Lemma element_face_keys (fuel : nat) (arm : option Armature)
    (bh : option (list (string * BoneNode))) (pmw : option mat4) (pco pro : vec3)
    (pr90 : option mat3) (obj : Object) (e : Element) :
  produced_in fuel arm bh pmw pco pro pr90 obj e -> dict_keys (faces e) = face_keys.
Proof.
  intros (parent & eu & egt & st & st' & H).
  apply generate_element_inv in H.
  destruct H as (fuel' & mesh & geo & uv_layer & fs & st1 & obj_name & collection &
                 children & attachpoints & _ & _ & _ & _ & _ & Hfaces & _ & ->).
  cbn [build_element faces].
  destruct (faces_loop_invariants _ _ _ _ _ _ _ _ _ _ _ _ Hfaces) as (Hk & _ & _).
  apply Hk. reflexivity.
Qed.

Lemma element_tree_face_keys (fuel : nat) :
  forall arm bh pmw pco pro pr90 obj e,
    produced_in fuel arm bh pmw pco pro pr90 obj e ->
    Forall (fun e' => dict_keys (faces e') = face_keys) (elements e).
Proof.
  induction fuel as [|fuel IH]; intros arm bh pmw pco pro pr90 obj e Hp.
  - destruct Hp as (parent & eu & egt & st & st' & H). discriminate.
  - pose proof (element_face_keys _ _ _ _ _ _ _ _ _ Hp) as Hk.
    destruct Hp as (parent & eu & egt & st & st' & H).
    apply generate_element_inv in H.
    destruct H as (fuel' & mesh & geo & uv_layer & fs & st1 & obj_name & collection &
                   children & attachpoints & Hf & _ & _ & _ & _ & _ & Hchildren & ->).
    inversion Hf; subst fuel'.
    cbn [elements build_element element_children] in *.
    constructor; [exact Hk|].
    apply Forall_flat_map_intro.
    eapply Forall_impl; [|exact Hchildren].
    intros ce (child & carm & cbh & _ & Hc). eapply IH. exact Hc.
Qed.
End SixFaces.

Lemma get_object_color_no_slot (obj : Object) (i : nat) :
  (List.length (material_slots obj) <= i)%nat ->
  get_object_color obj i default_color = Color default_color.
Proof.
  intros H. unfold get_object_color. apply Nat.ltb_ge in H. rewrite H. reflexivity.
Qed.

(** The face left in a direction by the polygon that alone claims it. *)
Lemma sole_claimant_face (obj : Object) (uv_layer : list vec2) (v_local : list vec3)
    (p m : option mat3) (export_uvs export_generated_texture : bool)
    (polys : list MeshPolygon) (st st' : export_state) (fs : list (string * FaceValue))
    (i : nat) (face : MeshPolygon) :
  foldM (face_step obj uv_layer v_local p m export_uvs export_generated_texture)
        polys initial_faces st = Ok (fs, st') ->
  nth_error polys i = Some face ->
  (forall j face', nth_error polys j = Some face' ->
     face_direction p m face' = face_direction p m face -> j = i) ->
  match get_object_color obj (material_index face) default_color with
  | Color c =>
      dict_get String.eqb fs (face_direction p m face) =
        Some (if export_generated_texture then FaceColor c else placeholder_face)
  | Texture t =>
      export_uvs = false ->
      dict_get String.eqb fs (face_direction p m face) =
        Some (FaceOf {| texture := path t; uv := [0; 0; 4; 4]; autoUv := false;
                        rotation := None |})
  end.
Proof.
  intros Hfaces Hi Hs.
  destruct (faces_loop_sole_claimant _ _ _ _ _ _ _ _ _ _ _ _ _ Hfaces Hi Hs)
    as (faces0 & st0 & faces1 & st1' & Hstep & Hbefore & Hafter).
  apply face_step_result in Hstep. destruct Hstep as (_ & _ & _ & Hd).
  destruct (get_object_color obj (material_index face) default_color) as [c|t].
  - rewrite Hafter. destruct export_generated_texture; [exact Hd|].
    subst faces1. exact Hbefore.
  - intros ->. destruct Hd as (f0 & Hf0 & Hget).
    rewrite Hbefore in Hf0. inversion Hf0; subst f0.
    rewrite Hafter. exact Hget.
Qed.

(** C9 (as amended): every element of the exported tree has a dict [faces]
    with exactly the six keys north, east, south, west, up and down.  A
    direction that none of the first six polygons claims keeps the
    placeholder, texture "#0" with uv [0, 0, 4, 4].  For a polygon that alone
    claims its direction: a color tuple (the default color when the material
    yields neither a color nor a texture) replaces the face when the texture
    is generated and leaves the placeholder otherwise, and a texture whose
    uvs are not exported keeps the placeholder uv but sets the texture
    path. *)
Theorem faces_keys_and_placeholders {host : Mathutils}
    (fuel : nat) (obj : Object) (parent : option Object)
    (armature : option Armature) (bone_hierarchy : option (list (string * BoneNode)))
    (parent_matrix_world : option mat4) (parent_cube_origin parent_rotation_origin : vec3)
    (parent_rotation_90deg : option mat3) (export_uvs export_generated_texture : bool)
    (st st' : export_state) (e : Element) :
  generate_element fuel obj parent armature bone_hierarchy parent_matrix_world
    parent_cube_origin parent_rotation_origin parent_rotation_90deg
    export_uvs export_generated_texture st = Ok (Some e, st') ->
  Forall (fun e' => dict_keys (faces e') =
                      ["north"; "east"; "south"; "west"; "up"; "down"]%string)
         (elements e) /\
  exists mesh geo,
    data obj = MeshData mesh /\
    element_geometry (pred fuel) mesh obj armature bone_hierarchy parent_matrix_world
      parent_cube_origin parent_rotation_origin parent_rotation_90deg = Ok geo /\
    let claimed := firstn 6 (polygons mesh) in
    let direction := face_direction parent_rotation_90deg (geo_mat_rotate_90deg geo) in
    (forall d, In d face_keys ->
       (forall face, In face claimed -> direction face <> d) ->
       dict_get String.eqb (faces e) d = Some placeholder_face) /\
    (forall i face,
       nth_error claimed i = Some face ->
       (forall j face', nth_error claimed j = Some face' ->
          direction face' = direction face -> j = i) ->
       match get_object_color obj (material_index face) default_color with
       | Color c =>
           dict_get String.eqb (faces e) (direction face) =
             Some (if export_generated_texture then FaceColor c else placeholder_face)
       | Texture t =>
           export_uvs = false ->
           dict_get String.eqb (faces e) (direction face) =
             Some (FaceOf {| texture := path t; uv := [0; 0; 4; 4]; autoUv := false;
                             rotation := None |})
       end /\
       ((List.length (material_slots obj) <= material_index face)%nat ->
        export_generated_texture = true ->
        dict_get String.eqb (faces e) (direction face) = Some (FaceColor default_color))).
Proof.
  intros H.
  split.
  { apply (element_tree_face_keys fuel armature bone_hierarchy parent_matrix_world
             parent_cube_origin parent_rotation_origin parent_rotation_90deg obj).
    red. repeat eexists. exact H. }
  apply generate_element_inv in H.
  destruct H as (fuel' & mesh & geo & uv_layer & fs & st1 & obj_name & collection &
                 children & attachpoints & -> & Hdata & Hlen & Hgeo & Huv & Hfaces &
                 Hchildren & ->).
  exists mesh, geo. cbn [pred build_element faces].
  split; [assumption|]. split; [assumption|].
  pose proof (fun i face => sole_claimant_face _ _ _ _ _ _ _ _ _ _ _ i face Hfaces)
    as Hsole.
  split.
  - intros d Hd Hfree.
    destruct (faces_loop_invariants _ _ _ _ _ _ _ _ _ _ _ _ Hfaces) as (_ & _ & Ho).
    rewrite (Ho d Hfree). simpl in Hd.
    destruct Hd as [<-|[<-|[<-|[<-|[<-|[<-|[]]]]]]]; reflexivity.
  - intros i face Hi Hs. split; [exact (Hsole i face Hi Hs)|].
    intros Hslot ->. specialize (Hsole i face Hi Hs).
    rewrite (get_object_color_no_slot _ _ Hslot) in Hsole. exact Hsole.
Qed.

(** ** Runs of the builder *)

Lemma get_reduced_rotation_zero (fuel : nat) :
  get_reduced_rotation fuel vzero = Some (vzero, None).
Proof.
  pose proof eps_small as [He1 He2]. pose proof PI_RGT_0 as Hpi.
  unfold get_reduced_rotation, reduce_steps, vzero. cbv [vx vy vz].
  rewrite !reduce_axis_no_step by (rewrite Rabs_R0; lra). reflexivity.
Qed.

Section Runs.
Context {host : Mathutils}.

(** The geometry of an object without armature, without pending rotation
    and whose rotation has no 90 degree step. *)
Lemma element_geometry_plain (fuel : nat) (mesh : Mesh) (obj : Object)
    (pmw : option mat4) (pco pro : vec3) (residual : vec3) :
  let obj_rotation :=
    match pmw with
    | Some m => decompose_rotation (mat4_mul (inverted_safe m) (matrix_world obj))
    | None => rotation_euler obj
    end in
  let origin :=
    match pmw with
    | Some m => m_trans (mat4_mul (inverted_safe m) (matrix_world obj))
    | None => location obj
    end in
  let v := mesh_vertices mesh in
  let v_min := Vec3 (amin (map vx v)) (amin (map vy v)) (amin (map vz v)) in
  get_reduced_rotation fuel obj_rotation = Some (residual, None) ->
  exists geo,
    element_geometry fuel mesh obj None None pmw pco pro None = Ok geo /\
    geo_matrix_world geo = matrix_world obj /\
    geo_v_local geo = mesh_vertices mesh /\
    geo_mat_rotate_90deg geo = None /\
    geo_rotation_origin geo = vadd (vsub (to_y_up origin) pco) pro /\
    geo_v_from geo =
      vadd (vadd (to_y_up v_min) (vadd (vsub (to_y_up origin) pco) pro)) (to_y_up vzero).
Proof.
  intros obj_rotation origin v v_min Hred.
  unfold element_geometry. cbn [main_bone rbind option_map].
  fold obj_rotation. rewrite Hred. cbn [option_map].
  eexists. split; [reflexivity|].
  cbn [geo_matrix_world geo_v_local geo_mat_rotate_90deg geo_rotation_origin geo_v_from].
  unfold local_origin. fold origin.
  destruct pmw; repeat split; reflexivity.
Qed.

(** The loop over polygons that all resolve to colors does not raise. *)
Lemma faces_loop_colors (obj : Object) (uv_layer : list vec2) (v_local : list vec3)
    (p m : option mat3) (eu egt : bool) (polys : list MeshPolygon) :
  (forall face, In face polys ->
     exists c, get_object_color obj (material_index face) default_color = Color c) ->
  forall faces st, exists faces' st',
    foldM (face_step obj uv_layer v_local p m eu egt) polys faces st = Ok (faces', st').
Proof.
  induction polys as [|face polys IH]; intros Hc faces st.
  - exists faces, st. reflexivity.
  - destruct (Hc face (or_introl eq_refl)) as [c Hcol].
    assert (Hstep : exists faces1 st1,
              face_step obj uv_layer v_local p m eu egt faces face st = Ok (faces1, st1)).
    { unfold face_step. rewrite Hcol. destruct egt; [|eexists _, _; reflexivity].
      unfold bind, add_model_color, ret.
      destruct (model_colors st); eexists _, _; reflexivity. }
    destruct Hstep as (faces1 & st1 & Hstep).
    destruct (IH (fun f Hf => Hc f (or_intror Hf)) faces1 st1) as (faces' & st' & Hrest).
    exists faces', st'. cbn [foldM]. unfold bind. rewrite Hstep. exact Hrest.
Qed.

(** A call without bone hierarchy returns the element built from the
    results of its parts. *)
Lemma generate_element_intro (fuel : nat) (obj : Object) (mesh : Mesh)
    (parent : option Object) (armature : option Armature)
    (pmw : option mat4) (pco pro : vec3) (pr90 : option mat3) (eu egt : bool)
    (geo : Geometry) (uv_layer : list vec2) (fs : list (string * FaceValue))
    (cs : list Element) (aps : list AttachPoint) (collection : option string)
    (st st1 st2 : export_state) :
  data obj = MeshData mesh ->
  List.length (mesh_vertices mesh) = 8%nat ->
  element_geometry fuel mesh obj armature None pmw pco pro pr90 = Ok geo ->
  uv_layers_active mesh = Some uv_layer ->
  foldM (face_step obj uv_layer (geo_v_local geo) pr90 (geo_mat_rotate_90deg geo) eu egt)
        (firstn 6 (polygons mesh)) initial_faces st = Ok (fs, st1) ->
  foldM (child_step
           (fun child =>
              generate_attach_point fuel child (Some obj) armature (geo_v_from geo)
                (geo_rotation_origin geo)
                (child_rotation_90deg (geo_mat_rotate_90deg geo) pr90))
           (fun child =>
              generate_element fuel child (Some obj) None None
                (Some (geo_matrix_world geo)) (geo_v_from geo) (geo_rotation_origin geo)
                (child_rotation_90deg (geo_mat_rotate_90deg geo) pr90) eu true))
        (children obj) ([], []) st1 = Ok ((cs, aps), st2) ->
  index (users_collection obj) 0 = Ok collection ->
  generate_element (S fuel) obj parent armature None pmw pco pro pr90 eu egt st =
    Ok (Some (build_element (name obj) geo collection fs cs aps), st2).
Proof.
  intros Hdata Hlen Hgeo Huv Hfaces Hchildren Hcoll.
  cbn [generate_element]. rewrite Hdata, Hlen. cbn [Nat.eqb negb].
  unfold bind at 1. rewrite Hgeo. cbn [lift].
  rewrite Huv. unfold bind at 1. cbn [ret].
  unfold bind at 1. rewrite Hfaces.
  unfold bind at 1. rewrite Hchildren.
  unfold bind at 1. cbn [ret].
  unfold bind at 1. rewrite Hcoll. reflexivity.
Qed.
End Runs.

(** ** The example scenes *)

Ltac decide_Rltb :=
  repeat match goal with
         | |- context [Rltb ?a ?b] =>
             first [rewrite (Rltb_true a b) by lra | rewrite (Rltb_false a b) by lra]
         end.

Ltac decide_Rmin_Rmax :=
  repeat match goal with
         | |- context [Rmin ?a ?b] =>
             first [rewrite (Rmin_left a b) by lra | rewrite (Rmin_right a b) by lra]
         | |- context [Rmax ?a ?b] =>
             first [rewrite (Rmax_left a b) by lra | rewrite (Rmax_right a b) by lra]
         end.

Ltac eval_direction :=
  cbv [face_direction face_direction_index transformed_normal normal cube_face
       face_north face_east face_south face_west face_down face_up
       DIRECTION_NORMALS map vdot vx vy vz argmax argmax_from];
  decide_Rltb; reflexivity.

Lemma cube_face_directions :
  face_direction None None face_north = "north"%string /\
  face_direction None None face_east = "east"%string /\
  face_direction None None face_south = "south"%string /\
  face_direction None None face_west = "west"%string /\
  face_direction None None face_down = "down"%string /\
  face_direction None None face_up = "up"%string.
Proof. repeat split; eval_direction. Qed.

Lemma cube_corners :
  amin (map vx cube_vertices) = -1 /\ amin (map vy cube_vertices) = -1 /\
  amin (map vz cube_vertices) = -1 /\
  amax (map vx cube_vertices) = 1 /\ amax (map vy cube_vertices) = 1 /\
  amax (map vz cube_vertices) = 1.
Proof.
  repeat split; cbv [amin amax cube_vertices map fold_left vx vy vz];
    decide_Rmin_Rmax; reflexivity.
Qed.

(** Each face of the cube is the only one with its direction. *)
Lemma cube_sole_claimants (i j : nat) (face face' : MeshPolygon) :
  nth_error (firstn 6 (polygons cube_mesh)) i = Some face ->
  nth_error (firstn 6 (polygons cube_mesh)) j = Some face' ->
  face_direction None None face' = face_direction None None face -> j = i.
Proof.
  destruct cube_face_directions as (Hn & He & Hs & Hw & Hd & Hu).
  intros Hi Hj.
  assert (Hi6 : (i < 6)%nat).
  { change 6%nat with (List.length (firstn 6 (polygons cube_mesh))).
    apply nth_error_Some. congruence. }
  assert (Hj6 : (j < 6)%nat).
  { change 6%nat with (List.length (firstn 6 (polygons cube_mesh))).
    apply nth_error_Some. congruence. }
  destruct i as [|[|[|[|[|[|i]]]]]]; try lia;
    cbv [nth_error firstn polygons cube_mesh] in Hi; injection Hi as <-;
    destruct j as [|[|[|[|[|[|j]]]]]]; try lia;
    cbv [nth_error firstn polygons cube_mesh] in Hj; injection Hj as <-;
    rewrite ?Hn, ?He, ?Hs, ?Hw, ?Hd, ?Hu; intros E; try reflexivity; discriminate.
Qed.

(** A cube object without children is exported as one element when the loop
    over its faces does not raise. *)
Lemma cube_leaf_run (n : string) (loc : vec3) (slots : list (option Material))
    (parent : option Object) (pmw : option mat4) (pco pro : vec3) (eu egt : bool)
    (st : export_state) :
  let obj := mesh_object n cube_mesh loc slots [] in
  let uv_layer :=
    unit_square ++ unit_square ++ unit_square ++ unit_square ++ unit_square
    ++ unit_square in
  let origin :=
    match pmw with
    | Some m => m_trans (mat4_mul (@inverted_safe unrotated_host m) (matrix_world obj))
    | None => loc
    end in
  (exists fs st',
     foldM (face_step obj uv_layer cube_vertices None None eu egt)
           (firstn 6 (polygons cube_mesh)) initial_faces st = Ok (fs, st')) ->
  exists geo fs st',
    @generate_element unrotated_host 1 obj parent None None pmw pco pro None eu egt st =
      Ok (Some (build_element n geo (Some "Collection"%string) fs [] []), st') /\
    foldM (face_step obj uv_layer cube_vertices None None eu egt)
          (firstn 6 (polygons cube_mesh)) initial_faces st = Ok (fs, st') /\
    @element_geometry unrotated_host 0 cube_mesh obj None None pmw pco pro None = Ok geo /\
    geo_v_local geo = cube_vertices /\
    geo_matrix_world geo = Mat4 mat_id loc /\
    geo_mat_rotate_90deg geo = None /\
    geo_rotation_origin geo = vadd (vsub (to_y_up origin) pco) pro /\
    geo_v_from geo =
      vadd (vadd (Vec3 (-1) (-1) (-1)) (vadd (vsub (to_y_up origin) pco) pro))
           (to_y_up vzero).
Proof.
  intros obj uv_layer origin (fs & st' & Hfaces).
  destruct (@element_geometry_plain unrotated_host 0 cube_mesh obj pmw pco pro vzero)
    as (geo & Hgeo & Hmw & Hvl & Hrot & Hro & Hfrom).
  { destruct pmw; apply get_reduced_rotation_zero. }
  exists geo, fs, st'.
  split; [|split; [exact Hfaces|]].
  - apply (@generate_element_intro unrotated_host 0 obj cube_mesh parent None pmw pco pro
             None eu egt geo uv_layer fs [] [] (Some "Collection"%string) st st' st');
      try reflexivity; try assumption.
    rewrite Hvl, Hrot. exact Hfaces.
  - split; [exact Hgeo|]. split; [exact Hvl|].
    split; [exact Hmw|]. split; [exact Hrot|]. split; [destruct pmw; exact Hro|].
    rewrite Hfrom. destruct cube_corners as (Hx & Hy & Hz & _).
    cbv [mesh_vertices cube_mesh]. rewrite Hx, Hy, Hz.
    destruct pmw; reflexivity.
Qed.

Lemma no_slot_colors (n : string) (mesh : Mesh) (loc : vec3) (kids : list Object) (i : nat) :
  exists c, get_object_color (mesh_object n mesh loc [] kids) i default_color = Color c.
Proof. exists default_color. apply get_object_color_no_slot. simpl. lia. Qed.

(** C9, counterexample: the cube without material is exported, and its face
    "up", whose material yields neither a color nor a texture, is the default
    color tuple and not the placeholder. *)
Lemma default_color_replaces_placeholder :
  exists e st',
    @generate_element unrotated_host 1 plain_cube None None None None vzero vzero None
      true true empty_state = Ok (Some e, st') /\
    dict_get String.eqb (faces e) "up"%string = Some (FaceColor default_color) /\
    Some (FaceColor default_color) <> Some placeholder_face.
Proof.
  destruct (cube_leaf_run "Cube"%string vzero [] None None vzero vzero true true empty_state)
    as (geo & fs & st' & Hrun & Hfaces & _).
  { apply faces_loop_colors. intros face _. apply no_slot_colors. }
  exists (build_element "Cube"%string geo (Some "Collection"%string) fs [] []), st'.
  split; [exact Hrun|]. split; [|discriminate].
  cbn [build_element faces].
  pose proof (sole_claimant_face _ _ _ _ _ _ _ _ _ _ _ 5%nat face_up Hfaces eq_refl) as H.
  destruct cube_face_directions as (_ & _ & _ & _ & _ & Hu). rewrite Hu in H.
  apply H. intros j face' Hj E. rewrite <- Hu in E.
  exact (cube_sole_claimants 5 j face_up face' eq_refl Hj E).
Qed.

(** C9, witness: the theorem at the cube without material. *)
Lemma faces_keys_and_placeholders_witness :
  exists e st',
    @generate_element unrotated_host 1 plain_cube None None None None vzero vzero None
      true true empty_state = Ok (Some e, st') /\
    Forall (fun e' => dict_keys (faces e') =
                        ["north"; "east"; "south"; "west"; "up"; "down"]%string)
           (elements e).
Proof.
  destruct (cube_leaf_run "Cube"%string vzero [] None None vzero vzero true true empty_state)
    as (geo & fs & st' & Hrun & _).
  { apply faces_loop_colors. intros face _. apply no_slot_colors. }
  exists (build_element "Cube"%string geo (Some "Collection"%string) fs [] []), st'.
  split; [exact Hrun|].
  exact (proj1 (@faces_keys_and_placeholders unrotated_host _ _ _ _ _ _ _ _ _ _ _ _ _ _
                  Hrun)).
Defined.

(** The export of the cube at the origin with a child cube translated by
    (1, 0, 0). *)
Lemma parent_cube_run :
  exists parent_element child_element st',
    @generate_element unrotated_host 2 parent_cube None None None None vzero vzero None
      true true empty_state = Ok (Some parent_element, st') /\
    element_children parent_element = [child_element] /\
    rotationOrigin parent_element = Vec3 0 0 0 /\
    element_from parent_element = Vec3 (-1) (-1) (-1) /\
    rotationOrigin child_element = Vec3 1 1 2.
Proof.
  (* the geometry and the faces of the parent *)
  destruct (@element_geometry_plain unrotated_host 1 cube_mesh parent_cube None
              vzero vzero vzero (get_reduced_rotation_zero 1))
    as (geo & Hgeo & Hmw & Hvl & Hrot & Hro & Hfrom).
  destruct (faces_loop_colors parent_cube
              (unit_square ++ unit_square ++ unit_square ++ unit_square
               ++ unit_square ++ unit_square)
              cube_vertices None None true true (firstn 6 (polygons cube_mesh))
              (fun face _ => no_slot_colors _ _ _ _ (material_index face))
              initial_faces empty_state)
    as (fs & st1 & Hfaces).
  (* the child, in the frame of the parent *)
  destruct (cube_leaf_run "Child"%string (Vec3 1 0 0) [] (Some parent_cube)
              (Some (geo_matrix_world geo)) (geo_v_from geo) (geo_rotation_origin geo)
              true true st1)
    as (cgeo & cfs & st2 & Hchild & _ & _ & _ & _ & _ & Hcro & _).
  { apply faces_loop_colors. intros face _. apply no_slot_colors. }
  set (child_element := build_element "Child"%string cgeo (Some "Collection"%string) cfs [] []) in *.
  exists (build_element "Parent"%string geo (Some "Collection"%string) fs [child_element] []),
    child_element, st2.
  split; [|split; [reflexivity|]].
  - apply (@generate_element_intro unrotated_host 1 parent_cube cube_mesh None None None
             vzero vzero None true true geo
             (unit_square ++ unit_square ++ unit_square ++ unit_square
              ++ unit_square ++ unit_square)
             fs [child_element] [] (Some "Collection"%string) empty_state st1 st2);
      try reflexivity; try assumption.
    + rewrite Hvl, Hrot. exact Hfaces.
    + rewrite Hrot. cbn [child_rotation_90deg].
      change (children parent_cube) with [child_cube]. cbn [foldM].
      unfold bind at 1. unfold child_step.
      change (type child_cube =? "EMPTY"%string)%string with false. cbv iota.
      unfold bind at 1. change child_cube with (mesh_object "Child"%string cube_mesh (Vec3 1 0 0) [] []).
      rewrite Hchild. reflexivity.
  - cbn [build_element rotationOrigin element_from]. unfold child_element.
    cbn [build_element rotationOrigin]. rewrite Hcro, Hfrom, Hro, Hmw.
    destruct cube_corners as (Hx & Hy & Hz & _).
    cbv [mesh_vertices cube_mesh]. rewrite Hx, Hy, Hz.
    cbv [location parent_cube mesh_object matrix_world m_trans mat4_mul inverted_safe
         unrotated_host m_lin mat_vec mat_id vadd vsub vzero to_y_up vdot vx vy vz
         row0 row1 row2].
    repeat split; f_equal; lra.
Qed.

(** C1, counterexample: the parent cube is untransformed at the origin and
    the child is translated by (1, 0, 0) without rotation; the rotation
    origin of the exported child is (1, 1, 2), which is neither the [from]
    corner of the parent plus the permuted translation of the child nor the
    value of [parent_cube_origin - parent_rotation_origin + origin]. *)
Lemma rotation_origin_is_not_from_plus_translation :
  exists parent_element child_element st',
    @generate_element unrotated_host 2 parent_cube None None None None vzero vzero None
      true true empty_state = Ok (Some parent_element, st') /\
    element_children parent_element = [child_element] /\
    rotationOrigin child_element = Vec3 1 1 2 /\
    vadd (element_from parent_element) (to_y_up (Vec3 1 0 0)) = Vec3 (-1) (-1) 0 /\
    rotationOrigin child_element <>
      vadd (element_from parent_element) (to_y_up (Vec3 1 0 0)) /\
    rotationOrigin child_element <>
      vadd (vsub (element_from parent_element) (rotationOrigin parent_element))
           (to_y_up (Vec3 1 0 0)).
Proof.
  destruct parent_cube_run as (pe & ce & st' & Hrun & Hch & Hpro & Hpfrom & Hcro).
  exists pe, ce, st'. rewrite Hcro, Hpfrom, Hpro.
  split; [exact Hrun|]. split; [exact Hch|]. split; [reflexivity|].
  cbv [vadd vsub to_y_up vx vy vz].
  split; [f_equal; lra|].
  split; intros H; apply (f_equal vx) in H; cbv [vx] in H; lra.
Qed.

(** C1, witness: the theorem at the parent cube with its child. *)
Lemma rotation_origin_accumulation_witness :
  exists parent_element st',
    @generate_element unrotated_host 2 parent_cube None None None None vzero vzero None
      true true empty_state = Ok (Some parent_element, st') /\
    Forall (fun child_element =>
              exists child,
                In child (children parent_cube) /\
                rotationOrigin child_element =
                  vsub (to_y_up (m_trans (matrix_world child)))
                       (element_from parent_element))
           (element_children parent_element).
Proof.
  destruct parent_cube_run as (pe & ce & st' & Hrun & _ & Hpro & _).
  exists pe, st'. split; [exact Hrun|].
  destruct (@rotation_origin_accumulation unrotated_host _ _ _ _ _ _ _ _ _ _ _ _ _
              _ Hrun) as (mesh & geo & bone & Hdata & Hgeo & _ & _ & Hchildren).
  injection Hdata as <-. cbn [pred] in Hgeo.
  destruct (@element_geometry_plain unrotated_host 1 cube_mesh parent_cube None
              vzero vzero vzero (get_reduced_rotation_zero 1))
    as (geo' & Hgeo' & Hmw & _ & Hrot & _).
  rewrite Hgeo in Hgeo'. injection Hgeo' as <-.
  cbv zeta in Hchildren. rewrite Hmw, Hrot in Hchildren.
  eapply Forall_impl; [|exact Hchildren].
  intros child_element (child & arm & bh & cbone & Hof & Hcb & _ & Hspecial).
  destruct Hof as [(Hin & -> & ->)|(bh' & _ & _ & Hbh & _)]; [|discriminate].
  exists child. split; [exact Hin|].
  apply Hspecial.
  - exact Hpro.
  - cbv [inverted_safe unrotated_host matrix_world parent_cube mesh_object m_trans vzero
         vx vy vz].
    do 2 f_equal; lra.
  - reflexivity.
  - cbn [main_bone] in Hcb. injection Hcb as <-. reflexivity.
Defined.

Lemma dict_get_in_keys {V : Type} (d : list (string * V)) (k : string) :
  In k (dict_keys d) -> exists v, dict_get String.eqb d k = Some v.
Proof.
  unfold dict_keys. induction d as [|[k' v'] d IH]; simpl; [tauto|].
  intros Hin. destruct (String.eqb_spec k k') as [->|Hne].
  - exists v'. reflexivity.
  - destruct Hin as [E|Hin]; [congruence | auto].
Qed.

(** The loop over polygons that all resolve to textures, with valid loop
    and vertex indices, does not raise. *)
Lemma faces_loop_textures (obj : Object) (uv_layer : list vec2) (v_local : list vec3)
    (p m : option mat3) (egt : bool) (polys : list MeshPolygon) :
  (forall face, In face polys ->
     exists t r,
       get_object_color obj (material_index face) default_color = Texture t /\
       face_uv uv_layer face v_local (transformed_normal p m face)
               (fst (size t)) (snd (size t)) = Ok r) ->
  forall faces st,
    dict_keys faces = face_keys ->
    Forall (fun kv => exists f, snd kv = FaceOf f) faces ->
    exists faces' st',
      foldM (face_step obj uv_layer v_local p m true egt) polys faces st = Ok (faces', st').
Proof.
  induction polys as [|face polys IH]; intros Ht faces st Hk Hall.
  - exists faces, st. reflexivity.
  - destruct (Ht face (or_introl eq_refl)) as (t & [uvs rot] & Hcol & Huv).
    assert (Hd : exists f, dict_get String.eqb faces (face_direction p m face)
                           = Some (FaceOf f)).
    { destruct (dict_get_in_keys faces (face_direction p m face)) as [v Hv].
      - rewrite Hk. apply face_direction_in.
      - destruct (dict_get_Forall String.eqb (fun v => exists f, v = FaceOf f) _ _ _ Hall Hv)
          as [f ->].
        exists f. exact Hv. }
    destruct Hd as [f Hf].
    assert (Hstep : exists faces1 st1,
              face_step obj uv_layer v_local p m true egt faces face st = Ok (faces1, st1) /\
              exists g, faces1 = dict_set String.eqb faces (face_direction p m face) (FaceOf g)).
    { unfold face_step. rewrite Hcol. unfold face_dict. rewrite Hf.
      unfold bind, lift, set_model_texture, ret. rewrite Huv.
      eexists _, _. split; [reflexivity|]. eexists. reflexivity. }
    destruct Hstep as (faces1 & st1 & Hstep & g & Hg).
    destruct (IH (fun f' Hf' => Ht f' (or_intror Hf')) faces1 st1) as (faces' & st' & Hrest).
    + apply face_step_result in Hstep. destruct Hstep as (_ & Hk' & _). auto.
    + rewrite Hg.
      apply (dict_set_Forall String.eqb (fun v => exists f, v = FaceOf f));
        [assumption|]. exists g. reflexivity.
    + exists faces', st'. cbn [foldM]. unfold bind. rewrite Hstep. exact Hrest.
Qed.

Lemma textured_cube_faces (face : MeshPolygon) :
  In face (firstn 6 (polygons cube_mesh)) ->
  exists t r,
    get_object_color textured_cube (material_index face) default_color = Texture t /\
    face_uv (unit_square ++ unit_square ++ unit_square ++ unit_square ++ unit_square
             ++ unit_square)
            face cube_vertices (transformed_normal None None face)
            (fst (size t)) (snd (size t)) = Ok r.
Proof.
  intros Hin. exists stone_texture.
  cbv [firstn polygons cube_mesh In] in Hin.
  destruct Hin as [<-|[<-|[<-|[<-|[<-|[<-|[]]]]]]];
    (eexists; split; [reflexivity|]);
    cbv [face_uv rbind index nth_error mapR app unit_square cube_vertices
         loop_start vertices cube_face face_north face_east face_south face_west
         face_down face_up Nat.mul Nat.add map];
    reflexivity.
Qed.

(** The export of the textured cube, with uvs. *)
Lemma textured_cube_run :
  exists geo fs st',
    @generate_element unrotated_host 1 textured_cube None None None None vzero vzero None
      true true empty_state =
      Ok (Some (build_element "Stone" geo (Some "Collection"%string) fs [] []), st') /\
    @element_geometry unrotated_host 0 cube_mesh textured_cube None None None vzero vzero
      None = Ok geo /\
    geo_mat_rotate_90deg geo = None.
Proof.
  destruct (cube_leaf_run "Stone"%string vzero [Some textured_material] None None vzero
              vzero true true empty_state)
    as (geo & fs & st' & Hrun & _ & Hgeo & _ & _ & Hrot & _).
  { apply faces_loop_textures.
    - exact textured_cube_faces.
    - reflexivity.
    - repeat constructor; eexists; reflexivity. }
  exists geo, fs, st'. auto.
Qed.

(** C4, witness: the theorem at the textured cube; the face "up" is claimed
    by one polygon only. *)
Lemma zero_rotations_omitted_witness :
  exists e st',
    @generate_element unrotated_host 1 textured_cube None None None None vzero vzero None
      true true empty_state = Ok (Some e, st') /\
    Forall (fun kv => rotation_key_ok (snd kv)) (faces e) /\
    exists f face_uv_rotation,
      dict_get String.eqb (faces e) "up"%string = Some (FaceOf f) /\
      (forall v, rotation f = Some v <->
         v = face_uv_rotation /\ face_uv_rotation <> 0%Z /\ face_uv_rotation <> 360%Z).
Proof.
  destruct textured_cube_run as (geo & fs & st' & Hrun & Hgeo & Hrot).
  eexists _, st'. split; [exact Hrun|].
  destruct (@zero_rotations_omitted unrotated_host _ _ _ _ _ _ _ _ _ _ _ _ _ _ Hrun)
    as (mesh & uvl & geo' & r & Hdata & _ & Hgeo' & _ & _ & _ & _ & Hok & Htex).
  split; [exact Hok|].
  injection Hdata as <-. cbn [pred] in Hgeo'. rewrite Hgeo in Hgeo'.
  injection Hgeo' as <-. rewrite Hrot in Htex.
  destruct cube_face_directions as (_ & _ & _ & _ & _ & Hu).
  destruct (Htex 5%nat face_up stone_texture eq_refl) as (f & uvs & rot & Hf & _ & Hiff & _).
  - intros j face' Hj E. exact (cube_sole_claimants 5 j face_up face' eq_refl Hj E).
  - reflexivity.
  - reflexivity.
  - rewrite Hu in Hf. exists f, rot. split; [exact Hf | exact Hiff].
Defined.

Ltac eval_face_uv :=
  cbv [face_uv rbind index nth_error mapR app unit_square flipped_uv_layer cube_vertices
       loop_start vertices cube_face face_bottom_flipped face_up Nat.mul Nat.add map
       project vx vy vz fst snd loop_is_clockwise List.length seq fold_left Nat.ltb
       Nat.leb Nat.sub nth loop_start_index uv_rotation lookup
       COUNTERCLOCKWISE_UV_ROTATION_LOOKUP CLOCKWISE_UV_ROTATION_LOOKUP negb andb];
  decide_Rltb; decide_Rmin_Rmax; decide_Rltb;
  cbv [negb andb nth]; decide_Rltb.

(** The lookup-table rotation of the flipped bottom polygon is 90. *)
Lemma flipped_bottom_rotation :
  exists uvs,
    face_uv flipped_uv_layer face_bottom_flipped cube_vertices (Vec3 0 0 1) 16 16 =
      Ok (uvs, 90%Z).
Proof. eval_face_uv. eexists. reflexivity. Qed.

(** The lookup-table rotation of the top polygon, whose uv loop starts at
    the corner (1, 0), is 0. *)
Lemma flipped_top_rotation :
  exists uvs,
    face_uv flipped_uv_layer face_up cube_vertices (Vec3 0 0 1) 16 16 = Ok (uvs, 0%Z).
Proof. eval_face_uv. eexists. reflexivity. Qed.

Lemma flipped_cube_faces (face : MeshPolygon) :
  In face (firstn 6 (polygons flipped_cube_mesh)) ->
  exists t r,
    get_object_color flipped_cube (material_index face) default_color = Texture t /\
    face_uv flipped_uv_layer face cube_vertices (transformed_normal None None face)
            (fst (size t)) (snd (size t)) = Ok r.
Proof.
  intros Hin. exists stone_texture.
  cbv [firstn polygons flipped_cube_mesh In] in Hin.
  destruct Hin as [<-|[<-|[<-|[<-|[<-|[<-|[]]]]]]];
    (eexists; split; [reflexivity|]);
    cbv [face_uv rbind index nth_error mapR app unit_square flipped_uv_layer cube_vertices
         loop_start vertices cube_face face_north face_east face_south face_west
         face_bottom_flipped face_up Nat.mul Nat.add map];
    reflexivity.
Qed.

(** C4, counterexample: the textured cube whose bottom polygon has been
    flipped is exported with uvs.  Its polygons 4 and 5 are both classified
    "up".  The lookup-table rotation of polygon 4 is 90 and writes the key
    "rotation"; the lookup-table rotation of polygon 5, the textured polygon
    that writes the uv of the face last, is 0, and the key written before
    stays: the exported face "up" has the uv of polygon 5 and the key
    "rotation" with the value 90, so the key is present although the
    lookup-table rotation is 0. *)
Lemma stale_rotation_key_kept :
  exists e st' f uvs uvs_bottom,
    @generate_element unrotated_host 1 flipped_cube None None None None vzero vzero None
      true true empty_state = Ok (Some e, st') /\
    nth_error (firstn 6 (polygons flipped_cube_mesh)) 4 = Some face_bottom_flipped /\
    nth_error (firstn 6 (polygons flipped_cube_mesh)) 5 = Some face_up /\
    face_direction None None face_bottom_flipped = "up"%string /\
    face_direction None None face_up = "up"%string /\
    get_object_color flipped_cube (material_index face_up) default_color =
      Texture stone_texture /\
    face_uv flipped_uv_layer face_bottom_flipped cube_vertices
      (transformed_normal None None face_bottom_flipped)
      (fst (size stone_texture)) (snd (size stone_texture)) = Ok (uvs_bottom, 90%Z) /\
    face_uv flipped_uv_layer face_up cube_vertices (transformed_normal None None face_up)
      (fst (size stone_texture)) (snd (size stone_texture)) = Ok (uvs, 0%Z) /\
    dict_get String.eqb (faces e) "up"%string = Some (FaceOf f) /\
    uv f = uvs /\
    rotation f = Some 90%Z /\
    ~ (forall v, rotation f = Some v <-> v = 0%Z /\ 0%Z <> 0%Z /\ 0%Z <> 360%Z).
Proof.
  destruct (@element_geometry_plain unrotated_host 0 flipped_cube_mesh flipped_cube None
              vzero vzero vzero (get_reduced_rotation_zero 0))
    as (geo & Hgeo & _ & Hvl & Hrot & _).
  destruct (faces_loop_textures flipped_cube flipped_uv_layer cube_vertices None None true
              (firstn 6 (polygons flipped_cube_mesh)) flipped_cube_faces
              initial_faces empty_state eq_refl)
    as (fs & st' & Hfaces).
  { repeat constructor; eexists; reflexivity. }
  destruct flipped_top_rotation as [uvs Htop].
  destruct flipped_bottom_rotation as [uvs_bottom Hbottom].
  exists (build_element "Flipped"%string geo (Some "Collection"%string) fs [] []), st'.
  assert (Hrun : @generate_element unrotated_host 1 flipped_cube None None None None vzero
                   vzero None true true empty_state =
                 Ok (Some (build_element "Flipped"%string geo (Some "Collection"%string)
                             fs [] []), st')).
  { apply (@generate_element_intro unrotated_host 0 flipped_cube flipped_cube_mesh None None
             None vzero vzero None true true geo flipped_uv_layer fs [] []
             (Some "Collection"%string) empty_state st' st');
      try reflexivity; try assumption.
    rewrite Hvl, Hrot. exact Hfaces. }
  destruct cube_face_directions as (_ & _ & _ & _ & _ & Hu).
  assert (Hbf : face_direction None None face_bottom_flipped = "up"%string).
  { cbv [face_bottom_flipped]. exact Hu. }
  (* the turns of the polygons 4 and 5 *)
  change (firstn 6 (polygons flipped_cube_mesh))
    with ([face_north; face_east; face_south; face_west]
          ++ [face_bottom_flipped; face_up]) in Hfaces.
  apply foldM_app_ok in Hfaces. destruct Hfaces as (faces0 & st0 & _ & Hlast).
  cbn [foldM] in Hlast.
  apply bind_ok in Hlast. destruct Hlast as (faces1 & st1 & Hs4 & Hlast).
  apply bind_ok in Hlast. destruct Hlast as (faces2 & st2 & Hs5 & Hlast).
  apply ret_ok in Hlast. destruct Hlast as [-> _].
  apply face_step_result in Hs4. destruct Hs4 as (_ & _ & _ & Hd4).
  apply face_step_result in Hs5. destruct Hs5 as (_ & _ & _ & Hd5).
  change (get_object_color flipped_cube (material_index face_bottom_flipped) default_color)
    with (Texture stone_texture) in Hd4.
  change (get_object_color flipped_cube (material_index face_up) default_color)
    with (Texture stone_texture) in Hd5.
  rewrite Hbf in Hd4. rewrite Hu in Hd5.
  destruct Hd4 as (f0 & _ & uvs4 & rot4 & Huv4 & Hget4).
  destruct Hd5 as (f1 & Hf1 & uvs5 & rot5 & Huv5 & Hget5).
  change (transformed_normal None None face_bottom_flipped) with (Vec3 0 0 1) in *.
  change (transformed_normal None None face_up) with (Vec3 0 0 1) in *.
  change (fst (size stone_texture)) with 16%Z in *.
  change (snd (size stone_texture)) with 16%Z in *.
  rewrite Hbottom in Huv4. injection Huv4 as <- <-.
  rewrite Htop in Huv5. injection Huv5 as <- <-.
  rewrite Hget4 in Hf1. injection Hf1 as <-.
  eexists _, uvs, uvs_bottom.
  split; [exact Hrun|]. do 2 (split; [reflexivity|]).
  split; [exact Hbf|]. split; [exact Hu|]. split; [reflexivity|].
  split; [exact Hbottom|]. split; [exact Htop|].
  cbn [build_element faces]. split; [exact Hget5|].
  split; [reflexivity|]. split; [reflexivity|].
  intros H. destruct (proj1 (H 90%Z) eq_refl) as [E _]. discriminate.
Qed.

(** The child of the plane raises when it is visited on its own. *)
Lemma cube_without_uvs_raises :
  @generate_element unrotated_host 1 cube_without_uvs None None None None vzero vzero None
    true true empty_state = Raise AttributeError.
Proof.
  cbn [generate_element data cube_without_uvs mesh_object mesh_vertices cube_vertices
       List.length Nat.eqb negb].
  destruct (@element_geometry_plain unrotated_host 0
              {| mesh_vertices := cube_vertices; polygons := []; uv_layers_active := None |}
              cube_without_uvs None vzero vzero vzero (get_reduced_rotation_zero 0))
    as (geo & Hgeo & _).
  change (mesh_object "NoUv" _ vzero [] []) with cube_without_uvs.
  unfold bind at 1. rewrite Hgeo. reflexivity.
Qed.

(** C3, witness: the plane of four vertices yields nothing, although its
    child would raise. *)
Lemma non_cuboid_yields_nothing_witness :
  data plane_with_child = MeshData plane_mesh /\
  List.length (mesh_vertices plane_mesh) <> 8%nat /\
  @generate_element unrotated_host 1 plane_with_child None None None None vzero vzero None
    true true empty_state = Ok (None, empty_state).
Proof.
  assert (Hlen : List.length (mesh_vertices plane_mesh) <> 8%nat) by discriminate.
  split; [reflexivity|]. split; [exact Hlen|].
  exact (proj1 (@non_cuboid_yields_nothing unrotated_host 0 plane_with_child plane_mesh
                  None None None None vzero vzero None true true empty_state
                  eq_refl Hlen)).
Defined.

Lemma red_is_not_green : red <> green.
Proof. unfold red, green. intros H. injection H as H1 H2. lra. Qed.

(** C5, witness: the atlas of the two colors red and green. *)
Lemma color_atlas_layout_witness :
  NoDup [red; green] /\
  let '(tex_size, color_tex_uv_map, default_color_uv) :=
    create_color_texture [red; green] 16 in
  (16 <= tex_size)%Z /\
  uv_disjoint default_color_uv (tile_uv (color_grid_size 2) tex_size 1).
Proof.
  assert (Hnd : NoDup [red; green]).
  { constructor.
    - intros [H|[]]. apply red_is_not_green. symmetry. exact H.
    - constructor; [intros [] | constructor]. }
  split; [exact Hnd|].
  pose proof (color_atlas_layout [red; green] Hnd) as H.
  cbv zeta in H.
  destruct (create_color_texture [red; green] 16) as [[tex_size m] d].
  destruct H as (_ & (_ & H16 & _) & _ & Hd & Hdis).
  split; [exact H16|]. rewrite Hd.
  apply Hdis; simpl; lia.
Defined.

(** C10, witness: the resolver on the red cube and on the cube without
    material. *)
Lemma get_object_color_default_or_material_witness :
  get_object_color plain_cube 0 default_color = Color default_color /\
  get_object_color red_cube 0 default_color = Color red.
Proof.
  split.
  - apply (proj1 (get_object_color_default_or_material plain_cube 0)). simpl. lia.
  - reflexivity.
Defined.

(** * Further properties of the exporter *)

(** ** clamp_rotation and get_reduced_rotation *)

Lemma clamp_component_congruent (fuel : nat) (x r : R) :
  clamp_component fuel x = Some r ->
  exists k : Z, r = x + 360 * IZR k /\
                (0 <= x -> (k <= 0)%Z /\ 0 <= r) /\ (x <= 0 -> (0 <= k)%Z /\ r <= 0).
Proof.
  unfold clamp_component, obind. intros H.
  destruct (while fuel (fun r => Rltb 360 r) (fun r => r - 360) x) as [r1|] eqn:H1;
    [|discriminate].
  pose proof (clamp_down_result _ _ _ H1) as (Hr1 & Hr1' & _).
  pose proof (clamp_up_result _ _ _ H) as (Hr2 & Hr2').
  apply (while_invariant _ _ (fun r => exists k : Z, r = x + 360 * IZR k /\ (k <= 0)%Z /\
                                         (k = 0%Z \/ 360 < x))) in H1.
  - destruct H1 as [(k1 & E1 & Hk1 & Hk1') _].
    apply (while_invariant _ _ (fun r => exists k : Z, r = r1 + 360 * IZR k /\ (0 <= k)%Z /\
                                           (k = 0%Z \/ r1 < -360))) in H.
    + destruct H as [(k2 & E2 & Hk2 & Hk2') _].
      exists (k1 + k2)%Z. split; [rewrite plus_IZR; lra|].
      split; intros Hx.
      * destruct Hk2' as [->|Hlow]; [|exfalso; lra].
        split; [lia|]. simpl in E2. lra.
      * destruct Hk1' as [->|Hhigh]; [|exfalso; lra].
        split; [lia|]. simpl in E1. lra.
    + intros s (k & E & Hk & Hk') C. apply Rltb_spec in C.
      exists (k + 1)%Z. rewrite plus_IZR. split; [lra|]. split; [lia|].
      right. destruct Hk' as [->|Hlow]; [simpl in E; lra | assumption].
    + exists 0%Z. split; [simpl; lra|]. split; [lia | left; reflexivity].
  - intros s (k & E & Hk & Hk') C. apply Rltb_spec in C.
    exists (k - 1)%Z. rewrite minus_IZR. split; [lra|]. split; [lia|].
    right. destruct Hk' as [->|Hhigh]; [simpl in E; lra | assumption].
  - exists 0%Z. split; [simpl; lra|]. split; [lia | left; reflexivity].
Qed.

(** X1: the vector returned by [clamp_rotation] differs from its argument by
    a whole number of full turns on each axis, towards zero, and a vector
    that is already within [-360, 360] is returned as it is. *)
Theorem clamp_rotation_full_turns (fuel : nat) (v w : vec3) :
  clamp_rotation fuel v = Some w ->
  (exists kx ky kz : Z,
     vx w = vx v + 360 * IZR kx /\ vy w = vy v + 360 * IZR ky /\
     vz w = vz v + 360 * IZR kz /\
     Rabs (vx w) <= Rabs (vx v) /\ Rabs (vy w) <= Rabs (vy v) /\
     Rabs (vz w) <= Rabs (vz v)) /\
  (-360 <= vx v <= 360 -> -360 <= vy v <= 360 -> -360 <= vz v <= 360 -> w = v).
Proof.
  unfold clamp_rotation, obind. intros H.
  destruct (clamp_component fuel (vx v)) as [r0|] eqn:H0; [|discriminate].
  destruct (clamp_component fuel (vy v)) as [r1|] eqn:H1; [|discriminate].
  destruct (clamp_component fuel (vz v)) as [r2|] eqn:H2; [|discriminate].
  inversion H; subst w. cbn [vx vy vz].
  assert (Habs : forall x r, clamp_component fuel x = Some r ->
            exists k : Z, r = x + 360 * IZR k /\ Rabs r <= Rabs x).
  { intros x r Hc.
    apply clamp_component_congruent in Hc. destruct Hc as (k & E & Hp & Hn).
    exists k. split; [exact E|].
    destruct (Rle_dec 0 x) as [Hx|Hx].
    - destruct (Hp Hx) as [Hk Hr]. apply IZR_le in Hk.
      rewrite !Rabs_pos_eq by assumption. lra.
    - assert (Hx' : x <= 0) by lra. destruct (Hn Hx') as [Hk Hr]. apply IZR_le in Hk.
      rewrite !Rabs_left1 by assumption. lra. }
  split.
  - destruct (Habs _ _ H0) as (kx & Ex & Ax), (Habs _ _ H1) as (ky & Ey & Ay),
      (Habs _ _ H2) as (kz & Ez & Az).
    exists kx, ky, kz. auto 10.
  - intros Bx By Bz. destruct v as [x y z]. cbn [vx vy vz] in *.
    rewrite clamp_component_fixed in H0, H1, H2 by assumption.
    congruence.
Qed.

(** X1, witness: 400 degrees on X is clamped to 40 degrees. *)
Lemma clamp_rotation_full_turns_witness :
  clamp_rotation 1 (Vec3 400 0 0) = Some (Vec3 (400 - 360) 0 0) /\
  exists kx : Z, 400 - 360 = 400 + 360 * IZR kx.
Proof.
  assert (H : clamp_rotation 1 (Vec3 400 0 0) = Some (Vec3 (400 - 360) 0 0)).
  { unfold clamp_rotation, clamp_component. cbn [vx vy vz obind].
    rewrite (while_step (fun r => Rltb 360 r)) by (apply Rltb_true; lra).
    rewrite (while_done (fun r => Rltb 360 r)) by (apply Rltb_false; lra).
    cbn [obind].
    rewrite !(while_done (fun r => Rltb r (-360))) by (apply Rltb_false; lra).
    cbn [obind].
    rewrite !(while_done (fun r => Rltb 360 r)) by (apply Rltb_false; lra).
    cbn [obind].
    rewrite !(while_done (fun r => Rltb r (-360))) by (apply Rltb_false; lra).
    reflexivity. }
  split; [exact H|].
  destruct (proj1 (clamp_rotation_full_turns 1 _ _ H)) as (kx & _ & _ & Ex & _).
  exists kx. exact Ex.
Defined.

Lemma reduce_axis_steps (fuel : nat) (threshold r0 res : R) (steps : Z) :
  reduce_axis fuel threshold (sign r0) r0 = Some (res, steps) ->
  (0 <= r0 -> (0 <= steps)%Z) /\ (r0 < 0 -> (steps <= 0)%Z) /\
  (steps = 0%Z <-> Rabs r0 <= threshold) /\ (steps = 0%Z -> res = r0).
Proof.
  unfold reduce_axis. intros H.
  apply (while_invariant _ _
           (fun s => exists k : nat, snd s = (Z.of_nat k * sign r0)%Z /\
                                     (k = O -> fst s = r0) /\
                                     (k <> O -> threshold < Rabs r0))) in H.
  - destruct H as [(k & Hs & Hz & Hnz) C]. cbn [fst snd] in *.
    assert (Hk : steps = 0%Z -> k = O).
    { intros E. destruct (sign_unit r0) as [S1|S1]; rewrite S1 in Hs; lia. }
    assert (Hsmall : k = O -> Rabs r0 <= threshold).
    { intros E. rewrite (Hz E), Z.eqb_refl, andb_true_r in C.
      destruct (Rlt_dec threshold (Rabs r0)) as [Hlt|Hge]; [|lra].
      apply Rltb_true in Hlt. congruence. }
    repeat split.
    + intros Hr. rewrite (sign_nonneg _ Hr) in Hs. lia.
    + intros Hr. destruct (sign_cases r0) as [[Hc _]|[_ S1]]; [lra|].
      rewrite S1 in Hs. lia.
    + intros E. auto.
    + intros Hle. destruct k as [|k]; [rewrite Hs; reflexivity|].
      exfalso. assert (threshold < Rabs r0) by (apply Hnz; discriminate). lra.
    + intros E. auto.
  - intros [r s] (k & Hs & Hz & Hnz) C. cbn [fst snd] in *.
    apply andb_prop in C. destruct C as [C _]. apply Rltb_spec in C.
    exists (S k). split; [rewrite Hs; lia|]. split; [discriminate|].
    intros _. destruct k as [|k]; [rewrite Hz in C by reflexivity; exact C|].
    apply Hnz. discriminate.
  - exists O. cbn [fst snd]. split; [reflexivity|]. split; [reflexivity|].
    intros Hc. exfalso. apply Hc. reflexivity.
Qed.

(** X2: in [get_reduced_rotation] every step counter has the sign of its
    angle, and a counter is zero exactly when the angle is within the
    threshold of its axis (90 degrees less [eps] for X and Y, 45 degrees less
    [eps] for Z); no 90 degree rotation is returned exactly when the three
    angles are within their thresholds, and the rotation is then returned as
    it is. *)
Theorem get_reduced_rotation_steps (fuel : nat) (r residual : vec3)
    (xsteps ysteps zsteps : Z) :
  reduce_steps fuel r = Some (residual, (xsteps, ysteps, zsteps)) ->
  ((0 <= vx r -> (0 <= xsteps)%Z) /\ (vx r < 0 -> (xsteps <= 0)%Z)) /\
  ((0 <= vy r -> (0 <= ysteps)%Z) /\ (vy r < 0 -> (ysteps <= 0)%Z)) /\
  ((0 <= vz r -> (0 <= zsteps)%Z) /\ (vz r < 0 -> (zsteps <= 0)%Z)) /\
  (xsteps = 0%Z <-> Rabs (vx r) <= PI / 2 - eps) /\
  (ysteps = 0%Z <-> Rabs (vy r) <= PI / 2 - eps) /\
  (zsteps = 0%Z <-> Rabs (vz r) <= PI / 4 - eps) /\
  (get_reduced_rotation fuel r = Some (residual, None) <->
   Rabs (vx r) <= PI / 2 - eps /\ Rabs (vy r) <= PI / 2 - eps /\
   Rabs (vz r) <= PI / 4 - eps) /\
  (get_reduced_rotation fuel r = Some (residual, None) -> residual = r).
Proof.
  intros H. unfold get_reduced_rotation. rewrite H. cbn [obind].
  unfold reduce_steps, obind in H.
  destruct (reduce_axis fuel (PI / 2 - eps) (sign (vx r)) (vx r)) as [[rx xs]|] eqn:Hx;
    [|discriminate].
  destruct (reduce_axis fuel (PI / 2 - eps) (sign (vy r)) (vy r)) as [[ry ys]|] eqn:Hy;
    [|discriminate].
  destruct (reduce_axis fuel (PI / 4 - eps) (sign (vz r)) (vz r)) as [[rz zs]|] eqn:Hz;
    [|discriminate].
  inversion H; subst; clear H.
  apply reduce_axis_steps in Hx, Hy, Hz.
  destruct Hx as (Hx1 & Hx2 & Hx3 & Hx4), Hy as (Hy1 & Hy2 & Hy3 & Hy4),
    Hz as (Hz1 & Hz2 & Hz3 & Hz4).
  assert (Hnone : Some (Vec3 rx ry rz, steps_rotation (xsteps, ysteps, zsteps)) =
                  Some (Vec3 rx ry rz, None) <->
                  (xsteps = 0 /\ ysteps = 0 /\ zsteps = 0)%Z).
  { rewrite <- steps_rotation_none. split; intros E; [congruence | rewrite E; reflexivity]. }
  do 7 (split; [tauto|]).
  intros E. apply Hnone in E. destruct E as (E1 & E2 & E3).
  destruct r as [x y z]. cbn [vx vy vz] in *.
  rewrite (Hx4 E1), (Hy4 E2), (Hz4 E3). reflexivity.
Qed.

(** X2, witness: 120 degrees on X and Z, one step on each of the two axes. *)
Lemma get_reduced_rotation_steps_witness :
  reduce_steps 1 rotation_120_0_120 =
    Some (Vec3 (2 * PI / 3 - PI / 2) 0 (2 * PI / 3 - PI / 2), (1, 0, 1)%Z) /\
  ((1 = 0)%Z <-> Rabs (vx rotation_120_0_120) <= PI / 2 - eps).
Proof.
  assert (H : reduce_steps 1 rotation_120_0_120 =
                Some (Vec3 (2 * PI / 3 - PI / 2) 0 (2 * PI / 3 - PI / 2), (1, 0, 1)%Z)).
  { pose proof eps_small as [He1 He2]. pose proof PI_RGT_0 as Hpi.
    pose proof PI2_1 as Hpi2.
    assert (Hsix : 2 * PI / 3 - PI / 2 = PI / 6) by lra.
    unfold reduce_steps, rotation_120_0_120. cbn [vx vy vz].
    rewrite (sign_nonneg (2 * PI / 3)) by lra.
    rewrite (sign_nonneg 0) by lra.
    rewrite (reduce_axis_one_step 0 (PI / 2 - eps) (2 * PI / 3));
      try lra; try (rewrite Hsix, Rabs_pos_eq by lra; lra).
    rewrite (reduce_axis_one_step 0 (PI / 4 - eps) (2 * PI / 3));
      try lra; try (rewrite Hsix, Rabs_pos_eq by lra; unfold eps in *; lra).
    rewrite reduce_axis_no_step by (rewrite Rabs_R0; lra).
    reflexivity. }
  split; [exact H|].
  exact (proj1 (proj2 (proj2 (proj2 (get_reduced_rotation_steps 1 _ _ _ _ _ H))))).
Defined.

(** ** Axis names *)

(** X3: [to_vintagestory_axis] renames the axes the way [to_y_up] moves the
    components: the component of [v] named by one of "X", "Y", "Z" is the
    component of [to_y_up v] named by the converted axis; a name with several
    axis letters is converted by the first of "X", "Y", "Z" that occurs in
    it, and a name with none of them has no conversion. *)
Theorem to_vintagestory_axis_to_y_up :
  (forall ax v, In ax ["X"; "Y"; "Z"]%string ->
     exists ax', to_vintagestory_axis ax = Some ax' /\
                 In ax' ["X"; "Y"; "Z"]%string /\
                 axis_component ax' (to_y_up v) = axis_component ax v) /\
  (forall ax, str_contains "X" ax = true -> to_vintagestory_axis ax = Some "Z"%string) /\
  (forall ax, str_contains "X" ax = false -> str_contains "Y" ax = true ->
     to_vintagestory_axis ax = Some "X"%string) /\
  (forall ax, to_vintagestory_axis ax = None <->
     str_contains "X" ax = false /\ str_contains "Y" ax = false /\
     str_contains "Z" ax = false).
Proof.
  split; [|split; [|split]].
  - intros ax v [<-|[<-|[<-|[]]]].
    + exists "Z"%string. split; [reflexivity|]. split; [simpl; tauto | reflexivity].
    + exists "X"%string. split; [reflexivity|]. split; [simpl; tauto | reflexivity].
    + exists "Y"%string. split; [reflexivity|]. split; [simpl; tauto | reflexivity].
  - intros ax H. unfold to_vintagestory_axis. rewrite H. reflexivity.
  - intros ax H1 H2. unfold to_vintagestory_axis. rewrite H1, H2. reflexivity.
  - intros ax. unfold to_vintagestory_axis.
    destruct (str_contains "X" ax), (str_contains "Y" ax), (str_contains "Z" ax);
      split; intros H; try discriminate; try tauto;
      destruct H as (? & ? & ?); discriminate.
Qed.

(** ** The bone hierarchy *)

Lemma dict_mem_keys {V : Type} (d : list (string * V)) (k : string) :
  dict_mem String.eqb d k = true <-> In k (dict_keys d).
Proof.
  unfold dict_mem, dict_keys. induction d as [|[k' v'] d IH]; simpl.
  - split; [discriminate | tauto].
  - destruct (String.eqb_spec k k') as [->|Hne].
    + split; auto.
    + rewrite IH. split; [auto | intros [E|H]; [congruence | assumption]].
Qed.

Lemma dict_keys_set_absent {V : Type} (d : list (string * V)) (k : string) (v : V) :
  ~ In k (dict_keys d) -> dict_keys (dict_set String.eqb d k v) = dict_keys d ++ [k].
Proof.
  unfold dict_keys. induction d as [|[k' v'] d IH]; simpl; [reflexivity|].
  intros Hin. destruct (String.eqb_spec k k') as [->|Hne]; [tauto|].
  simpl. f_equal. apply IH. tauto.
Qed.

Lemma dict_set_NoDup {V : Type} (d : list (string * V)) (k : string) (v : V) :
  NoDup (dict_keys d) -> NoDup (dict_keys (dict_set String.eqb d k v)).
Proof.
  intros Hnd. destruct (in_dec string_dec k (dict_keys d)) as [Hin|Hin].
  - rewrite (dict_keys_set_present String.eqb string_eqb_spec) by assumption. assumption.
  - rewrite dict_keys_set_absent by assumption.
    apply NoDup_app; [assumption | constructor; [simpl; tauto | constructor] |].
    intros a Ha [<-|[]]. contradiction.
Qed.

Lemma dict_get_NoDup_in {V : Type} (d : list (string * V)) (k : string) (v : V) :
  NoDup (dict_keys d) -> In (k, v) d -> dict_get String.eqb d k = Some v.
Proof.
  unfold dict_keys. induction d as [|[k' v'] d IH]; simpl; [tauto|].
  intros Hnd [E|Hin].
  - inversion E; subst. rewrite String.eqb_refl. reflexivity.
  - inversion Hnd as [|? ? Hnot Hnd']; subst.
    destruct (String.eqb_spec k k') as [->|Hne]; [|auto].
    exfalso. apply Hnot. apply in_map_iff. exists (k', v). auto.
Qed.

Lemma dict_get_some_in {V : Type} (d : list (string * V)) (k : string) (v : V) :
  dict_get String.eqb d k = Some v -> In (k, v) d.
Proof.
  induction d as [|[k' v'] d IH]; simpl; [discriminate|].
  destruct (String.eqb_spec k k') as [->|Hne]; intros H.
  - inversion H; subst. left. reflexivity.
  - right. auto.
Qed.

Lemma objects_of_bone_snoc (b : string) (objs : list Object) (obj : Object) :
  objects_of_bone b (objs ++ [obj]) =
  objects_of_bone b objs ++ (if (parent_bone obj =? b)%string then [obj] else []).
Proof. unfold objects_of_bone. rewrite filter_app. reflexivity. Qed.

Lemma add_bone_child_spec (done : list Object) (bh : list (string * list Object))
    (obj : Object) :
  NoDup (dict_keys bh) ->
  (forall b, dict_get String.eqb bh b = bone_group b done) ->
  exists bh', add_bone_child bh obj = Ok bh' /\
              NoDup (dict_keys bh') /\
              (forall b, dict_get String.eqb bh' b = bone_group b (done ++ [obj])).
Proof.
  intros Hnd Hget. unfold add_bone_child.
  destruct (String.eqb_spec (parent_bone obj) "") as [Hempty|Hne]; cbn [negb].
  - exists bh. split; [reflexivity|]. split; [assumption|].
    intros b. rewrite Hget. unfold bone_group. rewrite objects_of_bone_snoc.
    destruct (String.eqb_spec b "") as [->|Hb]; [reflexivity|].
    destruct (String.eqb_spec (parent_bone obj) b) as [E|_]; [congruence|].
    rewrite app_nil_r. reflexivity.
  - set (pb := parent_bone obj) in *.
    set (bh1 := if negb (dict_mem String.eqb bh pb)
                then dict_set String.eqb bh pb [] else bh).
    assert (Hnd1 : NoDup (dict_keys bh1)).
    { unfold bh1. destruct (dict_mem String.eqb bh pb); cbn [negb];
        [assumption | apply dict_set_NoDup; assumption]. }
    assert (Hpb : dict_get String.eqb bh1 pb = Some (objects_of_bone pb done)).
    { unfold bh1. destruct (dict_mem String.eqb bh pb) eqn:Hmem; cbn [negb].
      - unfold dict_mem in Hmem. rewrite Hget in *. unfold bone_group in *.
        destruct (String.eqb_spec pb "") as [E|_]; [contradiction|].
        destruct (objects_of_bone pb done); [discriminate | reflexivity].
      - rewrite (dict_get_set_same String.eqb string_eqb_spec).
        unfold dict_mem in Hmem. rewrite Hget in Hmem. unfold bone_group in Hmem.
        destruct (String.eqb_spec pb "") as [E|_]; [contradiction|].
        destruct (objects_of_bone pb done); [reflexivity | discriminate]. }
    assert (Hother : forall b, b <> pb -> dict_get String.eqb bh1 b = bone_group b done).
    { intros b Hb. unfold bh1. destruct (dict_mem String.eqb bh pb); cbn [negb];
        [apply Hget|].
      rewrite (dict_get_set_other String.eqb string_eqb_spec) by assumption. apply Hget. }
    rewrite Hpb. eexists. split; [reflexivity|].
    split; [apply dict_set_NoDup; assumption|].
    intros b. destruct (string_dec b pb) as [->|Hb].
    + rewrite (dict_get_set_same String.eqb string_eqb_spec).
      unfold bone_group. rewrite objects_of_bone_snoc.
      destruct (String.eqb_spec pb "") as [E|_]; [contradiction|].
      fold pb. rewrite String.eqb_refl.
      destruct (objects_of_bone pb done); reflexivity.
    + rewrite (dict_get_set_other String.eqb string_eqb_spec) by assumption.
      rewrite Hother by assumption.
      unfold bone_group. rewrite objects_of_bone_snoc. fold pb.
      destruct (String.eqb_spec pb b) as [E|_]; [congruence|].
      rewrite app_nil_r. reflexivity.
Qed.

Lemma bone_groups_spec (objs : list Object) :
  forall done bh,
    NoDup (dict_keys bh) ->
    (forall b, dict_get String.eqb bh b = bone_group b done) ->
    exists bh', foldR add_bone_child objs bh = Ok bh' /\
                NoDup (dict_keys bh') /\
                (forall b, dict_get String.eqb bh' b = bone_group b (done ++ objs)).
Proof.
  induction objs as [|obj objs IH]; intros done bh Hnd Hget.
  - exists bh. rewrite app_nil_r. auto.
  - destruct (add_bone_child_spec done bh obj Hnd Hget) as (bh1 & E1 & Hnd1 & Hget1).
    destruct (IH (done ++ [obj]) bh1 Hnd1 Hget1) as (bh' & E' & Hnd' & Hget').
    exists bh'. cbn [foldR]. rewrite E1. cbn [rbind].
    rewrite <- app_assoc in Hget'. auto.
Qed.

Lemma find_named_spec (b : string) (objs : list Object) :
  forall i,
    match find_named b i objs with
    | Some (j, obj) =>
        (i <= j)%nat /\ nth_error objs (j - i) = Some obj /\
        find (fun o => (name o =? b)%string) objs = Some obj
    | None => find (fun o => (name o =? b)%string) objs = None
    end.
Proof.
  induction objs as [|o objs IH]; intros i; simpl; [reflexivity|].
  destruct (name o =? b)%string.
  - rewrite Nat.sub_diag. auto.
  - specialize (IH (S i)). destruct (find_named b (S i) objs) as [[j obj]|]; [|assumption].
    destruct IH as (Hle & Hnth & Hfind). split; [lia|]. split; [|assumption].
    replace (j - i)%nat with (S (j - S i)) by lia. assumption.
Qed.

Lemma set_item_swap (rest : list Object) (i : nat) (child_i child_0 : Object) :
  nth_error rest i = Some child_i ->
  exists rest', set_item rest i child_0 = Ok rest' /\
                Permutation (child_i :: rest') (child_0 :: rest).
Proof.
  revert i. induction rest as [|x rest IH]; intros [|i] H; simpl in H; try discriminate.
  - inversion H; subst. exists (child_0 :: rest). split; [reflexivity|]. apply perm_swap.
  - destruct (IH i H) as (rest' & E & Hp). exists (x :: rest'). simpl. rewrite E.
    split; [reflexivity|].
    apply perm_trans with (x :: child_i :: rest'); [apply perm_swap|].
    apply perm_trans with (x :: child_0 :: rest); [apply perm_skip; assumption|].
    apply perm_swap.
Qed.

Lemma choose_main_spec (b : string) (objs : list Object) :
  objs <> [] ->
  exists node, choose_main b objs = Ok node /\
    Permutation (node_children node) objs /\
    nth_error (node_children node) 0 = Some (main node) /\
    match find (fun o => (name o =? b)%string) objs with
    | Some obj => main node = obj
    | None => node_children node = objs
    end.
Proof.
  intros Hne. unfold choose_main. pose proof (find_named_spec b objs 0) as Hf.
  destruct (find_named b 0 objs) as [[i obj]|].
  - destruct Hf as (_ & Hnth & Hfind). rewrite Nat.sub_0_r in Hnth. rewrite Hfind.
    unfold index. rewrite Hnth. cbn [rbind].
    destruct objs as [|child_0 rest]; [contradiction|]. cbn [nth_error rbind set_item].
    destruct i as [|i].
    + simpl in Hnth. inversion Hnth; subst. cbn [set_item rbind].
      eexists. split; [reflexivity|]. cbn [node_children main nth_error]. auto.
    + simpl in Hnth. destruct (set_item_swap rest i obj child_0 Hnth) as (rest' & E & Hp).
      cbn [set_item]. rewrite E. cbn [rbind].
      eexists. split; [reflexivity|]. cbn [node_children main nth_error]. auto.
  - rewrite Hf. destruct objs as [|first rest]; [contradiction|].
    unfold index. cbn [nth_error rbind].
    eexists. split; [reflexivity|]. cbn [node_children main nth_error]. auto.
Qed.

Lemma choose_mains_spec (groups : list (string * list Object)) :
  (forall k v, In (k, v) groups -> v <> []) ->
  exists bh,
    mapR (fun '(bone_name, node_children) =>
            let+ node := choose_main bone_name node_children in
            Ok (bone_name, node)) groups = Ok bh /\
    dict_keys bh = dict_keys groups /\
    (forall b node, dict_get String.eqb bh b = Some node ->
       exists v, dict_get String.eqb groups b = Some v /\ choose_main b v = Ok node).
Proof.
  induction groups as [|[k v] groups IH]; intros Hne.
  - exists []. repeat split. intros b node H. discriminate.
  - destruct IH as (bh & E & Hkeys & Hget).
    { intros k' v' Hin. apply (Hne k' v'). right. assumption. }
    destruct (choose_main_spec k v) as (node & En & _).
    { apply (Hne k v). left. reflexivity. }
    exists ((k, node) :: bh). cbn [mapR]. rewrite En. cbn [rbind]. rewrite E. cbn [rbind].
    split; [reflexivity|]. split; [unfold dict_keys in *; simpl; congruence|].
    intros b node' H. simpl in *.
    destruct (String.eqb_spec b k) as [->|Hb].
    + inversion H; subst. exists v. auto.
    + auto.
Qed.

Lemma bone_hierarchy_nodes (armature_children : list Object) :
  exists bone_hierarchy,
    get_bone_hierarchy armature_children = Ok bone_hierarchy /\
    NoDup (dict_keys bone_hierarchy) /\
    (forall b, In b (dict_keys bone_hierarchy) <->
               b <> ""%string /\ objects_of_bone b armature_children <> []) /\
    (forall b node, dict_get String.eqb bone_hierarchy b = Some node ->
       Permutation (node_children node) (objects_of_bone b armature_children) /\
       nth_error (node_children node) 0 = Some (main node) /\
       parent_bone (main node) = b /\
       match find (fun o => (name o =? b)%string)
                  (objects_of_bone b armature_children) with
       | Some obj => main node = obj
       | None => node_children node = objects_of_bone b armature_children
       end).
Proof.
  destruct (bone_groups_spec armature_children [] []) as (groups & E & Hnd & Hget).
  { constructor. }
  { intros b. unfold bone_group. simpl. destruct (b =? "")%string; reflexivity. }
  simpl in Hget.
  assert (Hgroup : forall k v, In (k, v) groups ->
            k <> ""%string /\ v = objects_of_bone k armature_children /\ v <> []).
  { intros k v Hin. apply (dict_get_NoDup_in _ _ _ Hnd) in Hin.
    rewrite Hget in Hin. unfold bone_group in Hin.
    destruct (String.eqb_spec k "") as [->|Hk]; [discriminate|].
    destruct (objects_of_bone k armature_children) eqn:Ho; [discriminate|].
    inversion Hin; subst. repeat split; auto. discriminate. }
  destruct (choose_mains_spec groups) as (bh & Eb & Hkeys & Hnodes).
  { intros k v Hin. apply (Hgroup k v Hin). }
  exists bh. unfold get_bone_hierarchy. rewrite E. cbn [rbind].
  split; [exact Eb|]. split; [rewrite Hkeys; assumption|]. split.
  - intros b. rewrite Hkeys. split.
    + intros Hin. apply dict_get_in_keys in Hin. destruct Hin as (v & Hv).
      apply dict_get_some_in in Hv. destruct (Hgroup b v Hv) as (H1 & H2 & H3).
      subst v. auto.
    + intros [Hb Ho]. apply dict_mem_keys. unfold dict_mem. rewrite Hget.
      unfold bone_group. destruct (String.eqb_spec b "") as [E0|_]; [contradiction|].
      destruct (objects_of_bone b armature_children); [contradiction | reflexivity].
  - intros b node Hnode. destruct (Hnodes b node Hnode) as (v & Hv & Hc).
    apply dict_get_some_in in Hv. destruct (Hgroup b v Hv) as (Hb & -> & Hne).
    destruct (choose_main_spec b _ Hne) as (node' & Hc' & Hp & Hmain & Hfind).
    rewrite Hc in Hc'. inversion Hc'; subst node'.
    split; [assumption|]. split; [assumption|]. split; [|assumption].
    assert (Hin : In (main node) (objects_of_bone b armature_children)).
    { apply (Permutation_in _ Hp). apply nth_error_In with 0%nat. assumption. }
    unfold objects_of_bone in Hin. apply filter_In in Hin. destruct Hin as [_ Hpb].
    apply String.eqb_eq in Hpb. assumption.
Qed.

(** X4: [get_bone_hierarchy] never raises.  Its keys are distinct: the
    non-empty bone names to which some child object of the armature is
    parented.  The children of a node are the objects parented to the bone,
    reordered, with the main object in front; the main object is the first of
    them that is named like the bone, and without such an object the order is
    kept and the main object is the first one. *)
Theorem get_bone_hierarchy_spec (armature_children : list Object) :
  exists bone_hierarchy,
    get_bone_hierarchy armature_children = Ok bone_hierarchy /\
    NoDup (dict_keys bone_hierarchy) /\
    (forall b, In b (dict_keys bone_hierarchy) <->
               b <> ""%string /\ objects_of_bone b armature_children <> []) /\
    (forall b node, dict_get String.eqb bone_hierarchy b = Some node ->
       Permutation (node_children node) (objects_of_bone b armature_children) /\
       node_children node = main node :: tl (node_children node) /\
       (forall obj, In obj (node_children node) <->
                    In obj armature_children /\ parent_bone obj = b) /\
       match find (fun o => (name o =? b)%string)
                  (objects_of_bone b armature_children) with
       | Some obj => main node = obj /\ name (main node) = b
       | None =>
           node_children node = objects_of_bone b armature_children /\
           forall obj, In obj (node_children node) -> name obj <> b
       end).
Proof.
  destruct (bone_hierarchy_nodes armature_children) as (bh & Ebh & Hnd & Hkeys & Hnodes).
  exists bh. split; [exact Ebh|]. split; [exact Hnd|]. split; [exact Hkeys|].
  intros b node Hnode. destruct (Hnodes b node Hnode) as (Hperm & Hmain & _ & Hfind).
  split; [exact Hperm|]. split; [|split].
  - destruct (node_children node) as [|x l]; [discriminate|].
    simpl in Hmain. inversion Hmain. reflexivity.
  - intros obj. split.
    + intros Hin. apply (Permutation_in _ Hperm) in Hin.
      unfold objects_of_bone in Hin. apply filter_In in Hin.
      destruct Hin as [Hin Hpb]. apply String.eqb_eq in Hpb. auto.
    + intros [Hin Hpb]. apply (Permutation_in _ (Permutation_sym Hperm)).
      unfold objects_of_bone. apply filter_In. split; [exact Hin|].
      apply String.eqb_eq. exact Hpb.
  - destruct (find (fun o => (name o =? b)%string) (objects_of_bone b armature_children))
      as [obj|] eqn:Ef.
    + split; [exact Hfind|]. apply find_some in Ef. destruct Ef as [_ En].
      apply String.eqb_eq in En. rewrite Hfind. exact En.
    + split; [exact Hfind|]. intros obj Hin En. rewrite Hfind in Hin.
      pose proof (find_none _ _ Ef obj Hin) as Hn. cbn beta in Hn.
      rewrite En, String.eqb_refl in Hn. discriminate.
Qed.

Lemma mapR_ok {A B : Type} (f : A -> result B) (P : A -> B -> Prop) (l : list A) :
  (forall x, In x l -> exists y, f x = Ok y /\ P x y) ->
  exists ys, mapR f l = Ok ys /\ Forall2 P l ys.
Proof.
  induction l as [|x l IH]; intros H.
  - exists []. split; [reflexivity | constructor].
  - destruct (H x (or_introl eq_refl)) as (y & Ey & Py).
    destruct IH as (ys & Eys & Pys); [intros x' Hx'; apply H; right; assumption|].
    exists (y :: ys). cbn [mapR]. rewrite Ey. cbn [rbind]. rewrite Eys.
    split; [reflexivity | constructor; assumption].
Qed.

Lemma mapR_raise {A B : Type} (f : A -> result B) (e : error) (l : list A) :
  (forall x, In x l -> (exists y, f x = Ok y) \/ f x = Raise e) ->
  (exists x, In x l /\ f x = Raise e) ->
  mapR f l = Raise e.
Proof.
  induction l as [|x l IH]; intros Hall (x0 & Hin & Hx0); [destruct Hin|].
  cbn [mapR]. destruct (Hall x (or_introl eq_refl)) as [(y & Ey)|Ex].
  - rewrite Ey. cbn [rbind]. rewrite IH; [reflexivity | |].
    + intros x' Hx'. apply Hall. right. assumption.
    + destruct Hin as [<-|Hin]; [congruence|]. exists x0. auto.
  - rewrite Ex. reflexivity.
Qed.

(** X5: for an armature, [save_objects] exports the main objects of the
    root bones.  When every root bone has a non-empty name and an object
    parented to it, there is one exported object for each root bone, in the
    order of the bones, and it is a child of the armature parented to that
    bone; when a root bone has no object, the lookup in the bone hierarchy
    raises [KeyError]. *)
Theorem armature_export_objects_spec (arm : Armature) (armature_children : list Object) :
  let root_bones := filter_root_objects (fun b => parent_head_local (snd b)) (bones arm) in
  (forall bone, In bone (bones arm) ->
     (In bone root_bones <-> parent_head_local (snd bone) = None)) /\
  ((forall bone, In bone root_bones ->
      fst bone <> ""%string /\ objects_of_bone (fst bone) armature_children <> []) ->
   exists bone_hierarchy export_objects,
     armature_export_objects arm armature_children = Ok (bone_hierarchy, export_objects) /\
     get_bone_hierarchy armature_children = Ok bone_hierarchy /\
     Forall2 (fun bone obj =>
                parent_bone obj = fst bone /\ In obj armature_children /\
                exists node, dict_get String.eqb bone_hierarchy (fst bone) = Some node /\
                             main node = obj)
             root_bones export_objects) /\
  ((exists bone, In bone root_bones /\
      (fst bone = ""%string \/ objects_of_bone (fst bone) armature_children = [])) ->
   armature_export_objects arm armature_children = Raise KeyError).
Proof.
  intros root_bones.
  destruct (bone_hierarchy_nodes armature_children) as (bh & Ebh & Hnd & Hkeys & Hnodes).
  split; [|split].
  - intros bone Hin. unfold root_bones, filter_root_objects. rewrite filter_In.
    destruct (parent_head_local (snd bone)); split; intros H; try tauto;
      try discriminate. destruct H; discriminate.
  - intros Hroots. unfold armature_export_objects. rewrite Ebh. cbn [rbind].
    fold root_bones.
    destruct (mapR_ok
                (fun bone => match dict_get String.eqb bh (fst bone) with
                             | Some node => Ok (main node)
                             | None => Raise KeyError
                             end)
                (fun bone obj =>
                   parent_bone obj = fst bone /\ In obj armature_children /\
                   exists node, dict_get String.eqb bh (fst bone) = Some node /\
                                main node = obj)
                root_bones) as (objs & Eobjs & Hobjs).
    { intros bone Hin. destruct (Hroots bone Hin) as [Hname Hobjs].
      destruct (dict_get_in_keys bh (fst bone)) as (node & Hnode).
      { apply Hkeys. auto. }
      rewrite Hnode. exists (main node). split; [reflexivity|].
      destruct (Hnodes _ _ Hnode) as (Hp & Hmain & Hpb & _).
      split; [assumption|]. split; [|exists node; auto].
      assert (Hin' : In (main node) (objects_of_bone (fst bone) armature_children)).
      { apply (Permutation_in _ Hp). apply nth_error_In with 0%nat. assumption. }
      unfold objects_of_bone in Hin'. apply filter_In in Hin'. tauto. }
    exists bh, objs. rewrite Eobjs. cbn [rbind]. auto.
  - intros (bone & Hin & Hbad). unfold armature_export_objects. rewrite Ebh.
    cbn [rbind]. fold root_bones.
    rewrite (mapR_raise _ KeyError); [reflexivity | |].
    + intros x _. destruct (dict_get String.eqb bh (fst x)); [left; eauto | right; reflexivity].
    + exists bone. split; [assumption|].
      destruct (dict_get String.eqb bh (fst bone)) as [node|] eqn:Hnode; [|reflexivity].
      exfalso. apply dict_get_some_in in Hnode.
      assert (Hk : In (fst bone) (dict_keys bh)).
      { unfold dict_keys. apply in_map_iff. exists (fst bone, node). auto. }
      apply Hkeys in Hk. destruct Hk as [Hk1 Hk2]. destruct Hbad; contradiction.
Qed.

(** ** Winding of loops *)

Lemma loop_is_clockwise_quad_area (a b c d : vec2) :
  loop_is_clockwise [a; b; c; d] =
  Rltb 0 ((fst b - fst a) * (snd b + snd a) + (fst c - fst b) * (snd c + snd b) +
          (fst d - fst c) * (snd d + snd c) + (fst a - fst d) * (snd a + snd d)).
Proof.
  cbv [loop_is_clockwise List.length seq fold_left nth Nat.ltb Nat.leb Nat.sub Nat.add].
  f_equal. lra.
Qed.

Lemma Rltb_eq (x y : R) : (0 < x <-> 0 < y) -> Rltb 0 x = Rltb 0 y.
Proof.
  intros H. destruct (Rlt_dec 0 x) as [Hx|Hx].
  - rewrite !Rltb_true; tauto.
  - rewrite !Rltb_false; tauto.
Qed.

(** X6: for a loop of four points [loop_is_clockwise] is the sign of the
    winding sum: it does not depend on the point the loop starts from nor on
    a translation of the loop, walking the loop backwards reverses the answer
    unless the sum is zero (then both directions count as counterclockwise),
    and an axis-aligned rectangle walked from its lower left corner to
    the right is counterclockwise. *)
Theorem loop_is_clockwise_quad (a b c d : vec2) :
  let area := (fst b - fst a) * (snd b + snd a) + (fst c - fst b) * (snd c + snd b) +
              (fst d - fst c) * (snd d + snd c) + (fst a - fst d) * (snd a + snd d) in
  (loop_is_clockwise [a; b; c; d] = true <-> 0 < area) /\
  loop_is_clockwise [b; c; d; a] = loop_is_clockwise [a; b; c; d] /\
  (forall t : vec2,
     loop_is_clockwise (map (fun p => (fst p + fst t, snd p + snd t)) [a; b; c; d]) =
     loop_is_clockwise [a; b; c; d]) /\
  (loop_is_clockwise [d; c; b; a] = true <-> area < 0) /\
  (area = 0 -> loop_is_clockwise [a; b; c; d] = false /\
               loop_is_clockwise [d; c; b; a] = false) /\
  (forall x0 y0 x1 y1, x0 < x1 -> y0 < y1 ->
     loop_is_clockwise [(x0, y0); (x1, y0); (x1, y1); (x0, y1)] = false /\
     loop_is_clockwise [(x0, y1); (x1, y1); (x1, y0); (x0, y0)] = true).
Proof.
  intros area.
  assert (Hrev : loop_is_clockwise [d; c; b; a] = Rltb 0 (- area)).
  { rewrite loop_is_clockwise_quad_area. apply Rltb_eq. unfold area. lra. }
  split; [|split; [|split; [|split; [|split]]]].
  - rewrite loop_is_clockwise_quad_area. apply Rltb_spec.
  - rewrite !loop_is_clockwise_quad_area. apply Rltb_eq. lra.
  - intros t. cbn [map]. rewrite !loop_is_clockwise_quad_area. cbn [fst snd].
    apply Rltb_eq. lra.
  - rewrite Hrev, Rltb_spec. lra.
  - intros H0. rewrite Hrev, loop_is_clockwise_quad_area. fold area.
    rewrite H0. split; apply Rltb_false; lra.
  - intros x0 y0 x1 y1 Hx Hy. rewrite !loop_is_clockwise_quad_area. cbn [fst snd].
    split; [apply Rltb_false | apply Rltb_true]; nra.
Qed.

(** ** Classification of faces *)

Lemma argmax_from_spec (l : list R) :
  forall (pre : list R) (best_i : nat) (best : R),
    (best_i < List.length pre)%nat -> nth best_i pre 0 = best ->
    (forall k, (k < List.length pre)%nat -> nth k pre 0 <= best) ->
    (forall k, (k < best_i)%nat -> nth k pre 0 < best) ->
    let j := argmax_from best_i best (List.length pre) l in
    (j < List.length (pre ++ l))%nat /\
    (forall k, (k < List.length (pre ++ l))%nat ->
       nth k (pre ++ l) 0 <= nth j (pre ++ l) 0) /\
    (forall k, (k < j)%nat -> nth k (pre ++ l) 0 < nth j (pre ++ l) 0).
Proof.
  induction l as [|x rest IH]; intros pre best_i best Hlt Hbest Hle Hfirst; cbn zeta.
  - cbn [argmax_from]. rewrite app_nil_r, Hbest. auto.
  - cbn [argmax_from].
    assert (Hlen : S (List.length pre) = List.length (pre ++ [x])).
    { rewrite length_app. simpl. lia. }
    assert (Happ : pre ++ x :: rest = (pre ++ [x]) ++ rest).
    { rewrite <- app_assoc. reflexivity. }
    assert (Hold : forall k, (k < List.length pre)%nat -> nth k (pre ++ [x]) 0 = nth k pre 0).
    { intros k Hk. apply app_nth1. assumption. }
    assert (Hnew : nth (List.length pre) (pre ++ [x]) 0 = x).
    { rewrite app_nth2 by lia. rewrite Nat.sub_diag. reflexivity. }
    rewrite Hlen, Happ. destruct (Rltb best x) eqn:C.
    + apply Rltb_spec in C. apply IH.
      * lia.
      * assumption.
      * intros k Hk. rewrite <- Hlen in Hk.
        destruct (Nat.eq_dec k (List.length pre)) as [->|Hne]; [rewrite Hnew; lra|].
        rewrite Hold by lia. specialize (Hle k). assert (nth k pre 0 <= best) by (apply Hle; lia).
        lra.
      * intros k Hk. rewrite Hold by lia.
        assert (nth k pre 0 <= best) by (apply Hle; lia). lra.
    + assert (Hx : x <= best).
      { destruct (Rlt_dec best x) as [Hc|Hc]; [apply Rltb_true in Hc; congruence | lra]. }
      apply IH.
      * lia.
      * rewrite Hold by assumption. assumption.
      * intros k Hk. rewrite <- Hlen in Hk.
        destruct (Nat.eq_dec k (List.length pre)) as [->|Hne]; [rewrite Hnew; lra|].
        rewrite Hold by lia. apply Hle. lia.
      * intros k Hk. rewrite Hold by lia. apply Hfirst. assumption.
Qed.

(** [np.argmax]: the first position of the greatest value. *)
Lemma argmax_spec (l : list R) (i : nat) :
  (i < List.length l)%nat ->
  (argmax l = i <->
   (forall k, (k < List.length l)%nat -> nth k l 0 <= nth i l 0) /\
   (forall k, (k < i)%nat -> nth k l 0 < nth i l 0)).
Proof.
  intros Hi. destruct l as [|x rest]; [simpl in Hi; lia|].
  pose proof (argmax_from_spec rest [x] 0 x) as H. cbn zeta in H.
  change (List.length [x]) with 1%nat in H. change ([x] ++ rest) with (x :: rest) in H.
  change (argmax_from 0 x 1 rest) with (argmax (x :: rest)) in H.
  destruct H as (Hj & Hmax & Hfirst).
  - simpl. lia.
  - reflexivity.
  - intros k Hk. replace k with 0%nat by (simpl in Hk; lia). simpl. lra.
  - intros k Hk. lia.
  - split.
    + intros <-. auto.
    + intros [Hmax' Hfirst'].
      destruct (Nat.lt_trichotomy (argmax (x :: rest)) i) as [Hlt|[E|Hgt]];
        [|assumption|].
      * specialize (Hfirst' _ Hlt). specialize (Hmax i Hi). lra.
      * specialize (Hfirst _ Hgt). specialize (Hmax' _ Hj). lra.
Qed.

Lemma direction_dots (n : vec3) (k : nat) :
  (k < 6)%nat ->
  nth k (map (fun d => vdot n d) DIRECTION_NORMALS) 0 = vdot n (nth k DIRECTION_NORMALS vzero).
Proof.
  intros Hk. do 6 (destruct k as [|k]; [reflexivity|]). lia.
Qed.

Lemma face_direction_index_first_greatest (face_normal : vec3) (i : nat) :
  (i < 6)%nat ->
  (face_direction_index face_normal = i <->
   (forall k, (k < 6)%nat ->
      vdot face_normal (nth k DIRECTION_NORMALS vzero) <=
      vdot face_normal (nth i DIRECTION_NORMALS vzero)) /\
   (forall k, (k < i)%nat ->
      vdot face_normal (nth k DIRECTION_NORMALS vzero) <
      vdot face_normal (nth i DIRECTION_NORMALS vzero))).
Proof.
  intros Hi. unfold face_direction_index.
  rewrite (argmax_spec _ i) by (rewrite length_map; exact Hi).
  rewrite length_map. change (List.length DIRECTION_NORMALS) with 6%nat.
  split; intros [H1 H2]; split; intros k Hk.
  - rewrite <- !direction_dots by lia. apply H1. assumption.
  - rewrite <- !direction_dots by lia. apply H2. assumption.
  - rewrite !direction_dots by lia. apply H1. assumption.
  - rewrite !direction_dots by lia. apply H2. assumption.
Qed.

(** X7: the direction of a face is the first of north, east, west, south,
    up, down whose normal has the greatest dot product with the face
    normal.  Hence each of the six normals is classified as its own
    direction, the length of the face normal does not matter, and a zero
    normal counts as north. *)
Theorem face_direction_first_greatest :
  (forall face_normal i, (i < 6)%nat ->
     (face_direction_index face_normal = i <->
      (forall k, (k < 6)%nat ->
         vdot face_normal (nth k DIRECTION_NORMALS vzero) <=
         vdot face_normal (nth i DIRECTION_NORMALS vzero)) /\
      (forall k, (k < i)%nat ->
         vdot face_normal (nth k DIRECTION_NORMALS vzero) <
         vdot face_normal (nth i DIRECTION_NORMALS vzero)))) /\
  (forall i, (i < 6)%nat ->
     face_direction_index (nth i DIRECTION_NORMALS vzero) = i) /\
  (forall face_normal s, 0 < s ->
     face_direction_index
       (Vec3 (s * vx face_normal) (s * vy face_normal) (s * vz face_normal)) =
     face_direction_index face_normal) /\
  face_direction_index vzero = 0%nat.
Proof.
  split; [exact face_direction_index_first_greatest|]. split; [|split].
  - intros i Hi. apply face_direction_index_first_greatest; [assumption|].
    split; intros k Hk;
      do 6 (destruct i as [|i]; [do 6 (destruct k as [|k];
              [cbv [nth DIRECTION_NORMALS vdot vx vy vz]; try lra; try lia|]); lia|]);
      lia.
  - intros n s Hs.
    assert (Hj : (face_direction_index n < 6)%nat).
    { unfold face_direction_index.
      change 6%nat with (List.length (map (fun d => vdot n d) DIRECTION_NORMALS)).
      apply argmax_bound. discriminate. }
    apply face_direction_index_first_greatest; [assumption|].
    destruct (proj1 (face_direction_index_first_greatest n _ Hj) eq_refl) as [H1 H2].
    assert (Hscale : forall k,
              vdot (Vec3 (s * vx n) (s * vy n) (s * vz n)) (nth k DIRECTION_NORMALS vzero) =
              s * vdot n (nth k DIRECTION_NORMALS vzero)).
    { intros k. unfold vdot. cbn [vx vy vz]. ring. }
    split; intros k Hk; rewrite !Hscale.
    + apply Rmult_le_compat_l; [lra | apply H1; assumption].
    + apply Rmult_lt_compat_l; [lra | apply H2; assumption].
  - apply face_direction_index_first_greatest; [lia|].
    split; intros k Hk; [|lia].
    do 6 (destruct k as [|k]; [cbv [nth DIRECTION_NORMALS vdot vx vy vz vzero]; lra|]). lia.
Qed.

(** ** Texture coordinates of a face *)

Lemma index_cases {A : Type} (l : list A) (i : nat) :
  ((i < List.length l)%nat /\ exists a, nth_error l i = Some a /\ index l i = Ok a) \/
  ((List.length l <= i)%nat /\ index l i = Raise IndexError).
Proof.
  unfold index. destruct (nth_error l i) as [a|] eqn:E.
  - left. split; [apply nth_error_Some; congruence | eauto].
  - right. split; [apply nth_error_None; assumption | reflexivity].
Qed.

Lemma mapR_index_cases {A : Type} (l : list A) (idxs : list nat) :
  (Forall (fun i => (i < List.length l)%nat) idxs /\
   exists ys, mapR (index l) idxs = Ok ys /\ List.length ys = List.length idxs) \/
  (~ Forall (fun i => (i < List.length l)%nat) idxs /\ mapR (index l) idxs = Raise IndexError).
Proof.
  induction idxs as [|i idxs IH]; cbn [mapR].
  - left. split; [constructor | exists []; auto].
  - destruct (index_cases l i) as [(Hi & a & _ & Ea)|(Hi & Ea)]; rewrite Ea; cbn [rbind].
    + destruct IH as [(Hall & ys & Eys & Hlen)|(Hnot & Eys)]; rewrite Eys; cbn [rbind].
      * left. split; [constructor; assumption|]. exists (a :: ys). simpl. auto.
      * right. split; [|reflexivity]. intros H. inversion H; subst. contradiction.
    + right. split; [|reflexivity]. intros H. inversion H; subst. lia.
Qed.

Lemma face_uv_cases (uv_layer : list vec2) (face : MeshPolygon) (v_local : list vec3)
    (face_normal : vec3) (w h : Z) :
  let in_range :=
    (loop_start face + 3 < List.length uv_layer)%nat /\
    Forall (fun v => (v < List.length v_local)%nat) (vertices face) /\
    (3 <= List.length (vertices face))%nat in
  (in_range /\
   exists u0 u2 xmin xmax rot,
     nth_error uv_layer (loop_start face) = Some u0 /\
     nth_error uv_layer (loop_start face + 2) = Some u2 /\
     face_uv uv_layer face v_local face_normal w h =
       Ok ([xmin; (1 - Rmax (snd u0) (snd u2)) * IZR h;
            xmax; (1 - Rmin (snd u0) (snd u2)) * IZR h], rot) /\
     ((xmin = Rmin (fst u0) (fst u2) * IZR w /\ xmax = Rmax (fst u0) (fst u2) * IZR w) \/
      (xmin = Rmax (fst u0) (fst u2) * IZR w /\ xmax = Rmin (fst u0) (fst u2) * IZR w))) \/
  (~ in_range /\ face_uv uv_layer face v_local face_normal w h = Raise IndexError).
Proof.
  intros in_range. unfold in_range, face_uv.
  destruct (index_cases uv_layer (loop_start face)) as [(H0 & u0 & N0 & E0)|(H0 & E0)];
    rewrite E0; cbn [rbind]; [|right; split; [lia | reflexivity]].
  destruct (index_cases uv_layer (loop_start face + 1)) as [(H1 & u1 & N1 & E1)|(H1 & E1)];
    rewrite E1; cbn [rbind]; [|right; split; [lia | reflexivity]].
  destruct (index_cases uv_layer (loop_start face + 2)) as [(H2 & u2 & N2 & E2)|(H2 & E2)];
    rewrite E2; cbn [rbind]; [|right; split; [lia | reflexivity]].
  destruct (index_cases uv_layer (loop_start face + 3)) as [(H3 & u3 & N3 & E3)|(H3 & E3)];
    rewrite E3; cbn [rbind]; [|right; split; [lia | reflexivity]].
  destruct (mapR_index_cases v_local (vertices face)) as [(Hv & vs & Ev & Hlen)|(Hv & Ev)];
    rewrite Ev; cbn [rbind]; [|right; split; [tauto | reflexivity]].
  destruct (index_cases (map (project face_normal) vs) 0) as [(G0 & p0 & _ & F0)|(G0 & F0)];
    rewrite F0; cbn [rbind];
    [|right; split; [rewrite length_map in G0; lia | reflexivity]].
  destruct (index_cases (map (project face_normal) vs) 2) as [(G2 & p2 & _ & F2)|(G2 & F2)];
    rewrite F2; cbn [rbind];
    [|right; split; [rewrite length_map in G2; lia | reflexivity]].
  rewrite length_map in G2.
  left. split; [split; [assumption | split; [assumption | lia]]|].
  set (uc := loop_is_clockwise [u0; u1; u2; u3]).
  set (vc := loop_is_clockwise (map (project face_normal) vs)).
  exists u0, u2.
  destruct uc, vc; cbn [negb andb nth]; do 3 eexists;
    (split; [exact N0|]); (split; [exact N2|]); (split; [reflexivity|]);
    first [left; split; reflexivity | right; split; reflexivity].
Qed.

(** X8: [face_uv], the uv rectangle of a textured face (lines 574-688),
    succeeds exactly when the uv layer has the four loop entries of the face,
    every vertex index of the face exists and the face has at least three
    vertices, and raises [IndexError] otherwise.  The rectangle is spanned by
    the first and the third uv of the loop, scaled by the texture size; the
    vertical axis is flipped (Blender has v upwards), the two x entries may
    be exchanged, and uvs inside the unit square give a rectangle inside the
    texture.  The rotation is one of 0, 90, 180 and 270. *)
Theorem face_uv_spec (uv_layer : list vec2) (face : MeshPolygon) (v_local : list vec3)
    (face_normal : vec3) (w h : Z) :
  let in_range :=
    (loop_start face + 3 < List.length uv_layer)%nat /\
    Forall (fun v => (v < List.length v_local)%nat) (vertices face) /\
    (3 <= List.length (vertices face))%nat in
  (in_range <-> exists r, face_uv uv_layer face v_local face_normal w h = Ok r) /\
  (~ in_range <-> face_uv uv_layer face v_local face_normal w h = Raise IndexError) /\
  (forall uvs rot,
     face_uv uv_layer face v_local face_normal w h = Ok (uvs, rot) ->
     In rot [0; 90; 180; 270]%Z /\
     exists u0 u2 xmin ymin xmax ymax,
       nth_error uv_layer (loop_start face) = Some u0 /\
       nth_error uv_layer (loop_start face + 2) = Some u2 /\
       uvs = [xmin; ymin; xmax; ymax] /\
       ymin = (1 - Rmax (snd u0) (snd u2)) * IZR h /\
       ymax = (1 - Rmin (snd u0) (snd u2)) * IZR h /\
       ((xmin = Rmin (fst u0) (fst u2) * IZR w /\ xmax = Rmax (fst u0) (fst u2) * IZR w) \/
        (xmin = Rmax (fst u0) (fst u2) * IZR w /\ xmax = Rmin (fst u0) (fst u2) * IZR w)) /\
       ((0 <= h)%Z -> ymin <= ymax) /\
       ((0 <= w)%Z -> (0 <= h)%Z ->
        0 <= fst u0 <= 1 -> 0 <= snd u0 <= 1 -> 0 <= fst u2 <= 1 -> 0 <= snd u2 <= 1 ->
        0 <= xmin <= IZR w /\ 0 <= xmax <= IZR w /\ 0 <= ymin /\ ymax <= IZR h)).
Proof.
  intros in_range. subst in_range.
  destruct (face_uv_cases uv_layer face v_local face_normal w h)
    as [(Hin & u0 & u2 & xmin & xmax & rot0 & N0 & N2 & E & Hx)|(Hout & E)].
  - split; [split; [intros _; eauto | intros _; exact Hin]|].
    split; [split; [intros Hn; contradiction | intros Hr; congruence]|].
    intros uvs rot Hr. split; [eapply face_uv_rotation_values; exact Hr|].
    rewrite E in Hr. inversion Hr; subst uvs rot.
    exists u0, u2, xmin, ((1 - Rmax (snd u0) (snd u2)) * IZR h), xmax,
      ((1 - Rmin (snd u0) (snd u2)) * IZR h).
    split; [assumption|]. split; [assumption|]. split; [reflexivity|].
    split; [reflexivity|]. split; [reflexivity|]. split; [assumption|].
    assert (Hm : Rmin (snd u0) (snd u2) <= Rmax (snd u0) (snd u2)).
    { apply Rle_trans with (snd u0); [apply Rmin_l | apply Rmax_l]. }
    split.
    + intros Hh. apply IZR_le in Hh. nra.
    + intros Hw Hh A0 B0 A2 B2. apply IZR_le in Hw, Hh.
      assert (0 <= Rmin (fst u0) (fst u2) <= 1).
      { split; [apply Rmin_glb; lra | apply Rle_trans with (fst u0); [apply Rmin_l | lra]]. }
      assert (0 <= Rmax (fst u0) (fst u2) <= 1).
      { split; [apply Rle_trans with (fst u0); [lra | apply Rmax_l] | apply Rmax_lub; lra]. }
      assert (0 <= Rmin (snd u0) (snd u2)) by (apply Rmin_glb; lra).
      assert (Rmax (snd u0) (snd u2) <= 1) by (apply Rmax_lub; lra).
      destruct Hx as [[-> ->]|[-> ->]]; repeat split; nra.
  - split; [split; [intros Hn; contradiction | intros (r & Hr); congruence]|].
    split; [split; [intros _; exact E | intros _; exact Hout]|].
    intros uvs rot Hr. congruence.
Qed.

(** X9: the two rotation lookup tables are arithmetic on quarter turns.
    With the start corners [i] of the uv loop and [j] of the vertex loop, the
    rotation is [90 * ((i - j) mod 4)] when both loops wind the same way and
    [90 * ((1 - i - j) mod 4)] when they wind in opposite ways; so for equal
    windings the rotation is zero exactly when both loops start at the same
    corner. *)
Theorem uv_rotation_quarter_turns (uv_clockwise vert_clockwise : bool) (i j : nat) :
  (i < 4)%nat -> (j < 4)%nat ->
  uv_rotation uv_clockwise vert_clockwise i j =
    (90 * ((if Bool.eqb uv_clockwise vert_clockwise
            then Z.of_nat i - Z.of_nat j
            else 1 - Z.of_nat i - Z.of_nat j) mod 4))%Z /\
  (uv_clockwise = vert_clockwise ->
   (uv_rotation uv_clockwise vert_clockwise i j = 0%Z <-> i = j)).
Proof.
  intros Hi Hj.
  destruct i as [|[|[|[|i]]]]; try lia;
    destruct j as [|[|[|[|j]]]]; try lia;
    destruct uv_clockwise, vert_clockwise; vm_compute;
    (split; [reflexivity|]); intros E; try discriminate E;
    split; intros H; try discriminate H; try reflexivity; try lia.
Qed.

(** X9, witness: the uv loop starts at corner 3 and the vertex loop at corner
    1, both counterclockwise. *)
Lemma uv_rotation_quarter_turns_witness :
  uv_rotation false false 3 1 = 180%Z.
Proof.
  destruct (uv_rotation_quarter_turns false false 3 1) as [H _]; [lia | lia |].
  rewrite H. reflexivity.
Defined.

(** ** Tiles of the color texture *)

Lemma tile_uv_inside (g s i : Z) :
  (0 < g)%Z -> (3 * g <= s)%Z -> (0 <= i < g * g)%Z ->
  exists x1 y1 x2 y2,
    tile_uv g s i = [x1; y1; x2; y2] /\
    0 < x1 /\ x1 < x2 /\ x2 < 16 /\ 0 < y1 /\ y1 < y2 /\ y2 < 16 /\
    x2 - x1 = 16 / IZR s /\ y2 - y1 = 16 / IZR s.
Proof.
  intros Hg Hs Hi. unfold tile_uv. do 4 eexists. split; [reflexivity|].
  assert (Hcol : (0 <= i mod g < g)%Z) by (apply Z.mod_pos_bound; assumption).
  assert (Hrow : (0 <= i / g < g)%Z).
  { split; [apply Z.div_pos; lia | apply Z.div_lt_upper_bound; lia]. }
  assert (Hs0 : (0 < s)%Z) by lia.
  assert (Hzero : forall a, (0 < a)%Z -> 0 < IZR a / IZR s * 16).
  { intros a Ha. replace 0 with (IZR 0 / IZR s * 16) by (unfold Rdiv; simpl; lra).
    apply tile_scale_lt; assumption. }
  assert (Hfull : forall a, (a < s)%Z -> IZR a / IZR s * 16 < 16).
  { intros a Ha. replace 16 with (IZR s / IZR s * 16) at 2.
    - apply tile_scale_lt; assumption.
    - apply IZR_lt in Hs0. field. lra. }
  assert (Hpix : forall a, IZR (a + 2) / IZR s * 16 - IZR (a + 1) / IZR s * 16 = 16 / IZR s).
  { intros a. apply IZR_lt in Hs0. rewrite !plus_IZR. field. lra. }
  repeat split.
  - apply Hzero. lia.
  - apply tile_scale_lt; lia.
  - apply Hfull. lia.
  - apply Hzero. lia.
  - apply tile_scale_lt; lia.
  - apply Hfull. lia.
  - apply Hpix.
  - apply Hpix.
Qed.

Lemma atlas_fold_values (tile : Z -> list R) (P : list R -> Prop) (l : list (nat * rgba)) :
  forall m,
    (forall i c, In (i, c) l -> P (tile (Z.of_nat i))) ->
    Forall (fun kv => P (snd kv)) m ->
    Forall (fun kv => P (snd kv))
           (fold_left (fun m '(i, c) => dict_set rgba_eqb m c (tile (Z.of_nat i))) l m).
Proof.
  induction l as [|[i c] l IH]; intros m Hl Hm; simpl; [assumption|].
  apply IH.
  - intros i' c' Hin. apply (Hl i' c'). right. assumption.
  - apply dict_set_Forall; [assumption|]. apply (Hl i c). left. reflexivity.
Qed.

Lemma atlas_fold_keys (tile : Z -> list R) (l : list (nat * rgba)) :
  forall m c,
    dict_get rgba_eqb
      (fold_left (fun m '(i, c) => dict_set rgba_eqb m c (tile (Z.of_nat i))) l m) c <> None
    <-> (dict_get rgba_eqb m c <> None \/ In c (map snd l)).
Proof.
  induction l as [|[i c0] l IH]; intros m c; simpl; [tauto|].
  rewrite IH. destruct (rgba_eqb c c0) eqn:E.
  - apply rgba_eqb_spec in E. subst c0.
    rewrite (dict_get_set_same rgba_eqb rgba_eqb_spec).
    split; intros _; [right; left; reflexivity | left; discriminate].
  - assert (Hne : c <> c0).
    { intros ->. rewrite (proj2 (rgba_eqb_spec c0 c0)) in E by reflexivity. discriminate. }
    rewrite (dict_get_set_other rgba_eqb rgba_eqb_spec) by assumption.
    split; intros [H|H]; auto. destruct H as [H|H]; [congruence | auto].
Qed.

Lemma enumerate_in {A : Type} (l : list A) (i : nat) (a : A) :
  In (i, a) (enumerate l) -> (i < List.length l)%nat.
Proof.
  unfold enumerate. intros H. apply in_combine_l in H. apply in_seq in H. lia.
Qed.

(** X10: whatever the minimum size, the texture made by
    [create_color_texture] is at least three times the grid size wide, the
    uv rectangle of every color and of the default color lies strictly
    inside the texture (uv units run from 0 to 16) and is one pixel wide and
    high, the middle pixel of its 3 x 3 tile; the colors that have a
    rectangle are exactly the given colors. *)
Theorem color_tiles_inside_texture (colors : list rgba) (min_size : Z) :
  let g := color_grid_size (List.length colors) in
  let '(tex_size, color_tex_uv_map, default_color_uv) :=
    create_color_texture colors min_size in
  (min_size <= tex_size)%Z /\ (3 * g <= tex_size)%Z /\
  (forall c uv,
     dict_get rgba_eqb color_tex_uv_map c = Some uv \/ uv = default_color_uv ->
     exists x1 y1 x2 y2,
       uv = [x1; y1; x2; y2] /\
       0 < x1 /\ x1 < x2 /\ x2 < 16 /\ 0 < y1 /\ y1 < y2 /\ y2 < 16 /\
       x2 - x1 = 16 / IZR tex_size /\ y2 - y1 = 16 / IZR tex_size) /\
  (forall c, dict_get rgba_eqb color_tex_uv_map c <> None <-> In c colors).
Proof.
  intros g. unfold create_color_texture. fold g.
  pose proof (color_grid_size_bounds (List.length colors)) as Hg. cbn zeta in Hg.
  fold g in Hg. destruct Hg as (Hg1 & Hg2 & Hg3).
  set (s := texture_size min_size g).
  assert (Hs : (min_size <= s)%Z /\ (3 * g <= s)%Z).
  { unfold s. rewrite texture_size_log2_up by assumption.
    assert (H3g : (1 < 3 * g)%Z) by lia.
    pose proof (Z.log2_up_spec _ H3g) as [_ Hhi]. lia. }
  destruct Hs as [Hs1 Hs2].
  split; [assumption|]. split; [assumption|]. split.
  - intros c uv [Hc|Hd].
    + pose proof (atlas_fold_values (tile_uv g s)
                    (fun uv => exists x1 y1 x2 y2,
                       uv = [x1; y1; x2; y2] /\
                       0 < x1 /\ x1 < x2 /\ x2 < 16 /\ 0 < y1 /\ y1 < y2 /\ y2 < 16 /\
                       x2 - x1 = 16 / IZR s /\ y2 - y1 = 16 / IZR s)
                    (enumerate colors) []) as Hall.
      eapply (dict_get_Forall rgba_eqb _ _ c uv) in Hall; [exact Hall | | constructor | exact Hc].
      intros i c' Hin. apply enumerate_in in Hin.
      apply tile_uv_inside; lia.
    + subst uv. apply tile_uv_inside; lia.
  - intros c. rewrite atlas_fold_keys. rewrite enumerate_snd. simpl.
    split; [intros [H|H]; [congruence | assumption] | auto].
Qed.

(** ** Animation metadata: the activity-stopped behavior *)

Lemma marker_fold_activity (markers : list PoseMarker) :
  forall q0 s0 e0,
    let '(_, s, _) := fold_left marker_step markers (q0, s0, e0) in
    match find (fun m => String.prefix "onActivityStopped_" (marker_name m))
               (rev markers) with
    | Some m => s = drop_prefix 18 (marker_name m)
    | None => s = s0
    end.
Proof.
  induction markers as [|m markers IH] using rev_ind; intros q0 s0 e0.
  - simpl. reflexivity.
  - rewrite fold_left_app, rev_app_distr. simpl.
    specialize (IH q0 s0 e0).
    destruct (fold_left marker_step markers (q0, s0, e0)) as [[q s] e].
    unfold marker_step.
    destruct (String.prefix "onActivityStopped_" (marker_name m)); [reflexivity|].
    destruct (String.prefix "onAnimationEnd_" (marker_name m)); exact IH.
Qed.

Lemma marker_fold_irrelevant (markers : list PoseMarker) :
  forall st,
    fold_left marker_step
      (filter (fun m => String.prefix "onActivityStopped_" (marker_name m)
                        || String.prefix "onAnimationEnd_" (marker_name m)) markers) st =
    fold_left marker_step markers st.
Proof.
  induction markers as [|m markers IH]; intros [[q s] e]; simpl; [reflexivity|].
  destruct (String.prefix "onActivityStopped_" (marker_name m)) eqn:E1; simpl.
  - rewrite E1. apply IH.
  - destruct (String.prefix "onAnimationEnd_" (marker_name m)) eqn:E2; simpl.
    + rewrite E1, E2. apply IH.
    + apply IH.
Qed.

(** X11: the exported [onActivityStopped] is what follows the prefix in
    the name of the last pose marker named [onActivityStopped_<name>], and
    "Stop" when there is no such marker; pose markers with neither of the two
    prefixes have no effect on the metadata of the action. *)
Theorem on_activity_stopped_from_last_marker
    (pose_markers : list PoseMarker) (keyframe_frames : list R) :
  (let '(_, on_activity_stopped, _) := action_metadata pose_markers keyframe_frames in
   match find (fun m => String.prefix "onActivityStopped_" (marker_name m))
              (rev pose_markers) with
   | Some marker =>
       In marker pose_markers /\
       marker_name marker = ("onActivityStopped_" ++ on_activity_stopped)%string
   | None =>
       (forall marker, In marker pose_markers ->
          String.prefix "onActivityStopped_" (marker_name marker) = false) /\
       on_activity_stopped = "Stop"%string
   end) /\
  action_metadata
    (filter (fun m => String.prefix "onActivityStopped_" (marker_name m)
                      || String.prefix "onAnimationEnd_" (marker_name m)) pose_markers)
    keyframe_frames =
  action_metadata pose_markers keyframe_frames.
Proof.
  split.
  - unfold action_metadata.
    pose proof (marker_fold_activity pose_markers None "Stop"%string "Stop"%string) as H.
    destruct (fold_left marker_step pose_markers (None, "Stop"%string, "Stop"%string))
      as [[q s] e].
    destruct (find (fun m => String.prefix "onActivityStopped_" (marker_name m))
                   (rev pose_markers)) as [m|] eqn:L.
    + subst s. apply find_some in L. destruct L as [Hin Hp].
      split; [apply in_rev; assumption|].
      apply (prefix_split "onActivityStopped_"). exact Hp.
    + subst s. split; [|reflexivity].
      intros m Hin. apply (find_none _ _ L). apply in_rev in Hin. exact Hin.
  - unfold action_metadata. rewrite marker_fold_irrelevant. reflexivity.
Qed.

(** ** Data paths of animation curves *)

Lemma string_length_append (a b : string) :
  String.length (a ++ b) = (String.length a + String.length b)%nat.
Proof. induction a as [|c a IH]; simpl; [reflexivity | f_equal; exact IH]. Qed.

Lemma index_skip (p s1 s2 : string) :
  String.index (String.length p) s1 (p ++ s2) =
  option_map (fun i => (String.length p + i)%nat) (String.index 0 s1 s2).
Proof.
  induction p as [|c p IH].
  - simpl. destruct (String.index 0 s1 s2); reflexivity.
  - cbn [String.length append String.index]. rewrite IH.
    destruct (String.index 0 s1 s2); reflexivity.
Qed.

Lemma index_char_append (c : ascii) (a rest : string) :
  String.index 0 (String c EmptyString) a = None ->
  String.index 0 (String c EmptyString) (a ++ rest) =
  option_map (fun i => (String.length a + i)%nat)
             (String.index 0 (String c EmptyString) rest).
Proof.
  induction a as [|b a IH]; intros H.
  - simpl. destruct (String.index 0 (String c EmptyString) rest); reflexivity.
  - cbn [append String.length]. cbn [String.index String.prefix] in *.
    destruct (Ascii.ascii_dec c b) as [E|E].
    + destruct a; discriminate.
    + destruct (String.index 0 (String c EmptyString) a) eqn:Ha; [discriminate|].
      rewrite IH by reflexivity.
      destruct (String.index 0 (String c EmptyString) rest); reflexivity.
Qed.

Lemma substring_skip (p s : string) (n m : nat) :
  String.substring (String.length p + n) m (p ++ s) = String.substring n m s.
Proof. induction p as [|c p IH]; simpl; [reflexivity | exact IH]. Qed.

Lemma substring_prefix (a b : string) :
  String.substring 0 (String.length a) (a ++ b) = a.
Proof. induction a as [|c a IH]; simpl; [destruct b; reflexivity | f_equal; exact IH]. Qed.

Lemma substring_all (s : string) : String.substring 0 (String.length s) s = s.
Proof. induction s as [|c s IH]; simpl; [reflexivity | f_equal; exact IH]. Qed.

Lemma fcurve_bone_property_of_path (bone_name property_name : string) :
  String.index 0 "]" bone_name = None ->
  fcurve_bone_property (pose_bone_path bone_name property_name) =
    (bone_name, property_name).
Proof.
  intros Hname.
  set (n := String.length bone_name). set (m := String.length property_name).
  set (tail := String "034"%char ("]." ++ property_name)%string).
  assert (Hpath : pose_bone_path bone_name property_name =
                  (("pose.bones[" ++ String "034"%char EmptyString) ++ (bone_name ++ tail))%string)
    by reflexivity.
  assert (Hlen : String.length (pose_bone_path bone_name property_name) = (15 + n + m)%nat).
  { rewrite Hpath, !string_length_append. unfold tail. simpl. fold n m. lia. }
  assert (Hfind : py_find (pose_bone_path bone_name property_name) "]" 12 =
                  Z.of_nat (13 + n)).
  { unfold py_find. rewrite Hpath.
    change 12%nat with (String.length ("pose.bones[" ++ String "034"%char EmptyString)).
    rewrite index_skip. rewrite (index_char_append "]"%char) by exact Hname.
    unfold tail. cbn [String.index String.prefix].
    destruct (Ascii.ascii_dec "]"%char "034"%char) as [E|_]; [discriminate E|].
    destruct (Ascii.ascii_dec "]"%char "]"%char) as [_|E]; [|contradiction].
    cbn [option_map]. fold n. f_equal. simpl. lia. }
  unfold fcurve_bone_property. rewrite Hfind. f_equal.
  - unfold py_slice. rewrite Hlen. unfold py_slice_bound.
    destruct (Z.ltb_spec 12 0) as [E1|E1]; [lia|].
    destruct (Z.ltb_spec (Z.of_nat (13 + n) - 1) 0) as [E2|E2]; [lia|].
    replace (Z.to_nat (Z.min 12 (Z.of_nat (15 + n + m)))) with (12 + 0)%nat by lia.
    replace (Z.to_nat (Z.min (Z.of_nat (13 + n) - 1) (Z.of_nat (15 + n + m)) -
                       Z.min 12 (Z.of_nat (15 + n + m)))) with n by lia.
    rewrite Hpath.
    change 12%nat with (String.length ("pose.bones[" ++ String "034"%char EmptyString)).
    rewrite substring_skip. apply substring_prefix.
  - unfold py_slice_from, py_slice. rewrite Hlen. unfold py_slice_bound.
    destruct (Z.ltb_spec (Z.of_nat (13 + n) + 2) 0) as [E1|E1]; [lia|].
    destruct (Z.ltb_spec (Z.of_nat (15 + n + m)) 0) as [E2|E2]; [lia|].
    replace (Z.to_nat (Z.min (Z.of_nat (13 + n) + 2) (Z.of_nat (15 + n + m))))
      with (12 + (n + (3 + 0)))%nat by lia.
    replace (Z.to_nat (Z.min (Z.of_nat (15 + n + m)) (Z.of_nat (15 + n + m)) -
                       Z.min (Z.of_nat (13 + n) + 2) (Z.of_nat (15 + n + m)))) with m by lia.
    rewrite Hpath.
    change 12%nat with (String.length ("pose.bones[" ++ String "034"%char EmptyString)).
    rewrite substring_skip. unfold n. rewrite substring_skip.
    unfold tail.
    change (String "034"%char ("]." ++ property_name)%string)
      with ((String "034"%char "].") ++ property_name)%string.
    change 3%nat with (String.length (String "034"%char "].")).
    rewrite substring_skip. apply substring_all.
Qed.

(** X12: when the name of a bone has no closing bracket, the bone name and
    the property name that [save_all_animations] reads from the data path
    [pose.bones[<quoted name>].<property>] are that name and that
    property. *)
Theorem fcurve_path_round_trip (bone_name property_name : string) :
  str_contains "]" bone_name = false ->
  fcurve_bone_property (pose_bone_path bone_name property_name) =
    (bone_name, property_name).
Proof.
  unfold str_contains. intros H. apply fcurve_bone_property_of_path.
  destruct (String.index 0 "]" bone_name); [discriminate | reflexivity].
Qed.

(** X12, witness: the location curve of the bone "Arm.L". *)
Lemma fcurve_path_round_trip_witness :
  fcurve_bone_property (pose_bone_path "Arm.L" "location") =
    ("Arm.L"%string, "location"%string).
Proof. apply fcurve_path_round_trip. reflexivity. Defined.

(** X13: which curves of an action reach the animation adapter.  A curve
    whose data path does not start with "pose.bones" is skipped.  For the
    path of a property of a pose bone (whose name has no closing bracket): a
    bone that the armature does not have raises [KeyError]; otherwise the
    curve is added when its property is "location" or is the curve property
    of the rotation mode of the bone, and skipped when it is the rotation
    property of another mode; every rotation mode of the table but
    "QUATERNION" has the property "rotation_euler". *)
Theorem fcurve_step_spec (pose_bones : list (string * string)) :
  (forall data_path,
     String.prefix "pose.bones" data_path = false ->
     fcurve_step pose_bones data_path = Ok SkipCurve) /\
  (forall bone_name property_name,
     str_contains "]" bone_name = false ->
     fcurve_step pose_bones (pose_bone_path bone_name property_name) =
       match dict_get String.eqb pose_bones bone_name with
       | None => Raise KeyError
       | Some rotation_mode =>
           match dict_get String.eqb ROTATION_MODE_TO_FCURVE_PROPERTY rotation_mode with
           | None => Raise KeyError
           | Some p =>
               if (property_name =? "location")%string || (p =? property_name)%string
               then Ok (AddCurve bone_name p)
               else Ok SkipCurve
           end
       end) /\
  (forall rotation_mode p,
     dict_get String.eqb ROTATION_MODE_TO_FCURVE_PROPERTY rotation_mode = Some p ->
     (rotation_mode = "QUATERNION"%string /\ p = "rotation_quaternion"%string) \/
     (rotation_mode <> "QUATERNION"%string /\ p = "rotation_euler"%string)).
Proof.
  split; [|split].
  - intros data_path H. unfold fcurve_step. rewrite H. reflexivity.
  - intros bone_name property_name H. unfold fcurve_step.
    assert (Hp : String.prefix "pose.bones" (pose_bone_path bone_name property_name) = true)
      by reflexivity.
    rewrite Hp. cbn [negb].
    rewrite fcurve_bone_property_of_path.
    + destruct (dict_get String.eqb pose_bones bone_name) as [mode|]; [|reflexivity].
      destruct (dict_get String.eqb ROTATION_MODE_TO_FCURVE_PROPERTY mode) as [p|].
      * destruct (property_name =? "location")%string; cbn [negb rbind orb]; [reflexivity|].
        destruct (p =? property_name)%string; reflexivity.
      * destruct (property_name =? "location")%string; reflexivity.
    + unfold str_contains in H.
      destruct (String.index 0 "]" bone_name); [discriminate | reflexivity].
  - intros mode p. unfold ROTATION_MODE_TO_FCURVE_PROPERTY. cbn [dict_get].
    repeat match goal with
           | |- context [String.eqb mode ?s] =>
               destruct (String.eqb_spec mode s) as [->|?]
           end; intros E; inversion E; subst;
      try (left; split; reflexivity); right; split; try reflexivity; discriminate.
Qed.

(** ** Runs of [generate_element] and the shared collections *)

Lemma state_le_refl (st : export_state) : state_le st st.
Proof.
  unfold state_le. split; [|split; [apply incl_refl | auto]].
  destruct (model_colors st); [split; [apply incl_refl | auto] | exact I].
Qed.

Lemma state_le_trans (a b c : export_state) : state_le a b -> state_le b c -> state_le a c.
Proof.
  unfold state_le. intros (H1 & H2 & H3) (H4 & H5 & H6).
  split; [|split; [eapply incl_tran; eassumption | auto]].
  destruct (model_colors a), (model_colors b), (model_colors c); try tauto.
  destruct H1 as [H1 H1'], H4 as [H4 H4'].
  split; [eapply incl_tran; eassumption | auto].
Qed.

Lemma face_registered_mono (st st' : export_state) (f : FaceValue) :
  state_le st st' -> face_registered st f -> face_registered st' f.
Proof.
  unfold state_le, face_registered. intros (H1 & H2 & _) H. destruct f as [d|c].
  - destruct H as [H|H]; [left; assumption | right; apply H2; assumption].
  - destruct (model_colors st), (model_colors st'); try tauto.
    destruct H1 as [H1 _]. apply H1. assumption.
Qed.

Lemma dict_set_key_in {V : Type} (d : list (string * V)) (k : string) (v : V) :
  In k (dict_keys (dict_set String.eqb d k v)).
Proof.
  unfold dict_keys. induction d as [|[k' v'] d IH]; simpl; [auto|].
  destruct (String.eqb_spec k k') as [->|Hne]; simpl; auto.
Qed.

Lemma dict_set_keys_incl {V : Type} (d : list (string * V)) (k : string) (v : V) :
  incl (dict_keys d) (dict_keys (dict_set String.eqb d k v)).
Proof.
  unfold dict_keys. induction d as [|[k' v'] d IH]; simpl; [intros x []|].
  destruct (String.eqb_spec k k') as [->|Hne]; simpl.
  - apply incl_refl.
  - intros x [<-|Hx]; [left; reflexivity | right; apply IH; assumption].
Qed.

Lemma set_add_in (s : list rgba) (c : rgba) :
  In c (set_add s c) /\ incl s (set_add s c) /\ (NoDup s -> NoDup (set_add s c)).
Proof.
  unfold set_add. destruct (existsb (rgba_eqb c) s) eqn:E.
  - split; [|split; [apply incl_refl | auto]].
    apply existsb_exists in E. destruct E as (x & Hx & Ex).
    apply rgba_eqb_spec in Ex. subst x. assumption.
  - split; [apply in_or_app; right; left; reflexivity|].
    split; [apply incl_appl, incl_refl|].
    intros Hnd. apply NoDup_app; [assumption | constructor; [simpl; tauto | constructor]|].
    intros a Ha [Ea|[]]. subst a.
    assert (Hex : existsb (rgba_eqb c) s = true).
    { apply existsb_exists. exists c. split; [assumption|]. apply rgba_eqb_spec. reflexivity. }
    congruence.
Qed.

Lemma add_model_color_state (c : rgba) (st st' : export_state) (u : unit) :
  add_model_color c st = Ok (u, st') ->
  state_le st st' /\ face_registered st' (FaceColor c).
Proof.
  unfold add_model_color, state_le, face_registered. intros H.
  destruct (model_colors st) as [s|] eqn:Hs; inversion H; subst; cbn [model_colors model_textures].
  - destruct (set_add_in s c) as (Hin & Hincl & Hnd).
    split; [split; [split; assumption | split; [apply incl_refl | auto]] | assumption].
  - rewrite ?Hs. split; [split; [exact I | split; [apply incl_refl | auto]] | exact I].
Qed.

Lemma set_model_texture_state (t : TextureInfo) (st st' : export_state) (u : unit) :
  set_model_texture t st = Ok (u, st') ->
  state_le st st' /\ In (path t) (dict_keys (model_textures st')).
Proof.
  unfold set_model_texture, state_le. intros H. inversion H; subst.
  cbn [model_colors model_textures].
  split; [split; [|split]|].
  - destruct (model_colors st); [split; [apply incl_refl | auto] | exact I].
  - apply dict_set_keys_incl.
  - apply dict_set_NoDup.
  - apply dict_set_key_in.
Qed.

Lemma foldM_state_invariant {A B : Type} (f : B -> A -> M B)
    (I : B -> export_state -> Prop) :
  forall l,
    (forall acc x st acc' st',
       In x l -> I acc st -> f acc x st = Ok (acc', st') -> I acc' st') ->
    forall acc st acc' st', I acc st -> foldM f l acc st = Ok (acc', st') -> I acc' st'.
Proof.
  induction l as [|x l IH]; intros Hstep acc st acc' st' Hacc H.
  - apply ret_ok in H. destruct H as [-> ->]. assumption.
  - cbn [foldM] in H. apply bind_ok in H. destruct H as (a & st1 & H1 & H2).
    apply (IH (fun acc0 y s acc1 s' Hy => Hstep acc0 y s acc1 s' (or_intror Hy))
              a st1 acc' st'); [|assumption].
    apply (Hstep acc x st a st1); [left; reflexivity | assumption | assumption].
Qed.

Lemma face_step_state (obj : Object) (uv_layer : list vec2) (v_local : list vec3)
    (p m : option mat3) (eu egt : bool)
    (faces faces' : list (string * FaceValue)) (face : MeshPolygon) (st st' : export_state) :
  face_step obj uv_layer v_local p m eu egt faces face st = Ok (faces', st') ->
  state_le st st' /\
  (Forall (fun kv => face_registered st (snd kv)) faces ->
   Forall (fun kv => face_registered st' (snd kv)) faces').
Proof.
  unfold face_step. intros H.
  destruct (get_object_color obj (material_index face) default_color) as [c|t].
  - destruct egt.
    + apply bind_ok in H. destruct H as (u & s1 & Hadd & H).
      apply ret_ok in H. destruct H as [-> ->].
      apply add_model_color_state in Hadd. destruct Hadd as [Hle Hreg].
      split; [assumption|]. intros Hall.
      apply (dict_set_Forall String.eqb (face_registered s1)); [|assumption].
      eapply Forall_impl; [|exact Hall]. intros kv. apply face_registered_mono. assumption.
    + apply ret_ok in H. destruct H as [-> ->]. split; [apply state_le_refl | auto].
  - apply bind_ok in H. destruct H as (f & s1 & Hf & H).
    apply lift_ok in Hf. destruct Hf as [Hf ->].
    apply bind_ok in H. destruct H as (u & s2 & Hset & H).
    apply set_model_texture_state in Hset. destruct Hset as [Hle Hin].
    assert (Hmono : Forall (fun kv => face_registered st (snd kv)) faces ->
                    Forall (fun kv => face_registered s2 (snd kv)) faces).
    { intros Hall. eapply Forall_impl; [|exact Hall].
      intros kv. apply face_registered_mono. assumption. }
    destruct eu.
    + apply bind_ok in H. destruct H as ([uvs rot] & s3 & Huv & H).
      apply lift_ok in Huv. destruct Huv as [_ ->].
      apply ret_ok in H. destruct H as [-> ->].
      split; [assumption|]. intros Hall.
      apply (dict_set_Forall String.eqb (face_registered s2)); [auto|].
      right. exact Hin.
    + apply ret_ok in H. destruct H as [-> ->].
      split; [assumption|]. intros Hall.
      apply (dict_set_Forall String.eqb (face_registered s2)); [auto|].
      right. exact Hin.
Qed.

Lemma faces_loop_state (obj : Object) (uv_layer : list vec2) (v_local : list vec3)
    (p m : option mat3) (eu egt : bool) (polys : list MeshPolygon)
    (faces faces' : list (string * FaceValue)) (st st' : export_state) :
  foldM (face_step obj uv_layer v_local p m eu egt) polys faces st = Ok (faces', st') ->
  Forall (fun kv => face_registered st (snd kv)) faces ->
  state_le st st' /\ Forall (fun kv => face_registered st' (snd kv)) faces'.
Proof.
  intros H Hreg.
  apply (foldM_state_invariant _
           (fun acc s => state_le st s /\ Forall (fun kv => face_registered s (snd kv)) acc))
    in H.
  - exact H.
  - intros acc x sa acc' sb _ [Hle Hall] Hstep.
    apply face_step_state in Hstep. destruct Hstep as [Hle' Hall'].
    split; [eapply state_le_trans; eassumption | auto].
  - split; [apply state_le_refl | assumption].
Qed.

Lemma initial_faces_registered (st : export_state) :
  Forall (fun kv => face_registered st (snd kv)) initial_faces.
Proof. unfold initial_faces. repeat constructor. Qed.

Section BuilderRuns.
Context {host : Mathutils}.

Lemma child_step_state (attach : Object -> result (option AttachPoint))
    (generate : Object -> M (option Element))
    (acc acc' : list Element * list AttachPoint) (child : Object) (st st' : export_state) :
  child_step attach generate acc child st = Ok (acc', st') ->
  ((type child =? "EMPTY")%string = true /\ st' = st /\ fst acc' = fst acc /\
   exists a, attach child = Ok a /\
             snd acc' = match a with Some x => snd acc ++ [x] | None => snd acc end) \/
  ((type child =? "EMPTY")%string = false /\ snd acc' = snd acc /\
   exists r, generate child st = Ok (r, st') /\
             fst acc' = match r with Some e => fst acc ++ [e] | None => fst acc end).
Proof.
  destruct acc as [children attachpoints]. unfold child_step. intros H.
  destruct (type child =? "EMPTY")%string.
  - left. apply bind_ok in H. destruct H as (a & s1 & Ha & H).
    apply lift_ok in Ha. destruct Ha as [Ha ->].
    split; [reflexivity|].
    destruct a; apply ret_ok in H; destruct H as [-> ->]; cbn [fst snd]; eauto.
  - right. apply bind_ok in H. destruct H as (r & s1 & Hg & H).
    split; [reflexivity|].
    destruct r; apply ret_ok in H; destruct H as [-> ->]; cbn [fst snd]; eauto.
Qed.

Lemma bone_child_step_state (generate : Object -> M (option Element))
    (acc acc' : list Element) (child : Object) (st st' : export_state) :
  bone_child_step generate acc child st = Ok (acc', st') ->
  exists r, generate child st = Ok (r, st') /\
            acc' = match r with Some e => acc ++ [e] | None => acc end.
Proof.
  unfold bone_child_step. intros H.
  apply bind_ok in H. destruct H as (r & s1 & Hg & H).
  destruct r; apply ret_ok in H; destruct H as [-> ->]; eauto.
Qed.

(** The steps of a run of [generate_element] that returns an element, with
    the states between them. *)
Lemma generate_element_steps (fuel : nat) (obj : Object) (parent : option Object)
    (armature : option Armature) (bone_hierarchy : option (list (string * BoneNode)))
    (pmw : option mat4) (pco pro : vec3) (pr90 : option mat3) (eu egt : bool)
    (st st' : export_state) (e : Element) :
  generate_element fuel obj parent armature bone_hierarchy pmw pco pro pr90 eu egt st
    = Ok (Some e, st') ->
  exists fuel' mesh geo uv_layer fs s1 cs aps s2 obj_name cs' collection,
    fuel = S fuel' /\
    data obj = MeshData mesh /\
    List.length (mesh_vertices mesh) = 8%nat /\
    element_geometry fuel' mesh obj armature bone_hierarchy pmw pco pro pr90 = Ok geo /\
    uv_layers_active mesh = Some uv_layer /\
    foldM (face_step obj uv_layer (geo_v_local geo) pr90 (geo_mat_rotate_90deg geo) eu egt)
          (firstn 6 (polygons mesh)) initial_faces st = Ok (fs, s1) /\
    foldM (child_step
             (fun child =>
                generate_attach_point fuel' child (Some obj) armature (geo_v_from geo)
                  (geo_rotation_origin geo)
                  (child_rotation_90deg (geo_mat_rotate_90deg geo) pr90))
             (fun child =>
                generate_element fuel' child (Some obj) None None
                  (Some (geo_matrix_world geo)) (geo_v_from geo) (geo_rotation_origin geo)
                  (child_rotation_90deg (geo_mat_rotate_90deg geo) pr90) eu true))
          (children obj) ([], []) s1 = Ok ((cs, aps), s2) /\
    match bone_hierarchy with
    | Some bh =>
        exists bone_objs,
          bone_obj_children obj armature bh = Ok (obj_name, bone_objs) /\
          foldM (bone_child_step
                   (fun child =>
                      generate_element fuel' child (Some obj) armature bone_hierarchy
                        (Some (geo_matrix_world geo)) (geo_v_from geo)
                        (geo_rotation_origin geo)
                        (child_rotation_90deg (geo_mat_rotate_90deg geo) pr90) eu true))
                bone_objs cs s2 = Ok (cs', st')
    | None => obj_name = name obj /\ cs' = cs /\ st' = s2
    end /\
    index (users_collection obj) 0 = Ok collection /\
    e = build_element obj_name geo collection fs cs' aps.
Proof.
  intros H. destruct fuel as [|fuel']; [discriminate|].
  cbn [generate_element] in H.
  destruct (data obj) as [mesh|] eqn:Hdata; [|apply ret_ok in H; destruct H; discriminate].
  destruct (List.length (mesh_vertices mesh) =? 8)%nat eqn:Hlen;
    cbn [negb] in H; [|apply ret_ok in H; destruct H; discriminate].
  apply Nat.eqb_eq in Hlen.
  apply bind_ok in H. destruct H as (geo & s1 & Hgeo & H).
  apply lift_ok in Hgeo. destruct Hgeo as [Hgeo ->].
  apply bind_ok in H. destruct H as (uv_layer & s2 & Huv & H).
  destruct (uv_layers_active mesh) as [d|] eqn:Hlayer; [|discriminate].
  apply ret_ok in Huv. destruct Huv as [-> ->].
  apply bind_ok in H. destruct H as (fs & s3 & Hfaces & H).
  apply bind_ok in H. destruct H as ([cs aps] & s4 & Hchildren & H).
  apply bind_ok in H. destruct H as ([obj_name cs'] & s5 & Hbones & H).
  apply bind_ok in H. destruct H as (collection & s6 & Hcoll & H).
  apply lift_ok in Hcoll. destruct Hcoll as [Hcoll ->].
  apply ret_ok in H. destruct H as [He ->]. inversion He; subst e.
  exists fuel', mesh, geo, d, fs, s3, cs, aps, s4, obj_name, cs', collection.
  repeat (split; [first [assumption | reflexivity]|]).
  split; [|split; [assumption | reflexivity]].
  destruct bone_hierarchy as [bh|].
  - apply bind_ok in Hbones. destruct Hbones as ([n bc] & s7 & Hbc & Hbones).
    apply lift_ok in Hbc. destruct Hbc as [Hbc ->].
    apply bind_ok in Hbones. destruct Hbones as (cs2 & s8 & Hbones & Hret).
    apply ret_ok in Hret. destruct Hret as [Hret ->]. inversion Hret; subst.
    exists bc. auto.
  - apply ret_ok in Hbones. destruct Hbones as [Hret ->]. inversion Hret; subst. auto.
Qed.

Lemma generate_element_none (fuel : nat) (obj : Object) (parent : option Object)
    (armature : option Armature) (bone_hierarchy : option (list (string * BoneNode)))
    (pmw : option mat4) (pco pro : vec3) (pr90 : option mat3) (eu egt : bool)
    (st st' : export_state) :
  generate_element fuel obj parent armature bone_hierarchy pmw pco pro pr90 eu egt st
    = Ok (None, st') ->
  st' = st /\
  (data obj = OtherData \/
   exists mesh, data obj = MeshData mesh /\ List.length (mesh_vertices mesh) <> 8%nat).
Proof.
  intros H. destruct fuel as [|fuel']; [discriminate|].
  cbn [generate_element] in H.
  destruct (data obj) as [mesh|] eqn:Hdata;
    [|apply ret_ok in H; destruct H as [_ ->]; auto].
  destruct (List.length (mesh_vertices mesh) =? 8)%nat eqn:Hlen; cbn [negb] in H.
  - exfalso.
    apply bind_ok in H. destruct H as (geo & s1 & _ & H).
    apply bind_ok in H. destruct H as (uv_layer & s2 & _ & H).
    apply bind_ok in H. destruct H as (fs & s3 & _ & H).
    apply bind_ok in H. destruct H as ([cs aps] & s4 & _ & H).
    apply bind_ok in H. destruct H as ([obj_name cs'] & s5 & _ & H).
    apply bind_ok in H. destruct H as (collection & s6 & _ & H).
    apply ret_ok in H. destruct H as [He _]. discriminate.
  - apply ret_ok in H. destruct H as [_ ->]. split; [reflexivity|].
    right. exists mesh. split; [reflexivity|]. apply Nat.eqb_neq. assumption.
Qed.

Lemma generate_element_state_le (fuel : nat) :
  forall obj parent armature bone_hierarchy pmw pco pro pr90 eu egt st r st',
    generate_element fuel obj parent armature bone_hierarchy pmw pco pro pr90 eu egt st
      = Ok (r, st') ->
    state_le st st'.
Proof.
  induction fuel as [|fuel IH];
    intros obj parent armature bone_hierarchy pmw pco pro pr90 eu egt st r st' H;
    [discriminate|].
  destruct r as [e|];
    [|apply generate_element_none in H; destruct H as [-> _]; apply state_le_refl].
  apply generate_element_steps in H.
  destruct H as (fuel' & mesh & geo & uv_layer & fs & s1 & cs & aps & s2 & obj_name & cs'
                 & collection & Ef & _ & _ & _ & _ & Hfaces & Hchildren & Hbones & _ & _).
  inversion Ef; subst fuel'.
  apply faces_loop_state in Hfaces; [|apply initial_faces_registered].
  destruct Hfaces as [Hle1 _].
  assert (Hle2 : state_le s1 s2).
  { apply (foldM_state_invariant _ (fun _ s => state_le s1 s)) in Hchildren.
    - exact Hchildren.
    - intros acc x sa acc' sb _ Hacc Hstep. apply child_step_state in Hstep.
      destruct Hstep as [(_ & -> & _)|(_ & _ & r & Hg & _)]; [assumption|].
      eapply state_le_trans; [exact Hacc|]. eapply IH. exact Hg.
    - apply state_le_refl. }
  assert (Hle3 : state_le s2 st').
  { destruct bone_hierarchy as [bh|].
    - destruct Hbones as (bone_objs & _ & Hb).
      apply (foldM_state_invariant _ (fun _ s => state_le s2 s)) in Hb.
      + exact Hb.
      + intros acc x sa acc' sb _ Hacc Hstep. apply bone_child_step_state in Hstep.
        destruct Hstep as (r & Hg & _).
        eapply state_le_trans; [exact Hacc|]. eapply IH. exact Hg.
      + apply state_le_refl.
    - destruct Hbones as (_ & _ & ->). apply state_le_refl. }
  eapply state_le_trans; [exact Hle1|]. eapply state_le_trans; eassumption.
Qed.

End BuilderRuns.

Lemma tree_registered_mono (st st' : export_state) (e : Element) :
  state_le st st' -> tree_registered st e -> tree_registered st' e.
Proof.
  unfold tree_registered. intros Hle H.
  eapply Forall_impl; [|exact H]. intros e' He'.
  eapply Forall_impl; [|exact He']. intros kv. apply face_registered_mono. assumption.
Qed.

Lemma trees_registered_snoc (st st' : export_state) (cs : list Element)
    (r : option Element) :
  state_le st st' ->
  Forall (tree_registered st) cs ->
  (forall e, r = Some e -> tree_registered st' e) ->
  Forall (tree_registered st') (match r with Some e => cs ++ [e] | None => cs end).
Proof.
  intros Hle Hcs Hr.
  assert (Hcs' : Forall (tree_registered st') cs).
  { eapply Forall_impl; [|exact Hcs]. intros e. apply tree_registered_mono. assumption. }
  destruct r as [e|]; [|assumption].
  apply Forall_app. split; [assumption|]. constructor; [auto | constructor].
Qed.

Section BuilderCollections.
Context {host : Mathutils}.

Lemma generate_element_registered (fuel : nat) :
  forall obj parent armature bone_hierarchy pmw pco pro pr90 eu egt st e st',
    generate_element fuel obj parent armature bone_hierarchy pmw pco pro pr90 eu egt st
      = Ok (Some e, st') ->
    tree_registered st' e.
Proof.
  induction fuel as [|fuel IH];
    intros obj parent armature bone_hierarchy pmw pco pro pr90 eu egt st e st' H;
    [discriminate|].
  apply generate_element_steps in H.
  destruct H as (fuel' & mesh & geo & uv_layer & fs & s1 & cs & aps & s2 & obj_name & cs'
                 & collection & Ef & _ & _ & _ & _ & Hfaces & Hchildren & Hbones & _ & ->).
  inversion Ef; subst fuel'.
  apply faces_loop_state in Hfaces; [|apply initial_faces_registered].
  destruct Hfaces as [_ Hfs].
  assert (H2 : state_le s1 s2 /\ Forall (tree_registered s2) cs).
  { apply (foldM_state_invariant _
             (fun acc s => state_le s1 s /\ Forall (tree_registered s) (fst acc)))
      in Hchildren.
    - exact Hchildren.
    - intros acc x sa acc' sb _ [Hle Hacc] Hstep. apply child_step_state in Hstep.
      destruct Hstep as [(_ & -> & -> & _)|(_ & _ & r & Hg & ->)]; [auto|].
      pose proof (generate_element_state_le _ _ _ _ _ _ _ _ _ _ _ _ _ _ Hg) as Hle'.
      split; [eapply state_le_trans; eassumption|].
      apply (trees_registered_snoc sa); [assumption | assumption|].
      intros e ->. eapply IH. exact Hg.
    - split; [apply state_le_refl | constructor]. }
  destruct H2 as [Hle2 Hcs].
  assert (H3 : state_le s2 st' /\ Forall (tree_registered st') cs').
  { destruct bone_hierarchy as [bh|].
    - destruct Hbones as (bone_objs & _ & Hb).
      apply (foldM_state_invariant _
               (fun acc s => state_le s2 s /\ Forall (tree_registered s) acc)) in Hb.
      + exact Hb.
      + intros acc x sa acc' sb _ [Hle Hacc] Hstep. apply bone_child_step_state in Hstep.
        destruct Hstep as (r & Hg & ->).
        pose proof (generate_element_state_le _ _ _ _ _ _ _ _ _ _ _ _ _ _ Hg) as Hle'.
        split; [eapply state_le_trans; eassumption|].
        apply (trees_registered_snoc sa); [assumption | assumption|].
        intros e ->. eapply IH. exact Hg.
      + split; [apply state_le_refl | assumption].
    - destruct Hbones as (_ & -> & ->). split; [apply state_le_refl | assumption]. }
  destruct H3 as [Hle3 Hcs'].
  unfold tree_registered. cbn [elements build_element element_children faces].
  constructor.
  - eapply Forall_impl; [|exact Hfs]. intros kv. apply face_registered_mono.
    eapply state_le_trans; eassumption.
  - apply Forall_flat_map_intro. exact Hcs'.
Qed.

(** X14: a call of [generate_element] that returns never removes anything
    from the shared collections: every color of [model_colors] and every
    path of [model_textures] is still there afterwards, colors that are not
    tracked stay untracked, and [model_textures] keeps each of its keys once.
    A call that returns [None] leaves the collections as they are; it is a
    call on an object that is not a mesh of eight vertices. *)
Theorem generate_element_collections_grow (fuel : nat) (obj : Object)
    (parent : option Object) (armature : option Armature)
    (bone_hierarchy : option (list (string * BoneNode)))
    (pmw : option mat4) (pco pro : vec3) (pr90 : option mat3) (eu egt : bool)
    (st st' : export_state) (r : option Element) :
  generate_element fuel obj parent armature bone_hierarchy pmw pco pro pr90 eu egt st
    = Ok (r, st') ->
  state_le st st' /\
  (r = None ->
   st' = st /\
   (data obj = OtherData \/
    exists mesh, data obj = MeshData mesh /\ List.length (mesh_vertices mesh) <> 8%nat)).
Proof.
  intros H. split; [eapply generate_element_state_le; exact H|].
  intros ->. eapply generate_element_none. exact H.
Qed.

(** X15: in the tree that [generate_element] returns, every face refers to
    what the shared collections hold when the call returns: the texture of a
    face dict is the placeholder "#0" or a path registered in
    [model_textures], and a face that is a color tuple has its color in
    [model_colors] when the colors are tracked. *)
Theorem generate_element_faces_registered (fuel : nat) (obj : Object)
    (parent : option Object) (armature : option Armature)
    (bone_hierarchy : option (list (string * BoneNode)))
    (pmw : option mat4) (pco pro : vec3) (pr90 : option mat3) (eu egt : bool)
    (st st' : export_state) (e : Element) :
  generate_element fuel obj parent armature bone_hierarchy pmw pco pro pr90 eu egt st
    = Ok (Some e, st') ->
  forall e' d f, In e' (elements e) -> In (d, f) (faces e') ->
    match f with
    | FaceOf face =>
        texture face = "#0"%string \/ In (texture face) (dict_keys (model_textures st'))
    | FaceColor c =>
        match model_colors st' with
        | Some colors => In c colors
        | None => True
        end
    end.
Proof.
  intros H e' d f He' Hf. apply generate_element_registered in H.
  unfold tree_registered in H. rewrite Forall_forall in H. specialize (H e' He').
  rewrite Forall_forall in H. exact (H (d, f) Hf).
Qed.

End BuilderCollections.

(** X14, witness: the textured cube, exported from the empty collections. *)
Lemma generate_element_collections_grow_witness :
  exists e st',
    @generate_element unrotated_host 1 textured_cube None None None None vzero vzero None
      true true empty_state = Ok (Some e, st') /\
    state_le empty_state st'.
Proof.
  destruct textured_cube_run as (geo & fs & st' & H & _).
  eexists _, st'. split; [exact H|].
  exact (proj1 (generate_element_collections_grow _ _ _ _ _ _ _ _ _ _ _ _ _ _ H)).
Defined.

(** X15, witness: the faces of the textured cube. *)
Lemma generate_element_faces_registered_witness :
  exists e st',
    @generate_element unrotated_host 1 textured_cube None None None None vzero vzero None
      true true empty_state = Ok (Some e, st') /\
    forall d face, In (d, FaceOf face) (faces e) ->
      texture face = "#0"%string \/ In (texture face) (dict_keys (model_textures st')).
Proof.
  destruct textured_cube_run as (geo & fs & st' & H & _).
  eexists _, st'. split; [exact H|].
  intros d face Hin.
  refine (generate_element_faces_registered _ _ _ _ _ _ _ _ _ _ _ _ _ _ H _ d (FaceOf face)
            _ Hin).
  left. reflexivity.
Defined.

(** ** Texture references *)

Lemma str_of_nat_inj (n m : nat) : str_of_nat n = str_of_nat m -> n = m.
Proof.
  unfold str_of_nat. intros H. apply Unsigned.to_uint_inj.
  pose proof (NilEmpty.usu (Nat.to_uint n)) as Hn. rewrite H in Hn.
  rewrite NilEmpty.usu in Hn. congruence.
Qed.

Lemma in_dict_keys_nth {V : Type} (d : list (string * V)) (k : string) :
  In k (dict_keys d) -> exists i v, nth_error d i = Some (k, v).
Proof.
  unfold dict_keys. intros H. apply in_map_iff in H. destruct H as ([k' v] & E & Hin).
  simpl in E. subst k'. apply In_nth_error in Hin. destruct Hin as [i Hi]. eauto.
Qed.

Lemma texture_ref_loop_spec (model_textures : list (string * TextureInfo)) :
  NoDup (dict_keys model_textures) ->
  let '(texture_id, refs, sizes) := texture_ref_loop model_textures in
  texture_id = S (List.length model_textures) /\
  dict_keys refs = dict_keys model_textures /\
  (forall i texture_path info,
     nth_error model_textures i = Some (texture_path, info) ->
     dict_get String.eqb refs texture_path = Some ("#" ++ str_of_nat (S i))%string /\
     dict_get String.eqb sizes (str_of_nat (S i)) = Some (size info)).
Proof.
  unfold texture_ref_loop.
  induction model_textures as [|[p info] l IH] using rev_ind; intros Hnd.
  - simpl. split; [reflexivity|]. split; [reflexivity|].
    intros i tp ti H. destruct i; discriminate.
  - rewrite fold_left_app. cbn [fold_left].
    unfold dict_keys in Hnd. rewrite map_app in Hnd. cbn [map fst] in Hnd.
    apply NoDup_remove in Hnd. rewrite app_nil_r in Hnd. destruct Hnd as [Hnd Hp].
    specialize (IH Hnd).
    destruct (fold_left texture_ref_step l (1%nat, [], [])) as [[id refs] sizes].
    destruct IH as (-> & Hkeys & Hget). cbn [texture_ref_step].
    split; [rewrite length_app; simpl; lia|]. split.
    + rewrite dict_keys_set_absent by (rewrite Hkeys; exact Hp).
      rewrite Hkeys. unfold dict_keys. rewrite map_app. reflexivity.
    + intros i tp ti Hi.
      destruct (Nat.lt_ge_cases i (List.length l)) as [Hlt|Hge].
      * rewrite nth_error_app1 in Hi by assumption.
        destruct (Hget i tp ti Hi) as [H1 H2].
        assert (Htp : tp <> p).
        { intros ->. apply Hp. apply in_map_iff. exists (p, ti).
          split; [reflexivity | eapply nth_error_In; exact Hi]. }
        rewrite (dict_get_set_other String.eqb string_eqb_spec) by assumption.
        rewrite (dict_get_set_other String.eqb string_eqb_spec); [auto|].
        intros E. apply str_of_nat_inj in E. lia.
      * rewrite nth_error_app2 in Hi by assumption.
        destruct (i - List.length l)%nat as [|j] eqn:Ej; [|destruct j; discriminate].
        simpl in Hi. inversion Hi; subst tp ti.
        replace i with (List.length l) by lia.
        rewrite !(dict_get_set_same String.eqb string_eqb_spec). auto.
Qed.

Lemma texture_refs_values (model_textures : list (string * TextureInfo))
    (texture_path ref : string) :
  NoDup (dict_keys model_textures) ->
  dict_get String.eqb (texture_refs model_textures) texture_path = Some ref ->
  exists i info,
    nth_error model_textures i = Some (texture_path, info) /\
    ref = ("#" ++ str_of_nat (S i))%string.
Proof.
  intros Hnd Href. unfold texture_refs in Href.
  pose proof (texture_ref_loop_spec model_textures Hnd) as H.
  destruct (texture_ref_loop model_textures) as [[id refs] sizes]. cbn [fst snd] in Href.
  destruct H as (_ & Hkeys & Hget).
  assert (Hin : In texture_path (dict_keys model_textures)).
  { rewrite <- Hkeys. unfold dict_keys. apply in_map_iff.
    exists (texture_path, ref). split; [reflexivity|]. apply dict_get_some_in. exact Href. }
  apply in_dict_keys_nth in Hin. destruct Hin as (i & info & Hi).
  exists i, info. split; [assumption|].
  destruct (Hget i texture_path info Hi) as [H1 _]. congruence.
Qed.

(** X16: the identifiers that [save_objects] gives to the textures of
    [model_textures] (a dict, so with each path once).  The texture at
    position [i] of the dict gets the identifier "#" followed by the decimal
    numeral of [i + 1], and its size is stored under that numeral; a path has
    an identifier exactly when it is a key of [model_textures]; two paths
    never share an identifier, and no path gets "#0", the identifier of the
    generated color texture. *)
Theorem texture_refs_spec (model_textures : list (string * TextureInfo)) :
  NoDup (dict_keys model_textures) ->
  let '(texture_id, refs, sizes) := texture_ref_loop model_textures in
  refs = texture_refs model_textures /\
  texture_id = S (List.length model_textures) /\
  (forall i texture_path info,
     nth_error model_textures i = Some (texture_path, info) ->
     dict_get String.eqb refs texture_path = Some ("#" ++ str_of_nat (S i))%string /\
     dict_get String.eqb sizes (str_of_nat (S i)) = Some (size info)) /\
  (forall texture_path,
     dict_get String.eqb refs texture_path <> None <->
     In texture_path (dict_keys model_textures)) /\
  (forall path1 path2 ref,
     dict_get String.eqb refs path1 = Some ref ->
     dict_get String.eqb refs path2 = Some ref -> path1 = path2) /\
  (forall texture_path ref,
     dict_get String.eqb refs texture_path = Some ref -> ref <> "#0"%string).
Proof.
  intros Hnd.
  pose proof (texture_ref_loop_spec model_textures Hnd) as H.
  pose proof (texture_refs_values model_textures) as Hval. unfold texture_refs in *.
  destruct (texture_ref_loop model_textures) as [[id refs] sizes]. cbn [fst snd] in *.
  destruct H as (Hid & Hkeys & Hget).
  split; [reflexivity|]. split; [assumption|]. split; [assumption|]. split; [|split].
  - intros p. rewrite <- Hkeys, <- dict_mem_keys. unfold dict_mem.
    destruct (dict_get String.eqb refs p); split; intros H; congruence.
  - intros p1 p2 ref H1 H2.
    destruct (Hval p1 ref Hnd H1) as (i1 & info1 & N1 & E1).
    destruct (Hval p2 ref Hnd H2) as (i2 & info2 & N2 & E2).
    rewrite E1 in E2. inversion E2 as [E]. apply str_of_nat_inj in E.
    inversion E; subst i2. congruence.
  - intros p ref H1 E. destruct (Hval p ref Hnd H1) as (i & info & _ & E1).
    rewrite E in E1. inversion E1 as [E0].
    change "0"%string with (str_of_nat 0) in E0. apply str_of_nat_inj in E0. discriminate.
Qed.

(** X16, witness: two textures. *)
Lemma texture_refs_spec_witness :
  texture_refs two_textures = [("//stone.png", "#1"); ("//wood.png", "#2")]%string /\
  dict_get String.eqb (texture_refs two_textures) "//wood.png"%string <> None.
Proof.
  split; [reflexivity|].
  pose proof (texture_refs_spec two_textures) as H.
  assert (Hnd : NoDup (dict_keys two_textures)).
  { repeat constructor; simpl; intuition discriminate. }
  specialize (H Hnd).
  destruct (texture_ref_loop two_textures) as [[id refs] sizes] eqn:E.
  destruct H as (Hrefs & _ & _ & Hin & _).
  rewrite <- Hrefs. apply Hin. simpl. auto.
Defined.

(** ** The final processing of the elements *)

Lemma Element_tree_ind (P : Element -> Prop) :
  (forall e, Forall P (element_children e) -> P e) -> forall e, P e.
Proof.
  intros H. fix IH 1. intros e. apply H.
  destruct e as [n f t ro rx ry rz g fs cs ap]. cbn [element_children].
  exact ((fix go (l : list Element) : Forall P l :=
            match l with
            | [] => Forall_nil P
            | c :: l' => Forall_cons c (IH c) (go l')
            end) cs).
Qed.

Lemma mapP_processed {A B : Type} (f : A -> processed B) (l : list A) (ys : list B) :
  mapP f l = Processed ys -> Forall2 (fun x y => f x = Processed y) l ys.
Proof.
  revert ys. induction l as [|x l IH]; intros ys H; cbn [mapP] in H.
  - inversion H. constructor.
  - destruct (f x) as [y|] eqn:Ey; [|discriminate].
    destruct (mapP f l) as [ys'|]; [|discriminate].
    inversion H; subst. constructor; auto.
Qed.

Lemma mapP_total {A B : Type} (f : A -> processed B) (l : list A) :
  Forall (fun x => exists y, f x = Processed y) l -> exists ys, mapP f l = Processed ys.
Proof.
  induction 1 as [|x l (y & Ey) _ (ys & Eys)]; cbn [mapP].
  - eauto.
  - rewrite Ey, Eys. eauto.
Qed.

Lemma mapP_name_error {A B : Type} (f : A -> processed B) (l : list A) :
  mapP f l = NameError <-> exists x, In x l /\ f x = NameError.
Proof.
  induction l as [|x l IH]; cbn [mapP].
  - split; [discriminate | intros (x & [] & _)].
  - destruct (f x) as [y|] eqn:Ey.
    + destruct (mapP f l) as [ys|].
      * split; [discriminate|]. intros (x' & [<-|Hin] & Hx'); [congruence|].
        assert (Hc : @Processed (list B) ys = NameError) by (apply IH; eauto).
        discriminate.
      * split; [|reflexivity]. intros _.
        destruct (proj1 IH eq_refl) as (x' & Hin & Hx'). exists x'. simpl. auto.
    + split; [|reflexivity]. intros _. exists x. simpl. auto.
Qed.

Lemma process_face_cases (atlas : option (list (rgba * list R) * list R))
    (refs : list (string * string)) (d : string) (f : FaceValue) :
  match f with
  | FaceOf face =>
      exists f', process_face atlas refs (d, f) = Processed (d, f') /\
                 exported_uv f' = uv face /\
                 exported_autoUv f' = Some (autoUv face) /\
                 exported_rotation f' = rotation face /\
                 exported_texture f' =
                   match dict_get String.eqb refs (texture face) with
                   | Some ref => ref
                   | None => texture face
                   end
  | FaceColor c =>
      match atlas with
      | Some (color_tex_uv_map, default_color_uv) =>
          exists f', process_face atlas refs (d, f) = Processed (d, f') /\
                     exported_texture f' = "#0"%string /\
                     exported_autoUv f' = None /\ exported_rotation f' = None /\
                     exported_uv f' =
                       match dict_get rgba_eqb color_tex_uv_map c with
                       | Some color_uv => color_uv
                       | None => default_color_uv
                       end
      | None => process_face atlas refs (d, f) = NameError
      end
  end.
Proof.
  destruct f as [face|c]; cbn [process_face].
  - eexists. split; [reflexivity|]. cbn. auto.
  - destruct atlas as [[m def]|]; [|reflexivity].
    eexists. split; [reflexivity|]. cbn. auto.
Qed.

Lemma final_element_processing_unfold (atlas : option (list (rgba * list R) * list R))
    (refs : list (string * string)) (e : Element) :
  final_element_processing atlas refs e =
  match mapP (process_face atlas refs) (faces e) with
  | NameError => NameError
  | Processed fs =>
      match mapP (final_element_processing atlas refs) (element_children e) with
      | NameError => NameError
      | Processed children =>
          Processed {| exported_name := element_name e;
                       exported_from := element_from e;
                       exported_to := element_to e;
                       exported_rotationOrigin := rotationOrigin e;
                       exported_rotationX := rotationX e;
                       exported_rotationY := rotationY e;
                       exported_rotationZ := rotationZ e;
                       exported_group := group e;
                       exported_faces := fs;
                       exported_children := children;
                       exported_attachmentpoints := attachmentpoints e |}
      end
  end.
Proof. destruct e. reflexivity. Qed.

(** Without a generated texture the processing raises [NameError] exactly
    when some face of the tree is a color tuple. *)
Lemma final_element_processing_name_error (refs : list (string * string)) (e : Element) :
  final_element_processing None refs e = NameError <->
  exists e' d c, In e' (elements e) /\ In (d, FaceColor c) (faces e').
Proof.
  induction e as [e IH] using Element_tree_ind.
  rewrite final_element_processing_unfold.
  assert (Hfaces : mapP (process_face None refs) (faces e) = NameError <->
                   exists d c, In (d, FaceColor c) (faces e)).
  { rewrite mapP_name_error. split.
    - intros ([d f] & Hin & Hf). pose proof (process_face_cases None refs d f) as Hc.
      destruct f as [face|c]; [|eauto].
      destruct Hc as (f' & Hc & _). congruence.
    - intros (d & c & Hin). exists (d, FaceColor c). split; [assumption | reflexivity]. }
  assert (Hchildren : mapP (final_element_processing None refs) (element_children e)
                      = NameError <->
                      exists e' d c, In e' (flat_map elements (element_children e)) /\
                                     In (d, FaceColor c) (faces e')).
  { rewrite mapP_name_error. split.
    - intros (child & Hin & Hc). rewrite Forall_forall in IH.
      apply (IH child Hin) in Hc. destruct Hc as (e' & d & c & He' & Hf).
      exists e', d, c. split; [|assumption]. apply in_flat_map. eauto.
    - intros (e' & d & c & He' & Hf). apply in_flat_map in He'.
      destruct He' as (child & Hin & He'). exists child. split; [assumption|].
      rewrite Forall_forall in IH. apply (IH child Hin). eauto. }
  destruct e as [n f t ro rx ry rz g fs cs ap]. cbn [faces element_children elements] in *.
  destruct (mapP (process_face None refs) fs) as [fs'|].
  - destruct (mapP (final_element_processing None refs) cs) as [cs'|].
    + split; [discriminate|]. intros (e' & d & c & [<-|He'] & Hf).
      * cbn [faces] in Hf.
        assert (Hc : @Processed (list (string * ExportedFace)) fs' = NameError)
          by (apply Hfaces; eauto).
        discriminate.
      * assert (Hc : @Processed (list ExportedElement) cs' = NameError)
          by (apply Hchildren; eauto).
        discriminate.
    + split; [|reflexivity]. intros _.
      destruct (proj1 Hchildren eq_refl) as (e' & d & c & He' & Hf).
      exists e', d, c. split; [right; exact He' | exact Hf].
  - split; [|reflexivity]. intros _.
    destruct (proj1 Hfaces eq_refl) as (d & c & Hf).
    eexists _, d, c. split; [left; reflexivity | exact Hf].
Qed.

(** With a generated texture the processing returns; every written face
    comes from a face of the tree. *)
Lemma final_element_processing_faces (atlas : list (rgba * list R) * list R)
    (refs : list (string * string)) (e : Element) :
  exists e',
    final_element_processing (Some atlas) refs e = Processed e' /\
    forall x d f', In x (exported_elements e') -> In (d, f') (exported_faces x) ->
      exists y f, In y (elements e) /\ In (d, f) (faces y) /\
                  process_face (Some atlas) refs (d, f) = Processed (d, f').
Proof.
  induction e as [e IH] using Element_tree_ind.
  rewrite final_element_processing_unfold.
  destruct (mapP_total (process_face (Some atlas) refs) (faces e)) as (fs' & Efs).
  { apply Forall_forall. intros [d f] _.
    pose proof (process_face_cases (Some atlas) refs d f) as Hc.
    destruct f as [face|c]; [destruct Hc as (f' & Hc & _); eauto|].
    destruct atlas as [m def]. destruct Hc as (f' & Hc & _). eauto. }
  destruct (mapP_total (final_element_processing (Some atlas) refs) (element_children e))
    as (cs' & Ecs).
  { eapply Forall_impl; [|exact IH]. intros c (c' & Hc & _). eauto. }
  rewrite Efs, Ecs. eexists. split; [reflexivity|].
  intros x d f' Hx Hf. cbn [exported_elements exported_children] in Hx.
  destruct Hx as [<-|Hx].
  - cbn [exported_faces] in Hf. apply mapP_processed in Efs.
    exists e. destruct e as [n ff t ro rx ry rz g fs cs ap]. cbn [faces elements] in *.
    clear - Efs Hf. induction Efs as [|[d0 f0] y l l' Hy _ IHl]; [destruct Hf|].
    destruct Hf as [->|Hf].
    + pose proof (process_face_cases (Some atlas) refs d0 f0) as Hc.
      assert (Hd : d0 = d).
      { destruct f0 as [face|c]; [destruct Hc as (f1 & Hc & _); congruence|].
        destruct atlas as [m def]. destruct Hc as (f1 & Hc & _). congruence. }
      subst d0. exists f0. split; [left; reflexivity|]. split; [left; reflexivity | exact Hy].
    + destruct (IHl Hf) as (f & _ & Hin & Hp). exists f.
      split; [left; reflexivity|]. split; [right; exact Hin | exact Hp].
  - apply in_flat_map in Hx. destruct Hx as (c' & Hc' & Hx).
    apply mapP_processed in Ecs.
    assert (Hchild : exists c, In c (element_children e) /\
                               final_element_processing (Some atlas) refs c = Processed c').
    { clear - Ecs Hc'. induction Ecs as [|c y l l' Hy _ IHl]; [destruct Hc'|].
      destruct Hc' as [->|Hc']; [exists c; simpl; auto|].
      destruct (IHl Hc') as (c0 & Hin & Hp). exists c0. simpl. auto. }
    destruct Hchild as (c & Hc & Hp).
    rewrite Forall_forall in IH. destruct (IH c Hc) as (c'' & Hp' & Hfaces).
    rewrite Hp in Hp'. inversion Hp'; subst c''.
    destruct (Hfaces x d f' Hx Hf) as (y & f & Hy & Hin & Hpf).
    exists y, f. split; [|auto].
    destruct e as [n ff t ro rx ry rz g fs cs ap]. cbn [elements element_children] in *.
    right. apply in_flat_map. eauto.
Qed.

(** With [export_generated_texture], a color tuple stays in the faces
    until the loop over the polygons ends. *)
Lemma faces_loop_color_stays (obj : Object) (uv_layer : list vec2) (v_local : list vec3)
    (p m : option mat3) (eu : bool) (polys : list MeshPolygon) :
  forall faces st faces' st',
    foldM (face_step obj uv_layer v_local p m eu true) polys faces st = Ok (faces', st') ->
    (exists d c, dict_get String.eqb faces d = Some (FaceColor c)) \/
    (exists face c, In face polys /\
                    get_object_color obj (material_index face) default_color = Color c) ->
    exists d c, dict_get String.eqb faces' d = Some (FaceColor c).
Proof.
  induction polys as [|x polys IH]; intros faces st faces' st' H Hc.
  - apply ret_ok in H. destruct H as [-> _].
    destruct Hc as [Hc|(face & c & [] & _)]. exact Hc.
  - cbn [foldM] in H. apply bind_ok in H. destruct H as (faces1 & s1 & Hstep & Hrest).
    apply (IH _ _ _ _ Hrest).
    pose proof (face_step_result _ _ _ _ _ _ _ _ _ _ _ _ Hstep) as Hr.
    cbv zeta in Hr. destruct Hr as (Hother & _ & _ & Hthis).
    destruct Hc as [(d & c & Hd)|(face & c & [<-|Hin] & Hcol)].
    + destruct (string_dec d (face_direction p m x)) as [->|Hne].
      * left.
        destruct (get_object_color obj (material_index x) default_color) as [c'|t].
        -- eauto.
        -- destruct Hthis as (f & Hf & _). congruence.
      * left. exists d, c. rewrite Hother by assumption. exact Hd.
    + left. rewrite Hcol in Hthis. eauto.
    + right. eauto.
Qed.


(** The processing of a tree whose faces are registered in the collections
    from which the references are made. *)
Lemma registered_tree_references (final : export_state) (e : Element)
    (atlas : list (rgba * list R) * list R) :
  tree_registered final e ->
  NoDup (dict_keys (model_textures final)) ->
  exists e',
    final_element_processing (Some atlas) (texture_refs (model_textures final)) e
      = Processed e' /\
    exported_name e' = element_name e /\
    exported_from e' = element_from e /\ exported_to e' = element_to e /\
    forall x d f', In x (exported_elements e') -> In (d, f') (exported_faces x) ->
      exported_texture f' = "#0"%string \/
      exists k, (1 <= k <= List.length (model_textures final))%nat /\
                exported_texture f' = ("#" ++ str_of_nat k)%string.
Proof.
  intros H Hnd'.
  destruct (final_element_processing_faces atlas (texture_refs (model_textures final)) e)
    as (e' & He' & Hfaces).
  exists e'. split; [exact He'|].
  assert (Hroot : exported_name e' = element_name e /\
                  exported_from e' = element_from e /\ exported_to e' = element_to e).
  { rewrite final_element_processing_unfold in He'.
    destruct (mapP (process_face (Some atlas) (texture_refs (model_textures final)))
                   (faces e)); [|discriminate].
    destruct (mapP (final_element_processing (Some atlas)
                      (texture_refs (model_textures final))) (element_children e));
      [|discriminate].
    inversion He'. auto. }
  destruct Hroot as (Hn & Hf & Ht). split; [exact Hn|]. split; [exact Hf|].
  split; [exact Ht|].
  intros x d f' Hx Hf'. destruct (Hfaces x d f' Hx Hf') as (y & f & Hy & Hin & Hp).
  unfold tree_registered in H. rewrite Forall_forall in H. specialize (H y Hy).
  rewrite Forall_forall in H. specialize (H (d, f) Hin). cbn [snd] in H.
  pose proof (process_face_cases (Some atlas) (texture_refs (model_textures final)) d f)
    as Hc.
  destruct f as [face|c].
  - destruct Hc as (f1 & Hp1 & _ & _ & _ & Hte). rewrite Hp in Hp1.
    inversion Hp1; subst f1. rewrite Hte.
    destruct (dict_get String.eqb (texture_refs (model_textures final)) (texture face))
      as [ref|] eqn:Href.
    + right. destruct (texture_refs_values _ _ _ Hnd' Href) as (i & info & Hi & ->).
      exists (S i). split; [|reflexivity].
      assert (i < List.length (model_textures final))%nat
        by (apply nth_error_Some; congruence).
      lia.
    + cbn [face_registered] in H. destruct H as [H|H]; [left; exact H|].
      exfalso. apply in_dict_keys_nth in H. destruct H as (i & info & Hi).
      pose proof (texture_ref_loop_spec (model_textures final) Hnd') as Hspec.
      unfold texture_refs in Href.
      destruct (texture_ref_loop (model_textures final)) as [[id refs] sizes].
      cbn [fst snd] in Href. destruct Hspec as (_ & _ & Hget).
      destruct (Hget i _ info Hi) as [Hsome _]. congruence.
  - destruct atlas as [cmap def]. destruct Hc as (f1 & Hp1 & Hte & _).
    rewrite Hp in Hp1. inversion Hp1; subst f1. left. exact Hte.
Qed.

Section BuilderProcessing.
Context {host : Mathutils}.

(** X17: [save_objects] without [generate_texture] cannot write a model
    that has a face without image texture.  When [generate_element] returns
    an element for an object one of whose first six polygons resolves to a
    color (the color of its material, or the default color of a polygon
    without material), the final processing of that element reaches the
    unbound name [color_tex_uv_map] and raises [NameError], whatever the
    texture references are. *)
Theorem untextured_face_needs_generated_texture (fuel : nat) (obj : Object)
    (parent : option Object) (armature : option Armature)
    (bone_hierarchy : option (list (string * BoneNode)))
    (pmw : option mat4) (pco pro : vec3) (pr90 : option mat3) (eu : bool)
    (st st' : export_state) (e : Element) (mesh : Mesh) (face : MeshPolygon) (c : rgba) :
  generate_element fuel obj parent armature bone_hierarchy pmw pco pro pr90 eu true st
    = Ok (Some e, st') ->
  data obj = MeshData mesh ->
  In face (firstn 6 (polygons mesh)) ->
  get_object_color obj (material_index face) default_color = Color c ->
  forall texture_refs, final_element_processing None texture_refs e = NameError.
Proof.
  intros H Hdata Hface Hcol refs. apply generate_element_steps in H.
  destruct H as (fuel' & mesh' & geo & uv_layer & fs & s1 & cs & aps & s2 & obj_name & cs'
                 & collection & _ & Hdata' & _ & _ & _ & Hfaces & _ & _ & _ & ->).
  rewrite Hdata in Hdata'. inversion Hdata'; subst mesh'.
  apply faces_loop_color_stays in Hfaces; [|right; eauto].
  destruct Hfaces as (d & c' & Hd).
  apply final_element_processing_name_error.
  eexists _, d, c'. split; [left; reflexivity|].
  cbn [build_element faces]. apply dict_get_some_in. exact Hd.
Qed.

(** X18: after the final processing with a generated texture, no face of
    the written model holds a Blender path any more.  Take the tree returned
    by [generate_element] and the texture dict [model_textures] as it is at
    the end of the geometry pass, when this and later calls have returned
    (a dict, with each path once).  The processing with the references made
    from that dict returns, and the texture of every written face is "#0" or
    the identifier "#k" of a registered texture, with [k] between 1 and the
    number of registered textures. *)
Theorem exported_textures_are_references (fuel : nat) (obj : Object)
    (parent : option Object) (armature : option Armature)
    (bone_hierarchy : option (list (string * BoneNode)))
    (pmw : option mat4) (pco pro : vec3) (pr90 : option mat3) (eu egt : bool)
    (st st' final : export_state) (e : Element) :
  generate_element fuel obj parent armature bone_hierarchy pmw pco pro pr90 eu egt st
    = Ok (Some e, st') ->
  state_le st' final ->
  NoDup (dict_keys (model_textures final)) ->
  forall atlas,
  exists e',
    final_element_processing (Some atlas) (texture_refs (model_textures final)) e
      = Processed e' /\
    forall x d f', In x (exported_elements e') -> In (d, f') (exported_faces x) ->
      exported_texture f' = "#0"%string \/
      exists k, (1 <= k <= List.length (model_textures final))%nat /\
                exported_texture f' = ("#" ++ str_of_nat k)%string.
Proof.
  intros H Hle Hnd' atlas.
  apply generate_element_registered in H.
  apply (tree_registered_mono _ _ _ Hle) in H.
  destruct (registered_tree_references final e atlas H Hnd')
    as (e' & He' & _ & _ & _ & Href).
  exists e'. split; [exact He' | exact Href].
Qed.

End BuilderProcessing.

(** X17, witness: the cube without material. *)
Lemma untextured_face_needs_generated_texture_witness :
  exists e st',
    @generate_element unrotated_host 1 plain_cube None None None None vzero vzero None
      true true empty_state = Ok (Some e, st') /\
    final_element_processing None [] e = NameError.
Proof.
  destruct (cube_leaf_run "Cube" vzero [] None None vzero vzero true true empty_state)
    as (geo & fs & st' & H & _).
  { apply faces_loop_colors. intros face _. apply no_slot_colors. }
  eexists _, st'. split; [exact H|].
  apply (untextured_face_needs_generated_texture _ _ _ _ _ _ _ _ _ _ _ _ _ cube_mesh
           face_north default_color H).
  - reflexivity.
  - left. reflexivity.
  - apply get_object_color_no_slot. simpl. lia.
Defined.

(** X18, witness: the textured cube. *)
Lemma exported_textures_are_references_witness :
  exists e st' e',
    @generate_element unrotated_host 1 textured_cube None None None None vzero vzero None
      true true empty_state = Ok (Some e, st') /\
    final_element_processing (Some ([], [])) (texture_refs (model_textures st')) e
      = Processed e'.
Proof.
  destruct textured_cube_run as (geo & fs & st' & H & _).
  pose proof (generate_element_state_le _ _ _ _ _ _ _ _ _ _ _ _ _ _ H) as (_ & _ & Hnd).
  destruct (exported_textures_are_references _ _ _ _ _ _ _ _ _ _ _ _ _ st' _ H
              (state_le_refl st') (Hnd (NoDup_nil string)) ([], [])) as (e' & He' & _).
  eexists _, st', e'. split; [exact H | exact He'].
Defined.

(** ** Colors and their tiles *)

Lemma enumerate_nth_inv {A : Type} (l : list A) (i : nat) (a : A) :
  In (i, a) (enumerate l) -> nth_error l i = Some a.
Proof.
  unfold enumerate.
  assert (Hgen : forall (l : list A) b, In (i, a) (combine (seq b (List.length l)) l) ->
            (b <= i)%nat /\ nth_error l (i - b) = Some a).
  { clear. induction l as [|x l IH]; intros b H; simpl in H; [destruct H|].
    destruct H as [E|H].
    - inversion E; subst. rewrite Nat.sub_diag. split; [lia | reflexivity].
    - apply IH in H. destruct H as [Hle H]. split; [lia|].
      replace (i - b)%nat with (S (i - S b)) by lia. exact H. }
  intros H. apply Hgen in H. destruct H as [_ H]. rewrite Nat.sub_0_r in H. exact H.
Qed.

(** X19: the uv rectangle that the final processing writes on a face that
    is a color tuple, when the texture is generated from the colors
    [colors] (a set: each color once).  The face gets the texture "#0" and
    the tile of its color, or the default tile when its color is not one of
    [colors]; hence two faces whose colors differ are never painted from the
    same tile, unless neither color is one of [colors]. *)
Theorem color_faces_get_their_tile (colors : list rgba) (min_size : Z)
    (texture_refs : list (string * string)) :
  NoDup colors ->
  let g := color_grid_size (List.length colors) in
  let '(tex_size, color_tex_uv_map, default_color_uv) :=
    create_color_texture colors min_size in
  let tile_of c :=
    match find (fun ic => rgba_eqb c (snd ic)) (enumerate colors) with
    | Some (i, _) => Z.of_nat i
    | None => Z.of_nat (List.length colors)
    end in
  (forall d c, exists f',
     process_face (Some (color_tex_uv_map, default_color_uv)) texture_refs (d, FaceColor c)
       = Processed (d, f') /\
     exported_texture f' = "#0"%string /\
     exported_uv f' = tile_uv g tex_size (tile_of c)) /\
  (forall c, In c colors -> nth_error colors (Z.to_nat (tile_of c)) = Some c) /\
  (forall c, ~ In c colors -> tile_of c = Z.of_nat (List.length colors)) /\
  (forall c c', c <> c' -> In c colors \/ In c' colors ->
     uv_disjoint (tile_uv g tex_size (tile_of c)) (tile_uv g tex_size (tile_of c'))).
Proof.
  intros Hnd g. unfold create_color_texture. cbv beta iota zeta. fold g.
  set (s := texture_size min_size g).
  set (cmap := fold_left _ (enumerate colors) []).
  set (tile_of := fun c : rgba =>
                    match find (fun ic => rgba_eqb c (snd ic)) (enumerate colors) with
                    | Some (i, _) => Z.of_nat i
                    | None => Z.of_nat (List.length colors)
                    end).
  pose proof (color_grid_size_bounds (List.length colors)) as Hg. cbn zeta in Hg.
  fold g in Hg. destruct Hg as (Hg1 & _ & _).
  assert (Hs : (0 < s)%Z).
  { unfold s. rewrite texture_size_log2_up by assumption.
    assert (H3g : (1 < 3 * g)%Z) by lia.
    pose proof (Z.log2_up_spec _ H3g) as [_ Hhi]. lia. }
  assert (Hfind : forall c,
            match find (fun ic => rgba_eqb c (snd ic)) (enumerate colors) with
            | Some (i, c') => c' = c /\ In (i, c) (enumerate colors)
            | None => ~ In c colors
            end).
  { intros c. destruct (find _ (enumerate colors)) as [[i c']|] eqn:E.
    - apply find_some in E. destruct E as [Hin Hc]. cbn [snd] in Hc.
      apply rgba_eqb_spec in Hc. subst c'. auto.
    - intros Hin. rewrite <- (enumerate_snd colors) in Hin. apply in_map_iff in Hin.
      destruct Hin as ([i c'] & Ec & Hin). cbn [snd] in Ec. subst c'.
      pose proof (find_none _ _ E _ Hin) as Hn. cbn [snd] in Hn.
      rewrite (proj2 (rgba_eqb_spec c c)) in Hn by reflexivity. discriminate. }
  split; [|split; [|split]].
  - intros d c. cbn [process_face]. eexists. split; [reflexivity|].
    cbn [exported_texture exported_uv]. split; [reflexivity|].
    specialize (Hfind c). unfold tile_of.
    destruct (find _ (enumerate colors)) as [[i c']|].
    + destruct Hfind as [-> Hin]. unfold cmap.
      rewrite (atlas_fold_lookup (tile_uv g s) (enumerate colors) [] i c);
        [reflexivity | rewrite enumerate_snd; assumption | assumption].
    + unfold cmap. rewrite (atlas_fold_other (tile_uv g s));
        [reflexivity | rewrite enumerate_snd; assumption].
  - intros c Hc. specialize (Hfind c). unfold tile_of.
    destruct (find _ (enumerate colors)) as [[i c']|]; [|contradiction].
    destruct Hfind as [-> Hin]. rewrite Nat2Z.id. apply enumerate_nth_inv. exact Hin.
  - intros c Hc. specialize (Hfind c). unfold tile_of.
    destruct (find _ (enumerate colors)) as [[i c']|]; [|reflexivity].
    destruct Hfind as [-> Hin]. apply enumerate_nth_inv in Hin.
    exfalso. apply Hc. eapply nth_error_In. exact Hin.
  - intros c c' Hne Hone. apply tile_uv_disjoint; [lia | assumption|].
    pose proof (Hfind c) as H1. pose proof (Hfind c') as H2. unfold tile_of.
    destruct (find (fun ic => rgba_eqb c (snd ic)) (enumerate colors)) as [[i x]|];
      destruct (find (fun ic => rgba_eqb c' (snd ic)) (enumerate colors)) as [[j y]|].
    + destruct H1 as [-> H1], H2 as [-> H2]. intros E. apply Nat2Z.inj in E. subst j.
      apply enumerate_nth_inv in H1, H2. congruence.
    + destruct H1 as [-> H1]. apply enumerate_in in H1. lia.
    + destruct H2 as [-> H2]. apply enumerate_in in H2. lia.
    + tauto.
Qed.

(** X19, witness: red is the only color; green is painted from the default
    tile. *)
Lemma color_faces_get_their_tile_witness :
  NoDup [red] /\
  exists f',
    process_face (Some (snd (fst (create_color_texture [red] 16)),
                        snd (create_color_texture [red] 16))) []
                 ("up"%string, FaceColor red) = Processed ("up"%string, f') /\
    exported_texture f' = "#0"%string.
Proof.
  assert (Hnd : NoDup [red]) by (constructor; [simpl; tauto | constructor]).
  split; [exact Hnd|].
  pose proof (color_faces_get_their_tile [red] 16 [] Hnd) as H.
  cbv zeta in H.
  destruct (create_color_texture [red] 16) as [[tex cmap] def]. cbn [fst snd].
  destruct H as (H & _). destruct (H "up"%string red) as (f' & Hp & Ht & _).
  exists f'. split; assumption.
Defined.

(** ** Attachment points *)

Section AttachPoints.
Context {host : Mathutils}.

Lemma generate_attach_point_cases (fuel : nat) (obj : Object) (parent : option Object)
    (armature : option Armature) (pco pro : vec3) (pr90 : option mat3)
    (r : option AttachPoint) :
  generate_attach_point fuel obj parent armature pco pro pr90 = Ok r ->
  match r with
  | None => String.prefix "attach_" (name obj) = false
  | Some a =>
      String.prefix "attach_" (name obj) = true /\
      code a = drop_prefix 7 (name obj) /\
      (armature = None \/ parent_bone obj = ""%string ->
       let origin :=
         match pr90 with
         | Some m => mat_vec m (location obj)
         | None => location obj
         end in
       Vec3 (posX a) (posY a) (posZ a) = vadd (vsub (to_y_up origin) pco) pro)
  end.
Proof.
  unfold generate_attach_point.
  destruct (String.prefix "attach_" (name obj)) eqn:Hp; cbn [negb].
  - intros H.
    match type of H with
    | rbind ?c _ = _ => destruct c as [[origin obj_rotation]|] eqn:Hloc; [|discriminate]
    end.
    cbn [rbind] in H.
    match type of H with
    | rbind ?c _ = _ => destruct c as [[residual r90]|]; [|discriminate]
    end.
    cbn [rbind] in H. inversion H; subst r. cbn [code posX posY posZ].
    split; [reflexivity|]. split; [reflexivity|].
    intros Hplain. cbv zeta.
    assert (Ho : origin = location obj).
    { destruct armature as [arm|].
      - destruct Hplain as [Hc|Hpb]; [discriminate|]. rewrite Hpb in Hloc.
        cbn [String.eqb negb] in Hloc. inversion Hloc. reflexivity.
      - inversion Hloc. reflexivity. }
    subst origin. destruct pr90; reflexivity.
  - intros H. inversion H. reflexivity.
Qed.

(** X20: [generate_attach_point] returns [None] for an object whose name
    does not start with "attach_" and never otherwise.  The code of a
    returned attachment point is the name without this prefix.  For an object
    that is not parented to a bone of an armature, the position of the point
    is the location of the object, turned by the pending 90 degree rotation
    and with the axes permuted, minus the cube origin of the parent plus the
    rotation origin of the parent.  For an object parented to a bone, the
    call without a parent object raises [AttributeError]. *)
Theorem generate_attach_point_spec (fuel : nat) (obj : Object) (parent : option Object)
    (armature : option Armature) (pco pro : vec3) (pr90 : option mat3) :
  (String.prefix "attach_" (name obj) = false ->
   generate_attach_point fuel obj parent armature pco pro pr90 = Ok None) /\
  (forall r, generate_attach_point fuel obj parent armature pco pro pr90 = Ok r ->
     match r with
     | None => String.prefix "attach_" (name obj) = false
     | Some a =>
         name obj = ("attach_" ++ code a)%string /\
         (armature = None \/ parent_bone obj = ""%string ->
          let origin :=
            match pr90 with
            | Some m => mat_vec m (location obj)
            | None => location obj
            end in
          Vec3 (posX a) (posY a) (posZ a) = vadd (vsub (to_y_up origin) pco) pro)
     end) /\
  (String.prefix "attach_" (name obj) = true ->
   armature <> None -> parent_bone obj <> ""%string -> parent = None ->
   generate_attach_point fuel obj parent armature pco pro pr90 = Raise AttributeError).
Proof.
  split; [|split].
  - intros Hp. unfold generate_attach_point. rewrite Hp. reflexivity.
  - intros r H. apply generate_attach_point_cases in H. destruct r as [a|]; [|exact H].
    destruct H as (Hp & Hc & Hpos). split; [|exact Hpos].
    rewrite Hc. apply (prefix_split "attach_"). exact Hp.
  - intros Hp Harm Hpb ->. unfold generate_attach_point. rewrite Hp. cbn [negb].
    destruct armature as [arm|]; [|contradiction].
    destruct (String.eqb_spec (parent_bone obj) "") as [E|_]; [contradiction|].
    reflexivity.
Qed.

Lemma child_loop_attachpoints (attach : Object -> result (option AttachPoint))
    (generate : Object -> M (option Element)) (l : list Object) :
  (forall child a, attach child = Ok (Some a) ->
     String.prefix "attach_" (name child) = true /\
     code a = drop_prefix 7 (name child)) ->
  (forall child, attach child = Ok None -> String.prefix "attach_" (name child) = false) ->
  forall acc st acc' st',
    foldM (child_step attach generate) l acc st = Ok (acc', st') ->
    map code (snd acc') =
    map code (snd acc) ++
    map (fun child => drop_prefix 7 (name child))
        (filter (fun child => (type child =? "EMPTY")%string
                              && String.prefix "attach_" (name child)) l).
Proof.
  intros Hsome Hnone. induction l as [|child l IH]; intros acc st acc' st' H.
  - apply ret_ok in H. destruct H as [-> _]. simpl. rewrite app_nil_r. reflexivity.
  - cbn [foldM] in H. apply bind_ok in H. destruct H as (acc1 & s1 & Hstep & Hrest).
    rewrite (IH _ _ _ _ Hrest). apply child_step_state in Hstep. cbn [filter].
    destruct Hstep as [(Ht & _ & _ & a & Ha & Hs)|(Ht & Hs & _)]; rewrite Ht, Hs;
      cbn [andb]; [|reflexivity].
    destruct a as [a|].
    + destruct (Hsome _ _ Ha) as [Hp Hc]. rewrite Hp, map_app. cbn [map].
      rewrite Hc, <- app_assoc. reflexivity.
    + rewrite (Hnone _ Ha). reflexivity.
Qed.

(** X21: the attachment points of an element are those of the children of
    the object that are of type "EMPTY" and named "attach_<code>", in the
    order of the children, with these codes; the key "attachmentpoints" is
    left out exactly when the object has no such child. *)
Theorem element_attachment_points (fuel : nat) (obj : Object)
    (parent : option Object) (armature : option Armature)
    (bone_hierarchy : option (list (string * BoneNode)))
    (pmw : option mat4) (pco pro : vec3) (pr90 : option mat3) (eu egt : bool)
    (st st' : export_state) (e : Element) :
  generate_element fuel obj parent armature bone_hierarchy pmw pco pro pr90 eu egt st
    = Ok (Some e, st') ->
  let markers :=
    filter (fun child => (type child =? "EMPTY")%string
                         && String.prefix "attach_" (name child)) (children obj) in
  match attachmentpoints e with
  | Some attachpoints =>
      markers <> [] /\
      map (fun a => ("attach_" ++ code a)%string) attachpoints = map name markers
  | None => markers = []
  end.
Proof.
  intros H markers. apply generate_element_steps in H.
  destruct H as (fuel' & mesh & geo & uv_layer & fs & s1 & cs & aps & s2 & obj_name & cs'
                 & collection & _ & _ & _ & _ & _ & _ & Hchildren & _ & _ & ->).
  apply child_loop_attachpoints in Hchildren.
  - cbn [snd map app] in Hchildren. fold markers in Hchildren.
    assert (Hnames : map (fun a => ("attach_" ++ code a)%string) aps = map name markers).
    { rewrite <- (map_map code (fun c => ("attach_" ++ c)%string)), Hchildren, map_map.
      apply map_ext_in. intros child Hin. unfold markers in Hin.
      apply filter_In in Hin. destruct Hin as [_ Hin]. apply andb_prop in Hin.
      destruct Hin as [_ Hp]. symmetry. apply (prefix_split "attach_"). exact Hp. }
    cbn [build_element attachmentpoints].
    destruct aps as [|a aps]; cbn [List.length Nat.ltb Nat.leb].
    + simpl in Hnames. destruct markers; [reflexivity | discriminate].
    + split; [|exact Hnames]. destruct markers; [discriminate | discriminate].
  - intros child a Ha. apply generate_attach_point_cases in Ha. tauto.
  - intros child Ha. apply generate_attach_point_cases in Ha. exact Ha.
Qed.

End AttachPoints.

Lemma marked_cube_run :
  exists e st',
    @generate_element unrotated_host 1 marked_cube None None None None vzero vzero None
      true true empty_state = Ok (Some e, st').
Proof.
  destruct (@element_geometry_plain unrotated_host 0 cube_mesh marked_cube None
              vzero vzero vzero (get_reduced_rotation_zero 0))
    as (geo & Hgeo & Hmw & Hvl & Hrot & Hro & Hfrom).
  destruct (faces_loop_colors marked_cube
              (unit_square ++ unit_square ++ unit_square ++ unit_square
               ++ unit_square ++ unit_square)
              cube_vertices None None true true (firstn 6 (polygons cube_mesh))
              (fun face _ => no_slot_colors _ _ _ _ (material_index face))
              initial_faces empty_state)
    as (fs & st1 & Hfaces).
  assert (Hattach : exists a,
            @generate_attach_point unrotated_host 0 attach_marker (Some marked_cube) None
              (geo_v_from geo) (geo_rotation_origin geo) None = Ok (Some a)).
  { unfold generate_attach_point.
    change (String.prefix "attach_" (name attach_marker)) with true.
    cbn [negb rbind]. cbn [rotation_euler attach_marker].
    rewrite get_reduced_rotation_zero. cbn [rbind]. eexists. reflexivity. }
  destruct Hattach as (a & Hattach).
  eexists _, st1.
  apply (@generate_element_intro unrotated_host 0 marked_cube cube_mesh None None None
           vzero vzero None true true geo
           (unit_square ++ unit_square ++ unit_square ++ unit_square
            ++ unit_square ++ unit_square)
           fs [] [a] (Some "Collection"%string) empty_state st1 st1);
    try reflexivity; try assumption.
  - rewrite Hvl, Hrot. exact Hfaces.
  - rewrite Hrot. cbn [child_rotation_90deg].
    change (children marked_cube) with [attach_marker]. cbn [foldM].
    unfold bind at 1. unfold child_step.
    change (type attach_marker =? "EMPTY"%string)%string with true. cbv iota.
    unfold bind at 1. rewrite Hattach. reflexivity.
Qed.

(** X21, witness: the cube with the marker "attach_tool". *)
Lemma element_attachment_points_witness :
  exists e st' attachpoints,
    @generate_element unrotated_host 1 marked_cube None None None None vzero vzero None
      true true empty_state = Ok (Some e, st') /\
    attachmentpoints e = Some attachpoints /\
    map (fun a => ("attach_" ++ code a)%string) attachpoints = ["attach_tool"%string].
Proof.
  destruct marked_cube_run as (e & st' & H).
  pose proof (element_attachment_points _ _ _ _ _ _ _ _ _ _ _ _ _ _ H) as Hp.
  cbv zeta in Hp. change (children marked_cube) with [attach_marker] in Hp.
  change (filter _ [attach_marker]) with [attach_marker] in Hp.
  exists e, st'. destruct (attachmentpoints e) as [aps|]; [|discriminate Hp].
  exists aps. destruct Hp as [_ Hp]. auto.
Defined.

(** ** The extent of an element *)

Lemma fold_Rmin_le (l : list R) : forall x, fold_left Rmin l x <= x.
Proof.
  induction l as [|y l IH]; intros x; simpl; [lra|].
  eapply Rle_trans; [apply IH | apply Rmin_l].
Qed.

Lemma fold_Rmax_ge (l : list R) : forall x, x <= fold_left Rmax l x.
Proof.
  induction l as [|y l IH]; intros x; simpl; [lra|].
  eapply Rle_trans; [apply Rmax_l | apply IH].
Qed.

Lemma amin_le_amax (l : list R) : amin l <= amax l.
Proof.
  destruct l as [|x l]; simpl; [lra|].
  eapply Rle_trans; [apply fold_Rmin_le | apply fold_Rmax_ge].
Qed.

Section Extents.
Context {host : Mathutils}.

Lemma element_geometry_extents (fuel : nat) (mesh : Mesh) (obj : Object)
    (armature : option Armature) (bone_hierarchy : option (list (string * BoneNode)))
    (pmw : option mat4) (pco pro : vec3) (pr90 : option mat3) (geo : Geometry) :
  element_geometry fuel mesh obj armature bone_hierarchy pmw pco pro pr90 = Ok geo ->
  let v := geo_v_local geo in
  vx (geo_v_to geo) - vx (geo_v_from geo) = amax (map vy v) - amin (map vy v) /\
  vy (geo_v_to geo) - vy (geo_v_from geo) = amax (map vz v) - amin (map vz v) /\
  vz (geo_v_to geo) - vz (geo_v_from geo) = amax (map vx v) - amin (map vx v) /\
  List.length v = List.length (mesh_vertices mesh).
Proof.
  unfold element_geometry, rbind. intros H.
  destruct (main_bone obj armature bone_hierarchy) as [bone|]; [|discriminate].
  match type of H with
  | match ?c with Ok _ => _ | Raise _ => _ end = _ => destruct c as [[res r90]|]; [|discriminate]
  end.
  inversion H; subst geo; clear H.
  cbv [geo_v_to geo_v_from geo_v_local vadd to_y_up vx vy vz].
  split; [lra|]. split; [lra|]. split; [lra|].
  destruct (option_map euler_to_matrix r90), armature, pr90; rewrite ?length_map; reflexivity.
Qed.

Lemma element_extent (fuel : nat) (obj : Object) (parent : option Object)
    (armature : option Armature) (bone_hierarchy : option (list (string * BoneNode)))
    (pmw : option mat4) (pco pro : vec3) (pr90 : option mat3) (eu egt : bool)
    (st st' : export_state) (e : Element) :
  generate_element fuel obj parent armature bone_hierarchy pmw pco pro pr90 eu egt st
    = Ok (Some e, st') ->
  vx (element_from e) <= vx (element_to e) /\
  vy (element_from e) <= vy (element_to e) /\
  vz (element_from e) <= vz (element_to e).
Proof.
  intros H. apply generate_element_steps in H.
  destruct H as (fuel' & mesh & geo & uv_layer & fs & s1 & cs & aps & s2 & obj_name & cs'
                 & collection & _ & _ & _ & Hgeo & _ & _ & _ & _ & _ & ->).
  apply element_geometry_extents in Hgeo. cbv zeta in Hgeo.
  destruct Hgeo as (Hx & Hy & Hz & _).
  cbn [build_element element_from element_to].
  pose proof (amin_le_amax (map vx (geo_v_local geo))).
  pose proof (amin_le_amax (map vy (geo_v_local geo))).
  pose proof (amin_le_amax (map vz (geo_v_local geo))).
  lra.
Qed.

Lemma element_tree_extent (fuel : nat) :
  forall arm bh pmw pco pro pr90 obj e,
    produced_in fuel arm bh pmw pco pro pr90 obj e ->
    Forall (fun e' => vx (element_from e') <= vx (element_to e') /\
                      vy (element_from e') <= vy (element_to e') /\
                      vz (element_from e') <= vz (element_to e'))
           (elements e).
Proof.
  induction fuel as [|fuel IH]; intros arm bh pmw pco pro pr90 obj e Hp.
  - destruct Hp as (parent & eu & egt & st & st' & H). discriminate.
  - destruct Hp as (parent & eu & egt & st & st' & H).
    pose proof (element_extent _ _ _ _ _ _ _ _ _ _ _ _ _ _ H) as He.
    apply generate_element_inv in H.
    destruct H as (fuel' & mesh & geo & uv_layer & fs & st1 & obj_name & collection &
                   children & attachpoints & Hf & _ & _ & _ & _ & _ & Hchildren & ->).
    inversion Hf; subst fuel'.
    cbn [elements build_element element_children] in *.
    constructor; [exact He|].
    apply Forall_flat_map_intro.
    eapply Forall_impl; [|exact Hchildren].
    intros ce (child & carm & cbh & _ & Hc). eapply IH. exact Hc.
Qed.

(** X22: every element of the tree returned by [generate_element] is a
    proper box: on each axis its corner [from] is not greater than its
    corner [to].  The edges of the root element are the extents of the
    vertices of the mesh after the 90 degree rotations, with the axes
    permuted, whatever the origins of the parent are. *)
Theorem element_from_below_to (fuel : nat) (obj : Object) (parent : option Object)
    (armature : option Armature) (bone_hierarchy : option (list (string * BoneNode)))
    (pmw : option mat4) (pco pro : vec3) (pr90 : option mat3) (eu egt : bool)
    (st st' : export_state) (e : Element) :
  generate_element fuel obj parent armature bone_hierarchy pmw pco pro pr90 eu egt st
    = Ok (Some e, st') ->
  (forall e', In e' (elements e) ->
     vx (element_from e') <= vx (element_to e') /\
     vy (element_from e') <= vy (element_to e') /\
     vz (element_from e') <= vz (element_to e')) /\
  (exists fuel' mesh geo,
     fuel = S fuel' /\ data obj = MeshData mesh /\
     element_geometry fuel' mesh obj armature bone_hierarchy pmw pco pro pr90 = Ok geo /\
     List.length (geo_v_local geo) = 8%nat /\
     vx (element_to e) - vx (element_from e) =
       amax (map vy (geo_v_local geo)) - amin (map vy (geo_v_local geo)) /\
     vy (element_to e) - vy (element_from e) =
       amax (map vz (geo_v_local geo)) - amin (map vz (geo_v_local geo)) /\
     vz (element_to e) - vz (element_from e) =
       amax (map vx (geo_v_local geo)) - amin (map vx (geo_v_local geo))).
Proof.
  intros H. split.
  - apply Forall_forall. eapply element_tree_extent. red. repeat eexists. exact H.
  - apply generate_element_steps in H.
    destruct H as (fuel' & mesh & geo & uv_layer & fs & s1 & cs & aps & s2 & obj_name & cs'
                   & collection & Ef & Hdata & Hlen & Hgeo & _ & _ & _ & _ & _ & ->).
    exists fuel', mesh, geo. split; [assumption|]. split; [assumption|].
    split; [assumption|].
    apply element_geometry_extents in Hgeo. cbv zeta in Hgeo.
    destruct Hgeo as (Hx & Hy & Hz & Hl).
    cbn [build_element element_from element_to]. rewrite Hl. auto.
Qed.

(** X24: what a call of [generate_element] that returns an element
    needs: the object is a mesh of eight vertices, the mesh has an active uv
    layer (also when no uvs are exported) and the object is linked to a
    collection, the first of which gives the key "group".  On a mesh of eight
    vertices without active uv layer the call raises [AttributeError] once
    the geometry is computed, and on an object that is linked to no
    collection it never returns. *)
Theorem generate_element_requirements (fuel : nat) (obj : Object)
    (parent : option Object) (armature : option Armature)
    (bone_hierarchy : option (list (string * BoneNode)))
    (pmw : option mat4) (pco pro : vec3) (pr90 : option mat3) (eu egt : bool)
    (st : export_state) :
  (forall e st',
     generate_element fuel obj parent armature bone_hierarchy pmw pco pro pr90 eu egt st
       = Ok (Some e, st') ->
     exists mesh uv_layer collection rest,
       data obj = MeshData mesh /\ List.length (mesh_vertices mesh) = 8%nat /\
       uv_layers_active mesh = Some uv_layer /\
       users_collection obj = collection :: rest /\ group e = collection) /\
  (forall mesh geo,
     data obj = MeshData mesh -> List.length (mesh_vertices mesh) = 8%nat ->
     uv_layers_active mesh = None ->
     element_geometry fuel mesh obj armature bone_hierarchy pmw pco pro pr90 = Ok geo ->
     generate_element (S fuel) obj parent armature bone_hierarchy pmw pco pro pr90 eu egt st
       = Raise AttributeError) /\
  (forall mesh, data obj = MeshData mesh -> List.length (mesh_vertices mesh) = 8%nat ->
     users_collection obj = [] ->
     forall r,
       generate_element fuel obj parent armature bone_hierarchy pmw pco pro pr90 eu egt st
         <> Ok r).
Proof.
  split; [|split].
  - intros e st' H. apply generate_element_steps in H.
    destruct H as (fuel' & mesh & geo & uv_layer & fs & s1 & cs & aps & s2 & obj_name & cs'
                   & collection & _ & Hdata & Hlen & _ & Huv & _ & _ & _ & Hcoll & ->).
    unfold index in Hcoll.
    destruct (users_collection obj) as [|c rest] eqn:Hu; [discriminate|].
    simpl in Hcoll. inversion Hcoll; subst c.
    exists mesh, uv_layer, collection, rest. auto.
  - intros mesh geo Hdata Hlen Huv Hgeo. cbn [generate_element].
    rewrite Hdata, Hlen. cbn [Nat.eqb negb]. unfold bind at 1. rewrite Hgeo. cbn [lift].
    rewrite Huv. reflexivity.
  - intros mesh Hdata Hlen Hu [[e|] st'] H.
    + apply generate_element_steps in H.
      destruct H as (fuel' & mesh' & geo & uv_layer & fs & s1 & cs & aps & s2 & obj_name
                     & cs' & collection & _ & _ & _ & _ & _ & _ & _ & _ & Hcoll & _).
      rewrite Hu in Hcoll. discriminate.
    + apply generate_element_none in H. destruct H as [_ [Hd|(mesh' & Hd & Hn)]].
      * congruence.
      * rewrite Hdata in Hd. inversion Hd; subst. contradiction.
Qed.

End Extents.

(** X22, witness: the parent cube and its child. *)
Lemma element_from_below_to_witness :
  exists e st',
    @generate_element unrotated_host 2 parent_cube None None None None vzero vzero None
      true true empty_state = Ok (Some e, st') /\
    vx (element_from e) <= vx (element_to e).
Proof.
  destruct parent_cube_run as (e & c & st' & H & _).
  exists e, st'. split; [exact H|].
  destruct (element_from_below_to _ _ _ _ _ _ _ _ _ _ _ _ _ _ H) as [Hall _].
  apply (Hall e). destruct e. left. reflexivity.
Defined.

(** ** Colors and textures on one direction *)

Lemma faces_loop_color_at (obj : Object) (uv_layer : list vec2) (v_local : list vec3)
    (p m : option mat3) (eu : bool) (d : string) (polys : list MeshPolygon) :
  forall faces st faces' st' c,
    foldM (face_step obj uv_layer v_local p m eu true) polys faces st = Ok (faces', st') ->
    dict_get String.eqb faces d = Some (FaceColor c) ->
    exists c', dict_get String.eqb faces' d = Some (FaceColor c').
Proof.
  induction polys as [|x polys IH]; intros faces st faces' st' c H Hd.
  - apply ret_ok in H. destruct H as [-> _]. eauto.
  - cbn [foldM] in H. apply bind_ok in H. destruct H as (faces1 & s1 & Hstep & Hrest).
    pose proof (face_step_result _ _ _ _ _ _ _ _ _ _ _ _ Hstep) as Hr.
    cbv zeta in Hr. destruct Hr as (Hother & _ & _ & Hthis).
    destruct (string_dec d (face_direction p m x)) as [->|Hne].
    + destruct (get_object_color obj (material_index x) default_color) as [c'|t].
      * eapply IH; [exact Hrest | exact Hthis].
      * destruct Hthis as (f & Hf & _). congruence.
    + eapply IH; [exact Hrest|]. rewrite Hother by assumption. exact Hd.
Qed.

(** X23: a direction that has been given a color cannot take a texture
    any more.  When, among the polygons of the loop, one that resolves to a
    color is followed by one of the same direction that resolves to an image
    texture, the loop over the polygons does not return: the item assignment
    on the color tuple raises [TypeError].  (In the opposite order the color
    replaces the textured face.) *)
Theorem color_then_texture_raises (obj : Object) (uv_layer : list vec2)
    (v_local : list vec3) (p m : option mat3) (eu : bool)
    (before between after : list MeshPolygon) (face1 face2 : MeshPolygon)
    (c : rgba) (t : TextureInfo) :
  get_object_color obj (material_index face1) default_color = Color c ->
  get_object_color obj (material_index face2) default_color = Texture t ->
  face_direction p m face1 = face_direction p m face2 ->
  (forall faces st r,
     foldM (face_step obj uv_layer v_local p m eu true)
           (before ++ face1 :: between ++ face2 :: after) faces st <> Ok r) /\
  (forall faces st,
     (exists f, dict_get String.eqb faces (face_direction p m face2) = Some (FaceOf f)) ->
     (eu = true ->
      exists r, face_uv uv_layer face2 v_local (transformed_normal p m face2)
                        (fst (size t)) (snd (size t)) = Ok r) ->
     exists faces' st',
       foldM (face_step obj uv_layer v_local p m eu true) [face2; face1] faces st
         = Ok (faces', st') /\
       dict_get String.eqb faces' (face_direction p m face1) = Some (FaceColor c)) /\
  (forall faces st c0,
     dict_get String.eqb faces (face_direction p m face2) = Some (FaceColor c0) ->
     face_step obj uv_layer v_local p m eu true faces face2 st = Raise TypeError).
Proof.
  intros Hc Ht Hd. split; [|split].
  - intros faces st [faces' st'] H.
    apply foldM_app_ok in H. destruct H as (faces1 & s1 & _ & H).
    cbn [foldM] in H. apply bind_ok in H. destruct H as (faces2 & s2 & Hstep1 & H).
    pose proof (face_step_result _ _ _ _ _ _ _ _ _ _ _ _ Hstep1) as Hr.
    cbv zeta in Hr. destruct Hr as (_ & _ & _ & Hthis). rewrite Hc in Hthis.
    apply foldM_app_ok in H. destruct H as (faces3 & s3 & Hbetween & H).
    destruct (faces_loop_color_at _ _ _ _ _ _ _ _ _ _ _ _ _ Hbetween Hthis) as (c' & Hc').
    cbn [foldM] in H. apply bind_ok in H. destruct H as (faces4 & s4 & Hstep2 & _).
    pose proof (face_step_result _ _ _ _ _ _ _ _ _ _ _ _ Hstep2) as Hr.
    cbv zeta in Hr. destruct Hr as (_ & _ & _ & Hthis2). rewrite Ht in Hthis2.
    destruct Hthis2 as (f & Hf & _). rewrite <- Hd in Hf. congruence.
  - intros faces st (f & Hf) Huv. cbn [foldM]. unfold bind at 1.
    unfold face_step at 1. rewrite Ht. unfold face_dict. rewrite Hf.
    unfold bind at 1. cbn [lift]. unfold bind at 1. cbn [set_model_texture].
    destruct eu.
    + destruct (Huv eq_refl) as ([uvs rot] & Euv). rewrite Euv.
      unfold bind at 1. cbn [lift ret]. unfold bind at 1.
      unfold face_step. rewrite Hc. unfold bind at 1.
      unfold add_model_color. cbn [model_colors model_textures].
      destruct (model_colors st); cbn [ret]; eexists _, _; (split; [reflexivity|]);
        rewrite Hd; apply (dict_get_set_same String.eqb string_eqb_spec).
    + cbn [ret]. unfold bind at 1.
      unfold face_step. rewrite Hc. unfold bind at 1.
      unfold add_model_color. cbn [model_colors model_textures].
      destruct (model_colors st); cbn [ret]; eexists _, _; (split; [reflexivity|]);
        rewrite Hd; apply (dict_get_set_same String.eqb string_eqb_spec).
  - intros faces st c0 Hf. unfold face_step. rewrite Ht. unfold face_dict. rewrite Hf.
    reflexivity.
Qed.

(** X23, witness: a red polygon and a textured polygon that both face up. *)
Lemma color_then_texture_raises_witness :
  face_step two_material_cube [] cube_vertices None None true true
    [("up"%string, FaceColor red)] textured_up empty_state = Raise TypeError.
Proof.
  assert (Hc : get_object_color two_material_cube (material_index red_up) default_color
               = Color red) by reflexivity.
  assert (Ht : get_object_color two_material_cube (material_index textured_up) default_color
               = Texture stone_texture) by reflexivity.
  assert (Hd : face_direction None None red_up = face_direction None None textured_up)
    by reflexivity.
  destruct (color_then_texture_raises two_material_cube [] cube_vertices None None true
              [] [] [] red_up textured_up red stone_texture Hc Ht Hd) as (_ & _ & H).
  apply (H _ _ red).
  assert (Hup : face_direction None None textured_up = "up"%string).
  { cbv [face_direction face_direction_index transformed_normal normal textured_up
         DIRECTION_NORMALS map vdot vx vy vz argmax argmax_from].
    decide_Rltb. reflexivity. }
  rewrite Hup. reflexivity.
Defined.

(** ** Objects of a bone as child elements *)

(** X25: how [generate_element] uses the bone hierarchy made by
    [get_bone_hierarchy].  For a bone of the armature that has objects, the
    element of the main object takes the name of the bone, and the objects
    handed to it as bone children are first the other objects parented to the
    bone, then the main objects of the child bones that have objects; an
    object of the bone that is not named like the main object keeps its name
    and gets no bone children. *)
Theorem bone_children_of_main (arm : Armature) (armature_children : list Object)
    (bone_hierarchy : list (string * BoneNode)) (b : string) (node : BoneNode)
    (bone : Bone) :
  get_bone_hierarchy armature_children = Ok bone_hierarchy ->
  dict_get String.eqb bone_hierarchy b = Some node ->
  dict_get String.eqb (bones arm) b = Some bone ->
  (exists siblings,
     bone_obj_children (main node) (Some arm) bone_hierarchy =
       Ok (b, siblings ++
              flat_map (fun child_bone_name =>
                          match dict_get String.eqb bone_hierarchy child_bone_name with
                          | Some n => [main n]
                          | None => []
                          end)
                       (bone_children bone)) /\
     Permutation (main node :: siblings) (objects_of_bone b armature_children)) /\
  (forall obj, In obj (objects_of_bone b armature_children) ->
     name obj <> name (main node) ->
     bone_obj_children obj (Some arm) bone_hierarchy = Ok (name obj, [])).
Proof.
  intros Hbh Hnode Hbone.
  destruct (bone_hierarchy_nodes armature_children) as (bh & Ebh & _ & Hkeys & Hnodes).
  rewrite Hbh in Ebh. inversion Ebh; subst bh.
  destruct (Hnodes b node Hnode) as (Hperm & Hmain & Hpb & _).
  assert (Hb : b <> ""%string).
  { apply (proj1 (Hkeys b)). unfold dict_keys. apply in_map_iff.
    exists (b, node). split; [reflexivity | apply dict_get_some_in; exact Hnode]. }
  split.
  - exists (tl (node_children node)). split.
    + unfold bone_obj_children. rewrite Hpb.
      destruct (String.eqb_spec b "") as [E|_]; [contradiction|]. cbn [negb andb].
      unfold dict_mem. rewrite Hnode, Hbone. rewrite String.eqb_refl.
      destruct (node_children node) as [|x [|y l]]; try reflexivity.
    + destruct (node_children node) as [|x l]; [discriminate|].
      simpl in Hmain. inversion Hmain; subst x. exact Hperm.
  - intros obj Hin Hname. unfold objects_of_bone in Hin. apply filter_In in Hin.
    destruct Hin as [_ Hpbo]. apply String.eqb_eq in Hpbo.
    unfold bone_obj_children. rewrite Hpbo.
    destruct (String.eqb_spec b "") as [E|_]; [contradiction|]. cbn [negb andb].
    unfold dict_mem. rewrite Hnode, Hbone.
    destruct (String.eqb_spec (name (main node)) (name obj)) as [E|_]; [congruence|].
    reflexivity.
Qed.

(** ** Material colors *)



(** X25, witness: an armature with the bone "arm" and one object, named
    like the bone. *)
Lemma bone_children_of_main_witness :
  exists siblings,
    bone_obj_children (bone_object "arm") (Some one_bone_armature)
      [("arm"%string, {| main := bone_object "arm"; node_children := [bone_object "arm"] |})]
    = Ok ("arm"%string, siblings).
Proof.
  destruct (bone_children_of_main one_bone_armature [bone_object "arm"]
              [("arm"%string,
                {| main := bone_object "arm"; node_children := [bone_object "arm"] |})]
              "arm"%string
              {| main := bone_object "arm"; node_children := [bone_object "arm"] |}
              {| head_local := vzero; parent_head_local := None; bone_children := [] |}
              eq_refl eq_refl eq_refl) as ((siblings & H & _) & _).
  eexists. exact H.
Defined.

(** ** The collections are only written *)

Lemma bind_intro {A B : Type} (c : M A) (k : A -> M B) (st st1 : export_state) (a : A)
    (r : result (B * export_state)) :
  c st = Ok (a, st1) -> k a st1 = r -> bind c k st = r.
Proof. intros Hc Hk. unfold bind. rewrite Hc. exact Hk. Qed.

Lemma foldM_any_state {A B : Type} (f : B -> A -> M B) (l : list A) :
  (forall acc x st acc' st',
     In x l -> f acc x st = Ok (acc', st') ->
     forall st2, exists st2', f acc x st2 = Ok (acc', st2')) ->
  forall acc st acc' st',
    foldM f l acc st = Ok (acc', st') ->
    forall st2, exists st2', foldM f l acc st2 = Ok (acc', st2').
Proof.
  induction l as [|x l IH]; intros Hf acc st acc' st' H st2.
  - apply ret_ok in H. destruct H as [-> _]. exists st2. reflexivity.
  - cbn [foldM] in H. apply bind_ok in H. destruct H as (a & s1 & Hx & Hrest).
    destruct (Hf _ _ _ _ _ (or_introl eq_refl) Hx st2) as (s2 & Hx2).
    destruct (IH (fun acc0 y s acc1 s' Hy => Hf acc0 y s acc1 s' (or_intror Hy))
                 _ _ _ _ Hrest s2) as (s3 & Hrest2).
    exists s3. cbn [foldM]. eapply bind_intro; eassumption.
Qed.

Lemma face_step_any_state (obj : Object) (uv_layer : list vec2) (v_local : list vec3)
    (p m : option mat3) (eu egt : bool)
    (faces faces' : list (string * FaceValue)) (face : MeshPolygon) (st st' : export_state) :
  face_step obj uv_layer v_local p m eu egt faces face st = Ok (faces', st') ->
  forall st2, exists st2',
    face_step obj uv_layer v_local p m eu egt faces face st2 = Ok (faces', st2').
Proof.
  unfold face_step. intros H st2.
  destruct (get_object_color obj (material_index face) default_color) as [c|t].
  - destruct egt.
    + apply bind_ok in H. destruct H as (u & s1 & _ & H).
      apply ret_ok in H. destruct H as [-> _].
      unfold bind, add_model_color, ret. destruct (model_colors st2); eexists; reflexivity.
    + apply ret_ok in H. destruct H as [-> _]. exists st2. reflexivity.
  - apply bind_ok in H. destruct H as (f & s1 & Hf & H).
    apply lift_ok in Hf. destruct Hf as [Hf ->].
    apply bind_ok in H. destruct H as (u & s2 & _ & H).
    destruct eu.
    + apply bind_ok in H. destruct H as ([uvs rot] & s3 & Huv & H).
      apply lift_ok in Huv. destruct Huv as [Huv ->].
      apply ret_ok in H. destruct H as [-> _].
      unfold bind, lift, set_model_texture, ret. rewrite Hf, Huv. eexists; reflexivity.
    + apply ret_ok in H. destruct H as [-> _].
      unfold bind, lift, set_model_texture, ret. rewrite Hf. eexists; reflexivity.
Qed.

Lemma child_step_any_state (attach : Object -> result (option AttachPoint))
    (generate : Object -> M (option Element))
    (acc acc' : list Element * list AttachPoint) (child : Object) (st st' : export_state) :
  (forall sa r sb, generate child sa = Ok (r, sb) ->
     forall sc, exists sd, generate child sc = Ok (r, sd)) ->
  child_step attach generate acc child st = Ok (acc', st') ->
  forall st2, exists st2', child_step attach generate acc child st2 = Ok (acc', st2').
Proof.
  destruct acc as [cs aps]. unfold child_step. intros Hgen H st2.
  destruct (type child =? "EMPTY")%string.
  - apply bind_ok in H. destruct H as (a & s1 & Ha & H).
    apply lift_ok in Ha. destruct Ha as [Ha ->].
    unfold bind, lift. rewrite Ha.
    destruct a; apply ret_ok in H; destruct H as [-> _]; eexists; reflexivity.
  - apply bind_ok in H. destruct H as (r & s1 & Hg & H).
    destruct (Hgen _ _ _ Hg st2) as (sd & Hg2).
    unfold bind. rewrite Hg2.
    destruct r; apply ret_ok in H; destruct H as [-> _]; eexists; reflexivity.
Qed.

Lemma bone_child_step_any_state (generate : Object -> M (option Element))
    (acc acc' : list Element) (child : Object) (st st' : export_state) :
  (forall sa r sb, generate child sa = Ok (r, sb) ->
     forall sc, exists sd, generate child sc = Ok (r, sd)) ->
  bone_child_step generate acc child st = Ok (acc', st') ->
  forall st2, exists st2', bone_child_step generate acc child st2 = Ok (acc', st2').
Proof.
  unfold bone_child_step. intros Hgen H st2.
  apply bind_ok in H. destruct H as (r & s1 & Hg & H).
  destruct (Hgen _ _ _ Hg st2) as (sd & Hg2).
  unfold bind. rewrite Hg2.
  destruct r; apply ret_ok in H; destruct H as [-> _]; eexists; reflexivity.
Qed.

Section WriteOnly.
Context {host : Mathutils}.

Lemma generate_element_any_state (fuel : nat) :
  forall obj parent armature bone_hierarchy pmw pco pro pr90 eu egt st r st',
    generate_element fuel obj parent armature bone_hierarchy pmw pco pro pr90 eu egt st
      = Ok (r, st') ->
    forall st2, exists st2',
      generate_element fuel obj parent armature bone_hierarchy pmw pco pro pr90 eu egt st2
        = Ok (r, st2').
Proof.
  induction fuel as [|fuel IH];
    intros obj parent armature bone_hierarchy pmw pco pro pr90 eu egt st r st' H st2;
    [discriminate|].
  cbn [generate_element] in *.
  destruct (data obj) as [mesh|];
    [|apply ret_ok in H; destruct H as [-> _]; exists st2; reflexivity].
  destruct (negb (List.length (mesh_vertices mesh) =? 8)%nat);
    [apply ret_ok in H; destruct H as [-> _]; exists st2; reflexivity|].
  apply bind_ok in H. destruct H as (geo & s1 & Hgeo & H).
  apply lift_ok in Hgeo. destruct Hgeo as [Hgeo ->].
  apply bind_ok in H. destruct H as (uv_layer & s2 & Huv & H).
  destruct (uv_layers_active mesh) as [d|] eqn:Hlayer; [|discriminate].
  apply ret_ok in Huv. destruct Huv as [-> ->].
  apply bind_ok in H. destruct H as (fs & s3 & Hfaces & H).
  apply bind_ok in H. destruct H as ([cs aps] & s4 & Hchildren & H).
  apply bind_ok in H. destruct H as ([obj_name cs'] & s5 & Hbones & H).
  apply bind_ok in H. destruct H as (collection & s6 & Hcoll & H).
  apply lift_ok in Hcoll. destruct Hcoll as [Hcoll ->].
  apply ret_ok in H. destruct H as [-> _].
  assert (Hfaces2 : exists t3,
            foldM (face_step obj d (geo_v_local geo) pr90 (geo_mat_rotate_90deg geo) eu egt)
                  (firstn 6 (polygons mesh)) initial_faces st2 = Ok (fs, t3)).
  { eapply foldM_any_state; [|exact Hfaces].
    intros acc x sa acc' sb _ Hs. eapply face_step_any_state. exact Hs. }
  destruct Hfaces2 as (t3 & Hfaces2).
  eapply (foldM_any_state _ _) in Hchildren.
  - destruct Hchildren as (t4 & Hchildren2).
    assert (Hbones2 : exists t5,
              match bone_hierarchy with
              | Some bh =>
                  let* (obj_name0, bone_obj_children0) :=
                    lift (bone_obj_children obj armature bh) in
                  let* children0 :=
                    foldM (bone_child_step
                             (fun child =>
                                generate_element fuel child (Some obj) armature
                                  bone_hierarchy (Some (geo_matrix_world geo))
                                  (geo_v_from geo) (geo_rotation_origin geo)
                                  (child_rotation_90deg (geo_mat_rotate_90deg geo) pr90)
                                  eu true))
                          bone_obj_children0 cs in
                  ret (obj_name0, children0)
              | None => ret (name obj, cs)
              end t4 = Ok ((obj_name, cs'), t5)).
    { destruct bone_hierarchy as [bh|].
      - apply bind_ok in Hbones. destruct Hbones as ([n bc] & s7 & Hbc & Hbones).
        apply lift_ok in Hbc. destruct Hbc as [Hbc ->].
        apply bind_ok in Hbones. destruct Hbones as (cs2 & s8 & Hbones & Hret).
        apply ret_ok in Hret. destruct Hret as [Hret _]. inversion Hret; subst.
        eapply (foldM_any_state _ _) in Hbones.
        + destruct Hbones as (t5 & Hbones2). exists t5.
          unfold bind at 1. unfold lift. rewrite Hbc.
          unfold bind at 1. rewrite Hbones2. reflexivity.
        + intros acc x sa acc' sb _ Hs. eapply bone_child_step_any_state; [|exact Hs].
          intros sc rc sd Hg. eapply IH. exact Hg.
      - apply ret_ok in Hbones. destruct Hbones as [Hret _]. inversion Hret; subst.
        exists t4. reflexivity. }
    destruct Hbones2 as (t5 & Hbones2).
    exists t5.
    eapply bind_intro; [unfold lift; rewrite Hgeo; reflexivity|].
    eapply bind_intro; [reflexivity|].
    eapply bind_intro; [exact Hfaces2|].
    eapply bind_intro; [exact Hchildren2|].
    eapply bind_intro; [exact Hbones2|].
    eapply bind_intro; [unfold lift; rewrite Hcoll; reflexivity|].
    reflexivity.
  - intros acc x sa acc' sb _ Hs. eapply child_step_any_state; [|exact Hs].
    intros sc rc sd Hg. eapply IH. exact Hg.
Qed.

(** X27: [generate_element] only writes to the shared collections: what
    it returns does not depend on the colors and textures that were
    registered before the call.  A call that returns from one state of the
    collections returns the same element from every other state. *)
Theorem generate_element_collections_write_only (fuel : nat) (obj : Object)
    (parent : option Object) (armature : option Armature)
    (bone_hierarchy : option (list (string * BoneNode)))
    (pmw : option mat4) (pco pro : vec3) (pr90 : option mat3) (eu egt : bool)
    (st st' : export_state) (r : option Element) :
  generate_element fuel obj parent armature bone_hierarchy pmw pco pro pr90 eu egt st
    = Ok (r, st') ->
  forall st2, exists st2',
    generate_element fuel obj parent armature bone_hierarchy pmw pco pro pr90 eu egt st2
      = Ok (r, st2') /\
    state_le st2 st2'.
Proof.
  intros H st2. destruct (generate_element_any_state _ _ _ _ _ _ _ _ _ _ _ _ _ _ H st2)
    as (st2' & H2).
  exists st2'. split; [exact H2|]. eapply generate_element_state_le. exact H2.
Qed.

End WriteOnly.

(** X27, witness: the textured cube, exported again when its texture is
    already registered and colors are not tracked. *)
Lemma generate_element_collections_write_only_witness :
  exists e st' st2',
    @generate_element unrotated_host 1 textured_cube None None None None vzero vzero None
      true true empty_state = Ok (Some e, st') /\
    @generate_element unrotated_host 1 textured_cube None None None None vzero vzero None
      true true {| model_colors := None; model_textures := two_textures |}
      = Ok (Some e, st2').
Proof.
  destruct textured_cube_run as (geo & fs & st' & H & _).
  destruct (generate_element_collections_write_only _ _ _ _ _ _ _ _ _ _ _ _ _ _ H
              {| model_colors := None; model_textures := two_textures |})
    as (st2' & H2 & _).
  eexists _, st', st2'. split; [exact H | exact H2].
Defined.

(** ** The tree of elements and the tree of objects *)

Section ElementTree.
Context {host : Mathutils}.

Lemma child_loop_names (attach : Object -> result (option AttachPoint))
    (generate : Object -> M (option Element)) (l : list Object) :
  (forall child st e st', generate child st = Ok (Some e, st') ->
     is_cuboid child = true /\ element_name e = name child) ->
  (forall child st st', generate child st = Ok (None, st') -> is_cuboid child = false) ->
  forall acc st acc' st',
    foldM (child_step attach generate) l acc st = Ok (acc', st') ->
    map element_name (fst acc') =
    map element_name (fst acc) ++
    map name (filter (fun child => negb (type child =? "EMPTY")%string && is_cuboid child) l).
Proof.
  intros Hsome Hnone. induction l as [|child l IH]; intros acc st acc' st' H.
  - apply ret_ok in H. destruct H as [-> _]. simpl. rewrite app_nil_r. reflexivity.
  - cbn [foldM] in H. apply bind_ok in H. destruct H as (acc1 & s1 & Hstep & Hrest).
    rewrite (IH _ _ _ _ Hrest). apply child_step_state in Hstep. cbn [filter].
    destruct Hstep as [(Ht & _ & Hf & _)|(Ht & _ & r & Hg & Hf)]; rewrite Ht, Hf;
      cbn [negb andb]; [reflexivity|].
    destruct r as [e|].
    + destruct (Hsome _ _ _ _ Hg) as [Hc Hn]. rewrite Hc, map_app. cbn [map].
      rewrite Hn, <- app_assoc. reflexivity.
    + rewrite (Hnone _ _ _ Hg). reflexivity.
Qed.

(** X28: the tree of elements mirrors the tree of objects.  The element
    of an object first has one child element for each child of the object
    that is not of type "EMPTY" and is a mesh of eight vertices, in the order
    of the children and named like them; children that are not such meshes
    are left out without an error.  Child elements for the objects of a bone
    follow, and only when a bone hierarchy is given.  The element itself is
    named like the object, or like the bone of the object. *)
Theorem element_children_mirror_objects (fuel : nat) (obj : Object)
    (parent : option Object) (armature : option Armature)
    (bone_hierarchy : option (list (string * BoneNode)))
    (pmw : option mat4) (pco pro : vec3) (pr90 : option mat3) (eu egt : bool)
    (st st' : export_state) (e : Element) :
  generate_element fuel obj parent armature bone_hierarchy pmw pco pro pr90 eu egt st
    = Ok (Some e, st') ->
  is_cuboid obj = true /\
  (element_name e = name obj \/ element_name e = parent_bone obj) /\
  (bone_hierarchy = None -> element_name e = name obj) /\
  exists direct bone_elements,
    element_children e = direct ++ bone_elements /\
    map element_name direct =
      map name (filter (fun child => negb (type child =? "EMPTY")%string
                                     && is_cuboid child) (children obj)) /\
    (bone_hierarchy = None -> bone_elements = []).
Proof.
  intros H. apply generate_element_steps in H.
  destruct H as (fuel' & mesh & geo & uv_layer & fs & s1 & cs & aps & s2 & obj_name & cs'
                 & collection & _ & Hdata & Hlen & _ & _ & _ & Hchildren & Hbones & _ & ->).
  cbn [build_element element_name element_children].
  split; [unfold is_cuboid; rewrite Hdata; apply Nat.eqb_eq; exact Hlen|].
  apply child_loop_names in Hchildren.
  - cbn [fst map app] in Hchildren.
    destruct bone_hierarchy as [bh|].
    + destruct Hbones as (bone_objs & Hbc & Hb).
      assert (Hname : obj_name = name obj \/ obj_name = parent_bone obj).
      { unfold bone_obj_children in Hbc.
        destruct (negb (parent_bone obj =? "")%string
                  && dict_mem String.eqb bh (parent_bone obj));
          [|inversion Hbc; auto].
        destruct armature as [arm|]; [|discriminate].
        destruct (dict_get String.eqb (bones arm) (parent_bone obj));
          [|inversion Hbc; auto].
        destruct (dict_get String.eqb bh (parent_bone obj)) as [node|];
          [|inversion Hbc; auto].
        destruct (name (main node) =? name obj)%string; inversion Hbc; auto. }
      split; [exact Hname|]. split; [discriminate|].
      assert (Hext : exists bone_elements, cs' = cs ++ bone_elements).
      { apply (foldM_invariant _ (fun acc => exists l, acc = cs ++ l)) in Hb.
        - exact Hb.
        - intros acc x sa acc' sb (l & ->) Hstep. apply bone_child_step_state in Hstep.
          destruct Hstep as (r & _ & ->).
          destruct r as [ce|]; [exists (l ++ [ce]); rewrite app_assoc; reflexivity|].
          exists l. reflexivity.
        - exists []. rewrite app_nil_r. reflexivity. }
      destruct Hext as (bone_elements & ->).
      exists cs, bone_elements. split; [reflexivity|]. split; [exact Hchildren|].
      discriminate.
    + destruct Hbones as (-> & -> & _).
      split; [left; reflexivity|]. split; [reflexivity|].
      exists cs, []. rewrite app_nil_r. auto.
  - intros child sa ce sb Hg. apply generate_element_steps in Hg.
    destruct Hg as (f' & cmesh & cgeo & cuv & cfs & t1 & ccs & caps & t2 & cname & ccs'
                    & ccoll & _ & Hcd & Hcl & _ & _ & _ & _ & Hcb & _ & ->).
    destruct Hcb as (-> & _ & _).
    split; [unfold is_cuboid; rewrite Hcd; apply Nat.eqb_eq; exact Hcl | reflexivity].
  - intros child sa sb Hg. apply generate_element_none in Hg.
    destruct Hg as [_ [Hd|(cmesh & Hd & Hn)]]; unfold is_cuboid; rewrite Hd;
      [reflexivity | apply Nat.eqb_neq; exact Hn].
Qed.

End ElementTree.

(** X28, witness: the parent cube has one child element, named "Child". *)
Lemma element_children_mirror_objects_witness :
  exists e st',
    @generate_element unrotated_host 2 parent_cube None None None None vzero vzero None
      true true empty_state = Ok (Some e, st') /\
    map element_name (element_children e) = ["Child"%string].
Proof.
  destruct parent_cube_run as (e & c & st' & H & _).
  exists e, st'. split; [exact H|].
  destruct (element_children_mirror_objects _ _ _ _ _ _ _ _ _ _ _ _ _ _ H)
    as (_ & _ & _ & direct & bone_elements & Hc & Hd & Hb).
  rewrite Hc, (Hb eq_refl), app_nil_r, Hd. reflexivity.
Defined.

(** ** The passes of [save_objects] *)

Section SaveObjectsFacts.
Context {host : Mathutils}.

Lemma geometry_pass_registered (fuel : nat) (armature : option Armature)
    (bone_hierarchy : option (list (string * BoneNode))) (eu : bool)
    (objs : list Object) (st0 final : export_state) (roots : list Element) :
  geometry_pass fuel armature bone_hierarchy eu objs st0 = Ok (roots, final) ->
  state_le st0 final /\ Forall (tree_registered final) roots.
Proof.
  unfold geometry_pass. intros H.
  apply (foldM_state_invariant _
           (fun acc s => state_le st0 s /\ Forall (tree_registered s) acc)) in H.
  - exact H.
  - intros acc x sa acc' sb _ [Hle Hacc] Hstep.
    apply bind_ok in Hstep. destruct Hstep as (r & s1 & Hg & Hret).
    pose proof (generate_element_state_le _ _ _ _ _ _ _ _ _ _ _ _ _ _ Hg) as Hle'.
    assert (Hacc' : acc' = match r with Some e => acc ++ [e] | None => acc end /\ sb = s1).
    { destruct r; apply ret_ok in Hret; destruct Hret; auto. }
    destruct Hacc' as [-> ->].
    split; [eapply state_le_trans; eassumption|].
    apply (trees_registered_snoc sa); [assumption | assumption|].
    intros e ->. eapply generate_element_registered. exact Hg.
  - split; [apply state_le_refl | constructor].
Qed.

Lemma geometry_pass_single (fuel : nat) (armature : option Armature)
    (bone_hierarchy : option (list (string * BoneNode))) (eu : bool)
    (obj : Object) (st st' : export_state) (e : Element) :
  generate_element fuel obj None armature bone_hierarchy None vzero vzero None eu true st
    = Ok (Some e, st') ->
  geometry_pass fuel armature bone_hierarchy eu [obj] st = Ok ([e], st').
Proof.
  intros H. unfold geometry_pass. cbn [foldM].
  eapply bind_intro; [eapply bind_intro; [exact H | reflexivity] | reflexivity].
Qed.


(** X30: [save_objects] with [use_only_exported_object_colors].  When the
    geometry pass returns from a tracked set of colors, the set is still
    tracked and holds each color once, the colors of the generated texture
    are this set whatever the materials of the file are, and every face of
    the exported trees that is a color tuple has its color in the set: the
    uv map of the generated texture sends it to the tile at the position of
    the color, so that no such face is painted from the default tile. *)
Theorem tracked_colors_get_own_tile (fuel : nat) (armature : option Armature)
    (bone_hierarchy : option (list (string * BoneNode))) (eu : bool)
    (objs : list Object) (st0 final : export_state) (roots : list Element)
    (colors0 : list rgba) :
  geometry_pass fuel armature bone_hierarchy eu objs st0 = Ok (roots, final) ->
  model_colors st0 = Some colors0 ->
  NoDup colors0 ->
  exists colors,
    model_colors final = Some colors /\ NoDup colors /\ incl colors0 colors /\
    (forall materials, texture_colors (model_colors final) materials = colors) /\
    forall r y d c, In r roots -> In y (elements r) -> In (d, FaceColor c) (faces y) ->
      exists i,
        nth_error colors i = Some c /\
        let '(tex_size, color_tex_uv_map, default_color_uv) :=
          create_color_texture colors 16 in
        dict_get rgba_eqb color_tex_uv_map c =
          Some (tile_uv (color_grid_size (List.length colors)) tex_size (Z.of_nat i)) /\
        uv_disjoint (tile_uv (color_grid_size (List.length colors)) tex_size (Z.of_nat i))
                    default_color_uv.
Proof.
  intros H Hc0 Hnd0.
  apply geometry_pass_registered in H. destruct H as [(Hcol & _ & _) Hroots].
  rewrite Hc0 in Hcol. destruct (model_colors final) as [colors|] eqn:Hc; [|contradiction].
  destruct Hcol as [Hincl Hnd]. specialize (Hnd Hnd0).
  exists colors. split; [reflexivity|]. split; [exact Hnd|]. split; [exact Hincl|].
  split; [reflexivity|].
  intros r y d c Hr Hy Hf.
  rewrite Forall_forall in Hroots. specialize (Hroots r Hr).
  unfold tree_registered in Hroots. rewrite Forall_forall in Hroots.
  specialize (Hroots y Hy). rewrite Forall_forall in Hroots.
  specialize (Hroots (d, FaceColor c) Hf). cbn [snd face_registered] in Hroots.
  rewrite Hc in Hroots. apply In_nth_error in Hroots. destruct Hroots as [i Hi].
  exists i. split; [exact Hi|].
  unfold create_color_texture. cbv beta iota zeta.
  pose proof (color_grid_size_bounds (List.length colors)) as Hg. cbn zeta in Hg.
  destruct Hg as (Hg1 & _ & _).
  set (g := color_grid_size (List.length colors)) in *.
  set (s := texture_size 16 g).
  assert (Hs : (0 < s)%Z).
  { unfold s. rewrite texture_size_log2_up by assumption.
    assert (H3g : (1 < 3 * g)%Z) by lia.
    pose proof (Z.log2_up_spec _ H3g) as [_ Hhi]. lia. }
  split.
  - apply (atlas_fold_lookup (tile_uv g s)).
    + rewrite enumerate_snd. exact Hnd.
    + apply enumerate_nth. exact Hi.
  - apply tile_uv_disjoint; [lia | exact Hs|].
    assert (i < List.length colors)%nat by (apply nth_error_Some; congruence). lia.
Qed.

End SaveObjectsFacts.


(** X30, witness: the export of the cube without material, whose faces
    take the default color. *)
Lemma tracked_colors_get_own_tile_witness :
  exists roots final colors,
    @geometry_pass unrotated_host 1 None None true [plain_cube] empty_state
      = Ok (roots, final) /\
    model_colors final = Some colors /\ NoDup colors.
Proof.
  destruct (cube_leaf_run "Cube" vzero [] None None vzero vzero true true empty_state)
    as (geo & fs & st' & H & _).
  { apply faces_loop_colors. intros face _. apply no_slot_colors. }
  apply (@geometry_pass_single unrotated_host) in H.
  destruct (tracked_colors_get_own_tile _ _ _ _ _ _ _ _ [] H eq_refl (NoDup_nil rgba))
    as (colors & Hc & Hnd & _).
  eexists _, st', colors. split; [exact H|]. split; [exact Hc | exact Hnd].
Defined.
